(* ===== verification/_CoqProject ===== *)
-Q . S2P
Prelude.v
RustStr.v
Cbor.v
Frame.v
Crypto.v
Record.v
Fs.v
E2E.v
Media.v
Connection.v
ConnIds.v
ConnFlow.v
ConnClose.v
Outbox.v
Codec.v
Types.v
Endpoint.v
Ops.v
Json.v
Account.v
Messenger.v
MessengerProofs.v
Program.v
Client.v
Api.v
ClientProofs.v
AccountProofs.v
Connect.v
ApiProofs.v
Transfer.v
TransferProofs.v
TransferRoundtrip.v
M5oh.v
M5ohProofs.v
WebCore.v
Web.v
WebMedia.v
WebApi.v
WebProofs.v
WebMediaProofs.v
Ffi.v
FfiProofs.v
Float64.v
Image.v
ImageScale.v
ImageProofs.v
Jni.v
JniApi.v
JniTransfer.v
JniMedia.v
JniBatch.v
JniProofs.v
JniWatch.v
JniCalls.v
JniBatchProofs.v
JniIdentity.v
JniFixture.v
