(* ===== verification/Prelude.v ===== *)
(** * mst5-client: a verification library for the MST5 protocol client

    ** The program

    The repository is the client of the MST5 messenger protocol.  A [Client]
    (src/src/lib.rs) speaks CBOR requests in MST5 frames over an encrypted record
    layer with a Noise NK handshake.  Its connection (src/src/connection.rs) is
    shared by many requests and streams; the account reactor (src/src/account.rs)
    keeps one authenticated client alive and retries; the messenger core
    (src/src/messenger.rs) turns JSON commands into requests; the outbox
    (src/src/outbox.rs) stores what has to be sent again; src/src/e2e.rs encrypts
    messages and media end to end; src/src/m5oh.rs tunnels the byte stream through
    HTTP; src/src/image.rs scales and converts pictures.  Three bindings sit on top:
    src/wasm (a browser client with an implementation of the protocol of its own, since
    a page has no TCP), src/ffi (C) and src/android-jni (Java).

    ** Files

    Prelude and RustStr hold what the components share: results and [io::Error],
    machine integers as [Z] with their wrap-around and checked operations, byte lists,
    big-endian codecs, the parts of [str] the code uses, tactics and hint databases.

    - Cbor, Frame: [Value], the CBOR codec and [Frame] (lib.rs).
    - Crypto: the interface to the cryptographic crates, [Crypto] and [CryptoLaws].
    - Record: [CipherState], [SymmetricState], [Session], the handshake and the
      record routines (lib.rs, connection.rs).
    - Fs, E2E, Media: the file system, [Identity] with envelopes, groups, backups and
      the identity store, and the media container (e2e.rs).
    - Connection, ConnIds, ConnFlow, ConnClose: [Mst5Connection] as a transition system
      of its tasks (connection.rs), one step per piece of code between two awaits: what
      a task holds across an await (the sender the reader took from the table, the
      senders [fail_pending] has still to tell, a control frame waiting for its answer)
      is part of the state.  Then its invariants in every interleaving: request ids,
      routing and permits, closing.
    - Outbox: the queue and its retry policy (outbox.rs).
    - Codec, Types, Endpoint, Ops: base64, queries, responses and typed results,
      endpoint parsing, GET targets, operation codes (lib.rs, m5oh.rs).
    - Json, Account, Messenger, MessengerProofs: JSON at the messenger boundary,
      [AccountClient] as a transition system, [MessengerCore] and [SessionStorage]
      (account.rs, messenger.rs).
    - Program, Client, Api, ClientProofs, AccountProofs, Connect, ApiProofs: the methods
      of [Client] as programs over an environment, the account reactor on top of its
      requests, and the way from an endpoint string to a negotiated session (lib.rs,
      account.rs).
    - Transfer, TransferProofs, TransferRoundtrip: media transfers (lib.rs).
    - M5oh, M5ohProofs: the HTTP client and the bridge (m5oh.rs).
    - WebCore, Web, WebMedia, WebApi, WebProofs, WebMediaProofs: the browser client
      (wasm/src/lib.rs): protocol code, sessions, media streams, the JavaScript
      classes, and the theorems that relate it to the native client and to a node.
    - Ffi, FfiProofs: the C interface (ffi/src/lib.rs).
    - Float64, Image, ImageScale, ImageProofs: [f64] arithmetic, and the limits, sizes
      and pixel formats of pictures (image.rs).
    - Jni, JniApi, JniTransfer, JniMedia, JniBatch: the Java interface
      (android-jni/src/lib.rs): registries and messenger; pictures, identities and the
      crash handler; progress and cancellation; transfers and voice; batch uploads.
    - JniProofs, JniWatch, JniCalls, JniBatchProofs, JniIdentity, JniFixture: its
      theorems, and concrete calls.

    Definitions keep the names of the source.  A method with [&mut self] or a shared
    object is state passing; tasks that share state are transition systems whose
    theorems hold for all runs; sequential code that waits for its environment is a
    [prog] run in an arbitrary [World], or, in the browser, a [web] computation on the
    answers a [Browser] still has.  Errors are values: [io A], [js A], [outcome A].
    Executable definitions have witnesses that evaluate them.

    ** What the theorems show

    - Transport: frames written are the frames read, in order, across rekeying; both
      ends of a handshake agree; no two records are sealed with the same
      nonce under the same generation of the key; a record that was accepted is refused
      from then on, unless a later key of the ratchet opened it too; the in-place sealer is the plain one; a connection is established
      end to end.
    - Connection and account: ids reach the wire in order; what a channel gets are the
      frames the reader took for its request, in the order they came, and the errors of
      a failure; the in-flight bound holds; a closed connection stays closed,
      allocates no id, and tells the requests in its table.  A request that is
      past the check when the connection fails can miss the failure
      ([request_misses_failure]), and a frame can follow the error
      ([frame_after_failure]).  One connection attempt at a time, no deadlock; retries
      repeat the operation, payload, kind and nonce of the request, with an id of
      their own and, when the caller gave no deadline, a deadline computed again; a
      closed account sends at most the attempts already being prepared, and a request
      that comes to its loop then returns the closed error.
    - Requests: each request carries the nonce the caller gave or a fresh one, the
      deadline given or computed from the clock, and is refused as documented.
    - Data: CBOR and JSON round trips, decoded values are well formed, every API
      method keeps the protocol, a login changes the principal as specified.
    - Media: transfers end, uploads declare what they sent, downloads verify what they
      wrote, an encrypted upload followed by a download returns the file.
    - M5oH: whatever connections fail and however its tasks are scheduled, the bridge
      delivers each direction once, in order and without gaps.
    - Storage: identity and outbox files are replaced atomically or kept.
    - Browser: its handshake, records, commands and URLs are those of the native
      client; a file written to an encrypted upload in any pieces arrives as its
      container, header included, as long as the session stays within one key.  It never
      replaces a key and it loses a sequence number when a frame is too large; both end a session, and both are theorems.
    - C interface: handles are never reused, and messages cross it unchanged.
    - Pictures: a decoded picture has the target size, within the side limit; the pixel
      limit can be exceeded by rounding, and by a side that cannot shrink below one
      pixel.
    - Java interface: progress reports, polling and cancellation do not change what a
      transfer does, a cancelled one stops where it is, and reports keep their distance;
      a download is returned only when it is verified, in memory only within the limit;
      a batch that succeeds uploaded every item, three at a time and without deadlock,
      also when tasks panic; calls cross the buffers unchanged, and so does a picture, as
      loaded or as the resizing crate returned it; sessions survive a restart, and an
      identity the way to another phone.

    ** Bounds and fuel

    The CBOR decoder has 65 levels of fuel, one more than the depth it refuses;
    [push_loop] has the length of its input; [chunks_of] and [pieces] the length of the
    data; transfers have the bytes left plus two, and the theorems show that this is
    enough for every environment; M5oH schedules are finite lists of any length; the
    polls of the browser have the number of answers still to come, its frame reader
    the bytes it can still receive, its downloads the announced size plus two.  Numbers
    in [f64] are the standard library's [spec_float] with 53 bits and exponents up to
    1024.  An observer of a transfer is the finite list of its answers, after which it
    agrees to everything; a batch has a schedule of any length.

    ** Interfaces

    [Crypto]/[CryptoLaws], [Compressor], [Decompressors]/[ZstdLaws], [JsonNumber],
    [SerdeJson] with their laws, [WebLibs]/[WebLibsLaws] (base64, serde_cbor, flate2),
    [JsBridge] (serde_wasm_bindgen), and [ImageCrates]/[ImageLaws] (image, exif, webp)
    stand for crates outside the repository; each
    class of laws states documented behaviour and has an instance.  Opening a socket,
    the clock, random bytes and timers are arguments or part of the environment.

    ** Not modelled

    TCP, TLS and task scheduling themselves; the CANCEL frame that dropping a request
    sends is part of the connection model, not of [prog].  A write that fails leaves any
    prefix of its bytes.  When a task of the M5oH bridge returns, the other one is
    aborted between two of its turns.  [usize] has 64 bits where the CBOR decoder
    converts a length.  In the browser, a call that
    overlaps another call of the same object; in the C interface, calls from several
    threads at once (each access to a registry is atomic there) and invalid pointers; in
    the Java interface, overlapping calls, what the JVM does with the values it gets, a
    [throw_new] that fails, and the closing of a connection in the background when connecting is cancelled.  Polls
    of one task of a batch are not interrupted by another task.  The src/e2e-core crate
    re-exports e2e.rs; build scripts and examples have no logic of their own. *)
From Stdlib Require Export ZArith Lia.
From Stdlib Require Import Ascii String.
From stdpp Require Export base list gmap option.
Open Scope Z_scope.

(** ** Results and [io::Error]

    [io::Result<T>] is [io T].  An error keeps its [io::ErrorKind] and its
    message; messages are UTF-8 byte strings like every Rust [String] of the
    model. *)
Inductive error_kind :=
| InvalidInput | InvalidData | UnexpectedEof | PermissionDenied | NotFound
| TimedOut | AlreadyExists | BrokenPipe | ConnectionReset | ConnectionAborted
| Unsupported | Interrupted | OtherKind.

#[export] Instance error_kind_eq_dec : EqDecision error_kind.
Proof. solve_decision. Defined.

Record io_error := IoError { ekind : error_kind; emsg : list Z }.

#[export] Instance io_error_eq_dec : EqDecision io_error.
Proof. solve_decision. Defined.

Inductive result (E A : Type) :=
| Ok (a : A)
| Err (e : E).
Arguments Ok {E A} a.
Arguments Err {E A} e.

Abbreviation io := (result io_error).

#[export] Instance result_eq_dec {E A} `{EqDecision E, EqDecision A} : EqDecision (result E A).
Proof. solve_decision. Defined.

Declare Scope rust_scope.
Delimit Scope rust_scope with rust.
Open Scope rust_scope.

(** The [?] operator: the error of [m] is returned as it is. *)
Notation "'let?' x := m 'in' k" :=
  (match m with Ok x => k | Err err => Err err end)
  (at level 10, x pattern, k at level 200) : rust_scope.

(** A guard clause: [if c { return Err(e) }]. *)
Notation "'fail_if' c 'with' e ; k" :=
  (if c then Err e else k)
  (at level 10, c at level 100, e at level 100, k at level 200) : rust_scope.

Definition is_ok {E A} (r : result E A) : bool :=
  match r with Ok _ => true | Err _ => false end.

Definition ok_or {E A} (o : option A) (e : E) : result E A :=
  match o with Some a => Ok a | None => Err e end.

Definition result_map {E A B} (f : A → B) (r : result E A) : result E B :=
  match r with Ok a => Ok (f a) | Err e => Err e end.

Definition map_err {E E' A} (f : E → E') (r : result E A) : result E' A :=
  match r with Ok a => Ok a | Err e => Err (f e) end.

(** ** String literals

    A Rust string is the list of its UTF-8 bytes. *)
Fixpoint lit (s : string) : list Z :=
  match s with
  | EmptyString => []
  | String a s' => Z.of_N (N_of_ascii a) :: lit s'
  end.
Arguments lit _%_string_scope.
Export String.StringSyntax.
Bind Scope string_scope with string.

Definition invalid_input (m : list Z) : io_error := IoError InvalidInput m.
Definition invalid_data (m : list Z) : io_error := IoError InvalidData m.

(** ** Machine integers *)
Definition u8_max : Z := 255.
Definition u16_max : Z := 65535.
Definition u32_max : Z := 4294967295.
Definition u64_max : Z := 18446744073709551615.
Definition i64_max : Z := 9223372036854775807.
Definition i64_min : Z := -9223372036854775808.

Definition is_u8 (z : Z) : Prop := 0 ≤ z ≤ u8_max.
Definition is_u16 (z : Z) : Prop := 0 ≤ z ≤ u16_max.
Definition is_u32 (z : Z) : Prop := 0 ≤ z ≤ u32_max.
Definition is_u64 (z : Z) : Prop := 0 ≤ z ≤ u64_max.
Definition is_i64 (z : Z) : Prop := i64_min ≤ z ≤ i64_max.

(** [as u8], [as u16], ...: truncation to the low bits. *)
Definition as_u8 (z : Z) : Z := z mod 256.
Definition as_u16 (z : Z) : Z := z mod 65536.
Definition as_u32 (z : Z) : Z := z mod 4294967296.
Definition as_u64 (z : Z) : Z := z mod 18446744073709551616.

Definition checked_add64 (a b : Z) : option Z :=
  if a + b <=? u64_max then Some (a + b) else None.
Definition checked_mul64 (a b : Z) : option Z :=
  if a * b <=? u64_max then Some (a * b) else None.
Definition saturating_add64 (a b : Z) : Z := Z.min (a + b) u64_max.
Definition saturating_mul64 (a b : Z) : Z := Z.min (a * b) u64_max.
Definition saturating_sub64 (a b : Z) : Z := Z.max (a - b) 0.
Definition saturating_add32 (a b : Z) : Z := Z.min (a + b) u32_max.
Definition saturating_sub32 (a b : Z) : Z := Z.max (a - b) 0.
Definition div_ceil (a b : Z) : Z := (a + b - 1) / b.
Definition clamp (lo hi x : Z) : Z := Z.max lo (Z.min hi x).

(** ** Byte strings *)
Definition is_bytes (l : list Z) : Prop := Forall is_u8 l.

#[export] Instance is_u8_dec z : Decision (is_u8 z).
Proof. unfold is_u8. apply _. Defined.
#[export] Instance is_bytes_dec l : Decision (is_bytes l).
Proof. unfold is_bytes. apply _. Defined.

Definition len {A} (l : list A) : Z := Z.of_nat (length l).

(** [&l[a..b]], for constant bounds. *)
Definition slice {A} (a b : nat) (l : list A) : list A := take (b - a) (drop a l).

(** [b"..."] comparisons. *)
Definition beq (a b : list Z) : bool := bool_decide (a = b).

Definition is_empty {A} (l : list A) : bool :=
  match l with [] => true | _ => false end.

(** [n] big-endian bytes of [z]; the value of a big-endian byte string. *)
Fixpoint be_bytes (n : nat) (z : Z) : list Z :=
  match n with
  | O => []
  | S n' => (z / 256 ^ Z.of_nat n') mod 256 :: be_bytes n' z
  end.

Fixpoint from_be (l : list Z) : Z :=
  match l with
  | [] => 0
  | b :: t => b * 256 ^ len t + from_be t
  end.

Definition le_bytes (n : nat) (z : Z) : list Z := reverse (be_bytes n z).

(** [for _ in 0..n { out.push(step()?) }] over a threaded state. *)
Fixpoint times {E S A} (n : nat) (step : S → result E (A * S)) (s : S)
  : result E (list A * S) :=
  match n with
  | O => Ok ([], s)
  | Datatypes.S n' =>
      let? (a, s1) := step s in
      let? (l, s2) := times n' step s1 in
      Ok (a :: l, s2)
  end.

(** [iter.map(f).collect::<Result<Vec<_>, _>>()]. *)
Fixpoint map_result {E A B} (f : A → result E B) (l : list A) : result E (list B) :=
  match l with
  | [] => Ok []
  | a :: t => let? b := f a in let? bs := map_result f t in Ok (b :: bs)
  end.

(** ** Automation *)
Lemma Ok_inj {E A} (a b : A) : @Ok E A a = Ok b → a = b.
Proof. congruence. Qed.
Lemma Some_inj' {A} (a b : A) : Some a = Some b → a = b.
Proof. congruence. Qed.

Create HintDb mst5.

(** Split every bind, guard and [match] of a hypothesis, dropping the branches
    whose result contradicts it. *)
Ltac inv_ok H :=
  repeat match type of H with
  | Ok _ = Ok _ => apply Ok_inj in H
  | (_, _) = (_, _) => apply pair_equal_spec in H; destruct H as [? H]
  | Err _ = Ok _ => discriminate H
  | Ok _ = Err _ => discriminate H
  | Some _ = Some _ => apply Some_inj' in H
  | None = Some _ => discriminate H
  | (if ?c then _ else _) = _ => destruct c eqn:?
  | (match ?m with _ => _ end) = _ => destruct m eqn:?
  end; try discriminate;
  repeat match goal with
  | E : (_, _) = (_, _) |- _ => apply pair_equal_spec in E; destruct E
  end; subst; try discriminate.

(** Turn the boolean tests of the context into propositions. *)
Ltac to_prop :=
  repeat match goal with
  | H : _ && _ = true |- _ => apply andb_prop in H; destruct H
  | H : _ || _ = false |- _ => apply orb_false_elim in H; destruct H
  | H : negb _ = true |- _ => apply negb_true_iff in H
  | H : negb _ = false |- _ => apply negb_false_iff in H
  | H : bool_decide _ = true |- _ => apply bool_decide_eq_true in H
  | H : bool_decide _ = false |- _ => apply bool_decide_eq_false in H
  | H : beq _ _ = true |- _ => unfold beq in H
  | H : beq _ _ = false |- _ => unfold beq in H
  end.

(** Unfold the machine-integer ranges everywhere. *)
Ltac widths :=
  unfold is_u8, is_u16, is_u32, is_u64, is_i64, u8_max, u16_max, u32_max, u64_max,
    i64_max, i64_min in *.

(** [lia] with division and remainder by constants. *)
Ltac div_lia := Z.to_euclidean_division_equations; lia.

(** Rewrite the boolean tests of the goal to the values arithmetic gives them. *)
Ltac zbool :=
  repeat match goal with
  | |- context [?a <? ?b] =>
      first [rewrite (proj2 (Z.ltb_lt a b)) by lia | rewrite (proj2 (Z.ltb_ge a b)) by lia]
  | |- context [?a <=? ?b] =>
      first [rewrite (proj2 (Z.leb_le a b)) by lia | rewrite (proj2 (Z.leb_gt a b)) by lia]
  | |- context [?a =? ?b] =>
      first [rewrite (proj2 (Z.eqb_eq a b)) by lia | rewrite (proj2 (Z.eqb_neq a b)) by lia]
  end.

(** A closed decidable proposition, by evaluation. *)
Ltac by_vm := apply (bool_decide_unpack _); vm_compute; exact I.

(** ** Shared lemmas *)

Lemma len_nonneg {A} (l : list A) : 0 ≤ len l.
Proof. unfold len. lia. Qed.
#[export] Hint Resolve len_nonneg : mst5.

Lemma len_app {A} (l k : list A) : len (l ++ k) = len l + len k.
Proof. unfold len. rewrite length_app. lia. Qed.

Lemma len_cons {A} (a : A) l : len (a :: l) = 1 + len l.
Proof. unfold len. simpl. lia. Qed.

Lemma len_nil {A} : len (@nil A) = 0.
Proof. reflexivity. Qed.

Lemma len_replicate {A} n (a : A) : len (replicate n a) = Z.of_nat n.
Proof. unfold len. by rewrite length_replicate. Qed.

Lemma as_u8_small z : is_u8 z → as_u8 z = z.
Proof. unfold is_u8, u8_max, as_u8. intros. apply Z.mod_small. lia. Qed.
Lemma as_u16_small z : is_u16 z → as_u16 z = z.
Proof. unfold is_u16, u16_max, as_u16. intros. apply Z.mod_small. lia. Qed.
Lemma as_u32_small z : is_u32 z → as_u32 z = z.
Proof. unfold is_u32, u32_max, as_u32. intros. apply Z.mod_small. lia. Qed.
Lemma as_u64_small z : is_u64 z → as_u64 z = z.
Proof. unfold is_u64, u64_max, as_u64. intros. apply Z.mod_small. lia. Qed.

Lemma checked_add64_some a b c : checked_add64 a b = Some c ↔ c = a + b ∧ a + b ≤ u64_max.
Proof.
  unfold checked_add64. destruct (Z.leb_spec (a + b) u64_max);
    (split; [intros; simplify_eq; auto|intros [-> ?]; done || lia]).
Qed.
Lemma checked_mul64_some a b c : checked_mul64 a b = Some c ↔ c = a * b ∧ a * b ≤ u64_max.
Proof.
  unfold checked_mul64. destruct (Z.leb_spec (a * b) u64_max);
    (split; [intros; simplify_eq; auto|intros [-> ?]; done || lia]).
Qed.

Lemma length_be_bytes n z : length (be_bytes n z) = n.
Proof. induction n; simpl; lia. Qed.

Lemma len_be_bytes n z : len (be_bytes n z) = Z.of_nat n.
Proof. unfold len. by rewrite length_be_bytes. Qed.

Create Rewrite HintDb len.
#[export] Hint Rewrite @len_app @len_cons @len_nil @len_replicate len_be_bytes : len.

(** Normalise lengths in the goal, then decide. *)
Ltac len_lia := autorewrite with len in *; lia.

Lemma be_bytes_is_bytes n z : is_bytes (be_bytes n z).
Proof.
  induction n as [|n IH]; simpl; constructor; [|exact IH].
  unfold is_u8, u8_max. pose proof (Z.mod_pos_bound (z / 256 ^ Z.of_nat n) 256). lia.
Qed.

Lemma is_bytes_app l k : is_bytes (l ++ k) ↔ is_bytes l ∧ is_bytes k.
Proof. apply Forall_app. Qed.

Lemma is_bytes_cons b l : is_bytes (b :: l) ↔ is_u8 b ∧ is_bytes l.
Proof. apply Forall_cons_iff. Qed.

Lemma is_bytes_take n l : is_bytes l → is_bytes (take n l).
Proof. apply Forall_take. Qed.

Lemma is_bytes_drop n l : is_bytes l → is_bytes (drop n l).
Proof. apply Forall_drop. Qed.

Lemma is_bytes_slice a b l : is_bytes l → is_bytes (slice a b l).
Proof. intros. by apply is_bytes_take, is_bytes_drop. Qed.
#[export] Hint Resolve be_bytes_is_bytes is_bytes_take is_bytes_drop is_bytes_slice : mst5.

Lemma from_be_bound l : is_bytes l → 0 ≤ from_be l < 256 ^ len l.
Proof.
  induction 1 as [|b l Hb Hl IH]; cbn [from_be]; [rewrite (@len_nil Z); lia|].
  rewrite len_cons, Z.pow_add_r by (try lia; apply len_nonneg).
  unfold is_u8, u8_max in Hb. change (256 ^ 1) with 256. nia.
Qed.

Lemma from_be_be_bytes n z : from_be (be_bytes n z) = z mod 256 ^ Z.of_nat n.
Proof.
  induction n as [|n IH]; cbn [from_be be_bytes]; [by rewrite Z.mod_1_r|].
  rewrite IH, len_be_bytes. replace (Z.of_nat (S n)) with (1 + Z.of_nat n) by lia.
  rewrite Z.pow_add_r by lia. change (256 ^ 1) with 256.
  rewrite (Z.mul_comm 256), Z.rem_mul_r; lia.
Qed.

Lemma be_bytes_roundtrip n z : 0 ≤ z < 256 ^ Z.of_nat n → from_be (be_bytes n z) = z.
Proof. intros. rewrite from_be_be_bytes. by apply Z.mod_small. Qed.

Lemma be_bytes_mod_high n b z :
  be_bytes n (b * 256 ^ Z.of_nat n + z) = be_bytes n z.
Proof.
  assert (∀ m k, be_bytes n (m * 256 ^ (Z.of_nat n + Z.of_nat k) + z) = be_bytes n z) as H.
  { induction n as [|n IH]; intros m k; cbn [be_bytes]; [done|].
    replace (Z.of_nat (S n) + Z.of_nat k) with (Z.of_nat n + Z.of_nat (S k)) by lia.
    f_equal; [|apply IH].
    rewrite Z.pow_add_r, Nat2Z.inj_succ, Z.pow_succ_r by lia.
    replace (m * (256 ^ Z.of_nat n * (256 * 256 ^ Z.of_nat k)) + z)
      with (z + (m * 256 ^ Z.of_nat k * 256) * 256 ^ Z.of_nat n) by lia.
    rewrite Z.div_add by (apply Z.pow_nonzero; lia). apply Z_mod_plus_full. }
  specialize (H b 0%nat). by rewrite Z.add_0_r in H.
Qed.

Lemma be_bytes_from_be l : is_bytes l → be_bytes (length l) (from_be l) = l.
Proof.
  induction 1 as [|b l Hb Hl IH]; cbn [length from_be be_bytes]; [done|].
  pose proof (from_be_bound l Hl). unfold len in *. f_equal.
  - rewrite Z.div_add_l by lia. rewrite (Z.div_small (from_be l)) by lia.
    unfold is_u8, u8_max in Hb. rewrite Z.add_0_r. apply Z.mod_small. lia.
  - by rewrite be_bytes_mod_high.
Qed.

Lemma be_bytes_inj n x y :
  0 ≤ x < 256 ^ Z.of_nat n → 0 ≤ y < 256 ^ Z.of_nat n → be_bytes n x = be_bytes n y → x = y.
Proof.
  intros Hx Hy H. apply (f_equal from_be) in H. by rewrite !be_bytes_roundtrip in H.
Qed.

(** Facts about all bytes are decided by computation. *)
Lemma forall_u8 (p : Z → bool) :
  forallb p (map Z.of_nat (List.seq 0 256)) = true → ∀ z, is_u8 z → p z = true.
Proof.
  intros H z Hz. rewrite forallb_forall in H. apply H, in_map_iff.
  exists (Z.to_nat z). widths. split; [lia|]. apply in_seq. lia.
Qed.

Lemma from_be_range n l : is_bytes l → length l = n → 0 ≤ from_be l < 256 ^ Z.of_nat n.
Proof. intros Hl <-. by apply from_be_bound. Qed.

Lemma length_slice {A} a b (l : list A) :
  (a ≤ b)%nat → (b ≤ length l)%nat → length (slice a b l) = (b - a)%nat.
Proof. intros. unfold slice. rewrite length_take, length_drop. lia. Qed.

Lemma is_bytes_nth l i : is_bytes l → is_u8 (nth i l 0).
Proof.
  intros Hl. destruct (nth_in_or_default i l 0) as [H| ->]; [|widths; lia].
  unfold is_bytes in Hl. rewrite List.Forall_forall in Hl. auto.
Qed.
#[export] Hint Resolve is_bytes_nth : mst5.

Lemma map_result_ok {E A B} (f : A → result E B) (g : A → B) l :
  Forall (λ a, f a = Ok (g a)) l → map_result f l = Ok (map g l).
Proof. induction 1 as [|a l Ha Hl IH]; simpl; [done|]. by rewrite Ha, IH. Qed.

#[global] Arguments be_bytes : simpl never.
#[global] Arguments from_be : simpl never.
#[global] Arguments lit : simpl never.
#[global] Arguments slice : simpl never.
