(* ===== verification/RustStr.v ===== *)
(** * The parts of Rust's [str], [char] and integer parsing the client uses

    Strings are UTF-8 byte lists ([Prelude.lit]).  This file models the
    standard-library functions the sources call on them: UTF-8 validation,
    [chars], [trim], [split], [split_once], [strip_prefix], ASCII case mapping,
    decimal and hexadecimal formatting, and [parse] for unsigned integers and
    [SocketAddrV4].  The lemmas are the facts the components rely on. *)
From S2P Require Import Prelude.

(** ** UTF-8 *)
Definition is_cont (b : Z) : bool := (128 <=? b) && (b <=? 191).
Definition in_range (lo hi b : Z) : bool := (lo <=? b) && (b <=? hi).

(** [std::str::from_utf8(..).is_ok()]: no overlong forms, no surrogates, at
    most U+10FFFF. *)
Fixpoint utf8_valid (l : list Z) : bool :=
  match l with
  | [] => true
  | b0 :: t =>
      if in_range 0 127 b0 then utf8_valid t
      else if in_range 194 223 b0 then
        match t with
        | b1 :: t1 => is_cont b1 && utf8_valid t1
        | _ => false
        end
      else if in_range 224 239 b0 then
        match t with
        | b1 :: b2 :: t2 =>
            in_range (if b0 =? 224 then 160 else 128) (if b0 =? 237 then 159 else 191) b1
            && is_cont b2 && utf8_valid t2
        | _ => false
        end
      else if in_range 240 244 b0 then
        match t with
        | b1 :: b2 :: b3 :: t3 =>
            in_range (if b0 =? 240 then 144 else 128) (if b0 =? 244 then 143 else 191) b1
            && is_cont b2 && is_cont b3 && utf8_valid t3
        | _ => false
        end
      else false
  end.

(** [char_indices]-like view: every character with its encoded bytes.  On
    malformed input (no Rust [str] is) a stray byte counts as U+FFFD. *)
Fixpoint char_chunks (l : list Z) : list (Z * list Z) :=
  match l with
  | [] => []
  | b0 :: t =>
      if b0 <? 128 then (b0, [b0]) :: char_chunks t
      else match t with
      | [] => [(65533, [b0])]
      | b1 :: t1 =>
          if b0 <? 224 then
            (Z.lor (Z.shiftl (Z.land b0 31) 6) (Z.land b1 63), [b0; b1]) :: char_chunks t1
          else match t1 with
          | [] => [(65533, [b0; b1])]
          | b2 :: t2 =>
              if b0 <? 240 then
                (Z.lor (Z.lor (Z.shiftl (Z.land b0 15) 12) (Z.shiftl (Z.land b1 63) 6)) (Z.land b2 63),
                 [b0; b1; b2]) :: char_chunks t2
              else match t2 with
              | [] => [(65533, [b0; b1; b2])]
              | b3 :: t3 =>
                  (Z.lor (Z.lor (Z.shiftl (Z.land b0 7) 18) (Z.shiftl (Z.land b1 63) 12))
                         (Z.lor (Z.shiftl (Z.land b2 63) 6) (Z.land b3 63)),
                   [b0; b1; b2; b3]) :: char_chunks t3
              end
          end
      end
  end.

Definition chars (l : list Z) : list Z := map fst (char_chunks l).

(** [char::is_control] (general category Cc) and [char::is_whitespace]. *)
Definition is_control (c : Z) : bool := in_range 0 31 c || in_range 127 159 c.
Definition is_whitespace (c : Z) : bool :=
  in_range 9 13 c || (c =? 32) || (c =? 133) || (c =? 160) || (c =? 5760)
  || in_range 8192 8202 c || (c =? 8232) || (c =? 8233) || (c =? 8239)
  || (c =? 8287) || (c =? 12288).

Fixpoint drop_while {A} (p : A → bool) (l : list A) : list A :=
  match l with
  | [] => []
  | a :: t => if p a then drop_while p t else l
  end.

Definition drop_while_end {A} (p : A → bool) (l : list A) : list A :=
  reverse (drop_while p (reverse l)).

(** [str::trim]. *)
Definition trim (l : list Z) : list Z :=
  concat (map snd
    (drop_while_end (λ c, is_whitespace c.1)
      (drop_while (λ c, is_whitespace c.1) (char_chunks l)))).

(** ** ASCII classes and case *)
Definition is_ascii_lower (b : Z) : bool := in_range 97 122 b.
Definition is_ascii_upper (b : Z) : bool := in_range 65 90 b.
Definition is_ascii_digit (b : Z) : bool := in_range 48 57 b.
Definition is_ascii_alnum (b : Z) : bool :=
  is_ascii_lower b || is_ascii_upper b || is_ascii_digit b.
Definition is_ascii_hexdigit (b : Z) : bool :=
  is_ascii_digit b || in_range 97 102 b || in_range 65 70 b.
(** [u8::is_ascii_whitespace]: space, tab, LF, FF, CR. *)
Definition is_ascii_ws (b : Z) : bool :=
  (b =? 32) || (b =? 9) || (b =? 10) || (b =? 12) || (b =? 13).
Definition to_ascii_lowercase (l : list Z) : list Z :=
  map (λ b, if is_ascii_upper b then b + 32 else b) l.
Definition to_ascii_uppercase (l : list Z) : list Z :=
  map (λ b, if is_ascii_lower b then b - 32 else b) l.

(** ** Searching and splitting *)
Definition contains_byte (c : Z) (l : list Z) : bool := existsb (Z.eqb c) l.

Fixpoint strip_prefix (p l : list Z) : option (list Z) :=
  match p, l with
  | [], _ => Some l
  | a :: p', b :: l' => if a =? b then strip_prefix p' l' else None
  | _ :: _, [] => None
  end.
Definition starts_with (p l : list Z) : bool := bool_decide (is_Some (strip_prefix p l)).

(** [str::contains(&str)]. *)
Fixpoint contains_str (p l : list Z) : bool :=
  starts_with p l || match l with [] => false | _ :: t => contains_str p t end.

(** [split_once(c)] at the first occurrence, [rsplit_once(c)] at the last. *)
Fixpoint split_once (c : Z) (l : list Z) : option (list Z * list Z) :=
  match l with
  | [] => None
  | b :: t =>
      if b =? c then Some ([], t)
      else match split_once c t with Some (x, y) => Some (b :: x, y) | None => None end
  end.
Fixpoint rsplit_once (c : Z) (l : list Z) : option (list Z * list Z) :=
  match l with
  | [] => None
  | b :: t =>
      match rsplit_once c t with
      | Some (x, y) => Some (b :: x, y)
      | None => if b =? c then Some ([], t) else None
      end
  end.

(** [split(c)]: always at least one piece. *)
Fixpoint split_on (c : Z) (l : list Z) : list (list Z) :=
  match l with
  | [] => [[]]
  | b :: t =>
      if b =? c then [] :: split_on c t
      else match split_on c t with p :: ps => (b :: p) :: ps | [] => [[b]] end
  end.

(** [Vec<&str>::join(sep)]. *)
Fixpoint join (sep : list Z) (l : list (list Z)) : list Z :=
  match l with
  | [] => []
  | [x] => x
  | x :: t => x ++ sep ++ join sep t
  end.

Definition trim_end_matches (c : Z) (l : list Z) : list Z := drop_while_end (Z.eqb c) l.

(** [str] comparison: bytes, lexicographically. *)
Fixpoint str_le (a b : list Z) : bool :=
  match a, b with
  | [], _ => true
  | _ :: _, [] => false
  | x :: a', y :: b' => (x <? y) || ((x =? y) && str_le a' b')
  end.

(** ** Numbers *)
Fixpoint dec_loop (fuel : nat) (z : Z) (acc : list Z) : list Z :=
  match fuel with
  | O => acc
  | S f => let acc' := (48 + z mod 10) :: acc in
           if z / 10 =? 0 then acc' else dec_loop f (z / 10) acc'
  end.
(** [ToString] of an integer. *)
Definition dec (z : Z) : list Z :=
  if z <? 0 then 45 :: dec_loop (S (Z.to_nat (Z.log2 (- z)))) (- z) []
  else dec_loop (S (Z.to_nat (Z.log2 z))) z [].

Definition hex_digit (upper : bool) (d : Z) : Z :=
  if d <? 10 then 48 + d else (if upper then 55 else 87) + d.
(** [format!("{byte:02x}")]. *)
Definition hex02 (b : Z) : list Z :=
  [hex_digit false (Z.shiftr b 4); hex_digit false (Z.land b 15)].

Fixpoint parse_digits (max : Z) (acc : Z) (l : list Z) : option Z :=
  match l with
  | [] => Some acc
  | b :: t =>
      if is_ascii_digit b then
        let acc' := acc * 10 + (b - 48) in
        if acc' <=? max then parse_digits max acc' t else None
      else None
  end.
(** [str::parse::<uN>]: an optional [+], then at least one digit. *)
Definition parse_uint (max : Z) (l : list Z) : option Z :=
  match l with
  | [] => None
  | 43 :: (_ :: _) as t => parse_digits max 0 (tail t)
  | _ => parse_digits max 0 l
  end.
Definition parse_u16 : list Z → option Z := parse_uint u16_max.

(** [str::parse::<SocketAddrV4>]: four decimal octets without leading zeros,
    [:] and a port. *)
Record SocketAddrV4 := mkSocketAddrV4 { sa_octets : list Z; sa_port : Z }.
#[export] Instance SocketAddrV4_eq_dec : EqDecision SocketAddrV4.
Proof. solve_decision. Defined.

Definition parse_octet (l : list Z) : option Z :=
  match l with
  | [] => None
  | 48 :: _ :: _ => None
  | _ => if (length l <=? 3)%nat then parse_digits 255 0 l else None
  end.
Definition parse_port (l : list Z) : option Z :=
  match l with [] => None | _ => parse_digits u16_max 0 l end.
Definition parse_socket_v4 (l : list Z) : option SocketAddrV4 :=
  match split_once 58 l with
  | None => None
  | Some (ip, port) =>
      match split_on 46 ip with
      | [a; b; c; d] =>
          match parse_octet a, parse_octet b, parse_octet c, parse_octet d, parse_port port with
          | Some a, Some b, Some c, Some d, Some p => Some (mkSocketAddrV4 [a; b; c; d] p)
          | _, _, _, _, _ => None
          end
      | _ => None
      end
  end.

(** ** Lemmas *)

Lemma char_chunks_concat l : concat (map snd (char_chunks l)) = l.
Proof.
  remember (length l) as n eqn:Hn. revert l Hn.
  induction n as [n IH] using lt_wf_ind; intros l ->.
  destruct l as [|b0 t]; [done|]; cbn [char_chunks].
  destruct (b0 <? 128); cbn; [f_equal; apply (IH (length t)); simpl; auto; lia|].
  destruct t as [|b1 t1]; [done|].
  destruct (b0 <? 224); cbn; [do 2 f_equal; apply (IH (length t1)); simpl; auto; lia|].
  destruct t1 as [|b2 t2]; [done|].
  destruct (b0 <? 240); cbn; [do 3 f_equal; apply (IH (length t2)); simpl; auto; lia|].
  destruct t2 as [|b3 t3]; [done|].
  cbn. do 4 f_equal. apply (IH (length t3)); simpl; auto; lia.
Qed.

Lemma strip_prefix_some p l r : strip_prefix p l = Some r ↔ l = p ++ r.
Proof.
  revert l. induction p as [|a p IH]; intros l; simpl; [split; congruence|].
  destruct l as [|b l]; [split; [done|discriminate]|].
  destruct (Z.eqb_spec a b) as [->|Hne].
  - rewrite IH. split; [intros ->; done|congruence].
  - split; [done|congruence].
Qed.

Lemma starts_with_spec p l : starts_with p l = true ↔ ∃ r, l = p ++ r.
Proof.
  unfold starts_with. rewrite bool_decide_eq_true. unfold is_Some.
  split; intros [r H]; exists r; by apply strip_prefix_some.
Qed.

Lemma split_once_some c l x y :
  split_once c l = Some (x, y) → l = x ++ c :: y ∧ c ∉ x.
Proof.
  revert x y. induction l as [|b t IH]; intros x y H; simpl in H; [done|].
  destruct (Z.eqb_spec b c) as [->|Hne]; [simplify_eq; split; [done|set_solver]|].
  destruct (split_once c t) as [[x' y']|] eqn:E; simplify_eq.
  destruct (IH _ _ eq_refl) as [-> ?]. split; [done|set_solver].
Qed.

Lemma rsplit_once_some c l x y :
  rsplit_once c l = Some (x, y) → l = x ++ c :: y ∧ c ∉ y.
Proof.
  assert (∀ k, rsplit_once c k = None → c ∉ k) as Hnone.
  { induction k as [|b t IH]; simpl; [set_solver|].
    destruct (rsplit_once c t) as [[]|] eqn:E; [done|].
    destruct (Z.eqb_spec b c); [done|]. set_solver. }
  revert x y. induction l as [|b t IH]; intros x y H; simpl in H; [done|].
  destruct (rsplit_once c t) as [[x' y']|] eqn:E; simplify_eq.
  - destruct (IH _ _ eq_refl) as [-> ?]. done.
  - destruct (Z.eqb_spec b c); simplify_eq. auto.
Qed.

Lemma split_on_join c l : join [c] (split_on c l) = l.
Proof.
  induction l as [|b t IH]; [done|]; simpl.
  assert (split_on c t ≠ []) as Hne.
  { destruct t as [|b' t']; simpl; [done|].
    destruct (b' =? c); [done|]. by destruct (split_on c t'). }
  destruct (Z.eqb_spec b c) as [->|].
  - destruct (split_on c t) as [|p ps]; [done|]. by rewrite <- IH.
  - destruct (split_on c t) as [|p ps]; [done|]. rewrite <- IH. by destruct ps.
Qed.

Lemma split_on_no_sep c l : Forall (λ p, c ∉ p) (split_on c l).
Proof.
  induction l as [|b t IH]; simpl; [repeat constructor; set_solver|].
  destruct (Z.eqb_spec b c) as [->|Hne]; [constructor; [set_solver|done]|].
  destruct (split_on c t) as [|p ps]; inversion IH; subst;
    repeat constructor; auto; set_solver.
Qed.

Lemma utf8_valid_ascii l : Forall (λ b, 0 ≤ b < 128) l → utf8_valid l = true.
Proof.
  induction 1 as [|b l Hb Hl IH]; simpl; [done|].
  unfold in_range at 1. by zbool.
Qed.

Lemma lit_is_bytes s : is_bytes (lit s).
Proof.
  induction s as [|a s IH]; simpl; constructor; [|exact IH].
  unfold is_u8, u8_max. pose proof (Ascii.N_ascii_bounded a). lia.
Qed.
#[export] Hint Resolve lit_is_bytes : mst5.

Lemma str_le_total a b : str_le a b = true ∨ str_le b a = true.
Proof.
  revert b. induction a as [|x a IH]; intros [|y b]; cbn; auto.
  destruct (Z.lt_trichotomy x y) as [H|[->|H]].
  - left. by rewrite (proj2 (Z.ltb_lt x y) H).
  - rewrite Z.ltb_irrefl, Z.eqb_refl. cbn. apply IH.
  - right. by rewrite (proj2 (Z.ltb_lt y x) H).
Qed.

Lemma str_le_antisym a b : str_le a b = true → str_le b a = true → a = b.
Proof.
  revert b. induction a as [|x a IH]; intros [|y b]; cbn; try done.
  destruct (Z.ltb_spec x y), (Z.ltb_spec y x), (Z.eqb_spec x y), (Z.eqb_spec y x); cbn;
    try done; try lia; subst. intros. f_equal. auto.
Qed.
