(* ===== verification/Cbor.v ===== *)
(** * CBOR values and the CBOR codec (src/src/lib.rs)

    [Value] and its accessors, the encoder [encode_cbor_value], and the decoder
    [CborDecoder] with its cursor.  The theorems show that decoding inverts
    encoding (up to the sign class of non-negative integers, which the wire
    format does not keep), that every decoded value is well formed and at most
    64 levels deep, and that the encoder's output is self-delimiting. *)
From S2P Require Import Prelude RustStr.

(** [MST5_MAX_PLAIN_PAYLOAD], the decoder's bound on arrays and maps. *)
Definition MST5_MAX_PLAIN_PAYLOAD : Z := 4 * 1024 * 1024.

(** A [f64] is its bit pattern; the code only moves the bits. *)
Inductive Value :=
| VNull
| VBool (b : bool)
| VUnsigned (n : Z)
| VInteger (z : Z)
| VFloat (bits : Z)
| VBytes (l : list Z)
| VText (l : list Z)
| VArray (l : list Value)
| VMap (l : list (list Z * Value)).

Section Value_induction.
  Variable P : Value → Prop.
  Hypothesis Hnull : P VNull.
  Hypothesis Hbool : ∀ b, P (VBool b).
  Hypothesis Huns : ∀ n, P (VUnsigned n).
  Hypothesis Hint : ∀ z, P (VInteger z).
  Hypothesis Hflo : ∀ x, P (VFloat x).
  Hypothesis Hbytes : ∀ l, P (VBytes l).
  Hypothesis Htext : ∀ l, P (VText l).
  Hypothesis Harr : ∀ l, Forall P l → P (VArray l).
  Hypothesis Hmap : ∀ l, Forall (λ kv, P kv.2) l → P (VMap l).

Fixpoint Value_rect_nested (v : Value) : P v :=
    match v with
    | VNull => Hnull
    | VBool b => Hbool b
    | VUnsigned n => Huns n
    | VInteger z => Hint z
    | VFloat x => Hflo x
    | VBytes l => Hbytes l
    | VText l => Htext l
    | VArray l => Harr l
        ((fix go l : Forall P l :=
            match l with
            | [] => Forall_nil_2 _
            | x :: t => Forall_cons_2 _ _ _ (Value_rect_nested x) (go t)
            end) l)
    | VMap l => Hmap l
        ((fix go l : Forall (λ kv, P kv.2) l :=
            match l with
            | [] => Forall_nil_2 _
            | x :: t => Forall_cons_2 _ _ _ (Value_rect_nested x.2) (go t)
            end) l)
    end.
End Value_induction.

(** ** Accessors *)

(** [Value::map] from borrowed keys. *)
Definition value_map (entries : list (list Z * Value)) : Value := VMap entries.

Fixpoint find_entry (key : list Z) (l : list (list Z * Value)) : option Value :=
  match l with
  | [] => None
  | (k, v) :: t => if beq k key then Some v else find_entry key t
  end.

Definition get (v : Value) (key : list Z) : option Value :=
  match v with VMap entries => find_entry key entries | _ => None end.

Definition as_str (v : Value) : option (list Z) :=
  match v with VText s => Some s | _ => None end.

Definition as_u64_v (v : Value) : option Z :=
  match v with
  | VUnsigned n => Some n
  | VInteger z => if 0 <=? z then Some (as_u64 z) else None
  | _ => None
  end.

Definition as_i64_v (v : Value) : option Z :=
  match v with
  | VInteger z => Some z
  | VUnsigned n => if n <=? i64_max then Some n else None
  | _ => None
  end.

Definition as_bool (v : Value) : option bool :=
  match v with VBool b => Some b | _ => None end.

(** ** Encoder *)

Definition encode_cbor_head (major value : Z) : list Z :=
  let prefix := as_u8 (Z.shiftl major 5) in
  if value <=? 23 then [Z.lor prefix (as_u8 value)]
  else if value <=? 255 then [Z.lor prefix 24; as_u8 value]
  else if value <=? 65535 then Z.lor prefix 25 :: be_bytes 2 (as_u16 value)
  else if value <=? 4294967295 then Z.lor prefix 26 :: be_bytes 4 (as_u32 value)
  else Z.lor prefix 27 :: be_bytes 8 value.

Fixpoint encode_cbor_value (v : Value) : list Z :=
  match v with
  | VNull => [246]
  | VBool false => [244]
  | VBool true => [245]
  | VUnsigned n => encode_cbor_head 0 n
  | VInteger z =>
      if 0 <=? z then encode_cbor_head 0 (as_u64 z)
      else encode_cbor_head 1 (as_u64 (-1 - z))
  | VFloat bits => 251 :: be_bytes 8 bits
  | VBytes l => encode_cbor_head 2 (len l) ++ l
  | VText l => encode_cbor_head 3 (len l) ++ l
  | VArray vs => encode_cbor_head 4 (len vs) ++ concat (map encode_cbor_value vs)
  | VMap es =>
      encode_cbor_head 5 (len es) ++
      concat (map (λ kv, encode_cbor_head 3 (len kv.1) ++ kv.1 ++ encode_cbor_value kv.2) es)
  end.

Definition encode_cbor (v : Value) : list Z := encode_cbor_value v.

(** ** Decoder *)

Record CborDecoder := mkCborDecoder { d_input : list Z; d_pos : Z }.

Definition short_cbor : io_error := IoError UnexpectedEof (lit "short CBOR input").

Definition byte (d : CborDecoder) : io (Z * CborDecoder) :=
  match d_input d !! Z.to_nat (d_pos d) with
  | Some b => Ok (b, mkCborDecoder (d_input d) (d_pos d + 1))
  | None => Err short_cbor
  end.

Definition take_slice (n : Z) (d : CborDecoder) : io (list Z * CborDecoder) :=
  let? stop := ok_or (checked_add64 (d_pos d) n) (invalid_data (lit "CBOR length overflow")) in
  fail_if (len (d_input d) <? stop) with short_cbor;
  Ok (take (Z.to_nat n) (drop (Z.to_nat (d_pos d)) (d_input d)),
      mkCborDecoder (d_input d) stop).

Definition argument (additional : Z) (d : CborDecoder) : io (Z * CborDecoder) :=
  if additional <=? 23 then Ok (additional, d)
  else if additional =? 24 then byte d
  else if additional =? 25 then let? (l, d') := take_slice 2 d in Ok (from_be l, d')
  else if additional =? 26 then let? (l, d') := take_slice 4 d in Ok (from_be l, d')
  else if additional =? 27 then let? (l, d') := take_slice 8 d in Ok (from_be l, d')
  else if additional =? 31 then Err (invalid_data (lit "indefinite-length CBOR is not supported"))
  else Err (invalid_data (lit "invalid CBOR additional information")).

(** [usize::try_from(u64)], on the 64-bit targets, where it is the identity.  A 32-bit
    target refuses a length beyond its address space here, with another message than
    the check of the input's length that follows. *)
Definition length_arg (additional : Z) (d : CborDecoder) : io (Z * CborDecoder) :=
  argument additional d.

(** [f32::from_bits(bits) as f64], on bit patterns.  A NaN keeps its sign and
    payload and becomes quiet, as IEEE 754 conversions do. *)
Definition f32_to_f64 (bits : Z) : Z :=
  let sign := Z.shiftr bits 31 in
  let e := Z.land (Z.shiftr bits 23) 255 in
  let m := Z.land bits 8388607 in
  sign * 2 ^ 63 +
  (if e =? 255 then
     2047 * 2 ^ 52 + (if m =? 0 then 0 else Z.lor (m * 2 ^ 29) (2 ^ 51))
   else if e =? 0 then
     if m =? 0 then 0
     else let k := Z.log2 m in (k + 874) * 2 ^ 52 + (m - 2 ^ k) * 2 ^ (52 - k)
   else (e + 896) * 2 ^ 52 + m * 2 ^ 29).

(** The body of the map loop: a key, which must be text, then its value. *)
Definition map_entry (read : CborDecoder → io (Value * CborDecoder)) (d : CborDecoder)
  : io ((list Z * Value) * CborDecoder) :=
  let? (k, d1) := read d in
  match k with
  | VText key => let? (v, d2) := read d1 in Ok ((key, v), d2)
  | _ => Err (invalid_data (lit "CBOR map key must be text"))
  end.

(** [CborDecoder::value].  [levels] is the structural counter: [value] is
    entered with [levels + depth = 65], so it runs out exactly where the
    source's test [depth > 64] fires. *)
Fixpoint value (levels : nat) (depth : Z) (d : CborDecoder) : io (Value * CborDecoder) :=
  let too_deep := Err (invalid_data (lit "CBOR nesting is too deep")) in
  match levels with
  | O => too_deep
  | S levels' =>
    if 64 <? depth then too_deep else
    let? (initial, d1) := byte d in
    let major := Z.shiftr initial 5 in
    let additional := Z.land initial 31 in
    if major =? 0 then
      let? (n, d2) := argument additional d1 in Ok (VUnsigned n, d2)
    else if major =? 1 then
      let? (raw, d2) := argument additional d1 in
      fail_if (-1 - raw <? i64_min) with invalid_data (lit "CBOR negative integer is out of range");
      Ok (VInteger (-1 - raw), d2)
    else if major =? 2 then
      let? (n, d2) := length_arg additional d1 in
      let? (l, d3) := take_slice n d2 in Ok (VBytes l, d3)
    else if major =? 3 then
      let? (n, d2) := length_arg additional d1 in
      let? (l, d3) := take_slice n d2 in
      fail_if (negb (utf8_valid l)) with invalid_data (lit "invalid UTF-8 in CBOR text");
      Ok (VText l, d3)
    else if major =? 4 then
      let? (n, d2) := length_arg additional d1 in
      fail_if (MST5_MAX_PLAIN_PAYLOAD <? n) with invalid_data (lit "CBOR array is too large");
      let? (vs, d3) := times (Z.to_nat n) (value levels' (depth + 1)) d2 in
      Ok (VArray vs, d3)
    else if major =? 5 then
      let? (n, d2) := length_arg additional d1 in
      fail_if (MST5_MAX_PLAIN_PAYLOAD <? n) with invalid_data (lit "CBOR map is too large");
      let? (es, d3) := times (Z.to_nat n) (map_entry (value levels' (depth + 1))) d2 in
      Ok (VMap es, d3)
    else if major =? 7 then
      if additional =? 20 then Ok (VBool false, d1)
      else if additional =? 21 then Ok (VBool true, d1)
      else if additional =? 22 then Ok (VNull, d1)
      else if additional =? 26 then
        let? (l, d2) := take_slice 4 d1 in Ok (VFloat (f32_to_f64 (from_be l)), d2)
      else if additional =? 27 then
        let? (l, d2) := take_slice 8 d1 in Ok (VFloat (from_be l), d2)
      else Err (invalid_data (lit "unsupported CBOR simple value"))
    else Err (invalid_data (lit "unsupported CBOR major type"))
  end.

Definition decode_cbor (input : list Z) : io Value :=
  let? (v, d) := value 65 0 (mkCborDecoder input 0) in
  fail_if (negb (d_pos d =? len input)) with invalid_data (lit "trailing CBOR data");
  Ok v.

(** ** Specification *)

(** The values Rust's types allow: integers in range, text that is UTF-8. *)
Fixpoint wf_value (v : Value) : Prop :=
  match v with
  | VNull | VBool _ => True
  | VUnsigned n => is_u64 n
  | VInteger z => is_i64 z
  | VFloat bits => is_u64 bits
  | VBytes l => is_bytes l
  | VText l => is_bytes l ∧ utf8_valid l = true
  | VArray vs => fold_right (λ x P, wf_value x ∧ P) True vs
  | VMap es =>
      fold_right (λ kv P, (is_bytes kv.1 ∧ utf8_valid kv.1 = true ∧ wf_value kv.2) ∧ P) True es
  end.

(** Nesting: an array or map is one level above its deepest element; the keys
    of a map are elements too. *)
Fixpoint height (v : Value) : Z :=
  match v with
  | VArray vs => fold_right (λ x h, Z.max (1 + height x) h) 0 vs
  | VMap es => fold_right (λ kv h, Z.max (1 + height kv.2) h) 0 es
  | _ => 0
  end.

(** No array or map is longer than the decoder accepts. *)
Fixpoint small_containers (v : Value) : Prop :=
  match v with
  | VArray vs =>
      len vs ≤ MST5_MAX_PLAIN_PAYLOAD ∧ fold_right (λ x P, small_containers x ∧ P) True vs
  | VMap es =>
      len es ≤ MST5_MAX_PLAIN_PAYLOAD ∧ fold_right (λ kv P, small_containers kv.2 ∧ P) True es
  | _ => True
  end.

(** The wire format has one representation for a non-negative integer, which
    the decoder reads as [VUnsigned]. *)
Fixpoint normalise (v : Value) : Value :=
  match v with
  | VInteger z => if 0 <=? z then VUnsigned z else VInteger z
  | VArray vs => VArray (map normalise vs)
  | VMap es => VMap (map (λ kv, (kv.1, normalise kv.2)) es)
  | v => v
  end.

(** ** Lemmas about the cursor *)

Section Cursor.
Variable input : list Z.

(** The cursor [d] stands before the bytes [s] of [input], which is no longer
    than a Rust allocation. *)
Definition cursor_at (d : CborDecoder) (s : list Z) : Prop :=
  d_input d = input ∧ 0 ≤ d_pos d ∧ drop (Z.to_nat (d_pos d)) (d_input d) = s ∧
  d_pos d + len s = len (d_input d) ∧ len (d_input d) ≤ i64_max.

Lemma cursor_byte d b s :
  cursor_at d (b :: s) → ∃ d', byte d = Ok (b, d') ∧ cursor_at d' s.
Proof.
  intros (Hi & Hp & Hd & Hl & Hb). unfold byte.
  assert (d_input d !! Z.to_nat (d_pos d) = Some b) as ->.
  { pose proof (lookup_drop (d_input d) (Z.to_nat (d_pos d)) 0) as H.
    by rewrite Hd, Nat.add_0_r in H. }
  eexists; split; [done|]. unfold cursor_at; cbn [d_pos d_input].
  rewrite len_cons in Hl. repeat split; try lia; try done.
  rewrite Z2Nat.inj_add by lia. rewrite <- drop_drop, Hd. done.
Qed.

Lemma cursor_take d x s :
  cursor_at d (x ++ s) → ∃ d', take_slice (len x) d = Ok (x, d') ∧ cursor_at d' s.
Proof.
  intros (Hi & Hp & Hd & Hl & Hb). rewrite len_app in Hl.
  pose proof (len_nonneg x). pose proof (len_nonneg s).
  unfold take_slice, checked_add64, ok_or. unfold i64_max in Hb. unfold u64_max.
  zbool. cbn iota. zbool. eexists; split.
  - rewrite Hd. unfold len at 1. rewrite Nat2Z.id, take_app_length. done.
  - unfold cursor_at, i64_max; cbn [d_pos d_input]. repeat split; try lia; try done.
    rewrite Z2Nat.inj_add, <- drop_drop, Hd by lia.
    unfold len. by rewrite Nat2Z.id, drop_app_length.
Qed.

Lemma cursor_take_be d n z s :
  0 ≤ z < 256 ^ Z.of_nat n → cursor_at d (be_bytes n z ++ s) →
  ∃ l d', take_slice (Z.of_nat n) d = Ok (l, d') ∧ from_be l = z ∧ cursor_at d' s.
Proof.
  intros Hz Hd. destruct (cursor_take _ _ _ Hd) as (d' & Ht & Hd').
  rewrite len_be_bytes in Ht. exists (be_bytes n z), d'. rewrite be_bytes_roundtrip; auto.
Qed.

(** The initial byte: [major << 5 | additional]. *)
Lemma initial_byte major a :
  0 ≤ major < 8 → 0 ≤ a < 32 →
  Z.shiftr (Z.lor (as_u8 (Z.shiftl major 5)) a) 5 = major ∧
  Z.land (Z.lor (as_u8 (Z.shiftl major 5)) a) 31 = a ∧
  is_u8 (Z.lor (as_u8 (Z.shiftl major 5)) a).
Proof.
  intros Hm Ha. unfold as_u8. rewrite Z.shiftl_mul_pow2 by lia. change (2 ^ 5) with 32.
  rewrite Z.mod_small by lia.
  assert (Z.lor (major * 32) a = major * 32 + a) as ->.
  { rewrite <- Z.lxor_lor, Z.add_nocarry_lxor; auto; change 32 with (2 ^ 5);
      rewrite <- Z.shiftl_mul_pow2 by lia; apply Z.bits_inj'; intros n Hn;
      rewrite Z.land_spec, Z.shiftl_spec, Z.bits_0 by lia;
      (destruct (Z.lt_ge_cases n 5);
        [by rewrite Z.testbit_neg_r by lia
        |rewrite (Z.bits_above_log2 a n); [by rewrite andb_false_r|lia|]]);
      destruct (Z.eq_dec a 0) as [->|]; [simpl; lia| |simpl; lia|];
      (assert (Z.log2 a < 5) by (apply Z.log2_lt_pow2; lia)); lia. }
  rewrite Z.shiftr_div_pow2 by lia. change 31 with (Z.ones 5).
  rewrite Z.land_ones by lia. change (2 ^ 5) with 32. unfold is_u8, u8_max.
  repeat split; div_lia.
Qed.

Lemma cursor_head d major n s :
  0 ≤ major < 8 → is_u64 n → cursor_at d (encode_cbor_head major n ++ s) →
  ∃ b d1 d2, byte d = Ok (b, d1) ∧ Z.shiftr b 5 = major ∧
    argument (Z.land b 31) d1 = Ok (n, d2) ∧ cursor_at d2 s.
Proof.
  intros Hm Hn Hd. unfold is_u64, u64_max in Hn. unfold encode_cbor_head in Hd.
  assert (∀ a t, 0 ≤ a < 32 → cursor_at d (Z.lor (as_u8 (Z.shiftl major 5)) a :: t) →
    ∃ b d1, byte d = Ok (b, d1) ∧ Z.shiftr b 5 = major ∧ Z.land b 31 = a ∧ cursor_at d1 t) as Hb.
  { intros a t Ha Hc. destruct (cursor_byte _ _ _ Hc) as (d1 & ? & ?).
    destruct (initial_byte major a Hm Ha) as (? & ? & _). eauto 8. }
  unfold argument.
  assert (∀ k z t d1, 0 ≤ z < 256 ^ Z.of_nat k → cursor_at d1 (be_bytes k z ++ t) →
    ∃ d2, (let? (l, d') := take_slice (Z.of_nat k) d1 in Ok (from_be l, d')) = Ok (z, d2)
          ∧ cursor_at d2 t) as Hk.
  { intros k z t d1 Hz Hc. destruct (cursor_take_be _ _ _ _ Hz Hc) as (l & d2 & -> & <- & ?). eauto. }
  destruct (Z.leb_spec n 23); [|destruct (Z.leb_spec n 255); [|
    destruct (Z.leb_spec n 65535); [|destruct (Z.leb_spec n 4294967295)]]];
    rewrite ?(as_u8_small n), ?(as_u16_small n), ?(as_u32_small n) in Hd by (widths; lia);
    cbn beta iota zeta delta [app] in Hd;
    (eapply Hb in Hd; [|lia]); destruct Hd as (b & d1 & ? & ? & Ha & Hd1);
    exists b, d1; rewrite Ha.
  - exists d1. zbool. auto.
  - destruct (cursor_byte _ _ _ Hd1) as (d2 & ? & ?). eauto.
  - destruct (Hk 2%nat n s d1) as (d2 & ? & ?); [simpl; lia|done|]. by exists d2.
  - destruct (Hk 4%nat n s d1) as (d2 & ? & ?); [simpl; lia|done|]. by exists d2.
  - destruct (Hk 8%nat n s d1) as (d2 & ? & ?); [simpl; lia|done|]. by exists d2.
Qed.

Lemma cursor_len d s : cursor_at d s → len s ≤ i64_max.
Proof. intros (? & ? & ? & ? & ?). lia. Qed.

Lemma cursor_times {A B} (f : A → list Z) (g : A → B) step l :
  Forall (λ a, ∀ d s, cursor_at d (f a ++ s) → ∃ d', step d = Ok (g a, d') ∧ cursor_at d' s) l →
  ∀ d s, cursor_at d (concat (map f l) ++ s) →
  ∃ d', times (length l) step d = (Ok (map g l, d') : io _) ∧ cursor_at d' s.
Proof.
  induction 1 as [|a l Ha Hl IH]; intros d s Hd; simpl in *; [eauto|].
  rewrite <- app_assoc in Hd. destruct (Ha _ _ Hd) as (d1 & -> & Hd1).
  destruct (IH _ _ Hd1) as (d2 & -> & Hd2). eauto.
Qed.

Lemma fold_and_Forall {A} (Q : A → Prop) l : fold_right (λ x P, Q x ∧ P) True l ↔ Forall Q l.
Proof.
  induction l as [|a l IH]; simpl; [by split; [constructor|]|].
  rewrite IH, Forall_cons_iff. done.
Qed.

Lemma fold_max_le {A} (f : A → Z) l h :
  0 ≤ h → fold_right (λ x m, Z.max (1 + f x) m) 0 l ≤ h ↔ Forall (λ x, 1 + f x ≤ h) l.
Proof.
  intros Hh. induction l as [|a l IH]; simpl; [by split; [constructor|]|].
  rewrite Forall_cons_iff, <- IH. lia.
Qed.

Lemma height_nonneg v : 0 ≤ height v.
Proof. destruct v; simpl; try lia; induction l; simpl; lia. Qed.

(** The statement the induction carries: at every depth the decoder reads back
    the encoding of [v] and stops right after it. *)
Definition reads_back (v : Value) : Prop :=
  ∀ levels depth d s,
    wf_value v → small_containers v → depth + height v ≤ 64 → Z.of_nat levels + depth = 65 →
    cursor_at d (encode_cbor_value v ++ s) →
    ∃ d', value levels depth d = Ok (normalise v, d') ∧ cursor_at d' s.

Lemma reads_back_array vs : Forall reads_back vs → reads_back (VArray vs).
Proof.
  intros IH levels depth d s Hwf [Hn Hs] Hh Hl Hd.
  cbn [wf_value height encode_cbor_value normalise] in *.
  apply fold_and_Forall in Hwf. apply fold_and_Forall in Hs.
  pose proof (height_nonneg (VArray vs)) as Hpos. cbn [height] in Hpos.
  assert (Forall (λ x, 1 + height x ≤ 64 - depth) vs) as Hhs by (apply fold_max_le; lia).
  destruct levels as [|levels]; [lia|]. cbn [value]. rewrite <- app_assoc in Hd.
  unfold MST5_MAX_PLAIN_PAYLOAD in *. pose proof (len_nonneg vs).
  destruct (cursor_head d 4 (len vs) _ ltac:(lia) ltac:(widths; lia) Hd)
    as (b & d1 & d2 & -> & -> & Harg & Hd2).
  zbool. cbn [Z.eqb Pos.eqb]. unfold length_arg. rewrite Harg. zbool. cbn iota.
  unfold len. rewrite Nat2Z.id.
  destruct (cursor_times encode_cbor_value normalise (value levels (depth + 1)) vs) with (2 := Hd2)
    as (d3 & -> & ?); [|eauto].
  rewrite Forall_forall in *. intros x Hx d' s' Hd'.
  eapply (IH x Hx); eauto; [specialize (Hhs x Hx)|]; lia.
Qed.

Lemma reads_back_text l : reads_back (VText l).
Proof.
  intros levels depth d s [_ Hu] _ Hh Hl Hd. destruct levels as [|levels]; [simpl in Hh; lia|].
  cbn [height encode_cbor_value normalise value] in *. zbool.
  rewrite <- app_assoc in Hd. pose proof (cursor_len _ _ Hd) as Hc. rewrite !len_app in Hc.
  pose proof (len_nonneg (encode_cbor_head 3 (len l))). pose proof (len_nonneg s). pose proof (len_nonneg l).
  destruct (cursor_head d 3 (len l) _ ltac:(lia) ltac:(widths; lia) Hd) as (b & d1 & d2 & -> & -> & Harg & Hd2).
  cbn. unfold length_arg. rewrite Harg. destruct (cursor_take _ _ _ Hd2) as (d3 & -> & ?).
  rewrite Hu. eauto.
Qed.

Lemma reads_back_entry levels depth k x d s :
  reads_back x → is_bytes k → utf8_valid k = true → wf_value x → small_containers x →
  depth + height x ≤ 64 → Z.of_nat levels + depth = 65 →
  cursor_at d ((encode_cbor_head 3 (len k) ++ k ++ encode_cbor_value x) ++ s) →
  ∃ d', map_entry (value levels depth) d = Ok ((k, normalise x), d') ∧ cursor_at d' s.
Proof.
  intros IH Hk Hu Hwx Hsx Hh Hl Hd. pose proof (height_nonneg x). unfold map_entry.
  rewrite <- !app_assoc, app_assoc in Hd.
  destruct (reads_back_text k levels depth d (encode_cbor_value x ++ s)) as (d1 & -> & Hd1);
    simpl; auto; try lia.
  destruct (IH levels depth d1 s) as (d2 & -> & ?); eauto.
Qed.

Lemma reads_back_map es : Forall (λ kv, reads_back kv.2) es → reads_back (VMap es).
Proof.
  intros IH levels depth d s Hwf [Hn Hs] Hh Hl Hd.
  cbn [wf_value height encode_cbor_value normalise] in *.
  apply fold_and_Forall in Hwf. apply (fold_and_Forall (λ kv, small_containers kv.2)) in Hs.
  pose proof (height_nonneg (VMap es)) as Hpos. cbn [height] in Hpos.
  assert (Forall (λ kv, 1 + height kv.2 ≤ 64 - depth) es) as Hhs
    by (apply (fold_max_le (λ kv : list Z * Value, height kv.2)); lia).
  destruct levels as [|levels]; [lia|]. cbn [value]. rewrite <- app_assoc in Hd.
  unfold MST5_MAX_PLAIN_PAYLOAD in *. pose proof (len_nonneg es).
  destruct (cursor_head d 5 (len es) _ ltac:(lia) ltac:(widths; lia) Hd)
    as (b & d1 & d2 & -> & -> & Harg & Hd2).
  zbool. cbn [Z.eqb Pos.eqb]. unfold length_arg at 1. rewrite Harg. zbool. cbn iota.
  unfold len. rewrite Nat2Z.id.
  destruct (cursor_times
    (λ kv, encode_cbor_head 3 (len kv.1) ++ kv.1 ++ encode_cbor_value kv.2)
    (λ kv, (kv.1, normalise kv.2)) (map_entry (value levels (depth + 1))) es)
    with (2 := Hd2) as (d3 & -> & ?); [|eauto].
  rewrite Forall_forall in *. intros [k x] Hx d' s' Hd'. cbn [fst snd] in *.
  destruct (Hwf _ Hx) as (Hk & Hu & Hwx). specialize (Hhs _ Hx). cbn [fst snd] in *.
  apply reads_back_entry; auto; try lia; [by apply (IH (k, x))|by apply (Hs (k, x))].
Qed.

Lemma reads_back_all v : reads_back v.
Proof.
  induction v using Value_rect_nested;
    [.. | by apply reads_back_text | by apply reads_back_array | by apply reads_back_map];
    intros levels depth d s Hwf _ Hh Hl Hd; (destruct levels as [|levels]; [simpl in Hh; lia|]);
    cbn [wf_value height encode_cbor_value normalise value] in *; zbool.
  - destruct (cursor_byte _ _ _ Hd) as (d1 & -> & ?). eauto.
  - destruct b; destruct (cursor_byte _ _ _ Hd) as (d1 & -> & ?); eauto.
  - destruct (cursor_head d 0 n s) as (b & d1 & d2 & -> & -> & Harg & ?); auto; try lia.
    cbn. rewrite Harg. eauto.
  - widths. destruct (Z.leb_spec 0 z).
    + rewrite as_u64_small in Hd by (widths; lia).
      destruct (cursor_head d 0 z s) as (b & d1 & d2 & -> & -> & Harg & ?); auto; try (widths; lia).
      cbn. rewrite Harg. eauto.
    + rewrite as_u64_small in Hd by (widths; lia).
      destruct (cursor_head d 1 (-1 - z) s) as (b & d1 & d2 & -> & -> & Harg & ?); auto; try (widths; lia).
      cbn. rewrite Harg. unfold i64_min. replace (-1 - (-1 - z)) with z by lia. zbool. eauto.
  - destruct (cursor_byte _ _ _ Hd) as (d1 & -> & Hd1). cbn.
    destruct (cursor_take_be d1 8 x s) as (l & d2 & Ht & <- & ?); [widths; simpl; lia|done|].
    change 8 with (Z.of_nat 8). rewrite Ht. eauto.
  - rewrite <- app_assoc in Hd. pose proof (cursor_len _ _ Hd) as Hc. rewrite !len_app in Hc.
    pose proof (len_nonneg (encode_cbor_head 2 (len l))). pose proof (len_nonneg s). pose proof (len_nonneg l).
    destruct (cursor_head d 2 (len l) _ ltac:(lia) ltac:(widths; lia) Hd) as (b & d1 & d2 & -> & -> & Harg & Hd2).
    cbn. unfold length_arg. rewrite Harg. destruct (cursor_take _ _ _ Hd2) as (d3 & -> & ?). eauto.
Qed.

End Cursor.

(** ** Decoded values are well formed *)

(** The cursor is inside a byte string. *)
Definition good (d : CborDecoder) : Prop :=
  is_bytes (d_input d) ∧ 0 ≤ d_pos d ≤ len (d_input d).

Lemma good_byte d b d' : good d → byte d = Ok (b, d') → is_u8 b ∧ good d'.
Proof.
  intros [Hb Hp] H. unfold byte in H. inv_ok H.
  split; [by eapply Forall_lookup_1 in Hb|]. split; [done|].
  match goal with H : _ !! _ = Some _ |- _ => apply lookup_lt_Some in H end.
  unfold len in *. cbn. lia.
Qed.

Lemma good_take n d l d' :
  good d → 0 ≤ n → take_slice n d = Ok (l, d') → is_bytes l ∧ len l = n ∧ good d'.
Proof.
  intros [Hb Hp] Hn H. unfold take_slice, ok_or in H.
  destruct (checked_add64 _ _) eqn:E; [|done]. apply checked_add64_some in E as [-> ?].
  inv_ok H. rewrite Z.ltb_ge in *. split; [auto with mst5|]. split.
  - unfold len in *. rewrite length_take, length_drop. lia.
  - split; cbn; [done|lia].
Qed.

Lemma good_argument a d n d' :
  good d → 0 ≤ a → argument a d = Ok (n, d') → is_u64 n ∧ good d'.
Proof.
  intros Hg Ha H. unfold argument in H.
  assert (∀ k l, is_bytes l → len l = k → 0 ≤ k ≤ 8 → is_u64 (from_be l)) as Hk.
  { intros k l Hl <- Hk. pose proof (from_be_bound l Hl). widths.
    assert (256 ^ len l ≤ 256 ^ 8) by (apply Z.pow_le_mono_r; lia).
    change (256 ^ 8) with 18446744073709551616 in *. lia. }
  inv_ok H; rewrite ?Z.leb_le, ?Z.leb_gt, ?Z.eqb_eq in *;
    try match goal with H : take_slice _ _ = _ |- _ =>
      apply good_take in H as (? & ? & ?); [|done|lia] end;
    try match goal with H : byte _ = _ |- _ => apply good_byte in H as [? ?]; [|done] end;
    split; auto; try (eapply Hk; eauto; lia); widths; lia.
Qed.

Lemma good_times {A} (Q : A → Prop) (step : CborDecoder → io (A * CborDecoder)) :
  (∀ d a d', good d → step d = Ok (a, d') → Q a ∧ good d') →
  ∀ n d l d', good d → times n step d = Ok (l, d') → Forall Q l ∧ len l = Z.of_nat n ∧ good d'.
Proof.
  intros Hstep. induction n as [|n IH]; intros d l d' Hg H; simpl in H; inv_ok H; [auto|].
  match goal with H : step _ = _ |- _ => apply Hstep in H as [? ?]; [|done] end.
  match goal with H : times _ _ _ = _ |- _ => apply IH in H as (? & ? & ?); [|done] end.
  rewrite len_cons. split; [auto|]. split; [lia|done].
Qed.

Lemma f32_to_f64_range bits : is_u32 bits → is_u64 (f32_to_f64 bits).
Proof.
  intros Hb. widths. unfold f32_to_f64.
  assert (0 ≤ Z.shiftr bits 31 ≤ 1) by (rewrite Z.shiftr_div_pow2 by lia; change (2 ^ 31) with 2147483648; div_lia).
  assert (0 ≤ Z.land bits 8388607 < 8388608) as Hm
    by (change 8388607 with (Z.ones 23); rewrite Z.land_ones by lia; apply Z.mod_pos_bound; lia).
  assert (0 ≤ Z.land (Z.shiftr bits 23) 255 < 256) as He
    by (change 255 with (Z.ones 8); rewrite Z.land_ones by lia; apply Z.mod_pos_bound; lia).
  set (m := Z.land bits 8388607) in *. set (e := Z.land (Z.shiftr bits 23) 255) in *.
  change (2 ^ 63) with 9223372036854775808. change (2 ^ 52) with 4503599627370496.
  change (2 ^ 29) with 536870912. cbv zeta.
  destruct (Z.eqb_spec e 255); [|destruct (Z.eqb_spec e 0)].
  - destruct (Z.eqb_spec m 0); [lia|].
    assert (0 ≤ Z.lor (m * 536870912) (2 ^ 51) < 2 ^ 52) as Hl.
    { assert (0 ≤ Z.lor (m * 536870912) (2 ^ 51)) by (apply Z.lor_nonneg; lia).
      split; [done|]. apply Z.log2_lt_cancel. rewrite Z.log2_lor, !Z.log2_pow2 by lia.
      assert (Z.log2 (m * 536870912) < 52) by (apply Z.log2_lt_pow2; lia).
      lia. }
    change (2 ^ 52) with 4503599627370496 in Hl. lia.
  - destruct (Z.eqb_spec m 0); [lia|].
    pose proof (Z.log2_spec m ltac:(lia)) as [Hlo Hhi].
    assert (0 ≤ Z.log2 m < 23) by (split; [apply Z.log2_nonneg|apply Z.log2_lt_pow2; lia]).
    assert (0 ≤ (m - 2 ^ Z.log2 m) * 2 ^ (52 - Z.log2 m) < 4503599627370496); [|lia].
    assert (4503599627370496 = 2 ^ Z.log2 m * 2 ^ (52 - Z.log2 m)) as ->
      by (rewrite <- Z.pow_add_r by lia; by replace (Z.log2 m + (52 - Z.log2 m)) with 52 by lia).
    rewrite Z.pow_succ_r in Hhi by lia.
    assert (0 < 2 ^ (52 - Z.log2 m)) by (apply Z.pow_pos_nonneg; lia). nia.
  - lia.
Qed.

(** What [value] guarantees at depth [64 - room]. *)
Definition sound (room : Z) (v : Value) : Prop :=
  wf_value v ∧ small_containers v ∧ height v ≤ room.

Lemma sound_array room l :
  1 ≤ room → len l ≤ MST5_MAX_PLAIN_PAYLOAD → Forall (sound (room - 1)) l → sound room (VArray l).
Proof.
  intros Hr Hl Hs. unfold sound; cbn [wf_value small_containers height].
  rewrite !fold_and_Forall, fold_max_le by lia.
  rewrite !Forall_forall in *. split; [|split; [split|]]; auto; intros x Hx;
    destruct (Hs x Hx) as (? & ? & ?); auto; lia.
Qed.

Lemma sound_map room l :
  1 ≤ room → len l ≤ MST5_MAX_PLAIN_PAYLOAD →
  Forall (λ kv, is_bytes kv.1 ∧ utf8_valid kv.1 = true ∧ sound (room - 1) kv.2) l →
  sound room (VMap l).
Proof.
  intros Hr Hl Hs. unfold sound; cbn [wf_value small_containers height].
  rewrite (fold_max_le (λ kv : list Z * Value, height kv.2)) by lia.
  rewrite (fold_and_Forall (λ kv : list Z * Value, small_containers kv.2)), fold_and_Forall.
  rewrite !Forall_forall in *. split; [|split; [split|]]; auto; intros x Hx;
    destruct (Hs x Hx) as (? & ? & ? & ? & ?); auto; lia.
Qed.

Lemma land31_nonneg b : 0 ≤ Z.land b 31.
Proof. apply Z.land_nonneg. lia. Qed.

Lemma good_value levels : ∀ depth d v d',
  good d → Z.of_nat levels + depth = 65 → value levels depth d = Ok (v, d') →
  sound (64 - depth) v ∧ good d'.
Proof.
  induction levels as [|levels IH]; intros depth d v d' Hg Hl H; cbn [value] in H; [done|].
  destruct (Z.ltb_spec 64 depth); [done|].
  destruct (byte d) as [[b d1]|] eqn:E1; [|done]. apply good_byte in E1 as [Hb Hg1]; [|done].
  pose proof (land31_nonneg b).
  unfold length_arg in H.
  repeat match type of H with (if ?c =? ?k then _ else _) = _ => destruct (Z.eqb_spec c k) end; try done;
  repeat match type of H with
  | context [argument ?a ?e] =>
      destruct (argument a e) as [[arg d2]|] eqn:E2; [|done]; 
      apply good_argument in E2 as [Hn Hg2]; [|done|done]
  | context [take_slice ?a ?e] =>
      destruct (take_slice a e) as [[l d3]|] eqn:E3; [|done];
      apply good_take in E3 as (? & ? & ?); [|done|widths; lia]
  end; try (inv_ok H; split; [repeat split; simpl; auto; widths; lia|done]).
  - inv_ok H. to_prop. split; [|done]. repeat split; simpl; auto; lia.
  - destruct (Z.ltb_spec MST5_MAX_PLAIN_PAYLOAD arg); [done|].
    destruct (times _ _ _) as [[l d3]|] eqn:Et; [|done]. inv_ok H.
    eapply (good_times (sound (64 - (depth + 1)))) in Et as (Hs & Hlen & ?); [|intros; eapply IH; eauto; lia|done].
    split; [|done]. widths. destruct l as [|x l]; [repeat split; simpl; rewrite ?len_nil; auto; lia|].
    apply sound_array; [|lia|by replace (64 - depth - 1) with (64 - (depth + 1)) by lia].
    inversion Hs as [|?? (_ & _ & Hh)]. pose proof (height_nonneg x). lia.
  - destruct (Z.ltb_spec MST5_MAX_PLAIN_PAYLOAD arg); [done|].
    destruct (times _ _ _) as [[l d3]|] eqn:Et; [|done]. inv_ok H.
    eapply (good_times (λ kv, is_bytes kv.1 ∧ utf8_valid kv.1 = true ∧ sound (64 - (depth + 1)) kv.2))
      in Et as (Hs & Hlen & ?); [| |done].
    + split; [|done]. widths. destruct l as [|x l]; [repeat split; simpl; rewrite ?len_nil; auto; lia|].
      apply sound_map; [|lia|by replace (64 - depth - 1) with (64 - (depth + 1)) by lia].
      inversion Hs as [|?? (_ & _ & _ & _ & Hh)]. pose proof (height_nonneg x.2). lia.
    + intros c [k x] c' Hge He. unfold map_entry in He. inv_ok He.
      match goal with H : value _ _ c = _ |- _ => apply IH in H as [([? ?] & _ & _) ?]; [|done|lia] end.
      match goal with H : value _ _ _ = _ |- _ => apply IH in H as [? ?]; [|done|lia] end. auto.
  - inv_ok H. split; [|done]. repeat split; simpl; try lia; apply f32_to_f64_range;
      match goal with H : is_bytes l |- _ => apply from_be_bound in H end;
      match goal with H : len l = _ |- _ => rewrite H in * end; widths; lia.
  - inv_ok H. split; [|done].
      match goal with H : is_bytes l |- _ => apply from_be_bound in H end;
      match goal with H : len l = _ |- _ => rewrite H in * end; repeat split; simpl; widths; lia.
Qed.

Lemma cursor_start input : len input ≤ i64_max → cursor_at input (mkCborDecoder input 0) input.
Proof. intros. repeat split; simpl; try lia. Qed.

#[local] Opaque value.

(** ** Main results *)

Lemma cbor_decode_encode v :
  wf_value v → small_containers v → height v ≤ 64 → len (encode_cbor v) ≤ i64_max →
  decode_cbor (encode_cbor v) = Ok (normalise v).
Proof.
  intros Hwf Hs Hh Hl. unfold encode_cbor, decode_cbor in *.
  pose proof (cursor_start _ Hl) as Hc. rewrite <- (app_nil_r (encode_cbor_value v)) in Hc at 3.
  destruct (reads_back_all _ v 65%nat 0 _ [] Hwf Hs Hh eq_refl Hc) as (d' & -> & Hi & _ & _ & Hp & _).
  rewrite Hi, len_nil in Hp. by replace (d_pos d' =? _) with true by lia.
Qed.

(** C36: decoding inverts encoding.  For every well-formed value, nested at most
    64 deep and with containers of at most 4 Mi entries, [decode_cbor] accepts
    what [encode_cbor] wrote, consumes all of it, and returns the same value
    with non-negative integers in their unsigned form. *)
Theorem cbor_roundtrip v :
  wf_value v → small_containers v → height v ≤ 64 → len (encode_cbor v) ≤ i64_max →
  decode_cbor (encode_cbor v) = Ok (normalise v).
Proof. apply cbor_decode_encode. Qed.

(** The request body of [Client::send], as a value. *)
Definition sample_value : Value :=
  VMap [(lit "to", VText (lit "@alice")); (lit "ids", VArray [VInteger 7; VInteger (-7); VNull])].

Lemma cbor_roundtrip_witness :
  decode_cbor (encode_cbor sample_value) =
    Ok (VMap [(lit "to", VText (lit "@alice")); (lit "ids", VArray [VUnsigned 7; VInteger (-7); VNull])]).
Proof.
  apply (cbor_roundtrip sample_value); [|vm_compute; intuition congruence..].
  repeat split; try apply lit_is_bytes; vm_compute; congruence.
Defined.

(** C37: whatever bytes a peer sends, a value that [decode_cbor] returns is one
    Rust's types allow (integers in range, text valid UTF-8), has no container
    above the 4 Mi limit and is nested at most 64 levels deep. *)
Theorem cbor_decode_sound input v :
  is_bytes input → decode_cbor input = Ok v →
  wf_value v ∧ small_containers v ∧ height v ≤ 64.
Proof.
  intros Hb H. unfold decode_cbor in H. destruct (value _ _ _) as [[x d]|] eqn:E; [|done].
  eapply good_value in E as [Hs _]; [|split; simpl; auto; pose proof (len_nonneg input); lia|lia].
  inv_ok H. rewrite Z.sub_0_r in Hs. exact Hs.
Qed.

Lemma cbor_decode_sound_witness :
  wf_value (VArray [VUnsigned 500; VText (lit "x")]) ∧
  small_containers (VArray [VUnsigned 500; VText (lit "x")]) ∧
  height (VArray [VUnsigned 500; VText (lit "x")]) ≤ 64.
Proof.
  apply (cbor_decode_sound [130; 25; 1; 244; 97; 120]); [|reflexivity].
  by_vm.
Defined.

(** Encodings are self-delimiting: two encoded values followed by anything
    can only be equal if the values agree (up to integer form) and the
    remainders do, so a concatenation of encodings has one reading. *)
Theorem cbor_prefix_free v w s t :
  wf_value v → wf_value w → small_containers v → small_containers w →
  height v ≤ 64 → height w ≤ 64 → len (encode_cbor v ++ s) ≤ i64_max →
  encode_cbor v ++ s = encode_cbor w ++ t → normalise v = normalise w ∧ s = t.
Proof.
  intros Hv Hw Hsv Hsw Hhv Hhw Hl E. unfold encode_cbor in *.
  pose proof (cursor_start _ Hl) as Hc.
  destruct (reads_back_all _ v 65%nat 0 _ s Hv Hsv Hhv eq_refl Hc) as (d1 & E1 & _ & _ & Hd1 & _).
  rewrite E in Hc at 3.
  destruct (reads_back_all _ w 65%nat 0 _ t Hw Hsw Hhw eq_refl Hc) as (d2 & E2 & _ & _ & Hd2 & _).
  rewrite E1 in E2. simplify_eq. auto.
Qed.

Lemma cbor_prefix_free_witness :
  normalise (VInteger 5) = normalise (VUnsigned 5) ∧ ([246] : list Z) = [246].
Proof.
  apply (cbor_prefix_free (VInteger 5) (VUnsigned 5) [246] [246]);
    vm_compute; intuition congruence.
Defined.

(** The bytes the encoder writes are bytes. *)
Lemma encode_cbor_head_bytes major n : is_bytes (encode_cbor_head major n).
Proof.
  assert (∀ z a, 0 ≤ a ≤ 255 → is_u8 (Z.lor (as_u8 z) a)) as Hlor.
  { intros z a Ha. widths. unfold as_u8. pose proof (Z.mod_pos_bound z 256 ltac:(lia)).
    split; [apply Z.lor_nonneg; lia|]. apply Z.lt_succ_r. change (Z.succ 255) with (2 ^ 8).
    destruct (Z.eq_dec (Z.lor (z mod 256) a) 0) as [->|]; [lia|].
    assert (0 ≤ Z.lor (z mod 256) a) by (apply Z.lor_nonneg; lia).
    apply Z.log2_lt_pow2; [lia|]. rewrite Z.log2_lor by lia.
    pose proof (Z.log2_le_mono (z mod 256) 255). pose proof (Z.log2_le_mono a 255).
    change (Z.log2 255) with 7 in *. lia. }
  assert (∀ z, is_u8 (as_u8 z)) as Has by (intros; widths; unfold as_u8; div_lia).
  unfold encode_cbor_head. repeat case_match; repeat (apply is_bytes_cons; split);
    auto using be_bytes_is_bytes; try (apply Hlor; lia); try apply Forall_nil_2.
  all: try exact (Has (_ / _)). apply Hlor. unfold as_u8. pose proof (Z.mod_pos_bound n 256). lia.
Qed.

Lemma encode_cbor_bytes v : wf_value v → is_bytes (encode_cbor_value v).
Proof.
  assert (∀ l, Forall is_bytes l → is_bytes (concat l)) as Hc.
  { induction 1; simpl; [constructor|by apply is_bytes_app]. }
  induction v using Value_rect_nested; intros Hwf; cbn [encode_cbor_value wf_value] in *;
    rewrite ?is_bytes_app.
  - by_vm.
  - by destruct b; apply (bool_decide_unpack _).
  - apply encode_cbor_head_bytes.
  - case_match; apply encode_cbor_head_bytes.
  - apply is_bytes_cons. split; [widths; lia|apply be_bytes_is_bytes].
  - split; [apply encode_cbor_head_bytes|done].
  - split; [apply encode_cbor_head_bytes|apply Hwf].
  - split; [apply encode_cbor_head_bytes|]. apply fold_and_Forall in Hwf. apply Hc, Forall_map.
    rewrite Forall_forall in *. auto.
  - split; [apply encode_cbor_head_bytes|]. apply fold_and_Forall in Hwf. apply Hc, Forall_map.
    rewrite Forall_forall in *. intros x Hx. destruct (Hwf x Hx) as (? & ? & ?). cbn.
    rewrite !is_bytes_app. auto using encode_cbor_head_bytes.
Qed.
#[export] Hint Resolve encode_cbor_head_bytes encode_cbor_bytes : mst5.
