(* ===== verification/Frame.v ===== *)
(** * MST5 frames (src/src/lib.rs, [Frame])

    The 40-byte frame header, frame construction, encoding and decoding.  The
    decompressors (miniz_oxide and zstd) are third-party code: they are the
    operations of the class [Decompressors], and no theorem here assumes
    anything about what they return. *)
From S2P Require Import Prelude RustStr Cbor.

Module kind.
Definition AUTH : Z := 1.
Definition COMMAND : Z := 2.
Definition QUERY : Z := 3.
Definition RESULT : Z := 4.
Definition EVENT_BATCH : Z := 5.
Definition ACK : Z := 6.
Definition ERROR : Z := 7.
Definition PING : Z := 8.
Definition PONG : Z := 9.
Definition HELLO : Z := 11.
Definition CANCEL : Z := 12.
Definition KEY_UPDATE : Z := 13.
Definition STREAM_OPEN : Z := 14.
Definition STREAM_DATA : Z := 15.
Definition STREAM_END : Z := 16.
Definition STREAM_ABORT : Z := 17.
End kind.

Definition MST5_HEADER_LEN : Z := 40.
Definition MST5_MAX_WIRE_PAYLOAD : Z := 4 * 1024 * 1024.
Definition MST5_FLAG_DEFLATE : Z := 1.
Definition MST5_FLAG_ZSTD : Z := Z.shiftl 1 1.
Definition MST5_MAX_COMPRESSION_RATIO : Z := 64.

Definition valid_kind (value : Z) : bool :=
  in_range kind.AUTH kind.PONG value || in_range kind.HELLO kind.STREAM_ABORT value.

Record Frame := mkFrame {
  fr_kind : Z; fr_flags : Z; fr_code : Z; fr_id : Z;
  fr_request_nonce : list Z; fr_deadline_ms : Z; fr_payload : list Z
}.

#[export] Instance Frame_eq_dec : EqDecision Frame.
Proof. solve_decision. Defined.

(** [[0; 16]]. *)
Definition zero_nonce : list Z := replicate 16 0.

(** [Frame::new]. *)
Definition frame_new (k code id : Z) (payload : list Z) : io Frame :=
  fail_if (negb (valid_kind k)) with invalid_input (lit "invalid MST5 frame kind");
  fail_if (MST5_MAX_PLAIN_PAYLOAD <? len payload)
    with invalid_input (lit "MST5 payload is too large");
  Ok (mkFrame k 0 code id zero_nonce 0 payload).

(** [Frame::request]. *)
Definition frame_request (k code id : Z) (request_nonce : list Z) (deadline_ms : Z)
    (payload : list Z) : io Frame :=
  let? f := frame_new k code id payload in
  Ok (mkFrame (fr_kind f) (fr_flags f) (fr_code f) (fr_id f) request_nonce deadline_ms (fr_payload f)).

(** [Frame::encode_into], which overwrites [out], and [Frame::encode]. *)
Definition encode_into (f : Frame) : io (list Z) :=
  fail_if (negb (fr_flags f =? 0))
    with invalid_input (lit "client MST5 frames must not use compression");
  fail_if (MST5_MAX_WIRE_PAYLOAD <? len (fr_payload f))
    with invalid_input (lit "MST5 wire payload is too large");
  Ok ([fr_kind f; fr_flags f] ++ be_bytes 2 (fr_code f) ++ be_bytes 8 (fr_id f) ++
      fr_request_nonce f ++ be_bytes 8 (fr_deadline_ms f) ++
      be_bytes 4 (as_u32 (len (fr_payload f))) ++ fr_payload f).

Definition encode (f : Frame) : io (list Z) := encode_into f.

(** [decompress_to_vec_with_limit] of miniz_oxide and
    [zstd::bulk::Decompressor::decompress], given the input and the limit. *)
Class Decompressors := {
  inflate : list Z → Z → option (list Z);
  zstd_decompress : list Z → Z → option (list Z);
  zstd_new_ok : bool  (** whether [Decompressor::new] succeeds *)
}.

Section Decode.
Context `{Decompressors}.

Definition zstd_decompress_bounded (input : list Z) (limit : Z) : io (list Z) :=
  fail_if (is_empty input) with invalid_data (lit "empty MST5 zstd payload");
  let? output := ok_or (zstd_decompress input limit)
                   (invalid_data (lit "invalid or oversized MST5 zstd payload")) in
  fail_if (limit <? len output) with invalid_data (lit "inflated MST5 payload is too large");
  fail_if (saturating_mul64 (len input) MST5_MAX_COMPRESSION_RATIO <? len output)
    with invalid_data (lit "MST5 compression ratio exceeds limit");
  Ok output.

(** [flags & (MST5_FLAG_DEFLATE | MST5_FLAG_ZSTD)]. *)
Definition compression_flags (flags : Z) : Z :=
  Z.land flags (Z.lor MST5_FLAG_DEFLATE MST5_FLAG_ZSTD).

Definition decode_with_zstd (input : list Z) : io Frame :=
  fail_if (len input <? MST5_HEADER_LEN) with IoError UnexpectedEof (lit "short MST5 frame");
  let k := nth 0 input 0 in
  let flags := nth 1 input 0 in
  fail_if (negb (valid_kind k)
      || negb (Z.land flags (Z.lnot (Z.lor MST5_FLAG_DEFLATE MST5_FLAG_ZSTD)) =? 0)
      || (compression_flags flags =? Z.lor MST5_FLAG_DEFLATE MST5_FLAG_ZSTD))
    with invalid_data (lit "invalid MST5 frame header");
  fail_if (negb (compression_flags flags =? 0)
      && negb ((k =? kind.RESULT) || (k =? kind.EVENT_BATCH)))
    with invalid_data (lit "compressed MST5 control frame");
  let code := from_be (slice 2 4 input) in
  let id := from_be (slice 4 12 input) in
  let request_nonce := slice 12 28 input in
  let deadline_ms := from_be (slice 28 36 input) in
  let payload_len := from_be (slice 36 40 input) in
  fail_if ((MST5_MAX_WIRE_PAYLOAD <? payload_len)
      || negb (len input =? MST5_HEADER_LEN + payload_len))
    with invalid_data (lit "invalid MST5 payload length");
  let wire_payload := drop 40 input in
  let? payload :=
    (if negb (Z.land flags MST5_FLAG_DEFLATE =? 0) then
       ok_or (inflate wire_payload MST5_MAX_PLAIN_PAYLOAD)
         (invalid_data (lit "invalid or oversized MST5 deflate payload"))
     else if negb (Z.land flags MST5_FLAG_ZSTD =? 0) then
       zstd_decompress_bounded wire_payload MST5_MAX_PLAIN_PAYLOAD
     else Ok wire_payload) in
  fail_if (MST5_MAX_PLAIN_PAYLOAD <? len payload)
    with invalid_data (lit "inflated MST5 payload is too large");
  fail_if (negb (compression_flags flags =? 0) && negb (is_empty wire_payload)
      && (saturating_mul64 (len wire_payload) MST5_MAX_COMPRESSION_RATIO <? len payload))
    with invalid_data (lit "MST5 compression ratio exceeds limit");
  Ok (mkFrame k flags code id request_nonce deadline_ms payload).

(** [Frame::decode]: with a decompressor of its own. *)
Definition decode (input : list Z) : io Frame :=
  fail_if (negb zstd_new_ok) with invalid_data (lit "cannot initialize MST5 zstd decompressor");
  decode_with_zstd input.

End Decode.

(** ** Specification *)

(** A frame the client can send: fields of the Rust types, no flags. *)
Record wf_frame (f : Frame) : Prop := {
  wff_kind : valid_kind (fr_kind f) = true;
  wff_flags : fr_flags f = 0;
  wff_code : is_u16 (fr_code f);
  wff_id : is_u64 (fr_id f);
  wff_nonce : is_bytes (fr_request_nonce f) ∧ length (fr_request_nonce f) = 16%nat;
  wff_deadline : is_u64 (fr_deadline_ms f);
  wff_payload : is_bytes (fr_payload f);
  wff_len : len (fr_payload f) ≤ MST5_MAX_PLAIN_PAYLOAD
}.

(** ** Lemmas *)

(** Reading a field: [slice] of a concatenation whose first part is skipped. *)
Lemma slice_app_skip {A} (a b : nat) (x y : list A) :
  (length x ≤ a)%nat → slice a b (x ++ y) = slice (a - length x) (b - length x) y.
Proof.
  intros. unfold slice. rewrite drop_app_ge by lia. f_equal. lia.
Qed.

Lemma slice_app_here {A} (x y : list A) : slice 0 (length x) (x ++ y) = x.
Proof. unfold slice. by rewrite drop_0, Nat.sub_0_r, take_app_length. Qed.

Lemma slice_app_exact {A} (n : nat) (x y : list A) : length x = n → slice 0 n (x ++ y) = x.
Proof. intros <-. apply slice_app_here. Qed.

Lemma encoded_fields f bs :
  wf_frame f → encode f = Ok bs →
  slice 2 4 bs = be_bytes 2 (fr_code f) ∧ slice 4 12 bs = be_bytes 8 (fr_id f) ∧
  slice 12 28 bs = fr_request_nonce f ∧ slice 28 36 bs = be_bytes 8 (fr_deadline_ms f) ∧
  slice 36 40 bs = be_bytes 4 (len (fr_payload f)) ∧ drop 40 bs = fr_payload f ∧
  bs !! 0%nat = Some (fr_kind f) ∧ bs !! 1%nat = Some 0 ∧ len bs = 40 + len (fr_payload f).
Proof.
  intros [Hk Hf Hc Hi [Hn Hn'] Hd Hp Hl] H. unfold encode, encode_into in H. inv_ok H.
  rewrite Hf. pose proof (len_nonneg (fr_payload f)). unfold MST5_MAX_PLAIN_PAYLOAD in Hl.
  rewrite as_u32_small by (widths; lia).
  repeat split;
    rewrite ?slice_app_skip by (rewrite ?length_be_bytes, ?Hn'; simpl; lia);
    rewrite ?length_be_bytes, ?Hn'; cbn [length Nat.sub];
    try (apply slice_app_exact; by rewrite ?length_be_bytes).
  - rewrite !drop_app_ge; rewrite ?length_be_bytes, ?Hn'; simpl; try lia; done.
  - autorewrite with len. unfold len at 1. rewrite Hn'. simpl. lia.
Qed.

Lemma valid_kind_u8 k : valid_kind k = true → is_u8 k.
Proof.
  unfold valid_kind, in_range, kind.AUTH, kind.PONG, kind.HELLO, kind.STREAM_ABORT. widths. lia.
Qed.

Lemma frame_request_wf k code id nonce deadline payload f :
  is_u16 code → is_u64 id → is_bytes nonce → length nonce = 16%nat → is_u64 deadline →
  is_bytes payload → frame_request k code id nonce deadline payload = Ok f → wf_frame f.
Proof.
  intros. unfold frame_request, frame_new in *.
  destruct (valid_kind k) eqn:?; [|done]. cbn in *.
  destruct (Z.ltb_spec MST5_MAX_PLAIN_PAYLOAD (len payload)); [done|].
  simplify_eq. by constructor.
Qed.

(** The header checks leave three flag bytes. *)
Lemma flags_cases flags :
  is_u8 flags → Z.land flags (Z.lnot (Z.lor MST5_FLAG_DEFLATE MST5_FLAG_ZSTD)) = 0 →
  (compression_flags flags =? Z.lor MST5_FLAG_DEFLATE MST5_FLAG_ZSTD) = false →
  flags ∈ [0; MST5_FLAG_DEFLATE; MST5_FLAG_ZSTD].
Proof.
  intros Hu H1 H2. apply (bool_decide_unpack _).
  assert (implb ((Z.land flags (Z.lnot (Z.lor MST5_FLAG_DEFLATE MST5_FLAG_ZSTD)) =? 0)
      && negb (compression_flags flags =? Z.lor MST5_FLAG_DEFLATE MST5_FLAG_ZSTD))
      (bool_decide (flags ∈ [0; MST5_FLAG_DEFLATE; MST5_FLAG_ZSTD])) = true) as H.
  { revert Hu. generalize flags. apply (forall_u8 (λ z,
      implb ((Z.land z (Z.lnot (Z.lor MST5_FLAG_DEFLATE MST5_FLAG_ZSTD)) =? 0)
      && negb (compression_flags z =? Z.lor MST5_FLAG_DEFLATE MST5_FLAG_ZSTD))
      (bool_decide (z ∈ [0; MST5_FLAG_DEFLATE; MST5_FLAG_ZSTD])))). by vm_compute. }
  rewrite H1, H2 in H. exact (Is_true_eq_left _ H).
Qed.

Lemma encode_decode `{Decompressors} f :
  wf_frame f →
  ∃ bs, encode f = Ok bs ∧ len bs = 40 + len (fr_payload f) ∧ decode_with_zstd bs = Ok f.
Proof.
  intros Hwf. pose proof Hwf as [Hk Hf Hc Hi [Hn Hn'] Hd Hp Hl].
  destruct (encode f) as [bs|] eqn:E.
  2:{ unfold encode, encode_into in E. rewrite Hf in E. cbn [Z.eqb negb] in E.
      unfold MST5_MAX_WIRE_PAYLOAD, MST5_MAX_PLAIN_PAYLOAD in *. inv_ok E.
      rewrite Z.ltb_lt in *. lia. }
  exists bs. split; [done|]. destruct (encoded_fields f bs Hwf E)
    as (Ecode & Eid & Enonce & Edl & Elen & Epay & E0 & E1 & Hlen).
  split; [done|]. unfold decode_with_zstd.
  pose proof (len_nonneg (fr_payload f)). unfold MST5_HEADER_LEN, MST5_MAX_PLAIN_PAYLOAD,
    MST5_MAX_WIRE_PAYLOAD in *.
  rewrite (nth_lookup_Some bs 0 0 (fr_kind f)), (nth_lookup_Some bs 1 0 0) by done.
  rewrite Ecode, Eid, Enonce, Edl, Elen, Epay, Hk, !be_bytes_roundtrip by (widths; simpl; lia).
  unfold compression_flags, MST5_FLAG_DEFLATE, MST5_FLAG_ZSTD.
  rewrite !Z.land_0_l. cbn [Z.eqb negb andb orb Z.shiftl Z.lor Pos.iter Pos.lor].
  zbool. cbn [negb orb]. zbool. destruct f; cbn in *. by subst.
Qed.

(** ** Main results *)

(** [Frame::decode] inverts [Frame::encode]: every well-formed client frame
    is encoded into 40 header bytes and its payload, and decoding these bytes,
    with any decompressors, returns the same frame. *)
Theorem frame_roundtrip `{Decompressors} f :
  wf_frame f →
  ∃ bs, encode f = Ok bs ∧ len bs = 40 + len (fr_payload f) ∧ decode_with_zstd bs = Ok f.
Proof. apply encode_decode. Qed.

(** Decompressors that accept nothing. *)
Definition no_decompressors : Decompressors :=
  {| inflate := λ _ _, None; zstd_decompress := λ _ _, None; zstd_new_ok := true |}.

Definition sample_frame : Frame :=
  mkFrame kind.RESULT 0 200 42 (replicate 16 90) 1780000000000 (lit "payload").

Lemma frame_roundtrip_witness :
  ∃ bs, encode sample_frame = Ok bs ∧ len bs = 40 + len (fr_payload sample_frame) ∧
    @decode_with_zstd no_decompressors bs = Ok sample_frame.
Proof.
  apply (@frame_roundtrip no_decompressors sample_frame).
  constructor; first [reflexivity | by_vm | widths; cbn; lia
    | split; [by_vm|reflexivity] | vm_compute; intuition congruence].
Defined.

(** Whatever the peer and the decompressors do, a frame that decodes has a
    valid kind, at most one compression flag, compression only on RESULT and
    EVENT_BATCH, header fields in range, a payload of at most 4 MiB, and, when
    compressed, a payload at most 64 times the bytes received. *)
Theorem frame_decode_sound `{Decompressors} bs f :
  is_bytes bs → decode_with_zstd bs = Ok f →
  valid_kind (fr_kind f) = true ∧ fr_flags f ∈ [0; MST5_FLAG_DEFLATE; MST5_FLAG_ZSTD] ∧
  (fr_flags f ≠ 0 → fr_kind f = kind.RESULT ∨ fr_kind f = kind.EVENT_BATCH) ∧
  is_u16 (fr_code f) ∧ is_u64 (fr_id f) ∧ is_u64 (fr_deadline_ms f) ∧
  length (fr_request_nonce f) = 16%nat ∧
  len (fr_payload f) ≤ MST5_MAX_PLAIN_PAYLOAD ∧
  (fr_flags f = 0 → fr_payload f = drop 40 bs) ∧
  (fr_flags f ≠ 0 → 40 < len bs → len (fr_payload f) ≤ 64 * (len bs - 40)).
Proof.
  intros Hb Hdec. unfold decode_with_zstd in Hdec.
  destruct (Z.ltb_spec (len bs) MST5_HEADER_LEN) as [|Hlen]; [done|].
  assert (40 ≤ length bs)%nat as Hlen' by (unfold len, MST5_HEADER_LEN in Hlen; lia).
  destruct (negb (valid_kind _) || _ || _) eqn:E1; [done|].
  destruct (negb _ && negb _) eqn:E2; [done|].
  destruct (_ || negb (len bs =? _)) eqn:E3; [done|].
  match type of Hdec with (match ?m with _ => _ end) = _ => destruct m as [payload|] eqn:Epay; [|done] end.
  destruct (Z.ltb_spec MST5_MAX_PLAIN_PAYLOAD (len payload)); [done|].
  destruct (negb _ && negb (is_empty _) && _) eqn:E4; [done|]. inv_ok Hdec; cbn.
  to_prop. rewrite Z.eqb_eq in *.
  assert (nth 1 bs 0 ∈ [0; MST5_FLAG_DEFLATE; MST5_FLAG_ZSTD]) as Hflags.
  { apply flags_cases; auto with mst5. }
  assert (nth 1 bs 0 ≠ 0 → (compression_flags (nth 1 bs 0) =? 0) = false) as Hnz.
  { intros Hf0. apply elem_of_cons in Hflags as [?|Hflags]; [done|].
    apply elem_of_cons in Hflags as [->|Hflags]; [done|].
    apply elem_of_cons in Hflags as [->|Hflags]; [done|]. by apply not_elem_of_nil in Hflags. }
  assert (∀ a b n, (a ≤ b ≤ 40)%nat → (b - a = n)%nat → 0 ≤ from_be (slice a b bs) < 256 ^ Z.of_nat n) as Hfield.
  { intros a b n ? <-. apply from_be_range; auto with mst5. apply length_slice; lia. }
  split; [done|]. split; [done|]. split.
  { intros Hf. rewrite (Hnz Hf) in E2. cbn in E2. to_prop.
    apply orb_prop in E2. rewrite !Z.eqb_eq in E2. done. }
  pose proof (Hfield 2 4 2 ltac:(lia) eq_refl)%nat. pose proof (Hfield 4 12 8 ltac:(lia) eq_refl)%nat.
  pose proof (Hfield 28 36 8 ltac:(lia) eq_refl)%nat. cbn in *.
  do 3 (split; [widths; lia|]). split; [apply length_slice; lia|]. split; [done|]. split.
  { intros Hf. rewrite Hf, !Z.land_0_l in Epay. cbn in Epay. by inv_ok Epay. }
  intros Hf Hne. rewrite (Hnz Hf) in E4. cbn in E4.
  destruct (is_empty (drop 40 bs)) eqn:Ee.
  { destruct (drop 40 bs) eqn:Ed; [|done]. apply (f_equal length) in Ed.
    rewrite length_drop in Ed. unfold len in Hne. simpl in Ed. lia. }
  cbn in E4. apply Z.ltb_ge in E4. unfold saturating_mul64, MST5_MAX_COMPRESSION_RATIO in E4.
  assert (len (drop 40 bs) = len bs - 40) as Hd by (unfold len; rewrite length_drop; lia).
  rewrite Hd in E4. lia.
Qed.

(** An EVENT_BATCH frame whose 4-byte zstd payload expands to [ok]. *)
Definition sample_zstd : Decompressors :=
  {| inflate := λ _ _, None; zstd_decompress := λ _ _, Some (lit "ok"); zstd_new_ok := true |}.
Definition sample_compressed : list Z :=
  [kind.EVENT_BATCH; 2; 0; 200] ++ be_bytes 8 7 ++ zero_nonce ++ be_bytes 8 0 ++ be_bytes 4 4 ++ [1; 2; 3; 4].

Lemma frame_decode_sound_witness :
  len (lit "ok") ≤ 64 * (len sample_compressed - 40).
Proof.
  refine (proj2 (proj2 (proj2 (proj2 (proj2 (proj2 (proj2 (proj2 (proj2
    (@frame_decode_sound sample_zstd sample_compressed
      (mkFrame kind.EVENT_BATCH 2 200 7 zero_nonce 0 (lit "ok")) _ _))))))))) _ _).
  - by_vm.
  - vm_compute. reflexivity.
  - discriminate.
  - vm_compute. reflexivity.
Defined.
