(* ===== verification/Crypto.v ===== *)
(** * Interface to the cryptographic crates

    The client calls sha2, hkdf, chacha20poly1305, x25519-dalek and argon2.
    They are not part of the repository, so they are the operations of the class
    [Crypto]; [CryptoLaws] states the documented behaviour the theorems use
    (output lengths, decryption inverts encryption, Diffie-Hellman agreement).
    No unforgeability or secrecy assumption is made.  [toy_crypto] is an instance
    that satisfies the laws, so that the theorems can be applied to concrete
    inputs. *)
From S2P Require Import Prelude.

Class Crypto := {
  (** [Sha256::digest] *)
  sha256_digest : list Z → list Z;
  (** [Hkdf::<Sha256>::new(Some(salt), ikm).expand(info, out)], by the length of [out] *)
  hkdf_expand : list Z → list Z → list Z → nat → list Z;
  (** [ChaCha20Poly1305::encrypt]: key, 12-byte nonce, aad, message *)
  chacha_encrypt : list Z → list Z → list Z → list Z → option (list Z);
  (** [ChaCha20Poly1305::encrypt_in_place_detached]: new buffer and tag *)
  chacha_encrypt_detached : list Z → list Z → list Z → list Z → option (list Z * list Z);
  (** [ChaCha20Poly1305::decrypt] *)
  chacha_decrypt : list Z → list Z → list Z → list Z → option (list Z);
  (** [XChaCha20Poly1305], with 24-byte nonces *)
  xchacha_encrypt : list Z → list Z → list Z → list Z → option (list Z);
  xchacha_decrypt : list Z → list Z → list Z → list Z → option (list Z);
  (** [diffie_hellman] and [PublicKey::from] of x25519-dalek *)
  x25519 : list Z → list Z → list Z;
  x25519_public : list Z → list Z;
  (** Argon2id with the parameters of [backup_key]: password and salt *)
  argon2id : list Z → list Z → option (list Z)
}.

(** A 32-byte array. *)
Definition key32 (k : list Z) : Prop := is_bytes k ∧ length k = 32%nat.

#[export] Instance key32_dec k : Decision (key32 k).
Proof. unfold key32. apply _. Defined.

Class CryptoLaws `{C : Crypto} : Prop := {
  sha256_key32 m : is_bytes m → key32 (sha256_digest m);
  hkdf_bytes s i f n : is_bytes (hkdf_expand s i f n);
  hkdf_length s i f n : length (hkdf_expand s i f n) = n;
  chacha_total k n a m : key32 k → length n = 12%nat → is_Some (chacha_encrypt k n a m);
  chacha_ct k n a m c :
    chacha_encrypt k n a m = Some c → is_bytes m → is_bytes c ∧ len c = len m + 16;
  chacha_correct k n a m c :
    chacha_encrypt k n a m = Some c → chacha_decrypt k n a c = Some m;
  chacha_pt k n a c m :
    chacha_decrypt k n a c = Some m → is_bytes c → is_bytes m ∧ len c = len m + 16;
  chacha_detached k n a m :
    chacha_encrypt k n a m = (λ ct, ct.1 ++ ct.2) <$> chacha_encrypt_detached k n a m;
  chacha_detached_len k n a m c t :
    chacha_encrypt_detached k n a m = Some (c, t) → length c = length m;
  xchacha_total k n a m : key32 k → length n = 24%nat → is_Some (xchacha_encrypt k n a m);
  xchacha_ct k n a m c :
    xchacha_encrypt k n a m = Some c → is_bytes m → is_bytes c ∧ len c = len m + 16;
  xchacha_correct k n a m c :
    xchacha_encrypt k n a m = Some c → xchacha_decrypt k n a c = Some m;
  xchacha_pt k n a c m :
    xchacha_decrypt k n a c = Some m → is_bytes c → is_bytes m ∧ len c = len m + 16;
  x25519_key32 a p : key32 (x25519 a p);
  x25519_public_key32 a : key32 (x25519_public a);
  x25519_comm a b : x25519 a (x25519_public b) = x25519 b (x25519_public a);
  argon2id_key32 p s k : argon2id p s = Some k → key32 k
}.

(** ** A concrete instance

    Not a secure one: the tag is a checksum of key, nonce, aad and message, and
    the shared secret is a sum.  It shows that the laws are consistent. *)
Module Toy.

(** [n] bytes derived from the sum of [l]. *)
Definition mix (n : nat) (l : list Z) : list Z :=
  be_bytes n (fold_left (λ acc b, acc * 257 + b + 1) l 7).

Definition seal (k n a m : list Z) : list Z * list Z := (m, mix 16 (k ++ n ++ a ++ m)).

Definition encrypt (k n a m : list Z) : option (list Z) :=
  Some ((seal k n a m).1 ++ (seal k n a m).2).

Definition decrypt (k n a c : list Z) : option (list Z) :=
  let m := take (length c - 16) c in
  if beq c (m ++ mix 16 (k ++ n ++ a ++ m)) then Some m else None.

Definition toy_crypto : Crypto := {|
  sha256_digest := mix 32;
  hkdf_expand := λ s i f n, mix n (s ++ i ++ f);
  chacha_encrypt := encrypt;
  chacha_encrypt_detached := λ k n a m, Some (seal k n a m);
  chacha_decrypt := decrypt;
  xchacha_encrypt := encrypt;
  xchacha_decrypt := decrypt;
  x25519 := λ a p, be_bytes 32 (from_be a mod 256 ^ 32 + from_be p mod 256 ^ 32);
  x25519_public := λ a, be_bytes 32 (from_be a);
  argon2id := λ p s, Some (mix 32 (p ++ s))
|}.

Lemma mix_length n l : length (mix n l) = n.
Proof. apply length_be_bytes. Qed.

Lemma mix_bytes n l : is_bytes (mix n l).
Proof. apply be_bytes_is_bytes. Qed.

Lemma encrypt_decrypt k n a m c : encrypt k n a m = Some c → decrypt k n a c = Some m.
Proof.
  unfold encrypt, decrypt, seal. cbn [fst snd]. intros H. apply Some_inj' in H. subst c.
  rewrite length_app, mix_length.
  replace (length m + 16 - 16)%nat with (length m) by lia. rewrite take_app_length.
  by rewrite (proj2 (bool_decide_eq_true _) eq_refl : beq _ _ = true).
Qed.

Lemma encrypt_ct k n a m c :
  encrypt k n a m = Some c → is_bytes m → is_bytes c ∧ len c = len m + 16.
Proof.
  unfold encrypt, seal. cbn [fst snd]. intros H Hm. apply Some_inj' in H. subst c.
  rewrite is_bytes_app, len_app. unfold len at 2. rewrite mix_length.
  auto using mix_bytes.
Qed.

Lemma decrypt_pt k n a c m :
  decrypt k n a c = Some m → is_bytes c → is_bytes m ∧ len c = len m + 16.
Proof.
  unfold decrypt. intros H Hc.
  assert (c = take (length c - 16) c ++ mix 16 (k ++ n ++ a ++ take (length c - 16) c)
          ∧ m = take (length c - 16) c) as [E ->].
  { case_match; simplify_eq; to_prop; auto. }
  split; [by apply is_bytes_take|]. rewrite E at 1. rewrite len_app.
  unfold len at 2. by rewrite mix_length.
Qed.

#[export] Instance toy_laws : @CryptoLaws toy_crypto.
Proof.
  constructor; cbn; intros; unfold key32; eauto using mix_length, mix_bytes, encrypt_ct,
    encrypt_decrypt, decrypt_pt, be_bytes_is_bytes, length_be_bytes;
    try (split; [apply mix_bytes || apply be_bytes_is_bytes|apply mix_length || apply length_be_bytes]).
  - match goal with H : Some _ = Some _ |- _ => unfold seal in H; by injection H as <- <- end.
  - rewrite !from_be_be_bytes, !Z.mod_mod by lia. f_equal. lia.
  - simplify_eq. split; [apply mix_bytes|apply mix_length].
Qed.
End Toy.
