(* ===== verification/Record.v ===== *)
(** * The encrypted record layer (src/src/lib.rs, src/src/connection.rs)

    [CipherState], the Noise [SymmetricState], transport padding, [Session]
    records, the handshake, and the record routines the connection uses.  The
    byte stream is [Stream]: what the peer will deliver, what was written, and a
    schedule of I/O failures (timeouts included), so that every error path is
    reachable. *)
From Stdlib Require Import Sorted.
From S2P Require Import Prelude RustStr Cbor Frame Crypto.

Definition CLIENT_MAGIC : list Z := lit "RCP5".
Definition SERVER_MAGIC : list Z := lit "RSP5".
Definition HANDSHAKE_MESSAGE_LEN : Z := 48.
Definition TAG_LEN : Z := 16.
Definition MAX_TRANSPORT_PAYLOAD : Z := 20 * 1024 * 1024.
Definition PADDING_BLOCK : Z := 256.
Definition LARGE_PADDING_BLOCK : Z := 128.
Definition LARGE_PADDING_THRESHOLD : Z := 1024.
Definition MAX_RECORDS : Z := Z.shiftl 1 20.
Definition MAX_PLAINTEXT_BYTES : Z := Z.shiftl 1 30.
Definition REKEY_RECORDS : Z := Z.shiftl 1 18.
Definition REKEY_BYTES : Z := Z.shiftl 256 20.
Definition PROTOCOL_NAME : list Z := lit "Noise_NK_25519_ChaChaPoly_SHA256".
Definition PROLOGUE : list Z := lit "MicroMsg Secure Transport v5" ++ [0] ++ lit "RCP5" ++ [0] ++ lit "RSP5".
Definition RECORD_LABEL : list Z := lit "MST5 record".

(** ** The byte stream *)

Record Stream := mkStream {
  s_in : list Z;                       (** bytes the peer will deliver *)
  s_out : list Z;                      (** bytes written so far *)
  s_faults : list (option io_error)    (** outcome of the next I/O calls; [None] is success *)
}.

Definition io_call (s : Stream) : io Stream :=
  match s_faults s with
  | Some e :: _ => Err e
  | None :: t => Ok (mkStream (s_in s) (s_out s) t)
  | [] => Ok s
  end.

Definition write_all (bs : list Z) (s : Stream) : io Stream :=
  let? s1 := io_call s in Ok (mkStream (s_in s1) (s_out s1 ++ bs) (s_faults s1)).

Definition flush (s : Stream) : io Stream := io_call s.

Definition read_exact (n : Z) (s : Stream) : io (list Z * Stream) :=
  let? s1 := io_call s in
  fail_if (len (s_in s1) <? n) with IoError UnexpectedEof (lit "early eof");
  Ok (take (Z.to_nat n) (s_in s1), mkStream (drop (Z.to_nat n) (s_in s1)) (s_out s1) (s_faults s1)).

(** ** Transport plaintext: content type, length, payload, zero padding *)

Inductive Record_ := Application (payload : list Z) | Close.

Definition transport_plaintext_into (content_type : Z) (payload : list Z) : io (list Z) :=
  fail_if ((1 <? content_type) || ((content_type =? 1) && negb (is_empty payload)))
    with invalid_input (lit "invalid MST5 transport content type");
  fail_if (MAX_TRANSPORT_PAYLOAD <? len payload)
    with invalid_input (lit "MST5 transport payload is too large");
  let? base := ok_or (checked_add64 5 (len payload))
                 (invalid_input (lit "MST5 transport payload overflow")) in
  let block := if base <=? LARGE_PADDING_THRESHOLD then PADDING_BLOCK else LARGE_PADDING_BLOCK in
  let? padded := ok_or (option_map (λ v, v / block * block) (checked_add64 base (block - 1)))
                   (invalid_input (lit "MST5 transport padding overflow")) in
  Ok ([content_type] ++ be_bytes 4 (as_u32 (len payload)) ++ payload ++
      replicate (Z.to_nat (padded - base)) 0).

Definition transport_plaintext (content_type : Z) (payload : list Z) : io (list Z) :=
  transport_plaintext_into content_type payload.

Definition parse_transport_plaintext (plaintext : list Z) : io Record_ :=
  fail_if (len plaintext <? 5) with invalid_data (lit "invalid MST5 transport padding length");
  let content_type := nth 0 plaintext 0 in
  let payload_len := from_be (slice 1 5 plaintext) in
  fail_if ((MAX_TRANSPORT_PAYLOAD <? payload_len) || (len plaintext <? 5 + payload_len))
    with invalid_data (lit "invalid MST5 transport payload length");
  let n := Z.to_nat payload_len in
  fail_if (existsb (λ b, negb (b =? 0)) (drop (5 + n) plaintext))
    with invalid_data (lit "invalid MST5 transport padding");
  if content_type =? 0 then Ok (Application (slice 5 (5 + n) plaintext))
  else if (content_type =? 1) && (payload_len =? 0) then Ok Close
  else Err (invalid_data (lit "invalid MST5 transport content type")).

Definition max_record_len : Z :=
  let base := 5 + MAX_TRANSPORT_PAYLOAD in
  let padded := div_ceil base LARGE_PADDING_BLOCK * LARGE_PADDING_BLOCK in
  8 + padded + TAG_LEN.

Definition record_aad (handshake_hash : list Z) (frame_length sequence : Z) : io (list Z) :=
  fail_if (u32_max <? frame_length) with invalid_data (lit "MST5 encrypted record is too large");
  Ok (RECORD_LABEL ++ handshake_hash ++ be_bytes 4 frame_length ++ be_bytes 8 sequence).

Definition aead_nonce (nonce : Z) : list Z := replicate 4 0 ++ le_bytes 8 nonce.

Record CipherState := mkCipherState {
  cs_key : list Z; cs_nonce : Z; cs_plaintext_bytes : Z; cs_generation : Z
}.

Record SymmetricState := mkSymmetricState {
  ss_chaining_key : list Z; ss_handshake_hash : list Z;
  ss_cipher_key : option (list Z); ss_cipher_nonce : Z
}.

Record Session := mkSession {
  se_seal : CipherState; se_open : CipherState; se_handshake_hash : list Z
}.

(** [CipherState::new]. *)
Definition cipher_new (key : list Z) : CipherState := mkCipherState key 0 0 0.

Definition check_limit (c : CipherState) (plaintext_len : Z) : io unit :=
  fail_if (MAX_RECORDS <=? cs_nonce c)
    with invalid_data (lit "MST5 record limit reached; reconnect required");
  let? total := ok_or (checked_add64 (cs_plaintext_bytes c) plaintext_len)
                  (invalid_data (lit "MST5 byte count overflow")) in
  fail_if (MAX_PLAINTEXT_BYTES <? total)
    with invalid_data (lit "MST5 byte limit reached; reconnect required");
  Ok tt.

Definition require_nonzero_shared (shared : list Z) : io unit :=
  fail_if (forallb (Z.eqb 0) shared) with invalid_data (lit "invalid MST5 X25519 shared secret");
  Ok tt.

Section Crypto_ops.
Context `{C : Crypto}.

Definition sha256 (data : list Z) : list Z := sha256_digest data.

Definition hkdf (chaining_key input_key_material : list Z) : list Z * list Z :=
  let output := hkdf_expand chaining_key input_key_material [] 64 in
  (take 32 output, drop 32 output).

Definition aead_encrypt (key : list Z) (nonce : Z) (aad plaintext : list Z) : io (list Z) :=
  fail_if (negb (len key =? 32)) with invalid_input (lit "invalid ChaCha20-Poly1305 key");
  ok_or (chacha_encrypt key (aead_nonce nonce) aad plaintext)
    (invalid_data (lit "MST5 encryption failed")).

(** The buffer after the in-place encryption, and the tag. *)
Definition aead_encrypt_in_place (key : list Z) (nonce : Z) (aad plaintext : list Z)
  : io (list Z * list Z) :=
  fail_if (negb (len key =? 32)) with invalid_input (lit "invalid ChaCha20-Poly1305 key");
  ok_or (chacha_encrypt_detached key (aead_nonce nonce) aad plaintext)
    (invalid_data (lit "MST5 encryption failed")).

Definition aead_decrypt (key : list Z) (nonce : Z) (aad ciphertext_and_tag : list Z) : io (list Z) :=
  fail_if (len ciphertext_and_tag <? TAG_LEN) with invalid_data (lit "MST5 ciphertext is too short");
  fail_if (negb (len key =? 32)) with invalid_input (lit "invalid ChaCha20-Poly1305 key");
  ok_or (chacha_decrypt key (aead_nonce nonce) aad ciphertext_and_tag)
    (invalid_data (lit "MST5 authentication failed")).

(** ** [CipherState::commit]: counters, and a new key at the rekey boundary *)
Definition commit (c : CipherState) (plaintext_len : Z) (handshake_hash : list Z) : io CipherState :=
  let? bytes := ok_or (checked_add64 (cs_plaintext_bytes c) plaintext_len)
                  (invalid_data (lit "MST5 byte count overflow")) in
  let? nonce := ok_or (checked_add64 (cs_nonce c) 1) (invalid_data (lit "MST5 nonce exhausted")) in
  if (REKEY_RECORDS <=? nonce) || (REKEY_BYTES <=? bytes) then
    let? generation := ok_or (checked_add64 (cs_generation c) 1)
                         (invalid_data (lit "MST5 key generation exhausted")) in
    let material := handshake_hash ++ be_bytes 8 generation in
    Ok (mkCipherState (hkdf (cs_key c) material).1 0 0 generation)
  else Ok (mkCipherState (cs_key c) nonce bytes (cs_generation c)).

(** ** [SymmetricState] *)
Definition mix_hash (st : SymmetricState) (data : list Z) : SymmetricState :=
  mkSymmetricState (ss_chaining_key st) (sha256 (ss_handshake_hash st ++ data))
    (ss_cipher_key st) (ss_cipher_nonce st).

Definition symmetric_new (server_static_public : list Z) : SymmetricState :=
  let st := mkSymmetricState PROTOCOL_NAME PROTOCOL_NAME None 0 in
  mix_hash (mix_hash st PROLOGUE) server_static_public.

Definition mix_key (st : SymmetricState) (input_key_material : list Z) : SymmetricState :=
  let '(new_chaining_key, new_cipher_key) := hkdf (ss_chaining_key st) input_key_material in
  mkSymmetricState new_chaining_key (ss_handshake_hash st) (Some new_cipher_key) 0.

Definition encrypt_and_hash (st : SymmetricState) (plaintext : list Z) : io (list Z * SymmetricState) :=
  match ss_cipher_key st with
  | Some key =>
      let? ciphertext := aead_encrypt key (ss_cipher_nonce st) (ss_handshake_hash st) plaintext in
      let? nonce := ok_or (checked_add64 (ss_cipher_nonce st) 1)
                      (invalid_data (lit "MST5 handshake nonce exhausted")) in
      Ok (ciphertext, mix_hash (mkSymmetricState (ss_chaining_key st) (ss_handshake_hash st)
                                  (Some key) nonce) ciphertext)
  | None => Ok (plaintext, mix_hash st plaintext)
  end.

Definition decrypt_and_hash (st : SymmetricState) (ciphertext : list Z) : io (list Z * SymmetricState) :=
  match ss_cipher_key st with
  | Some key =>
      let? plaintext := aead_decrypt key (ss_cipher_nonce st) (ss_handshake_hash st) ciphertext in
      let? nonce := ok_or (checked_add64 (ss_cipher_nonce st) 1)
                      (invalid_data (lit "MST5 handshake nonce exhausted")) in
      Ok (plaintext, mix_hash (mkSymmetricState (ss_chaining_key st) (ss_handshake_hash st)
                                 (Some key) nonce) ciphertext)
  | None => Ok (ciphertext, mix_hash st ciphertext)
  end.

Definition split (st : SymmetricState) : CipherState * CipherState :=
  let '(first, second) := hkdf (ss_chaining_key st) [] in (cipher_new first, cipher_new second).

(** ** [Session] *)

(** The body shared by [Session::seal_record] and its callers: one record under
    one cipher state. *)
Definition seal_with (c : CipherState) (handshake_hash : list Z) (content_type : Z) (payload : list Z)
  : io (list Z * CipherState) :=
  let? plaintext := transport_plaintext content_type payload in
  let? _ := check_limit c (len plaintext) in
  let sequence := cs_nonce c in
  let? frame_length :=
    match checked_add64 8 (len plaintext) with
    | Some v => ok_or (checked_add64 v TAG_LEN) (invalid_data (lit "MST5 record length overflow"))
    | None => Err (invalid_data (lit "MST5 record length overflow"))
    end in
  let? aad := record_aad handshake_hash frame_length sequence in
  let? ciphertext := aead_encrypt (cs_key c) sequence aad plaintext in
  let? c' := commit c (len plaintext) handshake_hash in
  Ok (be_bytes 8 sequence ++ ciphertext, c').

Definition seal_record (s : Session) (content_type : Z) (payload : list Z) : io (list Z * Session) :=
  let? (record, c) := seal_with (se_seal s) (se_handshake_hash s) content_type payload in
  Ok (record, mkSession c (se_open s) (se_handshake_hash s)).

Definition open_with (c : CipherState) (handshake_hash : list Z) (record : list Z)
  : io (Record_ * CipherState) :=
  fail_if ((len record <? 8 + TAG_LEN) || (max_record_len <? len record))
    with invalid_data (lit "invalid MST5 encrypted record length");
  let sequence := from_be (take 8 record) in
  fail_if (negb (sequence =? cs_nonce c))
    with invalid_data (lit "MST5 encrypted record sequence mismatch");
  let plaintext_len := len record - 8 - TAG_LEN in
  let? _ := check_limit c plaintext_len in
  let? aad := record_aad handshake_hash (len record) sequence in
  let? plaintext := aead_decrypt (cs_key c) sequence aad (drop 8 record) in
  let? decoded := parse_transport_plaintext plaintext in
  let? c' := commit c (len plaintext) handshake_hash in
  Ok (decoded, c').

Definition open_record (s : Session) (record : list Z) : io (Record_ * Session) :=
  let? (decoded, c) := open_with (se_open s) (se_handshake_hash s) record in
  Ok (decoded, mkSession (se_seal s) c (se_handshake_hash s)).

(** [Session::write_frame] and [Session::read_frame]. *)
Definition session_write_frame (s : Session) (w : Stream) (payload : list Z) : io (Session * Stream) :=
  let? (record, s') := seal_record s 0 payload in
  let? w1 := write_all (be_bytes 4 (as_u32 (len record)) ++ record) w in
  let? w2 := flush w1 in
  Ok (s', w2).

Definition session_read_frame (s : Session) (r : Stream) : io (option (list Z) * Session * Stream) :=
  let? (size, r1) := read_exact 4 r in
  let length_ := from_be size in
  fail_if ((length_ <? 8 + TAG_LEN) || (max_record_len <? length_))
    with invalid_data (lit "invalid MST5 encrypted record length");
  let? (record, r2) := read_exact length_ r1 in
  let? (decoded, s') := open_record s record in
  match decoded with
  | Application payload => Ok (Some payload, s', r2)
  | Close => Ok (None, s', r2)
  end.

(** ** [client_handshake]; [client_private] is the random ephemeral secret *)
Definition client_handshake (client_private pinned_public : list Z) (stream : Stream)
  : io (Session * Stream) :=
  let client_public_bytes := x25519_public client_private in
  let st := mix_hash (symmetric_new pinned_public) client_public_bytes in
  let es := x25519 client_private pinned_public in
  let? _ := require_nonzero_shared es in
  let st := mix_key st es in
  let? (tag, st) := encrypt_and_hash st [] in
  fail_if (negb (len tag =? TAG_LEN)) with invalid_data (lit "invalid MST5 client handshake tag length");
  let hello := CLIENT_MAGIC ++ be_bytes 2 HANDSHAKE_MESSAGE_LEN ++ client_public_bytes ++ tag in
  let? stream := write_all hello stream in
  let? stream := flush stream in
  let? (header, stream) := read_exact 6 stream in
  fail_if (negb (beq (take 4 header) SERVER_MAGIC)
      || negb (from_be (slice 4 6 header) =? HANDSHAKE_MESSAGE_LEN))
    with invalid_data (lit "invalid MST5 server hello");
  let? (server_message, stream) := read_exact HANDSHAKE_MESSAGE_LEN stream in
  let server_ephemeral_bytes := take 32 server_message in
  let st := mix_hash st server_ephemeral_bytes in
  let ee := x25519 client_private server_ephemeral_bytes in
  let? _ := require_nonzero_shared ee in
  let st := mix_key st ee in
  let? (payload, st) := decrypt_and_hash st (drop 32 server_message) in
  fail_if (negb (is_empty payload)) with invalid_data (lit "invalid MST5 server handshake payload");
  let '(client_to_server, server_to_client) := split st in
  Ok (mkSession client_to_server server_to_client (ss_handshake_hash st), stream).

(** ** The connection's routines (src/src/connection.rs)

    [seal_record_into] reuses the plaintext buffer: it is encrypted in place and
    the tag is appended to the record. *)
Definition seal_record_into (c : CipherState) (handshake_hash : list Z) (content_type : Z)
    (payload : list Z) : io (list Z * CipherState) :=
  let? plaintext := transport_plaintext_into content_type payload in
  let? _ := check_limit c (len plaintext) in
  let sequence := cs_nonce c in
  let? frame_length :=
    match checked_add64 8 (len plaintext) with
    | Some v => ok_or (checked_add64 v TAG_LEN) (invalid_data (lit "MST5 record length overflow"))
    | None => Err (invalid_data (lit "MST5 record length overflow"))
    end in
  let? aad := record_aad handshake_hash frame_length sequence in
  let? (ciphertext, tag) := aead_encrypt_in_place (cs_key c) sequence aad plaintext in
  let record := be_bytes 8 sequence ++ ciphertext ++ tag in
  let? c' := commit c (len ciphertext) handshake_hash in
  Ok (record, c').

(** [write_frame_locked]. *)
Definition write_frame_locked (c : CipherState) (handshake_hash : list Z) (w : Stream) (f : Frame)
  : io (CipherState * Stream) :=
  let? encoded := encode_into f in
  let? (record, c') := seal_record_into c handshake_hash 0 encoded in
  let? w1 := write_all (be_bytes 4 (as_u32 (len record))) w in
  let? w2 := write_all record w1 in
  let? w3 := flush w2 in
  Ok (c', w3).

(** [write_close_locked]; the final [shutdown] result is discarded. *)
Definition write_close_locked (c : CipherState) (handshake_hash : list Z) (w : Stream)
  : io (CipherState * Stream) :=
  let? (record, c') := seal_record_into c handshake_hash 1 [] in
  let? w1 := write_all (be_bytes 4 (as_u32 (len record))) w in
  let? w2 := write_all record w1 in
  let? w3 := flush w2 in
  Ok (c', w3).

(** [read_frame] of the reader task: [None] is the peer's CLOSE record. *)
Definition read_frame `{Decompressors} (c : CipherState) (handshake_hash : list Z) (r : Stream)
  : io (option Frame * CipherState * Stream) :=
  let? (size, r1) := read_exact 4 r in
  let length_ := from_be size in
  fail_if ((length_ <? 8 + TAG_LEN) || (max_record_len <? length_))
    with invalid_data (lit "invalid MST5 encrypted record length");
  let? (record, r2) := read_exact length_ r1 in
  let sequence := from_be (take 8 record) in
  fail_if (negb (sequence =? cs_nonce c))
    with invalid_data (lit "MST5 encrypted record sequence mismatch");
  let plaintext_len := len record - 8 - TAG_LEN in
  let? _ := check_limit c plaintext_len in
  let? aad := record_aad handshake_hash (len record) sequence in
  let? plaintext := aead_decrypt (cs_key c) sequence aad (drop 8 record) in
  let? decoded := parse_transport_plaintext plaintext in
  let? c' := commit c (len plaintext) handshake_hash in
  match decoded with
  | Application payload =>
      let? f := decode_with_zstd payload in Ok (Some f, c', r2)
  | Close => Ok (None, c', r2)
  end.

End Crypto_ops.

(** ** Invariant of a cipher state

    Between two records of an established session the counters are below the
    rekey thresholds, and no plaintext has been counted under an unused key. *)
Record cipher_ok (c : CipherState) : Prop := {
  ck_key : key32 (cs_key c);
  ck_nonce : 0 ≤ cs_nonce c < REKEY_RECORDS;
  ck_bytes : 0 ≤ cs_plaintext_bytes c < REKEY_BYTES;
  ck_fresh : cs_nonce c = 0 → cs_plaintext_bytes c = 0;
  ck_generation : is_u64 (cs_generation c)
}.

(** What [parse_transport_plaintext] recovers from a content type and payload. *)
Definition record_of (content_type : Z) (payload : list Z) : Record_ :=
  if content_type =? 0 then Application payload else Close.

(** The records the client can form: application data, or an empty CLOSE. *)
Record wf_record (content_type : Z) (payload : list Z) : Prop := {
  wr_type : content_type = 0 ∨ (content_type = 1 ∧ payload = []);
  wr_bytes : is_bytes payload;
  wr_len : len payload ≤ MAX_TRANSPORT_PAYLOAD
}.

Ltac consts :=
  try change MAX_RECORDS with 1048576 in *; try change MAX_PLAINTEXT_BYTES with 1073741824 in *;
  try change REKEY_RECORDS with 262144 in *; try change REKEY_BYTES with 268435456 in *;
  unfold MAX_TRANSPORT_PAYLOAD, PADDING_BLOCK, LARGE_PADDING_BLOCK, LARGE_PADDING_THRESHOLD, TAG_LEN in *.

(** The padded length: a multiple of the block, with less than one block added. *)
Definition padded_len (n : Z) : Z :=
  let base := 5 + n in
  let block := if base <=? LARGE_PADDING_THRESHOLD then PADDING_BLOCK else LARGE_PADDING_BLOCK in
  (base + (block - 1)) / block * block.

Lemma padded_len_bound n :
  0 ≤ n → 5 + n ≤ padded_len n < 5 + n + 256 ∧ padded_len n mod 128 = 0.
Proof.
  intros. unfold padded_len. consts. destruct (Z.leb_spec (5 + n) 1024); div_lia.
Qed.

Lemma padded_len_max n : 0 ≤ n ≤ MAX_TRANSPORT_PAYLOAD → 8 + padded_len n + TAG_LEN ≤ max_record_len.
Proof.
  intros. unfold padded_len, max_record_len, div_ceil. consts.
  destruct (Z.leb_spec (5 + n) 1024); div_lia.
Qed.

Lemma transport_plaintext_ok ct p :
  wf_record ct p →
  transport_plaintext ct p =
    Ok ([ct] ++ be_bytes 4 (len p) ++ p ++ replicate (Z.to_nat (padded_len (len p) - (5 + len p))) 0).
Proof.
  intros [Ht Hb Hl]. pose proof (len_nonneg p). unfold transport_plaintext, transport_plaintext_into.
  assert ((1 <? ct) || (ct =? 1) && negb (is_empty p) = false) as ->
    by (destruct Ht as [->|[-> ->]]; done).
  consts. zbool. unfold checked_add64 at 1. widths. zbool. cbn [ok_or].
  unfold checked_add64, padded_len. widths. consts.
  destruct (Z.leb_spec (5 + len p) 1024); zbool; cbn [ok_or option_map];
    (rewrite as_u32_small by (widths; lia); done).
Qed.

Lemma len_padded ct p :
  len ([ct] ++ be_bytes 4 (len p) ++ p ++ replicate (Z.to_nat (padded_len (len p) - (5 + len p))) 0)
  = padded_len (len p).
Proof.
  pose proof (padded_len_bound (len p) (len_nonneg p)). autorewrite with len.
  rewrite Z2Nat.id by lia. lia.
Qed.

Lemma existsb_replicate_0 n : existsb (λ b, negb (b =? 0)) (replicate n 0) = false.
Proof. induction n; simpl; auto. Qed.

Lemma parse_padded ct p n :
  wf_record ct p →
  parse_transport_plaintext ([ct] ++ be_bytes 4 (len p) ++ p ++ replicate n 0) = Ok (record_of ct p).
Proof.
  intros [Ht Hb Hl]. pose proof (len_nonneg p). unfold parse_transport_plaintext.
  rewrite slice_app_skip by (simpl; lia). cbn [length Nat.sub].
  rewrite slice_app_exact by apply length_be_bytes.
  consts. rewrite be_bytes_roundtrip by (simpl; lia).
  autorewrite with len. cbn [app nth]. zbool. cbn [orb].
  assert (Z.to_nat (len p) = length p) as -> by (unfold len; lia).
  change (ct :: be_bytes 4 (len p) ++ p ++ replicate n 0)
    with ([ct] ++ be_bytes 4 (len p) ++ p ++ replicate n 0).
  assert (drop (5 + length p) ([ct] ++ be_bytes 4 (len p) ++ p ++ replicate n 0) = replicate n 0) as ->.
  { rewrite !drop_app_ge by (rewrite ?length_be_bytes; simpl; lia).
    rewrite length_be_bytes. cbn [length]. by replace (5 + length p - 1 - 4 - length p)%nat with 0%nat by lia. }
  rewrite existsb_replicate_0.
  rewrite !slice_app_skip by (rewrite ?length_be_bytes; simpl; lia).
  rewrite length_be_bytes. cbn [length].
  replace (5 - 1 - 4)%nat with 0%nat by lia. replace (5 + length p - 1 - 4)%nat with (length p) by lia.
  rewrite slice_app_here. unfold record_of. by destruct Ht as [->|[-> ->]].
Qed.

Section Record_proofs.
Context `{CL : CryptoLaws}.

Lemma hkdf_key32 ck ikm : key32 (hkdf ck ikm).1 ∧ key32 (hkdf ck ikm).2.
Proof.
  unfold hkdf, key32; cbn. rewrite length_take, length_drop, !hkdf_length.
  auto using hkdf_bytes with mst5.
Qed.

Lemma cipher_new_ok key : key32 key → cipher_ok (cipher_new key).
Proof. intros. constructor; cbn; consts; widths; auto; lia. Qed.

(** A session key never runs into the record or byte limits: rekeying happens first. *)
Lemma check_limit_ok c n :
  cipher_ok c → 0 ≤ n ≤ MAX_TRANSPORT_PAYLOAD + 512 → check_limit c n = Ok tt.
Proof.
  intros [Hk Hn Hb Hf Hg] Hlen. unfold check_limit, checked_add64. consts. widths.
  zbool. cbn [ok_or]. by zbool.
Qed.

Lemma commit_ok c n hh :
  cipher_ok c → 0 ≤ n ≤ MAX_TRANSPORT_PAYLOAD + 512 → cs_generation c < u64_max →
  ∃ c', commit c n hh = Ok c' ∧ cipher_ok c' ∧
    (cs_generation c' = cs_generation c ∧ cs_nonce c' = cs_nonce c + 1 ∧ cs_key c' = cs_key c
     ∨ cs_generation c' = cs_generation c + 1 ∧ cs_nonce c' = 0 ∧ cs_nonce c > 0
       ∧ cs_key c' = (hkdf (cs_key c) (hh ++ be_bytes 8 (cs_generation c'))).1).
Proof.
  intros [Hk Hn Hb Hf Hg] Hlen Hgen. unfold commit, checked_add64. consts. widths.
  zbool. cbn [ok_or]. destruct (_ || _) eqn:E.
  - eexists; split; [done|]. split.
    + constructor; cbn; consts; widths; auto; try lia. apply hkdf_key32.
    + right; cbn. repeat split; try done.
      apply orb_prop in E. rewrite !Z.leb_le in E.
      destruct (Z.eq_dec (cs_nonce c) 0) as [H0|]; [|lia]. specialize (Hf H0). lia.
  - to_prop. rewrite Z.leb_gt in *. eexists; split; [done|]. split; [|by left].
    constructor; cbn; consts; widths; auto; lia.
Qed.

Lemma aead_nonce_length n : length (aead_nonce n) = 12%nat.
Proof. unfold aead_nonce, le_bytes. by rewrite length_app, length_reverse, length_be_bytes, length_replicate. Qed.

Lemma aead_roundtrip key n aad m :
  key32 key → is_bytes m →
  ∃ ct, aead_encrypt key n aad m = Ok ct ∧ is_bytes ct ∧ len ct = len m + TAG_LEN ∧
    aead_decrypt key n aad ct = Ok m.
Proof.
  intros [Hk Hl] Hm. destruct (chacha_total key (aead_nonce n) aad m) as [ct Hct].
  { by split. } { apply aead_nonce_length. }
  destruct (chacha_ct _ _ _ _ _ Hct Hm) as [Hb Hlen].
  exists ct. unfold aead_encrypt, aead_decrypt. pose proof (len_nonneg m). unfold TAG_LEN in *.
  assert (len key = 32) as -> by (unfold len; lia). rewrite Hct, (chacha_correct _ _ _ _ _ Hct).
  zbool. done.
Qed.

Lemma plaintext_bytes ct p n : wf_record ct p → is_bytes ([ct] ++ be_bytes 4 (len p) ++ p ++ replicate n 0).
Proof.
  intros [Ht Hb Hl]. rewrite !is_bytes_app. split_and!; auto with mst5.
  - constructor; [|constructor]. widths. lia.
  - apply Forall_replicate. widths. lia.
Qed.

(** One record: sealed under [c] and opened under the same state, both ends
    reach the same next state. *)
Lemma seal_open_step c hh ct p :
  cipher_ok c → wf_record ct p → cs_generation c < u64_max → is_bytes hh →
  ∃ rec c', seal_with c hh ct p = Ok (rec, c') ∧ open_with c hh rec = Ok (record_of ct p, c') ∧
    cipher_ok c' ∧ is_bytes rec ∧ len rec = 8 + padded_len (len p) + TAG_LEN ∧
    commit c (padded_len (len p)) hh = Ok c'.
Proof.
  intros Hc Hw Hg Hhh. pose proof Hw as [Ht Hb Hl]. pose proof (len_nonneg p) as Hp0.
  pose proof (padded_len_bound (len p) Hp0) as [Hpb _].
  pose proof (padded_len_max (len p) (conj Hp0 Hl)) as Hmax.
  destruct (commit_ok c (padded_len (len p)) hh Hc ltac:(lia) Hg) as (c' & Hcommit & Hc' & _).
  pose proof (plaintext_bytes ct p (Z.to_nat (padded_len (len p) - (5 + len p))) Hw) as Hpt.
  pose proof (len_padded ct p) as Hlp. pose proof (parse_padded ct p (Z.to_nat (padded_len (len p) - (5 + len p))) Hw) as Hpar.
  pose proof (transport_plaintext_ok ct p Hw) as Htp.
  set (pt := [ct] ++ _) in *. clearbody pt.
  set (aad := RECORD_LABEL ++ hh ++ be_bytes 4 (8 + len pt + TAG_LEN) ++ be_bytes 8 (cs_nonce c)).
  destruct (aead_roundtrip (cs_key c) (cs_nonce c) aad pt (ck_key _ Hc) Hpt) as (ctx & Henc & Hctb & Hctl & Hdec).
  exists (be_bytes 8 (cs_nonce c) ++ ctx), c'.
  assert (len (be_bytes 8 (cs_nonce c) ++ ctx) = 8 + len pt + TAG_LEN) as Hrl by len_lia.
  assert (record_aad hh (8 + len pt + TAG_LEN) (cs_nonce c) = Ok aad) as Haad.
  { unfold record_aad. consts. widths. by zbool. }
  split; [|split].
  - unfold seal_with. rewrite Htp, check_limit_ok by (done || lia).
    unfold checked_add64. unfold TAG_LEN in *. consts. widths. zbool. cbn [ok_or]. zbool. cbn [ok_or].
    by rewrite Haad, Henc, Hlp, Hcommit.
  - unfold open_with. rewrite Hrl.
    rewrite take_app_length', drop_app_length' by (by rewrite length_be_bytes).
    destruct (ck_nonce _ Hc). rewrite be_bytes_roundtrip by (consts; simpl; lia).
    rewrite check_limit_ok by (done || lia). rewrite Haad, Hdec, Hpar, Hlp, Hcommit.
    unfold TAG_LEN in *. consts. zbool. done.
  - split; [done|]. split; [|split; [lia|done]]. apply is_bytes_app; auto with mst5.
Qed.

(** The in-place routine of the connection is [Session::seal_record]'s. *)
Lemma seal_record_into_eq c hh ct p : seal_record_into c hh ct p = seal_with c hh ct p.
Proof.
  unfold seal_record_into, seal_with, transport_plaintext, aead_encrypt_in_place, aead_encrypt.
  destruct (transport_plaintext_into ct p) as [pt|]; [|done].
  destruct (check_limit c (len pt)); [|done].
  destruct (match checked_add64 8 (len pt) with Some _ => _ | None => _ end); [|done].
  destruct (record_aad _ _ _) as [aad|]; [|done]. destruct (negb _); [done|].
  rewrite chacha_detached.
  destruct (chacha_encrypt_detached _ _ _ _) as [[ctx tag]|] eqn:E; [cbn|done].
  apply chacha_detached_len in E. unfold len. by rewrite E.
Qed.

End Record_proofs.

(** ** Runs of a session

    [seal_all] seals payloads one after the other; [open_all] opens records one
    after the other; [chain_key] is the key the ratchet prescribes after a number of
    rekeyings, and [sealed_as] says with which key and nonce a record was encrypted. *)
Section Runs.
Context `{C : Crypto}.

Fixpoint seal_all (c : CipherState) (hh : list Z) (ps : list (Z * list Z))
  : io (list (list Z) * CipherState) :=
  match ps with
  | [] => Ok ([], c)
  | (ct, p) :: t =>
      let? (r, c1) := seal_with c hh ct p in
      let? (rs, c2) := seal_all c1 hh t in Ok (r :: rs, c2)
  end.

Fixpoint open_all (c : CipherState) (hh : list Z) (rs : list (list Z))
  : io (list Record_ * CipherState) :=
  match rs with
  | [] => Ok ([], c)
  | r :: t =>
      let? (d, c1) := open_with c hh r in
      let? (ds, c2) := open_all c1 hh t in Ok (d :: ds, c2)
  end.

(** The key [n] generations after generation [generation], whose key is [key]. *)
Fixpoint chain_key (hh key : list Z) (generation : Z) (n : nat) : list Z :=
  match n with
  | O => key
  | S m => (hkdf (chain_key hh key generation m) (hh ++ be_bytes 8 (generation + Z.of_nat (S m)))).1
  end.

(** [key_at c hh g]: the key of generation [g] in the chain that starts at [c]. *)
Definition key_at (c : CipherState) (hh : list Z) (g : Z) : list Z :=
  chain_key hh (cs_key c) (cs_generation c) (Z.to_nat (g - cs_generation c)).

(** The record of a payload, encrypted by the AEAD under the key of generation [use.1]
    with nonce [use.2], which it announces. *)
Definition sealed_as (c : CipherState) (hh : list Z) (use : Z * Z) (sealed : (Z * list Z) * list Z) : Prop :=
  ∃ plaintext aad ciphertext,
    transport_plaintext sealed.1.1 sealed.1.2 = Ok plaintext ∧
    record_aad hh (8 + len plaintext + TAG_LEN) use.2 = Ok aad ∧
    aead_encrypt (key_at c hh use.1) use.2 aad plaintext = Ok ciphertext ∧
    sealed.2 = be_bytes 8 use.2 ++ ciphertext.

(** The strict order in which a cipher state moves through its positions. *)
Definition before (a b : Z * Z) : Prop := a.1 < b.1 ∨ (a.1 = b.1 ∧ a.2 < b.2).

(** A state further on in the chain that starts at [c]. *)
Definition on_chain (c : CipherState) (hh : list Z) (d : CipherState) : Prop :=
  cs_generation c ≤ cs_generation d ∧ cs_key d = key_at c hh (cs_generation d).

Lemma on_chain_refl c hh : on_chain c hh c.
Proof. split; [lia|]. unfold key_at. by rewrite Z.sub_diag. Qed.

Lemma commit_step c n hh c' :
  commit c n hh = Ok c' →
  cs_generation c' = cs_generation c ∧ cs_nonce c' = cs_nonce c + 1 ∧ cs_key c' = cs_key c ∨
  cs_generation c' = cs_generation c + 1 ∧ cs_nonce c' = 0 ∧
    cs_key c' = (hkdf (cs_key c) (hh ++ be_bytes 8 (cs_generation c'))).1.
Proof.
  unfold commit. intros H.
  destruct (checked_add64 (cs_plaintext_bytes c) n); [|done].
  destruct (checked_add64 (cs_nonce c) 1) eqn:E; [|done]. apply checked_add64_some in E as [-> _].
  cbn [ok_or] in H. destruct (_ || _); [|inv_ok H; by left].
  destruct (checked_add64 (cs_generation c) 1) eqn:E; [|done]. apply checked_add64_some in E as [-> _].
  cbn [ok_or] in H. inv_ok H. by right.
Qed.

Lemma commit_before c n hh c' :
  commit c n hh = Ok c' →
  before (cs_generation c, cs_nonce c) (cs_generation c', cs_nonce c').
Proof. intros [(-> & -> & _)|(-> & -> & _)]%commit_step; unfold before; cbn; lia. Qed.

Lemma commit_chain c hh d n d' : on_chain c hh d → commit d n hh = Ok d' → on_chain c hh d'.
Proof.
  intros [Hg Hk] [(E1 & _ & E3)|(E1 & _ & E3)]%commit_step; unfold on_chain; rewrite E1.
  - by rewrite E3.
  - split; [lia|]. rewrite E3, E1, Hk. unfold key_at.
    replace (Z.to_nat (cs_generation d + 1 - cs_generation c)) with (S (Z.to_nat (cs_generation d - cs_generation c))) by lia.
    cbn [chain_key]. do 4 f_equal. lia.
Qed.

Lemma before_trans a b d : before a b → before b d → before a d.
Proof. unfold before. lia. Qed.
End Runs.

Section Run_proofs.
Context `{CL : CryptoLaws}.

(** What one record was sealed with. *)
Lemma seal_with_inv c hh ct p rec c' :
  seal_with c hh ct p = Ok (rec, c') →
  (∃ n, commit c n hh = Ok c') ∧ cs_nonce c < MAX_RECORDS ∧
  ∃ plaintext aad ciphertext, transport_plaintext ct p = Ok plaintext ∧
    record_aad hh (8 + len plaintext + TAG_LEN) (cs_nonce c) = Ok aad ∧
    aead_encrypt (cs_key c) (cs_nonce c) aad plaintext = Ok ciphertext ∧ rec = be_bytes 8 (cs_nonce c) ++ ciphertext.
Proof.
  unfold seal_with. intros H. destruct (transport_plaintext ct p) as [pt|]; [|done].
  destruct (check_limit c (len pt)) eqn:El; [|done].
  assert (cs_nonce c < MAX_RECORDS) as Hn.
  { unfold check_limit in El. destruct (Z.leb_spec MAX_RECORDS (cs_nonce c)); [done|lia]. }
  destruct (checked_add64 8 (len pt)) as [v|] eqn:E1; [|done]. apply checked_add64_some in E1 as [-> _].
  destruct (checked_add64 (8 + len pt) TAG_LEN) as [v|] eqn:E2; [|done]. apply checked_add64_some in E2 as [-> _].
  cbn [ok_or] in H. destruct (record_aad hh _ _) as [aad|] eqn:Ea; [|done].
  destruct (aead_encrypt _ _ _ _) as [cph|] eqn:Ee; [|done]. destruct (commit c (len pt) hh) as [c1|] eqn:Ec; [|done].
  apply Ok_inj in H. simplify_eq. split_and!; [by eauto|done|by exists pt, aad, cph].
Qed.

(** A run of records from a state of the chain of [c]. *)
Lemma seal_all_uses c hh ps : ∀ d records c',
  on_chain c hh d → 0 ≤ cs_nonce d → seal_all d hh ps = Ok (records, c') →
  length records = length ps ∧ cs_generation d ≤ cs_generation c' ∧
  ∃ uses, Forall2 (sealed_as c hh) uses (zip ps records) ∧ StronglySorted before uses ∧
    Forall (λ u, (u = (cs_generation d, cs_nonce d) ∨ before (cs_generation d, cs_nonce d) u) ∧
      u.1 ≤ cs_generation c' ∧ 0 ≤ u.2 < MAX_RECORDS) uses.
Proof.
  induction ps as [|[ct p] ps IH]; intros d records c' Hd Hn H; cbn [seal_all] in H.
  { apply Ok_inj in H. simplify_eq. split_and!; [done|lia|]. exists []. split_and!; constructor. }
  destruct (seal_with d hh ct p) as [[r c1]|] eqn:Es; [|done].
  destruct (seal_all c1 hh ps) as [[rs c2]|] eqn:Ea; [|done]. apply Ok_inj in H. simplify_eq.
  apply seal_with_inv in Es as ([n Hc] & Hlim & pt & aad & cph & H1 & H2 & H3 & ->).
  pose proof (commit_before _ _ _ _ Hc) as Hb.
  assert (0 ≤ cs_nonce c1) by (destruct (commit_step _ _ _ _ Hc) as [(_ & -> & _)|(_ & -> & _)]; lia).
  destruct (IH c1 rs c') as (Hlen & Hg & uses & Hf & Hs & Ha); [by eapply commit_chain|done|done|].
  assert (cs_generation d ≤ cs_generation c1) by (unfold before in Hb; cbn in Hb; lia).
  assert (Forall (before (cs_generation d, cs_nonce d)) uses) as Hall.
  { eapply List.Forall_impl; [|exact Ha]. intros u [[->|Hu] _]; [done|by eapply before_trans]. }
  split_and!; [cbn; by rewrite Hlen|lia|]. exists ((cs_generation d, cs_nonce d) :: uses). cbn [zip]. split_and!.
  - constructor; [|done]. exists pt, aad, cph. cbn [fst snd]. destruct Hd as [_ <-]. done.
  - by constructor.
  - constructor; [cbn; split_and!; [by left|lia..]|]. rewrite List.Forall_forall in *. intros u Hu.
    destruct (Ha u Hu) as (_ & Hu1 & Hu2). split; [right; by apply Hall|exact (conj Hu1 Hu2)].
Qed.

Lemma aead_nonce_inj m n : 0 ≤ m < MAX_RECORDS → 0 ≤ n < MAX_RECORDS → aead_nonce m = aead_nonce n → m = n.
Proof.
  intros Hm Hn H. unfold aead_nonce, le_bytes in H. apply app_inv_head in H. apply (f_equal reverse) in H.
  rewrite !reverse_involutive in H. apply be_bytes_inj in H; [done|consts; lia..].
Qed.


Lemma seal_open_all c hh ps :
  cipher_ok c → is_bytes hh → Forall (λ x, wf_record x.1 x.2) ps →
  cs_generation c + len ps ≤ u64_max →
  ∃ rs c', seal_all c hh ps = Ok (rs, c') ∧ cipher_ok c' ∧
    open_all c hh rs = Ok (map (λ x, record_of x.1 x.2) ps, c').
Proof.
  intros Hc Hhh Hps. revert c Hc. induction Hps as [|[ct p] ps Hp Hps IH]; intros c Hc Hg.
  - by exists [], c.
  - rewrite len_cons in Hg. pose proof (len_nonneg ps).
    destruct (seal_open_step c hh ct p Hc Hp ltac:(lia) Hhh) as (r & c1 & Hs & Ho & Hc1 & _ & _ & Hcom).
    pose proof (len_nonneg p). pose proof (padded_len_bound (len p) (len_nonneg p)).
    destruct (commit_ok c (padded_len (len p)) hh Hc) as (c1' & Hcom' & _ & Hgen);
      [destruct Hp; cbn in *; lia|lia|]. rewrite Hcom in Hcom'. apply Ok_inj in Hcom'. subst c1'.
    destruct (IH c1 Hc1 ltac:(lia)) as (rs & c2 & Hs2 & Hc2 & Ho2).
    exists (r :: rs), c2. cbn. rewrite Hs, Hs2, Ho, Ho2. done.
Qed.

(** Both directions of a session stay in step across rekeying: any sequence
    of application payloads of at most 20 MiB (and CLOSE records) is sealed
    without hitting a limit, and the peer, holding the same initial state,
    recovers exactly that sequence and ends in the same state. *)
Theorem session_stream_roundtrip c hh ps :
  cipher_ok c → is_bytes hh → Forall (λ x, wf_record x.1 x.2) ps →
  cs_generation c + len ps ≤ u64_max →
  ∃ rs c', seal_all c hh ps = Ok (rs, c') ∧ cipher_ok c' ∧
    open_all c hh rs = Ok (map (λ x, record_of x.1 x.2) ps, c').
Proof. apply seal_open_all. Qed.

Lemma open_with_inv c hh rec r c' :
  open_with c hh rec = Ok (r, c') → from_be (take 8 rec) = cs_nonce c ∧
  8 + TAG_LEN ≤ len rec ≤ max_record_len ∧ ∃ n, commit c n hh = Ok c' ∧
    (is_bytes rec → n = len rec - 8 - TAG_LEN).
Proof.
  unfold open_with. intros H.
  destruct (_ || _) eqn:E1; [done|]. destruct (negb _) eqn:E2; [done|]. to_prop.
  rewrite Z.eqb_eq in E2. split; [done|]. split; [lia|].
  destruct (check_limit _ _); [|done]. destruct (record_aad _ _ _); [|done].
  destruct (aead_decrypt _ _ _ _) as [pt|] eqn:Ed; [|done]. exists (len pt). split.
  - destruct (parse_transport_plaintext pt); [|done]. inv_ok H; done.
  - intros Hb. unfold aead_decrypt in Ed. inv_ok Ed.
    destruct (chacha_decrypt _ _ _ _) eqn:E; [|done]. cbn in Ed. inv_ok Ed.
    apply chacha_pt in E as [_ E]; [|by apply is_bytes_drop].
    revert E. unfold len, TAG_LEN. rewrite length_drop. unfold len, TAG_LEN in *. lia.
Qed.

(** The chain and the positions along a run of the receiver. *)
Lemma open_all_chain c hh rs : ∀ d ds c', on_chain c hh d → open_all d hh rs = Ok (ds, c') →
  on_chain c hh c' ∧ ((cs_generation d, cs_nonce d) = (cs_generation c', cs_nonce c') ∨
    before (cs_generation d, cs_nonce d) (cs_generation c', cs_nonce c')).
Proof.
  induction rs as [|r rs IH]; intros d ds c' Hd H; cbn [open_all] in H.
  { apply Ok_inj in H. simplify_eq. split; [done|by left]. }
  destruct (open_with d hh r) as [[x c1]|] eqn:Eo; [|done].
  destruct (open_all c1 hh rs) as [[xs c2]|] eqn:Ea; [|done]. apply Ok_inj in H. simplify_eq.
  apply open_with_inv in Eo as (_ & _ & n & Hc & _). pose proof (commit_before _ _ _ _ Hc) as Hb.
  destruct (IH c1 xs c') as [H1 H2]; [by eapply commit_chain|done|]. split; [done|]. right.
  destruct H2 as [<-|H2]; [done|by eapply before_trans].
Qed.

Lemma open_with_opens c hh rec r c' :
  open_with c hh rec = Ok (r, c') →
  ∃ aad plaintext, record_aad hh (len rec) (cs_nonce c) = Ok aad ∧
    aead_decrypt (cs_key c) (cs_nonce c) aad (drop 8 rec) = Ok plaintext.
Proof.
  unfold open_with. intros H. destruct (_ || _); [done|]. destruct (negb _) eqn:E2; [done|]. to_prop.
  rewrite Z.eqb_eq in E2. rewrite E2 in H. destruct (check_limit _ _); [|done].
  destruct (record_aad _ _ _) as [aad|]; [|done]. destruct (aead_decrypt _ _ _ _) as [pt|] eqn:Ed; [|done]. eauto.
Qed.

(** A record at a state that does not expect its number. *)
Lemma open_with_mismatch c hh rec :
  8 + TAG_LEN ≤ len rec ≤ max_record_len → from_be (take 8 rec) ≠ cs_nonce c →
  open_with c hh rec = Err (invalid_data (lit "MST5 encrypted record sequence mismatch")).
Proof.
  intros Hl Hs. unfold open_with. assert ((len rec <? 8 + TAG_LEN) || (max_record_len <? len rec) = false) as ->.
  { apply orb_false_intro; apply Z.ltb_ge; lia. }
  destruct (Z.eqb_spec (from_be (take 8 rec)) (cs_nonce c)); [lia|done].
Qed.

(** C26: a record that was accepted once is refused when it is delivered again, at once or
    after any further records: while the key generation is the one it was accepted in, and
    in any case when it comes again at once, its sequence number no longer matches; in a
    later generation it could be accepted only if its ciphertext, made under the old key,
    also opened under the ratcheted key of that generation, at the same sequence number.
    So it is refused if no later key of the ratchet opens it. *)
Theorem replay_rejected c hh rec r c1 rs ds c2 :
  cipher_ok c → is_bytes rec → cs_generation c < u64_max →
  open_with c hh rec = Ok (r, c1) → open_all c1 hh rs = Ok (ds, c2) →
  (rs = [] ∨ cs_generation c2 = cs_generation c →
   open_with c2 hh rec = Err (invalid_data (lit "MST5 encrypted record sequence mismatch"))) ∧
  (∀ r' c3, open_with c2 hh rec = Ok (r', c3) →
     cs_generation c < cs_generation c2 ∧ cs_nonce c2 = cs_nonce c ∧
     ∃ aad plaintext, record_aad hh (len rec) (cs_nonce c) = Ok aad ∧
       aead_decrypt (key_at c hh (cs_generation c2)) (cs_nonce c) aad (drop 8 rec) = Ok plaintext) ∧
  ((∀ g aad plaintext, cs_generation c < g → record_aad hh (len rec) (cs_nonce c) = Ok aad →
      aead_decrypt (key_at c hh g) (cs_nonce c) aad (drop 8 rec) ≠ Ok plaintext) →
   ∃ e, open_with c2 hh rec = Err e).
Proof.
  intros Hc Hb Hg Ho Ha. pose proof Ho as Ho'. apply open_with_inv in Ho' as (Hs & Hl & n & Hcom & Hn).
  specialize (Hn Hb). assert (max_record_len = 20971672) as Hm by reflexivity.
  destruct (commit_ok c n hh Hc) as (d & Hcom' & Hok & Hpos); [consts; lia|done|].
  rewrite Hcom in Hcom'. apply Ok_inj in Hcom'. subst d.
  destruct (open_all_chain c hh rs c1 ds c2) as [[Hgen Hkey] Hpos2];
    [by eapply commit_chain; [apply on_chain_refl|]|done|].
  assert (rs = [] ∨ cs_generation c2 = cs_generation c → cs_nonce c2 ≠ cs_nonce c) as Hne.
  { intros [->|E].
    - cbn in Ha. apply Ok_inj in Ha. simplify_eq. lia.
    - unfold before in Hpos2. cbn in Hpos2. destruct Hpos2 as [E2|Hb2]; [simplify_eq|]; lia. }
  assert (∀ r' c3, open_with c2 hh rec = Ok (r', c3) →
     cs_generation c < cs_generation c2 ∧ cs_nonce c2 = cs_nonce c ∧
     ∃ aad plaintext, record_aad hh (len rec) (cs_nonce c) = Ok aad ∧
       aead_decrypt (key_at c hh (cs_generation c2)) (cs_nonce c) aad (drop 8 rec) = Ok plaintext) as Hagain.
  { intros r' c3 H2. pose proof (open_with_inv _ _ _ _ _ H2) as (Hs2 & _). assert (cs_nonce c2 = cs_nonce c) as En by lia.
    apply open_with_opens in H2 as (aad & pt & H3 & H4). rewrite Hkey, En in H4. rewrite En in H3.
    split_and!; [|done|by eauto]. destruct (Z.eq_dec (cs_generation c2) (cs_generation c)) as [E|E]; [|lia].
    exfalso. apply Hne; [by right|done]. }
  split_and!; [|done|].
  - intros Hx. apply open_with_mismatch; [done|]. rewrite Hs. intros E. by apply (Hne Hx).
  - intros Hno. destruct (open_with c2 hh rec) as [[r' c3]|e] eqn:E; [|eauto]. exfalso.
    destruct (Hagain r' c3 eq_refl) as (H1 & _ & aad & pt & H3 & H4). by eapply Hno.
Qed.

(** C27: the connection's buffer-reusing [seal_record_into], which encrypts in
    place and appends the detached tag, produces the same record, the same next
    state and the same errors as [Session::seal_record]. *)
Theorem seal_record_into_refines c o hh ct p :
  result_map (λ x, (x.1, mkSession x.2 o hh)) (seal_record_into c hh ct p)
  = seal_record (mkSession c o hh) ct p.
Proof.
  unfold seal_record. cbn. rewrite seal_record_into_eq. by destruct (seal_with c hh ct p) as [[]|].
Qed.
End Run_proofs.

(** ** Frames over the byte stream *)
Section Stream_runs.
Context `{C : Crypto}.

(** Frames written one after the other, and read until [n] frames arrived. *)
Fixpoint write_frames (c : CipherState) (hh : list Z) (w : Stream) (fs : list Frame)
  : io (CipherState * Stream) :=
  match fs with
  | [] => Ok (c, w)
  | f :: t => let? (c1, w1) := write_frame_locked c hh w f in write_frames c1 hh w1 t
  end.

Fixpoint read_frames `{Decompressors} (n : nat) (c : CipherState) (hh : list Z) (r : Stream)
  : io (list (option Frame) * CipherState * Stream) :=
  match n with
  | O => Ok ([], c, r)
  | S n' =>
      let? (f, c1, r1) := read_frame c hh r in
      let? (fs, c2, r2) := read_frames n' c1 hh r1 in Ok (f :: fs, c2, r2)
  end.
End Stream_runs.

Lemma read_exact_app (bs rest out : list Z) n :
  len bs = n → read_exact n (mkStream (bs ++ rest) out []) = Ok (bs, mkStream rest out []).
Proof.
  intros <-. unfold read_exact. cbn. rewrite len_app. pose proof (len_nonneg rest). zbool.
  assert (Z.to_nat (len bs) = length bs) as -> by (unfold len; lia).
  by rewrite take_app_length, drop_app_length.
Qed.

Section Stream_proofs.
Context `{CL : CryptoLaws}.

Lemma encode_bytes f bs : wf_frame f → encode f = Ok bs → is_bytes bs.
Proof.
  intros [Hk Hf Hc Hi [Hn Hn'] Hd Hp Hl] H. unfold encode, encode_into in H. inv_ok H.
  apply valid_kind_u8 in Hk. rewrite !is_bytes_app. split_and!; auto with mst5.
  rewrite Hf. repeat constructor; widths; lia.
Qed.

Lemma encode_wf_record f bs : wf_frame f → encode f = Ok bs → wf_record 0 bs.
Proof.
  intros Hwf E. destruct (encoded_fields f bs Hwf E) as (_ & _ & _ & _ & _ & _ & _ & _ & Hlen).
  constructor; [by left|by eapply encode_bytes|].
  destruct Hwf. unfold MST5_MAX_PLAIN_PAYLOAD, MAX_TRANSPORT_PAYLOAD in *. lia.
Qed.

(** One frame: what is written is one length-prefixed record, and reading it
    gives the frame back. *)
Lemma write_read_frame `{Decompressors} c hh f i o :
  cipher_ok c → is_bytes hh → wf_frame f → cs_generation c < u64_max →
  ∃ wire c', write_frame_locked c hh (mkStream i o []) f = Ok (c', mkStream i (o ++ wire) []) ∧
    cipher_ok c' ∧ cs_generation c' ≤ cs_generation c + 1 ∧
    (∀ rest o', read_frame c hh (mkStream (wire ++ rest) o' []) = Ok (Some f, c', mkStream rest o' [])).
Proof.
  intros Hc Hhh Hf Hg. destruct (encode_decode f Hf) as (bs & He & Hlen & Hd).
  pose proof (encode_wf_record f bs Hf He) as Hw.
  destruct (seal_open_step c hh 0 bs Hc Hw Hg Hhh) as (r & c' & Hs & Ho & Hc' & Hrb & Hrl & Hcom).
  pose proof (padded_len_bound (len bs) (len_nonneg bs)) as [Hpb _]. pose proof (len_nonneg bs).
  destruct (commit_ok c (padded_len (len bs)) hh Hc) as (c1 & Hcom' & _ & Hpos);
    [destruct Hw; consts; lia|done|]. rewrite Hcom in Hcom'. apply Ok_inj in Hcom'. subst c1.
  pose proof (padded_len_max (len bs) (conj (len_nonneg bs) (wr_len _ _ Hw))) as Hmax.
  assert (max_record_len = 20971672) as Hm by reflexivity.
  exists (be_bytes 4 (as_u32 (len r)) ++ r), c'. rewrite as_u32_small by (widths; unfold TAG_LEN in *; lia).
  split; [|split; [done|split; [lia|]]].
  - unfold write_frame_locked. unfold encode in He. rewrite He, seal_record_into_eq, Hs. cbn.
    rewrite as_u32_small by (widths; unfold TAG_LEN in *; lia). by rewrite app_assoc.
  - intros rest o'. unfold read_frame. rewrite <- app_assoc, read_exact_app by apply len_be_bytes.
    rewrite be_bytes_roundtrip by (unfold TAG_LEN in *; simpl; lia).
    unfold open_with in Ho. destruct (_ || _); [done|]. rewrite read_exact_app by done.
    destruct (negb _); [done|]. destruct (check_limit _ _); [|done].
    destruct (record_aad _ _ _); [|done]. destruct (aead_decrypt _ _ _ _); [|done].
    destruct (parse_transport_plaintext _); [|done]. destruct (commit _ _ _); [|done].
    apply Ok_inj in Ho. unfold record_of in Ho. cbn in Ho. simplify_eq. by rewrite Hd.
Qed.

(** C1: end to end, the frames [write_frame_locked] puts on a working byte
    stream are the frames the peer's [read_frame] takes off it, in order,
    whatever follows them, with both cipher states again equal. *)
Theorem frames_over_stream `{Decompressors} c hh fs i o :
  cipher_ok c → is_bytes hh → Forall wf_frame fs → cs_generation c + len fs ≤ u64_max →
  ∃ wire c', write_frames c hh (mkStream i o []) fs = Ok (c', mkStream i (o ++ wire) []) ∧
    cipher_ok c' ∧
    (∀ rest o', read_frames (length fs) c hh (mkStream (wire ++ rest) o' [])
                = Ok (map Some fs, c', mkStream rest o' [])).
Proof.
  intros Hc Hhh Hfs. revert c o Hc. induction Hfs as [|f fs Hf Hfs IH]; intros c o Hc Hg.
  - exists [], c. cbn. by rewrite app_nil_r.
  - rewrite len_cons in Hg. pose proof (len_nonneg fs).
    destruct (write_read_frame c hh f i o Hc Hhh Hf ltac:(lia)) as (w1 & c1 & Hw1 & Hc1 & Hg1 & Hr1).
    destruct (IH c1 (o ++ w1) Hc1 ltac:(lia)) as (w2 & c2 & Hw2 & Hc2 & Hr2).
    exists (w1 ++ w2), c2. cbn. rewrite Hw1, Hw2, app_assoc. split; [done|]. split; [done|].
    intros rest o'. rewrite <- app_assoc, Hr1. by rewrite Hr2.
Qed.
End Stream_proofs.

(** ** The handshake against a Noise NK responder

    The server is not part of the repository.  [respond] is the responder of the
    Noise pattern NK ([<- s ... -> e, es <- e, ee]) with the protocol name,
    prologue and message framing of the client: given its static and ephemeral
    secrets and the client's hello, its answer and session. *)
Section Responder.
Context `{C : Crypto}.

Definition respond (static ephemeral hello : list Z) : io (list Z * Session) :=
  fail_if (negb (beq (take 6 hello) (CLIENT_MAGIC ++ be_bytes 2 HANDSHAKE_MESSAGE_LEN)))
    with invalid_data (lit "client hello");
  let e := slice 6 38 hello in
  let st := mix_key (mix_hash (symmetric_new (x25519_public static)) e) (x25519 static e) in
  let? (_, st) := decrypt_and_hash st (drop 38 hello) in
  let st := mix_hash st (x25519_public ephemeral) in
  let? (tag, st) := encrypt_and_hash (mix_key st (x25519 ephemeral e)) [] in
  let '(client_to_server, server_to_client) := split st in
  Ok (SERVER_MAGIC ++ be_bytes 2 HANDSHAKE_MESSAGE_LEN ++ x25519_public ephemeral ++ tag,
      mkSession server_to_client client_to_server (ss_handshake_hash st)).
End Responder.

Section Handshake_proofs.
Context `{CL : CryptoLaws}.

Lemma mix_key_key st ikm : ∃ k, ss_cipher_key (mix_key st ikm) = Some k ∧ key32 k ∧
  ss_cipher_nonce (mix_key st ikm) = 0.
Proof. unfold mix_key. destruct (hkdf _ _) eqn:E. exists l0. cbn. split_and!; try done.
  pose proof (hkdf_key32 (ss_chaining_key st) ikm) as [_ H]. by rewrite E in H. Qed.

(** A handshake message: both sides hash the same ciphertext. *)
Lemma encrypt_decrypt_and_hash st ikm :
  ∃ tag st', encrypt_and_hash (mix_key st ikm) [] = Ok (tag, st') ∧ len tag = 16 ∧ is_bytes tag ∧
    decrypt_and_hash (mix_key st ikm) tag = Ok ([], st').
Proof.
  destruct (mix_key_key st ikm) as (k & Hk & Hk32 & Hn). unfold encrypt_and_hash, decrypt_and_hash.
  rewrite Hk, Hn.
  destruct (aead_roundtrip k 0 (ss_handshake_hash (mix_key st ikm)) [] Hk32) as (ct & He & Hb & Hl & Hd);
    [constructor|].
  rewrite He. exists ct. eexists. split; [reflexivity|]. rewrite Hd. split_and!; done.
Qed.

Lemma split_ok st : cipher_ok (split st).1 ∧ cipher_ok (split st).2.
Proof.
  unfold split. pose proof (hkdf_key32 (ss_chaining_key st) []) as [H1 H2].
  destruct (hkdf _ _). split; by apply cipher_new_ok.
Qed.

Lemma take_key32 k l : key32 k → take 32 (k ++ l) = k ∧ drop 32 (k ++ l) = l.
Proof. intros [_ <-]. by rewrite take_app_length, drop_app_length. Qed.

Lemma mix_hash_bytes st data :
  is_bytes (ss_handshake_hash st) → is_bytes data → is_bytes (ss_handshake_hash (mix_hash st data)).
Proof. intros Hs Hd. cbn. apply sha256_key32. by apply is_bytes_app. Qed.

Lemma symmetric_new_bytes k : is_bytes k → is_bytes (ss_handshake_hash (symmetric_new k)).
Proof. intros Hk. unfold symmetric_new. repeat apply mix_hash_bytes; try done; by_vm. Qed.

Lemma mix_key_hash st ikm : ss_handshake_hash (mix_key st ikm) = ss_handshake_hash st.
Proof. unfold mix_key. by destruct (hkdf (ss_chaining_key st) ikm). Qed.

Lemma encrypt_hash_bytes st ikm p ct st' :
  encrypt_and_hash (mix_key st ikm) p = Ok (ct, st') →
  is_bytes (ss_handshake_hash st) → is_bytes ct → is_bytes (ss_handshake_hash st').
Proof.
  intros H Hs Hc. destruct (mix_key_key st ikm) as (k & Hk & _). unfold encrypt_and_hash in H. rewrite Hk in H.
  destruct (aead_encrypt _ _ _ _) as [c|]; [|done]. destruct (ok_or _ _); [|done]. injection H as <- <-.
  apply mix_hash_bytes; [|done]. change (is_bytes (ss_handshake_hash (mix_key st ikm))). by rewrite mix_key_hash.
Qed.

Lemma split_generation st : cs_generation (split st).1 = 0 ∧ cs_generation (split st).2 = 0.
Proof. unfold split. by destruct (hkdf _ _). Qed.

(** The handshake against the responder, with what the session needs
    afterwards. *)
Lemma handshake_agrees client static ephemeral :
  forallb (Z.eqb 0) (x25519 client (x25519_public static)) = false →
  forallb (Z.eqb 0) (x25519 client (x25519_public ephemeral)) = false →
  ∃ hello answer cl srv,
    respond static ephemeral hello = Ok (answer, srv) ∧
    (∀ rest out, client_handshake client (x25519_public static) (mkStream (answer ++ rest) out [])
      = Ok (cl, mkStream rest (out ++ hello) [])) ∧
    se_handshake_hash cl = se_handshake_hash srv ∧
    se_seal cl = se_open srv ∧ se_open cl = se_seal srv ∧
    cipher_ok (se_seal cl) ∧ cipher_ok (se_open cl) ∧
    is_bytes (se_handshake_hash cl) ∧ cs_generation (se_seal cl) = 0 ∧ cs_generation (se_open cl) = 0.
Proof.
  intros Hes Hee.
  destruct (encrypt_decrypt_and_hash (mix_hash (symmetric_new (x25519_public static)) (x25519_public client))
    (x25519 client (x25519_public static))) as (tag & st1 & He1 & Hl1 & Hb1 & Hd1).
  destruct (encrypt_decrypt_and_hash (mix_hash st1 (x25519_public ephemeral))
    (x25519 client (x25519_public ephemeral))) as (tag2 & st2 & He2 & Hl2 & Hb2 & Hd2).
  pose proof (x25519_public_key32 client) as Hpc. pose proof (x25519_public_key32 ephemeral) as Hpe.
  set (prefix := CLIENT_MAGIC ++ be_bytes 2 HANDSHAKE_MESSAGE_LEN).
  assert (length prefix = 6%nat) as Hpre by reflexivity.
  set (answer := SERVER_MAGIC ++ be_bytes 2 HANDSHAKE_MESSAGE_LEN ++ x25519_public ephemeral ++ tag2).
  exists (prefix ++ x25519_public client ++ tag), answer,
    (mkSession (split st2).1 (split st2).2 (ss_handshake_hash st2)),
    (mkSession (split st2).2 (split st2).1 (ss_handshake_hash st2)).
  assert (is_bytes (ss_handshake_hash st2)) as Hhb.
  { eapply encrypt_hash_bytes; [done| |done]. apply mix_hash_bytes; [|apply Hpe].
    eapply encrypt_hash_bytes; [done| |done]. apply mix_hash_bytes; [|apply Hpc].
    apply symmetric_new_bytes, x25519_public_key32. }
  split; [|split; [|destruct (split_ok st2), (split_generation st2); done]].
  - unfold respond. rewrite take_app_length' by done. unfold beq at 1. fold prefix.
    rewrite (bool_decide_eq_true_2 _ eq_refl). cbn [negb].
    rewrite slice_app_skip by lia. rewrite Hpre. cbn [Nat.sub].
    rewrite slice_app_exact by apply Hpc.
    change 38%nat with (6 + 32)%nat. rewrite <- drop_drop, drop_app_length' by done.
    destruct (take_key32 (x25519_public client) tag Hpc) as [_ ->].
    rewrite (x25519_comm static client), Hd1, (x25519_comm ephemeral client), He2.
    destruct (split st2). done.
  - intros rest out. unfold client_handshake, require_nonzero_shared. rewrite Hes, He1, Hl1. cbn [Z.eqb TAG_LEN Pos.eqb negb].
    unfold write_all, flush, io_call. cbn [s_faults s_in s_out].
    replace (answer ++ rest) with ((SERVER_MAGIC ++ be_bytes 2 HANDSHAKE_MESSAGE_LEN)
      ++ (x25519_public ephemeral ++ tag2) ++ rest) by (unfold answer; by rewrite <- !app_assoc).
    rewrite read_exact_app by reflexivity.
    change (negb _ || negb _) with false. cbn iota.
    rewrite read_exact_app.
    2:{ destruct Hpe as [_ Hpe]. rewrite len_app, Hl2. unfold len, HANDSHAKE_MESSAGE_LEN. by rewrite Hpe. }
    destruct (take_key32 (x25519_public ephemeral) tag2 Hpe) as [-> ->].
    rewrite Hee, Hd2. cbn [is_empty negb]. unfold prefix. rewrite <- app_assoc.
    by destruct (split st2).
Qed.

(** C4: the handshake agrees with a Noise NK responder: when the two
    Diffie-Hellman secrets are non-zero, the hello [client_handshake] writes is
    accepted by the responder, its answer is accepted by the client, and both
    ends hold the same handshake hash and the same cipher states, crosswise,
    which satisfy the record invariant. *)
Theorem handshake_agreement client static ephemeral rest out :
  forallb (Z.eqb 0) (x25519 client (x25519_public static)) = false →
  forallb (Z.eqb 0) (x25519 client (x25519_public ephemeral)) = false →
  ∃ hello answer cl srv,
    respond static ephemeral hello = Ok (answer, srv) ∧
    client_handshake client (x25519_public static) (mkStream (answer ++ rest) out [])
      = Ok (cl, mkStream rest (out ++ hello) []) ∧
    se_handshake_hash cl = se_handshake_hash srv ∧
    se_seal cl = se_open srv ∧ se_open cl = se_seal srv ∧
    cipher_ok (se_seal cl) ∧ cipher_ok (se_open cl).
Proof.
  intros Hes Hee. destruct (handshake_agrees client static ephemeral Hes Hee)
    as (hello & answer & cl & srv & H1 & H2 & H3 & H4 & H5 & H6 & H7 & _). exists hello, answer, cl, srv. by rewrite H2.
Qed.
End Handshake_proofs.

(** ** The theorems at concrete inputs *)
Definition sample_cipher : CipherState := cipher_new (replicate 32 7).
Definition sample_hash : list Z := replicate 32 9.
Definition sample_payloads : list (Z * list Z) := [(0, lit "hello"); (0, []); (1, [])].

Lemma sample_cipher_ok : cipher_ok sample_cipher.
Proof. apply cipher_new_ok. by_vm. Qed.

Lemma sample_hash_bytes : is_bytes sample_hash.
Proof. by_vm. Qed.

Lemma session_stream_roundtrip_witness :
  ∃ rs c', @seal_all Toy.toy_crypto sample_cipher sample_hash sample_payloads = Ok (rs, c') ∧
    cipher_ok c' ∧
    @open_all Toy.toy_crypto sample_cipher sample_hash rs
      = Ok ([Application (lit "hello"); Application []; Close], c').
Proof.
  apply (@session_stream_roundtrip Toy.toy_crypto Toy.toy_laws sample_cipher sample_hash sample_payloads).
  - exact sample_cipher_ok.
  - exact sample_hash_bytes.
  - repeat constructor; first [by left | by right | by_vm | vm_compute; congruence].
  - vm_compute. congruence.
Defined.

Definition sample_record : list Z :=
  match @seal_with Toy.toy_crypto sample_cipher sample_hash 0 (lit "hello") with
  | Ok (r, _) => r
  | Err _ => []
  end.

(** The next record of the same stream. *)
Definition next_record : list Z :=
  match @seal_with Toy.toy_crypto (mkCipherState (replicate 32 7) 1 256 0) sample_hash 0 [] with
  | Ok (r, _) => r
  | Err _ => []
  end.

(** The record comes again after the next one. *)
Lemma replay_rejected_witness :
  ∃ c1 c2, @open_with Toy.toy_crypto sample_cipher sample_hash sample_record = Ok (Application (lit "hello"), c1) ∧
    @open_all Toy.toy_crypto c1 sample_hash [next_record] = Ok ([Application []], c2) ∧
    @open_with Toy.toy_crypto c2 sample_hash sample_record
      = Err (invalid_data (lit "MST5 encrypted record sequence mismatch")).
Proof.
  exists (mkCipherState (replicate 32 7) 1 256 0), (mkCipherState (replicate 32 7) 2 512 0).
  assert (@open_with Toy.toy_crypto sample_cipher sample_hash sample_record
    = Ok (Application (lit "hello"), mkCipherState (replicate 32 7) 1 256 0)) as H
    by (vm_compute; reflexivity).
  assert (@open_all Toy.toy_crypto (mkCipherState (replicate 32 7) 1 256 0) sample_hash [next_record]
    = Ok ([Application []], mkCipherState (replicate 32 7) 2 512 0)) as H2
    by (vm_compute; reflexivity).
  split; [exact H|]. split; [exact H2|].
  refine (proj1 (@replay_rejected Toy.toy_crypto Toy.toy_laws sample_cipher sample_hash sample_record
    (Application (lit "hello")) _ [next_record] [Application []] _ _ _ _ H H2) _).
  - exact sample_cipher_ok.
  - by_vm.
  - vm_compute. reflexivity.
  - right. reflexivity.
Defined.

(** One record before the key is replaced, so that the second is sealed with the next. *)
Definition last_of_key : CipherState := mkCipherState (replicate 32 7) (REKEY_RECORDS - 1) 1000 0.
Definition two_records : list (list Z) * CipherState :=
  match @seal_all Toy.toy_crypto last_of_key sample_hash [(0, lit "hello"); (0, [])] with
  | Ok x => x
  | Err _ => ([], last_of_key)
  end.


Lemma frames_over_stream_witness :
  ∃ wire c', @write_frames Toy.toy_crypto sample_cipher sample_hash (mkStream [] [] []) [sample_frame; sample_frame]
      = Ok (c', mkStream [] ([] ++ wire) []) ∧ cipher_ok c' ∧
    (∀ rest o', @read_frames Toy.toy_crypto no_decompressors 2 sample_cipher sample_hash (mkStream (wire ++ rest) o' [])
                = Ok ([Some sample_frame; Some sample_frame], c', mkStream rest o' [])).
Proof.
  apply (@frames_over_stream Toy.toy_crypto Toy.toy_laws no_decompressors sample_cipher sample_hash
    [sample_frame; sample_frame]).
  - exact sample_cipher_ok.
  - exact sample_hash_bytes.
  - repeat constructor; first [reflexivity | by_vm | vm_compute; congruence].
  - vm_compute. congruence.
Defined.

Lemma handshake_agreement_witness :
  ∃ hello answer cl srv,
    @respond Toy.toy_crypto (replicate 32 3) (replicate 32 5) hello = Ok (answer, srv) ∧
    @client_handshake Toy.toy_crypto (replicate 32 2) (@x25519_public Toy.toy_crypto (replicate 32 3))
      (mkStream (answer ++ []) [] []) = Ok (cl, mkStream [] ([] ++ hello) []) ∧
    se_handshake_hash cl = se_handshake_hash srv ∧
    se_seal cl = se_open srv ∧ se_open cl = se_seal srv ∧
    cipher_ok (se_seal cl) ∧ cipher_ok (se_open cl).
Proof.
  apply (@handshake_agreement Toy.toy_crypto Toy.toy_laws (replicate 32 2) (replicate 32 3) (replicate 32 5) [] []).
  - vm_compute. reflexivity.
  - vm_compute. reflexivity.
Defined.

Lemma seal_record_into_refines_witness :
  result_map (λ x, (x.1, mkSession x.2 sample_cipher sample_hash))
    (@seal_record_into Toy.toy_crypto sample_cipher sample_hash 0 (lit "hello"))
  = @seal_record Toy.toy_crypto (mkSession sample_cipher sample_cipher sample_hash) 0 (lit "hello").
Proof. apply (@seal_record_into_refines Toy.toy_crypto Toy.toy_laws). Defined.
