(* ===== verification/Fs.v ===== *)
(** * File system (std::fs, as src/src/e2e.rs and src/src/messenger.rs use it)

    A path is its parent directory and its final component (absent for [/] and
    [..]); a file system maps such pairs to contents.  Every call consumes one
    entry of a fault schedule, so that each of them can fail; a failing write may
    leave a prefix of its data.  Operations return the file system also when they
    fail, since what is left on disk is what the theorems are about. *)
From S2P Require Import Prelude.

Record Path := mkPath { parent : option (list Z); file_name : option (list Z) }.

Record Fs := mkFs {
  fs_files : gmap (list Z * list Z) (list Z);
  (** outcome of the next calls: [Some (e, n)] fails with [e] after [n] bytes *)
  fs_faults : list (option (io_error * nat))
}.

(** A computation on the file system: [io::Result] and the state it leaves. *)
Definition fs_io (A : Type) : Type := Fs → io A * Fs.

Definition fs_ret {A} (a : A) : fs_io A := λ s, (Ok a, s).
Definition fs_err {A} (e : io_error) : fs_io A := λ s, (Err e, s).
Definition fs_bind {A B} (m : fs_io A) (k : A → fs_io B) : fs_io B :=
  λ s, match m s with
       | (Ok a, s') => k a s'
       | (Err e, s') => (Err e, s')
       end.

Notation "'do?' x := m 'in' k" := (fs_bind m (λ x, k))
  (at level 10, x pattern, k at level 200) : rust_scope.

(** The key of a path that names a file. *)
Definition path_key (p : Path) : list Z * list Z :=
  (default [] (parent p), default [] (file_name p)).

(** One call: its fault, and the remaining schedule. *)
Definition next_fault (s : Fs) : option (io_error * nat) * Fs :=
  match fs_faults s with
  | f :: t => (f, mkFs (fs_files s) t)
  | [] => (None, s)
  end.

(** A call that changes nothing ([create_dir_all], [sync_all], [File::open] of a directory). *)
Definition fs_touch : fs_io unit := λ s,
  match next_fault s with
  | (Some (e, _), s') => (Err e, s')
  | (None, s') => (Ok tt, s')
  end.

(** [Path::exists]. *)
Definition fs_exists (p : Path) (s : Fs) : bool := bool_decide (is_Some (fs_files s !! path_key p)).

(** [File::open] and reading at most [limit] bytes to the end. *)
Definition fs_read (p : Path) (limit : Z) : fs_io (list Z) := λ s,
  match next_fault s with
  | (Some (e, _), s') => (Err e, s')
  | (None, s') =>
      match fs_files s' !! path_key p with
      | Some bs => (Ok (take (Z.to_nat limit) bs), s')
      | None => (Err (IoError NotFound (lit "No such file or directory")), s')
      end
  end.

(** [OpenOptions::write(true).create(true).truncate(true).open]. *)
Definition fs_create (p : Path) : fs_io unit := λ s,
  match next_fault s with
  | (Some (e, _), s') => (Err e, s')
  | (None, s') => (Ok tt, mkFs (<[path_key p := []]> (fs_files s')) (fs_faults s'))
  end.

(** [File::write_all] on a file opened for writing at its end. *)
Definition fs_append (p : Path) (bs : list Z) : fs_io unit := λ s,
  let old := default [] (fs_files s !! path_key p) in
  match next_fault s with
  | (Some (e, n), s') => (Err e, mkFs (<[path_key p := old ++ take n bs]> (fs_files s')) (fs_faults s'))
  | (None, s') => (Ok tt, mkFs (<[path_key p := old ++ bs]> (fs_files s')) (fs_faults s'))
  end.

(** [fs::rename]: replaces the target in one step. *)
Definition fs_rename (from to : Path) : fs_io unit := λ s,
  match next_fault s with
  | (Some (e, _), s') => (Err e, s')
  | (None, s') =>
      match fs_files s' !! path_key from with
      | Some bs => (Ok tt, mkFs (<[path_key to := bs]> (delete (path_key from) (fs_files s'))) (fs_faults s'))
      | None => (Err (IoError NotFound (lit "No such file or directory")), s')
      end
  end.

(** [fs::remove_file]. *)
Definition fs_remove (p : Path) : fs_io unit := λ s,
  match next_fault s with
  | (Some (e, _), s') => (Err e, s')
  | (None, s') =>
      match fs_files s' !! path_key p with
      | Some _ => (Ok tt, mkFs (delete (path_key p) (fs_files s')) (fs_faults s'))
      | None => (Err (IoError NotFound (lit "No such file or directory")), s')
      end
  end.

(** ** What a call leaves of the file at [k] *)

Lemma next_fault_files s f s' : next_fault s = (f, s') → fs_files s' = fs_files s.
Proof. unfold next_fault. destruct (fs_faults s); intros; by simplify_eq. Qed.

(** [m] leaves the file at [k] as it is, whether it succeeds or fails. *)
Definition preserves {A} (k : list Z * list Z) (m : fs_io A) : Prop :=
  ∀ s, fs_files (m s).2 !! k = fs_files s !! k.

Lemma preserves_touch k : preserves k fs_touch.
Proof.
  intros s. unfold fs_touch. destruct (next_fault s) as [[[]|] s'] eqn:E;
    apply next_fault_files in E; cbn; by rewrite E.
Qed.

Lemma preserves_read k p n : preserves k (fs_read p n).
Proof.
  intros s. unfold fs_read. destruct (next_fault s) as [[[]|] s'] eqn:E;
    apply next_fault_files in E; cbn; [by rewrite E|].
  destruct (_ !! path_key p); cbn; by rewrite E.
Qed.

Lemma preserves_create k p : path_key p ≠ k → preserves k (fs_create p).
Proof.
  intros Hk s. unfold fs_create. destruct (next_fault s) as [[[]|] s'] eqn:E;
    apply next_fault_files in E; cbn; rewrite E; [done|]. by rewrite lookup_insert_ne.
Qed.

Lemma preserves_append k p bs : path_key p ≠ k → preserves k (fs_append p bs).
Proof.
  intros Hk s. unfold fs_append. destruct (next_fault s) as [[[]|] s'] eqn:E;
    apply next_fault_files in E; cbn; rewrite E; by rewrite lookup_insert_ne.
Qed.

Lemma preserves_bind {A B} k (m : fs_io A) (f : A → fs_io B) :
  preserves k m → (∀ a, preserves k (f a)) → preserves k (fs_bind m f).
Proof.
  intros Hm Hf s. unfold fs_bind. specialize (Hm s). destruct (m s) as [[a|e] s'] eqn:E; cbn in *;
    [rewrite Hf; exact Hm|exact Hm].
Qed.

Lemma preserves_ret {A} k (a : A) : preserves k (fs_ret a).
Proof. by intros s. Qed.

Lemma preserves_err {A} k e : preserves k (fs_err (A:=A) e).
Proof. by intros s. Qed.
#[export] Hint Resolve preserves_touch preserves_read preserves_create preserves_append
  preserves_bind preserves_ret preserves_err : mst5.

(** What a call that needs no fault does. *)
Lemma fs_append_ok p bs files :
  fs_append p bs (mkFs files []) = (Ok tt, mkFs (<[path_key p := default [] (files !! path_key p) ++ bs]> files) []).
Proof. reflexivity. Qed.
