(* ===== verification/E2E.v ===== *)
(** * End-to-end encryption of messages (src/src/e2e.rs)

    [Identity] with its session keys, message envelopes (version 4 and the
    legacy version 3), group envelopes, password backups and the identity store.
    Random bytes are arguments ([io (list Z)], so that the OS generator can
    fail); the cryptographic crates are the class [Crypto], and the zstd
    compressor and decompressor are the classes [Compressor] and
    [Decompressors]. *)
From S2P Require Import Prelude RustStr Frame Crypto Fs.

Definition ENVELOPE_VERSION : Z := 4.
Definition LEGACY_ENVELOPE_VERSION : Z := 3.
Definition BACKUP_VERSION : Z := 2.
Definition IDENTITY_MAGIC : list Z := lit "MST5E2E3".
Definition CONTEXT : list Z := lit "ove-messenger-e2e-v3".
Definition MESSAGE_V4_CONTEXT : list Z := lit "ove-messenger-e2e-v4".
Definition MESSAGE_V4_HEADER : list Z := lit "M4TZ".
Definition MESSAGE_V4_ZSTD : Z := 1.
Definition MESSAGE_COMPRESSION_THRESHOLD : Z := 1024.
Definition MESSAGE_COMPRESSION_SAVINGS_NUMERATOR : Z := 9.
Definition MESSAGE_COMPRESSION_SAVINGS_DENOMINATOR : Z := 10.
Definition MAX_MESSAGE_BYTES : Z := 4 * 1024 * 1024.
Definition MAX_COMPRESSION_RATIO : Z := 64.
Definition BACKUP_CONTEXT : list Z := lit "ove-messenger-e2e-backup-v2".

Record Envelope := mkEnvelope { env_version : Z; env_nonce : list Z; env_ciphertext : list Z }.
Record GroupEnvelope := mkGroupEnvelope {
  grp_version : Z; grp_recipients : gmap (list Z) Envelope
}.
Record Backup := mkBackup {
  bk_version : Z; bk_salt : list Z; bk_nonce : list Z; bk_ciphertext : list Z
}.
Record Identity := mkIdentity { id_private : list Z; id_public : list Z }.

(** [invalid] and [other] of the module. *)
Definition invalid (m : list Z) : io_error := IoError InvalidData m.
Definition other (m : list Z) : io_error := IoError OtherKind m.

Definition ordered_ids (left right : list Z) : list Z * list Z :=
  if str_le left right then (left, right) else (right, left).

Definition message_aad (from to : list Z) : list Z := CONTEXT ++ [0] ++ from ++ [0] ++ to.
Definition message_v4_aad (from to : list Z) : list Z := MESSAGE_V4_CONTEXT ++ [0] ++ from ++ [0] ++ to.

(** [zstd::bulk::Compressor]: whether it can be created, and its output. *)
Class Compressor := {
  compressor_new_ok : bool;
  zstd_compress : list Z → option (list Z)
}.

Section Message_v4.
Context `{Compressor} `{Decompressors}.

(** The thread-local compressor is created on first use; a failed creation is
    tried again by the next call. *)
Definition e2e_zstd_compress (input : list Z) : io (list Z) :=
  fail_if (negb compressor_new_ok) with other (lit "E2E zstd initialization failed");
  ok_or (zstd_compress input) (other (lit "E2E zstd compression failed")).

Definition e2e_zstd_decompress (input : list Z) (limit : Z) : io (list Z) :=
  fail_if (negb zstd_new_ok) with invalid (lit "E2E zstd initialization failed");
  ok_or (zstd_decompress input limit) (invalid (lit "invalid or oversized E2E v4 zstd payload")).

Definition encode_message_v4 (plaintext : list Z) : io (list Z) :=
  fail_if (MAX_MESSAGE_BYTES <? len plaintext) with invalid (lit "E2E message is too large");
  let? (flags, encoded) :=
    (if MESSAGE_COMPRESSION_THRESHOLD <=? len plaintext then
       let? compressed := e2e_zstd_compress plaintext in
       if (saturating_mul64 (len compressed) MESSAGE_COMPRESSION_SAVINGS_DENOMINATOR
             <=? saturating_mul64 (len plaintext) MESSAGE_COMPRESSION_SAVINGS_NUMERATOR)
          && (len plaintext <=? saturating_mul64 (len compressed) MAX_COMPRESSION_RATIO)
       then Ok (Z.lor 0 MESSAGE_V4_ZSTD, compressed)
       else Ok (0, plaintext)
     else Ok (0, plaintext)) in
  Ok (MESSAGE_V4_HEADER ++ [flags] ++ be_bytes 4 (as_u32 (len plaintext)) ++ encoded).

Definition decode_message_v4 (plaintext : list Z) : io (list Z) :=
  fail_if ((len plaintext <? 9) || negb (beq (take 4 plaintext) MESSAGE_V4_HEADER))
    with invalid (lit "invalid E2E v4 message payload");
  let flags := nth 4 plaintext 0 in
  fail_if (negb (Z.land flags (255 - MESSAGE_V4_ZSTD) =? 0))
    with invalid (lit "unsupported E2E v4 message encoding");
  let original_len := from_be (slice 5 9 plaintext) in
  fail_if (MAX_MESSAGE_BYTES <? original_len) with invalid (lit "E2E v4 message is too large");
  let body := drop 9 plaintext in
  let? output :=
    (if negb (Z.land flags MESSAGE_V4_ZSTD =? 0) then
       fail_if (is_empty body) with invalid (lit "empty E2E v4 zstd payload");
       let? output := e2e_zstd_decompress body original_len in
       fail_if (saturating_mul64 (len body) MAX_COMPRESSION_RATIO <? len output)
         with invalid (lit "E2E v4 compression ratio exceeds limit");
       Ok output
     else Ok body) in
  fail_if (negb (len output =? original_len)) with invalid (lit "invalid E2E v4 message length");
  Ok output.
End Message_v4.

Section Identity_ops.
Context `{C : Crypto}.

Definition from_private (private : list Z) : Identity := mkIdentity private (x25519_public private).

(** [Identity::generate], given the outcome of [getrandom::fill]. *)
Definition generate (random : io (list Z)) : io Identity :=
  let? private := random in Ok (from_private private).

Definition public_key (i : Identity) : list Z := id_public i.
Definition private_key (i : Identity) : list Z := id_private i.

(** [fingerprint]: the first 16 bytes of the hash, in hex, separated by colons. *)
Definition fingerprint (public : list Z) : list Z :=
  join [58] (map hex02 (take 16 (sha256_digest public))).

Definition session_key_with_label (i : Identity) (peer_public left right label : list Z) : io (list Z) :=
  let shared := x25519 (id_private i) peer_public in
  fail_if (forallb (Z.eqb 0) shared) with invalid (lit "invalid X25519 peer key");
  let '(first, second) := ordered_ids left right in
  let salt := sha256_digest (CONTEXT ++ [0] ++ first ++ [0] ++ second) in
  Ok (hkdf_expand salt shared label 32).

Definition session_key (i : Identity) (peer_public left right : list Z) : io (list Z) :=
  session_key_with_label i peer_public left right (lit "message-key").

(** [XChaCha20Poly1305::new_from_slice] and [encrypt]/[decrypt]. *)
Definition xseal (key_error error : list Z) (key nonce aad msg : list Z) : io (list Z) :=
  fail_if (negb (len key =? 32)) with invalid key_error;
  ok_or (xchacha_encrypt key nonce aad msg) (invalid error).
Definition xopen (key_error error : list Z) (key nonce aad msg : list Z) : io (list Z) :=
  fail_if (negb (len key =? 32)) with invalid key_error;
  ok_or (xchacha_decrypt key nonce aad msg) (invalid error).

Definition seal `{Compressor} (i : Identity) (peer_public from_id to_id plaintext : list Z)
    (random : io (list Z)) : io Envelope :=
  let? key := session_key_with_label i peer_public from_id to_id (lit "message-v4-key") in
  let? nonce := random in
  let? encoded := encode_message_v4 plaintext in
  let? ciphertext := xseal (lit "invalid E2E key") (lit "E2E encryption failed")
                       key nonce (message_v4_aad from_id to_id) encoded in
  Ok (mkEnvelope ENVELOPE_VERSION nonce ciphertext).

Definition open `{Decompressors} (i : Identity) (peer_public from_id to_id : list Z) (e : Envelope)
  : io (list Z) :=
  fail_if (negb ((env_version e =? LEGACY_ENVELOPE_VERSION) || (env_version e =? ENVELOPE_VERSION))
           || (len (env_ciphertext e) <? 16))
    with invalid (lit "unsupported or invalid E2E envelope");
  let? (key, aad) :=
    (if env_version e =? LEGACY_ENVELOPE_VERSION then
       let? key := session_key i peer_public from_id to_id in Ok (key, message_aad from_id to_id)
     else
       let? key := session_key_with_label i peer_public from_id to_id (lit "message-v4-key") in
       Ok (key, message_v4_aad from_id to_id)) in
  let? plaintext := xopen (lit "invalid E2E key") (lit "E2E message authentication failed")
                      key (env_nonce e) aad (env_ciphertext e) in
  if env_version e =? LEGACY_ENVELOPE_VERSION then Ok plaintext
  else decode_message_v4 plaintext.

(** The loop of [seal_group]; [random] supplies one nonce per recipient. *)
Fixpoint seal_group_loop `{Compressor} (i : Identity) (recipients : list (list Z * list Z))
    (from_id plaintext : list Z) (random : nat → io (list Z)) (n : nat)
    (envelopes : gmap (list Z) Envelope) : io (gmap (list Z) Envelope) :=
  match recipients with
  | [] => Ok envelopes
  | (recipient_id, public) :: t =>
      fail_if (is_empty recipient_id || (64 <? len recipient_id))
        with invalid (lit "invalid group E2E recipient");
      let? e := seal i public from_id recipient_id plaintext (random n) in
      seal_group_loop i t from_id plaintext random (S n) (<[recipient_id := e]> envelopes)
  end.

Definition seal_group `{Compressor} (i : Identity) (recipients : list (list Z * list Z))
    (from_id plaintext : list Z) (random : nat → io (list Z)) : io GroupEnvelope :=
  fail_if (is_empty recipients || (256 <? len recipients))
    with invalid (lit "group E2E recipients must be 1..256");
  let? envelopes := seal_group_loop i recipients from_id plaintext random 0 ∅ in
  Ok (mkGroupEnvelope 5 envelopes).

Definition open_group `{Decompressors} (i : Identity) (sender_public sender_id recipient_id : list Z)
    (g : GroupEnvelope) : io (list Z) :=
  fail_if (negb (grp_version g =? 5)) with invalid (lit "unsupported group E2E envelope");
  let? selected := ok_or (grp_recipients g !! recipient_id)
                     (invalid (lit "group E2E recipient is not present")) in
  open i sender_public sender_id recipient_id selected.

Definition media_key (i : Identity) (peer_public from_id to_id : list Z) : io (list Z) :=
  session_key_with_label i peer_public from_id to_id (lit "media-stream-v2-key").

(** The Argon2 parameters are constants the crate accepts. *)
Definition backup_key (password salt : list Z) : io (list Z) :=
  ok_or (argon2id password salt) (other (lit "Argon2 failed")).

Definition backup (i : Identity) (password : list Z) (random_salt random_nonce : io (list Z))
  : io Backup :=
  fail_if (len password <? 3)
    with invalid (lit "backup password must contain at least 3 characters");
  let? salt := random_salt in
  let? nonce := random_nonce in
  let? key := backup_key password salt in
  let? ciphertext := xseal (lit "invalid backup key") (lit "E2E backup encryption failed")
                       key nonce BACKUP_CONTEXT (id_private i) in
  Ok (mkBackup BACKUP_VERSION salt nonce ciphertext).

Definition restore (b : Backup) (password : list Z) : io Identity :=
  fail_if (negb (bk_version b =? BACKUP_VERSION) || negb (len (bk_ciphertext b) =? 48))
    with invalid (lit "unsupported or invalid E2E backup");
  let? key := backup_key password (bk_salt b) in
  let? private := xopen (lit "invalid backup key") (lit "wrong password or damaged E2E backup")
                    key (bk_nonce b) BACKUP_CONTEXT (bk_ciphertext b) in
  fail_if (negb (len private =? 32)) with invalid (lit "invalid E2E private key");
  Ok (from_private private).

(** ** [IdentityStore] *)

Definition sync_parent : fs_io unit := do? _ := fs_touch in fs_touch.

Definition load (path : Path) : fs_io (option Identity) := λ s,
  if negb (fs_exists path s) then (Ok None, s)
  else (do? encoded := fs_read path 64 in
        if negb (len encoded =? 40) || negb (beq (take 8 encoded) IDENTITY_MAGIC)
        then fs_err (invalid (lit "invalid E2E identity file"))
        else fs_ret (Some (from_private (drop 8 encoded)))) s.

(** The temporary file next to the target. *)
Definition temporary_of (path : Path) (dir : list Z) : Path :=
  let name := match file_name path with
              | Some n => if utf8_valid n then n else lit "identity"
              | None => lit "identity"
              end in
  mkPath (Some dir) (Some (lit "." ++ name ++ lit ".tmp")).

Definition save (path : Path) (i : Identity) : fs_io unit :=
  match parent path with
  | None => fs_err (invalid (lit "identity path has no parent"))
  | Some dir =>
      do? _ := fs_touch in
      let temporary := temporary_of path dir in
      do? _ := fs_create temporary in
      do? _ := fs_append temporary IDENTITY_MAGIC in
      do? _ := fs_append temporary (id_private i) in
      do? _ := fs_touch in
      do? _ := fs_rename temporary path in
      sync_parent
  end.

Definition load_or_create (path : Path) (random : io (list Z)) : fs_io Identity :=
  do? found := load path in
  match found with
  | Some i => fs_ret i
  | None =>
      match generate random with
      | Err e => fs_err e
      | Ok i => do? _ := save path i in fs_ret i
      end
  end.

Definition remove (path : Path) : fs_io unit := λ s,
  match fs_remove path s with
  | (Ok _, s') => sync_parent s'
  | (Err e, s') => if bool_decide (ekind e = NotFound) then (Ok tt, s') else (Err e, s')
  end.

End Identity_ops.

(** ** Laws of the compression library *)
Class ZstdLaws `{Compressor} `{Decompressors} : Prop := {
  zstd_correct m c limit :
    zstd_compress m = Some c → len m ≤ limit → zstd_decompress c limit = Some m;
  zstd_bytes m c : zstd_compress m = Some c → is_bytes m → is_bytes c;
  zstd_nonempty m c : zstd_compress m = Some c → c ≠ [];
  zstd_usable : compressor_new_ok = true ∧ zstd_new_ok = true;
  zstd_total m : is_Some (zstd_compress m);
  (** [ZSTD_compressBound]: the output is never much larger than the input *)
  zstd_bound m c : zstd_compress m = Some c → len c ≤ len m + len m / 128 + 512
}.

(** ** Identifiers *)

Lemma ordered_ids_sym a b : ordered_ids a b = ordered_ids b a.
Proof.
  unfold ordered_ids. destruct (str_le a b) eqn:E1, (str_le b a) eqn:E2; try done.
  - by rewrite (str_le_antisym a b).
  - destruct (str_le_total a b); congruence.
Qed.

(** A separator that occurs in neither prefix determines the split. *)
Lemma app_sep_inj (c : Z) a b a' b' :
  c ∉ a → c ∉ a' → a ++ c :: b = a' ++ c :: b' → a = a' ∧ b = b'.
Proof.
  revert a'. induction a as [|x a IH]; intros [|y a']; cbn; intros Ha Ha' H; simplify_eq.
  - done.
  - set_solver.
  - set_solver.
  - rewrite !not_elem_of_cons in *. destruct (IH a') as [-> ->]; naive_solver.
Qed.

(** ** Message encoding *)
Section Message_proofs.
Context `{ZL : ZstdLaws}.

(** What the decoder does with a header and body. *)
Lemma decode_parts flags n body :
  0 ≤ n ≤ MAX_MESSAGE_BYTES → flags ∈ [0; MESSAGE_V4_ZSTD] →
  decode_message_v4 (MESSAGE_V4_HEADER ++ [flags] ++ be_bytes 4 n ++ body) =
  (let? output :=
    (if flags =? 0 then Ok body else
       fail_if (is_empty body) with invalid (lit "empty E2E v4 zstd payload");
       let? output := e2e_zstd_decompress body n in
       fail_if (saturating_mul64 (len body) MAX_COMPRESSION_RATIO <? len output)
         with invalid (lit "E2E v4 compression ratio exceeds limit");
       Ok output) in
   fail_if (negb (len output =? n)) with invalid (lit "invalid E2E v4 message length");
   Ok output).
Proof.
  intros Hn Hf. unfold decode_message_v4.
  assert (len (MESSAGE_V4_HEADER ++ [flags] ++ be_bytes 4 n ++ body) = 9 + len body) as ->.
  { autorewrite with len. change (len MESSAGE_V4_HEADER) with 4. lia. }
  pose proof (len_nonneg body). zbool.
  rewrite take_app_length' by done. unfold beq. rewrite bool_decide_eq_true_2 by done. cbn [negb orb].
  assert (nth 4 (MESSAGE_V4_HEADER ++ [flags] ++ be_bytes 4 n ++ body) 0 = flags) as -> by done.
  rewrite !slice_app_skip by (simpl; lia).
  change (5 - _ - _)%nat with 0%nat. change (9 - _ - _)%nat with 4%nat.
  rewrite slice_app_exact by apply length_be_bytes. unfold MAX_MESSAGE_BYTES in *.
  rewrite be_bytes_roundtrip by (simpl; lia). zbool.
  assert (drop 9 (MESSAGE_V4_HEADER ++ [flags] ++ be_bytes 4 n ++ body) = body) as ->.
  { rewrite !app_assoc. rewrite drop_app_length'; [done|].
    rewrite !length_app, length_be_bytes. reflexivity. }
  apply elem_of_cons in Hf as [->|Hf]; [reflexivity|].
  apply elem_of_cons in Hf as [->|Hf]; [reflexivity|]. by apply not_elem_of_nil in Hf.
Qed.

Lemma saturating_mul64_small a b : 0 ≤ a * b ≤ u64_max → saturating_mul64 a b = a * b.
Proof. unfold saturating_mul64. lia. Qed.

Lemma message_v4_roundtrip_core m :
  is_bytes m → len m ≤ MAX_MESSAGE_BYTES →
  ∃ enc, encode_message_v4 m = Ok enc ∧ is_bytes enc ∧ decode_message_v4 enc = Ok m ∧
    len enc ≤ 9 + len m.
Proof.
  intros Hm Hl. pose proof (len_nonneg m) as Hm0. destruct zstd_usable as [Hc Hd].
  destruct (zstd_total m) as [c Hzc]. pose proof (zstd_bytes m c Hzc Hm) as Hcb.
  pose proof (zstd_nonempty m c Hzc) as Hne.
  assert (∀ flags body, flags ∈ [0; MESSAGE_V4_ZSTD] → is_bytes body → 
    is_bytes (MESSAGE_V4_HEADER ++ [flags] ++ be_bytes 4 (len m) ++ body)) as Hbytes.
  { intros flags body Hf Hb. rewrite !is_bytes_app. split_and!; auto with mst5.
    - apply lit_is_bytes.
    - repeat constructor; unfold MESSAGE_V4_ZSTD in *; widths;
        repeat (apply elem_of_cons in Hf as [->|Hf]; [lia|]); by apply not_elem_of_nil in Hf. }
  assert (∀ flags body, len (MESSAGE_V4_HEADER ++ [flags] ++ be_bytes 4 (len m) ++ body) = 9 + len body) as Hlen.
  { intros. autorewrite with len. change (len MESSAGE_V4_HEADER) with 4. lia. }
  assert (decode_message_v4 (MESSAGE_V4_HEADER ++ [0] ++ be_bytes 4 (len m) ++ m) = Ok m) as Hplain.
  { rewrite decode_parts by (done || set_solver). cbn. by rewrite Z.eqb_refl. }
  unfold encode_message_v4. zbool. rewrite as_u32_small by (unfold MAX_MESSAGE_BYTES in *; widths; lia).
  destruct (Z.leb_spec MESSAGE_COMPRESSION_THRESHOLD (len m)).
  2:{ eexists; split_and!; [done|apply Hbytes; [set_solver|done]|done|rewrite Hlen; lia]. }
  unfold e2e_zstd_compress. rewrite Hc, Hzc. cbn [negb ok_or].
  destruct (_ && _) eqn:E.
  2:{ eexists; split_and!; [done|apply Hbytes; [set_solver|done]|done|rewrite Hlen; lia]. }
  eexists; split_and!; [done|apply Hbytes; [set_solver|done]| |].
  - rewrite decode_parts by (done || set_solver). cbn [Z.lor MESSAGE_V4_ZSTD Z.eqb].
    unfold e2e_zstd_decompress. rewrite Hd. cbn [negb]. rewrite (zstd_correct m c) by (done || lia).
    cbn [ok_or]. destruct c; [done|]. cbn [is_empty]. to_prop.
    change (Z.lor 0 MESSAGE_V4_ZSTD =? 0) with false. cbn iota.
    rewrite (proj2 (Z.ltb_ge _ _)) by lia. by rewrite Z.eqb_refl.
  - rewrite Hlen. to_prop. pose proof (zstd_bound m c Hzc). pose proof (len_nonneg c). 
    assert (len m / 128 ≤ len m) by (apply Z.div_le_upper_bound; lia).
    unfold MAX_MESSAGE_BYTES, MESSAGE_COMPRESSION_SAVINGS_DENOMINATOR, MESSAGE_COMPRESSION_SAVINGS_NUMERATOR in *.
    rewrite !saturating_mul64_small in * by (widths; lia). lia.
Qed.
End Message_proofs.

(** ** Identities *)
Section Identity_proofs.
Context `{CL : CryptoLaws}.

Record wf_identity (i : Identity) : Prop := {
  wi_private : key32 (id_private i);
  wi_public : id_public i = x25519_public (id_private i)
}.

(** The two ends of a conversation: their Diffie-Hellman secret is not zero. *)
Record peers (a b : Identity) : Prop := {
  pe_left : wf_identity a;
  pe_right : wf_identity b;
  pe_shared : forallb (Z.eqb 0) (x25519 (id_private a) (id_public b)) = false
}.

Lemma shared_sym a b :
  wf_identity a → wf_identity b →
  x25519 (id_private a) (id_public b) = x25519 (id_private b) (id_public a).
Proof. intros [_ ->] [_ ->]. apply x25519_comm. Qed.

Lemma session_key_ok a b l r label :
  peers a b →
  ∃ k, key32 k ∧ session_key_with_label a (id_public b) l r label = Ok k ∧
    session_key_with_label b (id_public a) l r label = Ok k.
Proof.
  intros [Ha Hb Hs]. unfold session_key_with_label. rewrite <- (shared_sym a b Ha Hb), Hs.
  destruct (ordered_ids l r). eexists; split_and!; [|done|done].
  split; [apply hkdf_bytes|apply hkdf_length].
Qed.

(** Both ends derive the same key for every label, whichever of the two
    identifiers each of them passes first. *)
Theorem session_key_symmetric a b l r label :
  wf_identity a → wf_identity b →
  session_key_with_label a (id_public b) l r label = session_key_with_label b (id_public a) r l label.
Proof.
  intros Ha Hb. unfold session_key_with_label. by rewrite (shared_sym a b Ha Hb), ordered_ids_sym.
Qed.

Lemma xseal_xopen e1 e2 e3 e4 k n aad m :
  key32 k → length n = 24%nat → is_bytes m →
  ∃ c, xseal e1 e2 k n aad m = Ok c ∧ is_bytes c ∧ len c = len m + 16 ∧ xopen e3 e4 k n aad c = Ok m.
Proof.
  intros Hk Hn Hm. destruct (xchacha_total k n aad m Hk Hn) as [c Hc].
  destruct (xchacha_ct _ _ _ _ _ Hc Hm) as [Hb Hl]. destruct Hk as [_ Hk].
  exists c. unfold xseal, xopen. assert (len k = 32) as -> by (unfold len; lia).
  by rewrite Hc, (xchacha_correct _ _ _ _ _ Hc).
Qed.

Section With_zstd.
Context `{ZL : ZstdLaws}.

Lemma seal_open_core a b from to m nonce :
  peers a b → is_bytes m → len m ≤ MAX_MESSAGE_BYTES → length nonce = 24%nat →
  ∃ e, seal a (id_public b) from to m (Ok nonce) = Ok e ∧ env_version e = ENVELOPE_VERSION ∧
    env_nonce e = nonce ∧ open b (id_public a) from to e = Ok m ∧ open a (id_public b) from to e = Ok m.
Proof.
  intros Hp Hm Hl Hn.
  destruct (session_key_ok a b from to (lit "message-v4-key") Hp) as (k & Hk & Ha & Hb).
  destruct (message_v4_roundtrip_core m Hm Hl) as (enc & He & Heb & Hd & _).
  destruct (xseal_xopen (lit "invalid E2E key") (lit "E2E encryption failed") (lit "invalid E2E key")
    (lit "E2E message authentication failed") k nonce (message_v4_aad from to) enc Hk Hn Heb)
    as (c & Hs & Hcb & Hcl & Ho).
  exists (mkEnvelope ENVELOPE_VERSION nonce c). unfold seal, open. cbn [env_version env_nonce env_ciphertext].
  change (ENVELOPE_VERSION =? LEGACY_ENVELOPE_VERSION) with false.
  change (ENVELOPE_VERSION =? ENVELOPE_VERSION) with true. cbn [orb negb].
  pose proof (len_nonneg enc). zbool. by rewrite Ha, Hb, He, Hs, Ho, Hd.
Qed.

(** A sealed message of at most 4 MiB opens to itself at the recipient, and
    also at the sender, whether or not the encoder chose compression. *)
Theorem message_seal_open a b from to m nonce :
  peers a b → is_bytes m → len m ≤ MAX_MESSAGE_BYTES → length nonce = 24%nat →
  ∃ e, seal a (id_public b) from to m (Ok nonce) = Ok e ∧ env_version e = ENVELOPE_VERSION ∧
    env_nonce e = nonce ∧ open b (id_public a) from to e = Ok m ∧ open a (id_public b) from to e = Ok m.
Proof. apply seal_open_core. Qed.

(** The members a group message is sealed for, with their identities. *)
Definition recipients_of (rs : list (list Z * Identity)) : list (list Z * list Z) :=
  map (λ x, (x.1, id_public x.2)) rs.

Record member_ok (a : Identity) (x : list Z * Identity) : Prop := {
  mo_id : 1 ≤ len x.1 ≤ 64;
  mo_peers : peers a x.2
}.

Lemma seal_group_loop_ok a rs from m random n acc :
  Forall (member_ok a) rs → NoDup (map fst rs) → is_bytes m → len m ≤ MAX_MESSAGE_BYTES →
  (∀ i, ∃ nonce, random i = Ok nonce ∧ length nonce = 24%nat) →
  ∃ es, seal_group_loop a (recipients_of rs) from m random n acc = Ok es ∧
    (∀ id, id ∉ map fst rs → es !! id = acc !! id) ∧
    (∀ id b, (id, b) ∈ rs → ∃ e, es !! id = Some e ∧ open b (id_public a) from id e = Ok m).
Proof.
  intros Hrs Hnd Hm Hl Hr. revert n acc Hnd.
  induction Hrs as [|[id b] rs [Hid Hp] Hrs IH]; intros n acc Hnd; cbn.
  { eexists; split_and!; [done|done|]. intros ? ? Hx. by apply not_elem_of_nil in Hx. }
  cbn in Hid, Hp. assert (is_empty id = false) as ->.
  { destruct id; [|done]. rewrite (@len_nil Z) in Hid. lia. }
  zbool. cbn [orb]. destruct (Hr n) as (nonce & -> & Hnonce).
  destruct (seal_open_core a b from id m nonce Hp Hm Hl Hnonce) as (e & -> & _ & _ & Ho & _).
  inversion Hnd as [|? ? Hnin Hnd']; subst. cbn in Hnin.
  destruct (IH (S n) (<[id:=e]> acc) Hnd') as (es & He & Hout & Hin).
  exists es. split; [done|]. split.
  - intros i Hi. cbn in Hi. rewrite Hout by set_solver. apply lookup_insert_ne. set_solver.
  - intros i b' Hx. apply elem_of_cons in Hx as [?|Hx]; [|by apply Hin]. simplify_eq.
    exists e. rewrite Hout by done. by rewrite lookup_insert_eq.
Qed.

(** A group message sealed for up to 256 distinct members opens for every
    one of them, and anybody who is not a recipient is refused. *)
Theorem group_seal_open a rs from m random :
  Forall (member_ok a) rs → NoDup (map fst rs) → 1 ≤ len rs ≤ 256 →
  is_bytes m → len m ≤ MAX_MESSAGE_BYTES →
  (∀ i, ∃ nonce, random i = Ok nonce ∧ length nonce = 24%nat) →
  ∃ g, seal_group a (recipients_of rs) from m random = Ok g ∧
    (∀ id b, (id, b) ∈ rs → open_group b (id_public a) from id g = Ok m) ∧
    (∀ id b, id ∉ map fst rs →
       open_group b (id_public a) from id g = Err (invalid (lit "group E2E recipient is not present"))).
Proof.
  intros Hrs Hnd Hlen Hm Hl Hr.
  destruct (seal_group_loop_ok a rs from m random 0 ∅ Hrs Hnd Hm Hl Hr) as (es & He & Hout & Hin).
  exists (mkGroupEnvelope 5 es). unfold seal_group. rewrite He.
  assert (len (recipients_of rs) = len rs) as Hlr by (unfold len, recipients_of; by rewrite length_map).
  rewrite Hlr. zbool. split.
  { destruct rs; [rewrite (@len_nil (list Z * Identity)) in Hlen; lia|done]. }
  unfold open_group. cbn. split.
  - intros id b Hx. destruct (Hin id b Hx) as (e & -> & Ho). done.
  - intros id b Hx. by rewrite Hout, lookup_empty.
Qed.
End With_zstd.

Lemma backup_restore_core i password salt nonce :
  wf_identity i → 3 ≤ len password → is_Some (argon2id password salt) → length nonce = 24%nat →
  ∃ c, len c = 48 ∧ is_bytes c ∧
    backup i password (Ok salt) (Ok nonce) = Ok (mkBackup BACKUP_VERSION salt nonce c) ∧
    restore (mkBackup BACKUP_VERSION salt nonce c) password = Ok i.
Proof.
  intros [[Hk Hk'] Hpub] Hl [key Hkey] Hn. pose proof (argon2id_key32 _ _ _ Hkey) as Hkey32.
  destruct (xseal_xopen (lit "invalid backup key") (lit "E2E backup encryption failed")
    (lit "invalid backup key") (lit "wrong password or damaged E2E backup") key nonce BACKUP_CONTEXT
    (id_private i) Hkey32 Hn Hk) as (c & Hs & Hcb & Hcl & Ho).
  assert (len (id_private i) = 32) as Hp32 by (unfold len; lia).
  exists c. split; [lia|]. split; [done|]. unfold backup, restore, backup_key. zbool.
  cbn [bk_version bk_salt bk_nonce bk_ciphertext]. rewrite Hkey. cbn [ok_or]. rewrite Hs, Ho. split; [done|].
  rewrite Hcl, Hp32. cbn.
  destruct i; cbn in *. by subst.
Qed.

(** Restoring a backup with its password gives the identity back; the
    password must have at least three bytes, and Argon2 must accept it. *)
Theorem backup_restore i password salt nonce :
  wf_identity i → 3 ≤ len password → is_Some (argon2id password salt) → length nonce = 24%nat →
  ∃ b, backup i password (Ok salt) (Ok nonce) = Ok b ∧ restore b password = Ok i.
Proof. intros Hi Hl Hk Hn. destruct (backup_restore_core i password salt nonce Hi Hl Hk Hn) as (c & _ & _ & H). eauto. Qed.

(** ** The identity store *)

(** What [save] does before it renames: the target is not touched, and a
    success leaves the complete identity in the temporary file. *)
Definition write_temporary (temporary : Path) (i : Identity) : fs_io unit :=
  do? _ := fs_touch in
  do? _ := fs_create temporary in
  do? _ := fs_append temporary IDENTITY_MAGIC in
  do? _ := fs_append temporary (id_private i) in
  fs_touch.

Lemma fs_bind_assoc {A B D} (m : fs_io A) (f : A → fs_io B) (g : B → fs_io D) s :
  fs_bind (fs_bind m f) g s = fs_bind m (λ a, fs_bind (f a) g) s.
Proof. unfold fs_bind. by destruct (m s) as [[]]. Qed.

Lemma save_eq path i dir s :
  parent path = Some dir →
  save path i s = fs_bind (write_temporary (temporary_of path dir) i)
    (λ _, fs_bind (fs_rename (temporary_of path dir) path) (λ _, sync_parent)) s.
Proof.
  intros Hp. unfold save, write_temporary, fs_bind. rewrite Hp.
  repeat (case_match; simplify_eq; try done).
Qed.

Lemma fs_append_content p bs s u s' :
  fs_append p bs s = (Ok u, s') →
  fs_files s' !! path_key p = Some (default [] (fs_files s !! path_key p) ++ bs).
Proof.
  unfold fs_append. destruct (next_fault s) as [[[]|] s1] eqn:E; intros; simplify_eq; cbn.
  by rewrite lookup_insert_eq.
Qed.

Lemma write_temporary_content t i s u s' :
  write_temporary t i s = (Ok u, s') →
  fs_files s' !! path_key t = Some (IDENTITY_MAGIC ++ id_private i).
Proof.
  unfold write_temporary, fs_bind. intros H.
  destruct (fs_touch s) as [[] s1]; [|done].
  destruct (fs_create t s1) as [[] s2] eqn:E2; [|done].
  destruct (fs_append t IDENTITY_MAGIC s2) as [[] s3] eqn:E3; [|done].
  destruct (fs_append t (id_private i) s3) as [[] s4] eqn:E4; [|done].
  pose proof (preserves_touch (path_key t) s4) as Hp. rewrite H in Hp. cbn in Hp.
  apply fs_append_content in E3, E4. rewrite Hp, E4, E3. cbn.
  unfold fs_create in E2. destruct (next_fault s1) as [[[]|] s1']; simplify_eq; cbn.
  by rewrite lookup_insert_eq.
Qed.

Lemma write_temporary_preserves t i k : path_key t ≠ k → preserves k (write_temporary t i).
Proof. intros. unfold write_temporary. eauto 10 with mst5. Qed.

Lemma sync_parent_preserves k : preserves k sync_parent.
Proof. unfold sync_parent. auto with mst5. Qed.

(** The temporary file is not the target. *)
Definition distinct_temporary (path : Path) : Prop :=
  ∀ dir, parent path = Some dir → path_key (temporary_of path dir) ≠ path_key path.

Lemma save_atomic_core path i s r s' :
  distinct_temporary path → save path i s = (r, s') →
  (fs_files s' !! path_key path = fs_files s !! path_key path
   ∨ fs_files s' !! path_key path = Some (IDENTITY_MAGIC ++ id_private i)) ∧
  (r = Ok tt → fs_files s' !! path_key path = Some (IDENTITY_MAGIC ++ id_private i)).
Proof.
  intros Hd H. destruct (parent path) as [dir|] eqn:Hp.
  2:{ unfold save in H. rewrite Hp in H. cbv in H. simplify_eq. split; [by left|discriminate]. }
  rewrite (save_eq _ _ dir) in H by done. specialize (Hd dir Hp).
  set (t := temporary_of path dir) in *. unfold fs_bind at 1 in H.
  pose proof (write_temporary_preserves t i (path_key path) Hd s) as Hw.
  destruct (write_temporary t i s) as [[u|e] s1] eqn:E; cbn in Hw; [|simplify_eq; split; [by left|discriminate]].
  apply write_temporary_content in E. unfold fs_bind, fs_rename in H.
  destruct (next_fault s1) as [[[]|] s2] eqn:Ef; apply next_fault_files in Ef.
  { simplify_eq. rewrite Ef, Hw. split; [by left|discriminate]. }
  rewrite Ef, E in H. match type of H with sync_parent ?x = _ => pose proof (sync_parent_preserves (path_key path) x) as Hs end.
  rewrite H in Hs. cbn in Hs. rewrite lookup_insert_eq in Hs. rewrite Hs. auto.
Qed.

(** Saving an identity is atomic: whatever calls fail, and wherever a write
    stops, the file at the path afterwards is either what it was or the complete
    new identity; a save that succeeds has stored the new identity. *)
Theorem save_atomic path i s :
  distinct_temporary path →
  let '(r, s') := save path i s in
  (fs_files s' !! path_key path = fs_files s !! path_key path
   ∨ fs_files s' !! path_key path = Some (IDENTITY_MAGIC ++ id_private i)) ∧
  (r = Ok tt → fs_files s' !! path_key path = Some (IDENTITY_MAGIC ++ id_private i)).
Proof.
  intros Hd. destruct (save path i s) as [r s'] eqn:E. by eapply save_atomic_core.
Qed.

Lemma load_stored path i files :
  wf_identity i → files !! path_key path = Some (IDENTITY_MAGIC ++ id_private i) →
  load path (mkFs files []) = (Ok (Some i), mkFs files []).
Proof.
  intros [[Hb Hl] Hpub] Hf. unfold load, fs_exists. cbn. rewrite Hf.
  rewrite bool_decide_eq_true_2 by eauto. cbn [negb]. unfold fs_bind, fs_read. cbn. rewrite Hf.
  rewrite take_ge by (rewrite length_app, Hl; change (length IDENTITY_MAGIC) with 8%nat; lia).
  assert (len (IDENTITY_MAGIC ++ id_private i) = 40) as -> by (rewrite len_app; unfold len; rewrite Hl; done).
  rewrite take_app_length', drop_app_length' by done. unfold beq. rewrite bool_decide_eq_true_2 by done.
  cbn. destruct i; cbn in *. by subst.
Qed.

(** [load_or_create] is stable: after a first call succeeds, a later call on
    the file system it left (and with any other random bytes) returns the same
    identity. *)
Theorem load_or_create_stable path s i s' random random2 :
  distinct_temporary path →
  (∀ k, random = Ok k → key32 k) →
  (∀ bs, fs_files s !! path_key path = Some bs → is_bytes bs) →
  load_or_create path random s = (Ok i, s') →
  load_or_create path random2 (mkFs (fs_files s') []) = (Ok i, mkFs (fs_files s') []).
Proof.
  intros Hd Hr Hbs H. unfold load_or_create in H |- *.
  assert (wf_identity i ∧ fs_files s' !! path_key path = Some (IDENTITY_MAGIC ++ id_private i)) as [Hwf Hf].
  { unfold fs_bind at 1 in H. destruct (load path s) as [[[j|]|] s1] eqn:E; [| |done].
    - unfold fs_ret in H. simplify_eq. unfold load in E.
      destruct (negb _); [done|]. unfold fs_bind, fs_read in E.
      destruct (next_fault s) as [[[]|] s2] eqn:Ef; [done|]. apply next_fault_files in Ef. rewrite Ef in E.
      destruct (fs_files s !! path_key path) as [bs|] eqn:El; [|done].
      destruct (_ || _) eqn:Eb; unfold fs_err, fs_ret in E; [done|]. simplify_eq.
      apply orb_false_elim in Eb as [H Ebe]. to_prop. apply Z.eqb_eq in H. assert (take (Z.to_nat 64) bs = bs) as Ht.
      { apply take_ge. unfold len in H. rewrite length_take in H. lia. }
      rewrite Ht in *. rewrite Ef, El. split.
      + split; cbn; [|done]. split; [by apply is_bytes_drop, Hbs|]. unfold len in H. rewrite length_drop. lia.
      + cbn. f_equal. rewrite <- (take_drop 8 bs) at 1. by f_equal.
    - destruct (generate random) as [j|] eqn:Eg; [|done]. unfold generate in Eg.
      destruct random as [k|]; [|done]. apply Ok_inj in Eg. subst j. unfold fs_bind in H.
      destruct (save path (from_private k) s1) as [[u|] s2] eqn:Es; [|done]. unfold fs_ret in H. simplify_eq.
      apply save_atomic_core in Es as [_ Es]; [|done]. destruct u. split; [|by apply Es].
      split; cbn; auto. }
  unfold fs_bind at 1. by rewrite (load_stored _ i).
Qed.
End Identity_proofs.

(** ** Bindings and bounds *)

(** The associated data of a message determines its direction: for
    identifiers without NUL bytes, equal associated data means the same sender
    and the same recipient, so a ciphertext cannot be re-attributed or reflected;
    and the data of the two envelope versions never coincide. *)
Theorem message_aad_binding f t f' t' :
  0 ∉ f → 0 ∉ f' →
  (message_v4_aad f t = message_v4_aad f' t' → f = f' ∧ t = t') ∧
  (message_aad f t = message_aad f' t' → f = f' ∧ t = t') ∧
  message_v4_aad f t ≠ message_aad f' t'.
Proof.
  intros Hf Hf'. unfold message_v4_aad, message_aad. split_and!.
  - intros H. apply app_inv_head in H. cbn in H. simplify_eq. by apply (app_sep_inj 0) in H.
  - intros H. apply app_inv_head in H. cbn in H. simplify_eq. by apply (app_sep_inj 0) in H.
  - intros H. apply (f_equal (take 20)) in H. discriminate H.
Qed.

Lemma message_aad_binding_witness :
  message_v4_aad (lit "alice") (lit "bob") ≠ message_aad (lit "alice") (lit "bob").
Proof.
  apply (message_aad_binding (lit "alice") (lit "bob") (lit "alice") (lit "bob")); by_vm.
Defined.

(** Whatever plaintext the peer authenticated, a decoded version 4 message
    has the declared length, at most 4 MiB, and when it was compressed at most
    64 bytes for each byte received. *)
Theorem decode_message_bounds `{Decompressors} bs m :
  is_bytes bs → decode_message_v4 bs = Ok m →
  len m = from_be (slice 5 9 bs) ∧ len m ≤ MAX_MESSAGE_BYTES ∧
  (nth 4 bs 0 = 0 ∧ m = drop 9 bs ∨ nth 4 bs 0 = MESSAGE_V4_ZSTD ∧ len m ≤ 64 * (len bs - 9)).
Proof.
  unfold decode_message_v4. intros Hb Hdec.
  destruct (_ || _) eqn:E1; [done|]. destruct (negb _) eqn:E2 in Hdec; [done|].
  destruct (Z.ltb_spec MAX_MESSAGE_BYTES (from_be (slice 5 9 bs))); [done|].
  match type of Hdec with (match ?x with _ => _ end) = _ => destruct x as [out|] eqn:E3; [|done] end.
  destruct (negb _) eqn:E4 in Hdec; [done|]. apply Ok_inj in Hdec. subst out. to_prop.
  rewrite Z.eqb_eq in E2, E4. split; [done|]. split; [lia|].
  assert (nth 4 bs 0 = 0 ∨ nth 4 bs 0 = MESSAGE_V4_ZSTD) as Hflags.
  { pose proof (is_bytes_nth bs 4 Hb) as Hu. revert E2 Hu. generalize (nth 4 bs 0). intros z Hz Hu.
    pose proof (forall_u8 (λ z, implb (Z.land z (255 - MESSAGE_V4_ZSTD) =? 0) ((z =? 0) || (z =? MESSAGE_V4_ZSTD)))
      ltac:(by vm_compute) z Hu) as Hall. cbn beta in Hall. rewrite Hz in Hall. cbn in Hall.
    apply orb_prop in Hall. rewrite !Z.eqb_eq in Hall. done. }
  destruct Hflags as [Hf|Hf]; rewrite Hf in E3.
  - left. cbn in E3. apply Ok_inj in E3. done.
  - right. split; [done|]. cbn in E3.
    destruct (is_empty (drop 9 bs)); [done|].
    destruct (e2e_zstd_decompress _ _) as [out|]; [|done].
    destruct (Z.ltb_spec (saturating_mul64 (len (drop 9 bs)) MAX_COMPRESSION_RATIO) (len out)); [done|].
    apply Ok_inj in E3. subst out. unfold saturating_mul64, MAX_COMPRESSION_RATIO in *.
    rewrite Z.ltb_ge in *.
    assert (len (drop 9 bs) = len bs - 9) by (unfold len in *; rewrite length_drop; lia). lia.
Qed.

(** A concrete compressor: it stores its input behind a marker byte. *)
Definition store_compressor : Compressor :=
  {| compressor_new_ok := true; zstd_compress := λ m, Some (1 :: m) |}.
Definition store_decompressor : Decompressors :=
  {| inflate := λ _ _, None;
     zstd_decompress := λ c limit, match c with
                                   | 1 :: m => if len m <=? limit then Some m else None
                                   | _ => None
                                   end;
     zstd_new_ok := true |}.

#[export] Instance store_laws : @ZstdLaws store_compressor store_decompressor.
Proof.
  constructor; cbn; try done; intros; simplify_eq; try done.
  - by rewrite (proj2 (Z.leb_le _ _)).
  - apply is_bytes_cons. split; [widths; lia|done].
  - rewrite len_cons. pose proof (len_nonneg m). assert (0 ≤ len m / 128) by (apply Z.div_pos; lia). lia.
Qed.

Lemma decode_message_bounds_witness :
  len (lit "hi") ≤ MAX_MESSAGE_BYTES.
Proof.
  apply (@decode_message_bounds store_decompressor (lit "M4TZ" ++ [1; 0; 0; 0; 2; 1] ++ lit "hi")).
  - by_vm.
  - vm_compute. reflexivity.
Defined.

(** Two identities over the concrete primitives. *)
Definition alice : Identity := @from_private Toy.toy_crypto (replicate 32 1).
Definition bob : Identity := @from_private Toy.toy_crypto (replicate 32 2).

Lemma alice_bob : @peers Toy.toy_crypto alice bob.
Proof. constructor; [split; [by_vm|done]..|]. vm_compute. reflexivity. Qed.

Lemma session_key_symmetric_witness :
  @session_key_with_label Toy.toy_crypto alice (id_public bob) (lit "a") (lit "b") (lit "k")
  = @session_key_with_label Toy.toy_crypto bob (id_public alice) (lit "b") (lit "a") (lit "k").
Proof.
  apply (@session_key_symmetric Toy.toy_crypto Toy.toy_laws alice bob); split; first [by_vm | reflexivity].
Defined.

Lemma message_seal_open_witness :
  ∃ e, @seal Toy.toy_crypto store_compressor alice (id_public bob) (lit "a") (lit "b") (lit "hello") (Ok (replicate 24 0)) = Ok e ∧
    env_version e = ENVELOPE_VERSION ∧ env_nonce e = replicate 24 0 ∧
    @open Toy.toy_crypto store_decompressor bob (id_public alice) (lit "a") (lit "b") e = Ok (lit "hello") ∧
    @open Toy.toy_crypto store_decompressor alice (id_public bob) (lit "a") (lit "b") e = Ok (lit "hello").
Proof.
  apply (@message_seal_open Toy.toy_crypto Toy.toy_laws store_compressor store_decompressor store_laws).
  - exact alice_bob.
  - by_vm.
  - vm_compute. congruence.
  - reflexivity.
Defined.

Lemma group_seal_open_witness :
  ∃ g, @seal_group Toy.toy_crypto store_compressor alice (recipients_of [(lit "bob", bob)]) (lit "a") (lit "hello")
         (λ _, Ok (replicate 24 0)) = Ok g ∧
    (∀ id b, (id, b) ∈ [(lit "bob", bob)] →
       @open_group Toy.toy_crypto store_decompressor b (id_public alice) (lit "a") id g = Ok (lit "hello")) ∧
    (∀ id b, id ∉ map fst [(lit "bob", bob)] →
       @open_group Toy.toy_crypto store_decompressor b (id_public alice) (lit "a") id g
       = Err (invalid (lit "group E2E recipient is not present"))).
Proof.
  apply (@group_seal_open Toy.toy_crypto Toy.toy_laws store_compressor store_decompressor store_laws).
  - constructor; [|constructor]. split; [vm_compute; split; congruence|exact alice_bob].
  - by_vm.
  - vm_compute. split; congruence.
  - by_vm.
  - vm_compute. congruence.
  - intros _. by exists (replicate 24 0).
Defined.

Lemma backup_restore_witness :
  ∃ b, @backup Toy.toy_crypto alice (lit "secret") (Ok (replicate 16 4)) (Ok (replicate 24 5)) = Ok b ∧
    @restore Toy.toy_crypto b (lit "secret") = Ok alice.
Proof.
  apply (@backup_restore Toy.toy_crypto Toy.toy_laws).
  - split; [by_vm|reflexivity].
  - vm_compute. congruence.
  - by eexists.
  - reflexivity.
Defined.

Definition sample_path : Path := mkPath (Some (lit "/data")) (Some (lit "identity")).

Lemma sample_path_distinct : distinct_temporary sample_path.
Proof. intros dir H. cbn in H. simplify_eq. vm_compute. congruence. Qed.

(** The rename fails: the old file is still there. *)
Lemma save_atomic_witness :
  let s := mkFs {[ path_key sample_path := [1] ]}
             [None; None; None; None; None; Some (other (lit "full"), 0%nat)] in
  let '(r, s') := save sample_path alice s in
  (fs_files s' !! path_key sample_path = fs_files s !! path_key sample_path
   ∨ fs_files s' !! path_key sample_path = Some (IDENTITY_MAGIC ++ id_private alice)) ∧
  (r = Ok tt → fs_files s' !! path_key sample_path = Some (IDENTITY_MAGIC ++ id_private alice)).
Proof.
  intros s. apply (save_atomic sample_path alice s).
  exact sample_path_distinct.
Defined.

Lemma load_or_create_stable_witness :
  ∃ s', @load_or_create Toy.toy_crypto sample_path (Err (other [])) (mkFs (fs_files s') [])
        = (Ok alice, mkFs (fs_files s') []).
Proof.
  exists ((@load_or_create Toy.toy_crypto sample_path (Ok (replicate 32 1)) (mkFs ∅ [])).2).
  apply (@load_or_create_stable Toy.toy_crypto sample_path (mkFs ∅ []) alice _ (Ok (replicate 32 1))).
  - exact sample_path_distinct.
  - intros k H. simplify_eq. by_vm.
  - intros bs H. cbn in H. by rewrite lookup_empty in H.
  - reflexivity.
Defined.

(** The backup password check counts bytes: a password of one character
    whose UTF-8 encoding has three bytes (the euro sign) is accepted, although
    the error message asks for at least 3 characters. *)
Theorem backup_password_counts_bytes `{Crypto} i salt nonce :
  let password := [226; 130; 172] in
  len (chars password) = 1 ∧
  backup i password (Ok salt) (Ok nonce)
    ≠ Err (invalid (lit "backup password must contain at least 3 characters")).
Proof.
  split; [reflexivity|]. unfold backup, backup_key, xseal. change (len _ <? 3) with false. cbn iota.
  destruct (argon2id _ _) as [k|]; cbn; [|discriminate].
  destruct (negb _); [discriminate|]. destruct (xchacha_encrypt _ _ _ _); discriminate.
Qed.
