(* ===== verification/Media.v ===== *)
(** * The encrypted-media container (src/src/e2e.rs)

    [MediaEncryptor] and [MediaDecryptor]: a 32-byte header followed by
    length-prefixed sealed chunks of 64 KiB.  The decryptor is fed arbitrary
    slices of the container.  [usize_bits] is the pointer width of the target,
    since the decryptor converts a [u64] to [usize]. *)
From S2P Require Import Prelude RustStr Frame Crypto E2E.

Definition MEDIA_ENVELOPE_VERSION : Z := 2.
Definition MEDIA_CHUNK_SIZE : Z := 64 * 1024.
Definition MEDIA_HEADER_SIZE : Z := 32.
Definition MEDIA_MAGIC : list Z := lit "M5EM".
Definition MEDIA_CONTEXT : list Z := lit "ove-messenger-e2e-media-v2".
Definition MEDIA_TAG_SIZE : Z := 16.

(** [cipher] is the XChaCha20-Poly1305 key. *)
Record MediaEncryptor := mkEncryptor {
  en_cipher : list Z; en_aad_prefix : list Z; en_nonce_prefix : list Z;
  en_plaintext_size : Z; en_written : Z; en_index : Z
}.

Record MediaDecryptor := mkDecryptor {
  de_cipher : list Z; de_aad_prefix : list Z; de_nonce_prefix : list Z;
  de_plaintext_size : Z; de_written : Z; de_index : Z;
  de_pending : list Z; de_header_read : bool
}.

Definition media_aad (from to file_id : list Z) : list Z :=
  MEDIA_CONTEXT ++ [0] ++ from ++ [0] ++ to ++ [0] ++ file_id.

Definition encrypted_media_size (plaintext_size : Z) : io Z :=
  let chunks := div_ceil plaintext_size MEDIA_CHUNK_SIZE in
  let? overhead :=
    ok_or (match checked_mul64 chunks (4 + MEDIA_TAG_SIZE) with
           | Some value => checked_add64 value MEDIA_HEADER_SIZE
           | None => None
           end) (invalid (lit "E2E media size overflow")) in
  ok_or (checked_add64 plaintext_size overhead) (invalid (lit "E2E media size overflow")).

Definition media_nonce (prefix : list Z) (index : Z) : list Z := prefix ++ be_bytes 8 index.

Definition media_chunk_aad (prefix header : list Z) (index plaintext_len : Z) : list Z :=
  prefix ++ header ++ be_bytes 8 index ++ be_bytes 4 plaintext_len.

(** The header both sides compute. *)
Definition media_header (plaintext_size : Z) (nonce_prefix : list Z) : list Z :=
  MEDIA_MAGIC ++ [MEDIA_ENVELOPE_VERSION; 16; 0; 0] ++ be_bytes 8 plaintext_size ++ nonce_prefix.

Definition encryptor_header (e : MediaEncryptor) : list Z :=
  media_header (en_plaintext_size e) (en_nonce_prefix e).
Definition decryptor_header (d : MediaDecryptor) : list Z :=
  media_header (de_plaintext_size d) (de_nonce_prefix d).

(** [MediaEncryptor::with_key], given the random nonce prefix. *)
Definition encryptor_with_key (key aad_prefix : list Z) (plaintext_size : Z) (random : io (list Z))
  : io MediaEncryptor :=
  fail_if (negb (len key =? 32)) with invalid (lit "invalid E2E media key");
  let? nonce_prefix := random in
  Ok (mkEncryptor key aad_prefix nonce_prefix plaintext_size 0 0).

Definition decryptor_with_key (key aad_prefix : list Z) : io MediaDecryptor :=
  fail_if (negb (len key =? 32)) with invalid (lit "invalid E2E media key");
  Ok (mkDecryptor key aad_prefix (replicate 16 0) 0 0 0 [] false).

Definition encryptor_finish (e : MediaEncryptor) : io unit :=
  if en_written e =? en_plaintext_size e then Ok tt
  else Err (invalid (lit "E2E media source is shorter than declared size")).

Definition decryptor_finish (d : MediaDecryptor) : io Z :=
  fail_if (negb (de_header_read d) || negb (de_written d =? de_plaintext_size d)
           || negb (is_empty (de_pending d)))
    with invalid (lit "E2E media is truncated or has trailing bytes");
  Ok (de_written d).

(** The part of [push] before the loop: appended bytes and header.  [None] means
    that the header is not complete yet. *)
Definition push_header (d : MediaDecryptor) (bytes : list Z) : io (option unit) * MediaDecryptor :=
  let d := mkDecryptor (de_cipher d) (de_aad_prefix d) (de_nonce_prefix d) (de_plaintext_size d)
             (de_written d) (de_index d) (de_pending d ++ bytes) (de_header_read d) in
  if de_header_read d then (Ok (Some tt), d)
  else if len (de_pending d) <? MEDIA_HEADER_SIZE then (Ok None, d)
  else
    let header := take 32 (de_pending d) in
    if negb (beq (take 4 header) MEDIA_MAGIC) || negb (nth 4 header 0 =? MEDIA_ENVELOPE_VERSION)
       || negb (nth 5 header 0 =? 16) || negb (nth 6 header 0 =? 0) || negb (nth 7 header 0 =? 0)
    then (Err (invalid (lit "unsupported E2E media version; update the application")), d)
    else (Ok (Some tt),
          mkDecryptor (de_cipher d) (de_aad_prefix d) (drop 16 header) (from_be (slice 8 16 header))
            (de_written d) (de_index d) (drop 32 (de_pending d)) true).

Section Media_ops.
Context `{C : Crypto}.

Definition media_encryptor (i : Identity) (peer_public from_id to_id file_id : list Z)
    (plaintext_size : Z) (random : io (list Z)) : io MediaEncryptor :=
  let? key := session_key_with_label i peer_public from_id to_id (lit "media-stream-v2-key") in
  encryptor_with_key key (media_aad from_id to_id file_id) plaintext_size random.

Definition media_decryptor (i : Identity) (peer_public from_id to_id file_id : list Z) : io MediaDecryptor :=
  let? key := session_key_with_label i peer_public from_id to_id (lit "media-stream-v2-key") in
  decryptor_with_key key (media_aad from_id to_id file_id).

Definition seal_chunk (e : MediaEncryptor) (plaintext : list Z) : io (list Z) * MediaEncryptor :=
  if is_empty plaintext || (MEDIA_CHUNK_SIZE <? len plaintext)
  then (Err (invalid (lit "invalid E2E media chunk size")), e)
  else match checked_add64 (en_written e) (len plaintext) with
  | None => (Err (invalid (lit "E2E media size overflow")), e)
  | Some next =>
      if (en_plaintext_size e <? next)
         || (negb (next =? en_plaintext_size e) && negb (len plaintext =? MEDIA_CHUNK_SIZE))
      then (Err (invalid (lit "E2E media chunks do not match declared size")), e)
      else
        let nonce := media_nonce (en_nonce_prefix e) (en_index e) in
        let aad := media_chunk_aad (en_aad_prefix e) (encryptor_header e) (en_index e)
                     (as_u32 (len plaintext)) in
        match xchacha_encrypt (en_cipher e) nonce aad plaintext with
        | None => (Err (invalid (lit "E2E media encryption failed")), e)
        | Some ciphertext =>
            let out := be_bytes 4 (as_u32 (len ciphertext)) ++ ciphertext in
            let e1 := mkEncryptor (en_cipher e) (en_aad_prefix e) (en_nonce_prefix e)
                        (en_plaintext_size e) next (en_index e) in
            match checked_add64 (en_index e) 1 with
            | None => (Err (invalid (lit "E2E media chunk index overflow")), e1)
            | Some index => (Ok out, mkEncryptor (en_cipher e) (en_aad_prefix e) (en_nonce_prefix e)
                                       (en_plaintext_size e) next index)
            end
        end
  end.

(** The [while] loop of [push]; every turn removes at least four bytes of
    [pending], so its length is enough fuel. *)
Fixpoint push_loop (usize_bits : Z) (fuel : nat) (d : MediaDecryptor) (output : list (list Z))
  : io (list (list Z)) * MediaDecryptor :=
  match fuel with
  | O => (Ok output, d)
  | S fuel' =>
      if negb (de_written d <? de_plaintext_size d) then (Ok output, d)
      else if len (de_pending d) <? 4 then (Ok output, d)
      else
        let ciphertext_len := from_be (take 4 (de_pending d)) in
        let remaining := (de_plaintext_size d - de_written d) mod 2 ^ usize_bits in
        let expected_plain := Z.min remaining MEDIA_CHUNK_SIZE in
        if negb (ciphertext_len =? expected_plain + MEDIA_TAG_SIZE)
        then (Err (invalid (lit "invalid E2E media chunk length")), d)
        else if len (de_pending d) <? 4 + ciphertext_len then (Ok output, d)
        else
          let nonce := media_nonce (de_nonce_prefix d) (de_index d) in
          let aad := media_chunk_aad (de_aad_prefix d) (decryptor_header d) (de_index d)
                       (as_u32 expected_plain) in
          let n := Z.to_nat (4 + ciphertext_len) in
          match xchacha_decrypt (de_cipher d) nonce aad (slice 4 n (de_pending d)) with
          | None => (Err (invalid (lit "E2E media authentication failed")), d)
          | Some plaintext =>
              let written := de_written d + len plaintext in
              let pending := drop n (de_pending d) in
              match checked_add64 (de_index d) 1 with
              | None => (Err (invalid (lit "E2E media chunk index overflow")),
                         mkDecryptor (de_cipher d) (de_aad_prefix d) (de_nonce_prefix d)
                           (de_plaintext_size d) written (de_index d) pending (de_header_read d))
              | Some index =>
                  push_loop usize_bits fuel'
                    (mkDecryptor (de_cipher d) (de_aad_prefix d) (de_nonce_prefix d)
                       (de_plaintext_size d) written index pending (de_header_read d))
                    (output ++ [plaintext])
              end
          end
  end.

Definition push (usize_bits : Z) (d : MediaDecryptor) (bytes : list Z)
  : io (list (list Z)) * MediaDecryptor :=
  match push_header d bytes with
  | (Err e, d1) => (Err e, d1)
  | (Ok None, d1) => (Ok [], d1)
  | (Ok (Some _), d1) => push_loop usize_bits (S (length (de_pending d1))) d1 []
  end.

End Media_ops.

(** ** Runs *)
Section Runs.
Context `{C : Crypto}.

(** Chunks sealed one after the other. *)
Fixpoint seal_chunks (e : MediaEncryptor) (cs : list (list Z)) : io (list Z) * MediaEncryptor :=
  match cs with
  | [] => (Ok [], e)
  | c :: t =>
      match seal_chunk e c with
      | (Err x, e1) => (Err x, e1)
      | (Ok out, e1) => match seal_chunks e1 t with
                        | (Ok outs, e2) => (Ok (out ++ outs), e2)
                        | r => r
                        end
      end
  end.

(** Slices pushed one after the other. *)
Fixpoint push_all (usize_bits : Z) (d : MediaDecryptor) (parts : list (list Z))
  : io (list (list Z)) * MediaDecryptor :=
  match parts with
  | [] => (Ok [], d)
  | p :: t =>
      match push usize_bits d p with
      | (Err x, d1) => (Err x, d1)
      | (Ok out, d1) => match push_all usize_bits d1 t with
                        | (Ok outs, d2) => (Ok (out ++ outs), d2)
                        | r => r
                        end
      end
  end.
End Runs.

(** A file cut into chunks of the chunk size, as the uploader reads it. *)
Fixpoint chunks_of (fuel : nat) (data : list Z) : list (list Z) :=
  match fuel with
  | O => []
  | S n => match data with
           | [] => []
           | _ => take (Z.to_nat MEDIA_CHUNK_SIZE) data :: chunks_of n (drop (Z.to_nat MEDIA_CHUNK_SIZE) data)
           end
  end.

Definition file_chunks (data : list Z) : list (list Z) := chunks_of (length data) data.

(** ** Layout of a container

    [layout size w cs]: the chunks [cs] bring a file of [size] bytes from [w]
    bytes to its end, each as large as allowed. *)
Inductive layout (size : Z) : Z → list (list Z) → Prop :=
| layout_nil : layout size size []
| layout_cons w c cs :
    is_bytes c → 0 ≤ w < size → len c = Z.min (size - w) MEDIA_CHUNK_SIZE →
    layout size (w + len c) cs → layout size w (c :: cs).

Lemma chunks_layout fuel data w :
  is_bytes data → 0 ≤ w → (length data ≤ fuel)%nat →
  layout (w + len data) w (chunks_of fuel data) ∧ concat (chunks_of fuel data) = data ∧
  MEDIA_CHUNK_SIZE * len (chunks_of fuel data) < len data + MEDIA_CHUNK_SIZE.
Proof.
  unfold MEDIA_CHUNK_SIZE. set (K := Z.to_nat (64 * 1024)). assert (Z.of_nat K = 65536) as HK by lia.
  revert data w. induction fuel as [|n IH]; intros data w Hb Hw Hf; cbn [chunks_of].
  { destruct data; [|cbn in Hf; lia]. cbn. rewrite (@len_nil Z), (@len_nil (list Z)), Z.add_0_r.
    split; [constructor|]. split; [done|lia]. }
  destruct data as [|b data]; [cbn; rewrite (@len_nil Z), (@len_nil (list Z)), Z.add_0_r; split; [constructor|]; split; [done|lia]|].
  unfold MEDIA_CHUNK_SIZE. fold K. set (l := b :: data) in *. assert (0 < len l) by (unfold l; rewrite len_cons; pose proof (len_nonneg data); lia).
  assert (len (take K l) = Z.min (len l) 65536) as Ht by (unfold len; rewrite length_take; lia).
  assert (len (drop K l) = len l - len (take K l)) as Hd by (unfold len; rewrite length_take, length_drop; lia).
  destruct (IH (drop K l) (w + len (take K l))) as (HL & HC & HN); [by apply is_bytes_drop|lia| |].
  { rewrite length_drop. cbn in Hf |- *. lia. }
  split_and!.
  - constructor; [by apply is_bytes_take|lia|unfold MEDIA_CHUNK_SIZE; lia|].
    replace (w + len l) with (w + len (take K l) + len (drop K l)) by lia. exact HL.
  - cbn [concat]. rewrite HC. apply take_drop.
  - rewrite len_cons. destruct (Z.leb_spec (len l) 65536); [|lia].
    assert (drop K l = []) as -> by (apply drop_ge; unfold len in *; lia).
    destruct n; cbn [chunks_of]; rewrite (@len_nil (list Z)); lia.
Qed.

Lemma layout_concat_bound size w cs : layout size w cs → len (concat cs) ≤ MEDIA_CHUNK_SIZE * len cs.
Proof.
  induction 1 as [|w c cs _ _ Hc _ IH]; cbn [concat]; [done|].
  rewrite len_app, len_cons. lia.
Qed.

Lemma media_header_bytes size np : is_bytes np → is_bytes (media_header size np).
Proof.
  intros H. unfold media_header. repeat (apply is_bytes_app; split); try done; try apply be_bytes_is_bytes.
  - apply lit_is_bytes.
  - by_vm.
Qed.

Section Media_proofs.
Context `{CL : CryptoLaws}.

(** The encryptor and the decryptor agree on everything that enters a chunk. *)
Record in_step (d : MediaDecryptor) (e : MediaEncryptor) : Prop := {
  is_cipher : de_cipher d = en_cipher e;
  is_aad : de_aad_prefix d = en_aad_prefix e;
  is_prefix : de_nonce_prefix d = en_nonce_prefix e;
  is_size : de_plaintext_size d = en_plaintext_size e;
  is_written : de_written d = en_written e;
  is_index : de_index d = en_index e;
  is_header : de_header_read d = true
}.

Record encryptor_ok (e : MediaEncryptor) : Prop := {
  eo_key : key32 (en_cipher e);
  eo_prefix : length (en_nonce_prefix e) = 16%nat ∧ is_bytes (en_nonce_prefix e);
  eo_size : is_u64 (en_plaintext_size e);
  eo_index : 0 ≤ en_index e
}.

Definition advance (e : MediaEncryptor) (n : Z) : MediaEncryptor :=
  mkEncryptor (en_cipher e) (en_aad_prefix e) (en_nonce_prefix e) (en_plaintext_size e)
    (en_written e + n) (en_index e + 1).

Lemma media_nonce_length p i : length p = 16%nat → length (media_nonce p i) = 24%nat.
Proof. intros. unfold media_nonce. rewrite length_app, length_be_bytes. lia. Qed.

(** One chunk of the right size is sealed, and opens under the same state. *)
Lemma seal_chunk_ok e c :
  encryptor_ok e → is_bytes c → 0 ≤ en_written e < en_plaintext_size e →
  len c = Z.min (en_plaintext_size e - en_written e) MEDIA_CHUNK_SIZE → en_index e < u64_max →
  ∃ ct, seal_chunk e c = (Ok (be_bytes 4 (len c + 16) ++ ct), advance e (len c)) ∧
    is_bytes ct ∧ len ct = len c + 16 ∧
    xchacha_decrypt (en_cipher e) (media_nonce (en_nonce_prefix e) (en_index e))
      (media_chunk_aad (en_aad_prefix e) (encryptor_header e) (en_index e) (len c)) ct = Some c.
Proof.
  intros [Hk [Hp _] Hs Hi] Hc Hw Hl Hix.
  destruct (xchacha_total (en_cipher e) (media_nonce (en_nonce_prefix e) (en_index e))
    (media_chunk_aad (en_aad_prefix e) (encryptor_header e) (en_index e) (len c)) c Hk
    (media_nonce_length _ _ Hp)) as [ct Hct].
  destruct (xchacha_ct _ _ _ _ _ Hct Hc) as [Hctb Hctl].
  exists ct. split; [|by eauto using xchacha_correct].
  unfold seal_chunk. unfold MEDIA_CHUNK_SIZE in *.
  assert (is_empty c = false) as -> by (destruct c; [rewrite (@len_nil Z) in Hl; lia|done]).
  rewrite (proj2 (checked_add64_some (en_written e) (len c) _)) by (widths; split; [done|lia]).
  rewrite (proj2 (checked_add64_some (en_index e) 1 _)) by (widths; split; [done|lia]).
  rewrite as_u32_small by (widths; lia). rewrite Hct, Hctl, as_u32_small by (widths; lia).
  assert ((en_plaintext_size e <? en_written e + len c)
    || negb (en_written e + len c =? en_plaintext_size e) && negb (len c =? 64 * 1024) = false) as ->.
  { destruct (Z.ltb_spec (en_plaintext_size e) (en_written e + len c)),
      (Z.eqb_spec (en_written e + len c) (en_plaintext_size e)), (Z.eqb_spec (len c) (64 * 1024)); cbn; lia. }
  zbool. done.
Qed.

Lemma advance_ok e n : encryptor_ok e → encryptor_ok (advance e n).
Proof. intros [? ? ? ?]. constructor; cbn; auto. lia. Qed.

Lemma seal_chunks_ok e cs :
  encryptor_ok e → layout (en_plaintext_size e) (en_written e) cs → en_index e + len cs ≤ u64_max →
  ∃ outs e', seal_chunks e cs = (Ok outs, e') ∧ en_written e' = en_plaintext_size e' ∧
    en_plaintext_size e' = en_plaintext_size e ∧
    len outs = en_plaintext_size e - en_written e + 20 * len cs.
Proof.
  intros He Hl. remember (en_plaintext_size e) as size eqn:Es. remember (en_written e) as w eqn:Ew.
  revert e He Es Ew. induction Hl as [|w c cs Hc Hw Hlen Hl IH]; intros e He -> Ew Hi.
  - exists [], e. rewrite (@len_nil Z), (@len_nil (list Z)). split_and!; try done; lia.
  - rewrite len_cons in Hi. pose proof (len_nonneg cs). subst w.
    destruct (seal_chunk_ok e c He Hc Hw Hlen ltac:(lia)) as (ct & Hs & _ & Hctl & _).
    destruct (IH (advance e (len c)) (advance_ok _ _ He) eq_refl eq_refl) as (outs & e' & Hss & Hw' & Hsz & Hol);
      [cbn; lia|].
    exists ((be_bytes 4 (len c + 16) ++ ct) ++ outs), e'. cbn. rewrite Hs, Hss.
    split_and!; try done. autorewrite with len. rewrite Hctl, Hol. lia.
Qed.

(** One turn of the loop of [push], when a complete chunk is pending. *)
Lemma push_loop_turn bits fuel d e c ct rest out :
  encryptor_ok e → in_step d e → is_bytes ct → len ct = len c + 16 →
  0 ≤ en_written e < en_plaintext_size e → en_plaintext_size e < 2 ^ bits →
  len c = Z.min (en_plaintext_size e - en_written e) MEDIA_CHUNK_SIZE → en_index e < u64_max →
  xchacha_decrypt (en_cipher e) (media_nonce (en_nonce_prefix e) (en_index e))
      (media_chunk_aad (en_aad_prefix e) (encryptor_header e) (en_index e) (len c)) ct = Some c →
  de_pending d = (be_bytes 4 (len c + 16) ++ ct) ++ rest →
  ∃ d', push_loop bits (S fuel) d out = push_loop bits fuel d' (out ++ [c]) ∧
    in_step d' (advance e (len c)) ∧ de_pending d' = rest.
Proof.
  intros He Hd Hctb Hctl Hw Hbits Hl Hi Hdec Hp. pose proof Hd as [H1 H2 H3 H4 H5 H6 H7].
  cbn [push_loop]. rewrite Hp. pose proof (len_nonneg c). pose proof (len_nonneg rest). rewrite H4, H5.
  unfold MEDIA_CHUNK_SIZE, MEDIA_TAG_SIZE in *.
  assert (len ((be_bytes 4 (len c + 16) ++ ct) ++ rest) = 20 + len c + len rest) as ->.
  { autorewrite with len. lia. }
  rewrite <- app_assoc, take_app_length' by (by rewrite length_be_bytes).
  rewrite be_bytes_roundtrip by (simpl; lia). rewrite (Z.mod_small (_ - _)) by lia. rewrite <- Hl.
  zbool. cbn [negb].
  assert (Z.to_nat (4 + (len c + 16)) = (4 + length ct)%nat) as -> by (unfold len in *; lia).
  assert (slice 4 (4 + length ct) (be_bytes 4 (len c + 16) ++ ct ++ rest) = ct) as ->.
  { rewrite slice_app_skip by (rewrite length_be_bytes; lia). rewrite length_be_bytes, Nat.sub_diag.
    replace (4 + length ct - 4)%nat with (length ct) by lia. apply slice_app_here. }
  assert (drop (4 + length ct) (be_bytes 4 (len c + 16) ++ ct ++ rest) = rest) as ->.
  { rewrite app_assoc. apply drop_app_length'. by rewrite length_app, length_be_bytes. }
  rewrite as_u32_small by (widths; lia).
  unfold decryptor_header. rewrite H1, H2, H3, H4, H6. unfold encryptor_header in Hdec. rewrite Hdec.
  rewrite (proj2 (checked_add64_some (en_index e) 1 _)) by (split; [done|lia]). eexists. split; [done|]. split; [|done].
  constructor; cbn; congruence || done.
Qed.

(** A chunk is incomplete when the pending bytes are a proper part of it. *)
Lemma push_loop_wait bits fuel d e (c ct rest more : list Z) out :
  in_step d e → len ct = len c + 16 → 0 ≤ en_written e < en_plaintext_size e →
  is_u64 (en_plaintext_size e) → en_plaintext_size e < 2 ^ bits →
  len c = Z.min (en_plaintext_size e - en_written e) MEDIA_CHUNK_SIZE →
  de_pending d ++ rest = (be_bytes 4 (len c + 16) ++ ct) ++ more →
  len (de_pending d) < 20 + len c →
  push_loop bits (S fuel) d out = (Ok out, d) ∧ rest ≠ [].
Proof.
  intros [H1 H2 H3 H4 H5 H6 H7] Hctl Hw Hu Hbits Hl Hp Hshort.
  pose proof (len_nonneg more). pose proof (len_nonneg c).
  split.
  2:{ intros ->. rewrite app_nil_r in Hp. rewrite Hp in Hshort. revert Hshort. len_lia. }
  cbn [push_loop]. rewrite H4, H5. zbool. cbn [negb].
  destruct (Z.ltb_spec (len (de_pending d)) 4); [done|].
  assert (take 4 (de_pending d) = be_bytes 4 (len c + 16)) as ->.
  { apply (f_equal (take 4)) in Hp. rewrite take_app_le in Hp by (unfold len in *; lia).
    rewrite Hp, <- app_assoc. apply take_app_length'. by rewrite length_be_bytes. }
  unfold MEDIA_CHUNK_SIZE, MEDIA_TAG_SIZE in *. rewrite be_bytes_roundtrip by (simpl; lia).
  rewrite (Z.mod_small (_ - _)) by lia. rewrite <- Hl. zbool. done.
Qed.

(** The loop consumes exactly the complete chunks among the pending bytes. *)
Lemma push_loop_sim bits cs : ∀ d e outs e' rest out fuel,
  encryptor_ok e → in_step d e → layout (en_plaintext_size e) (en_written e) cs →
  en_plaintext_size e < 2 ^ bits → en_index e + len cs ≤ u64_max →
  seal_chunks e cs = (Ok outs, e') → de_pending d ++ rest = outs →
  (length (de_pending d) < fuel)%nat →
  ∃ n d' e2 outs2, push_loop bits fuel d out = (Ok (out ++ take n cs), d') ∧
    encryptor_ok e2 ∧ in_step d' e2 ∧ en_plaintext_size e2 = en_plaintext_size e ∧
    layout (en_plaintext_size e) (en_written e2) (drop n cs) ∧ en_index e2 + len (drop n cs) ≤ u64_max ∧
    seal_chunks e2 (drop n cs) = (Ok outs2, e') ∧ de_pending d' ++ rest = outs2 ∧
    (rest = [] → drop n cs = []).
Proof.
  induction cs as [|c cs IH]; intros d e outs e' rest out fuel He Hd Hlay Hbits Hi Hs Hp Hf.
  - exists 0%nat, d, e, outs. rewrite take_nil, drop_nil, app_nil_r. split_and!; try done.
    destruct fuel; [lia|]. cbn [push_loop]. inversion Hlay as [Ew|]; subst.
    destruct Hd as [_ _ _ H4 H5 _ _]. rewrite H4, H5, <- Ew, Z.ltb_irrefl. done.
  - inversion Hlay as [|? ? ? Hc Hw Hl Hlay']; subst. rewrite len_cons in Hi. pose proof (len_nonneg cs).
    destruct (seal_chunk_ok e c He Hc Hw Hl ltac:(lia)) as (ct & Hsc & Hctb & Hctl & Hdec).
    pose proof Hs as Hs0. cbn [seal_chunks] in Hs. rewrite Hsc in Hs.
    destruct (seal_chunks (advance e (len c)) cs) as [[outs'|] e1] eqn:Hss; [|done].
    apply pair_equal_spec in Hs as [Ho He']. apply Ok_inj in Ho. subst e1.
    destruct fuel as [|fuel]; [lia|].
    destruct (Z.lt_ge_cases (len (de_pending d)) (20 + len c)) as [Hshort|Hlong].
    + destruct (push_loop_wait bits fuel d e c ct rest outs' out Hd Hctl Hw (eo_size _ He) Hbits Hl)
        as [Hwait Hrest]; [done|done|].
      exists 0%nat, d, e, (de_pending d ++ rest). rewrite drop_0, take_0, app_nil_r. split_and!; try done.
      rewrite len_cons. lia.
    + assert (∃ pend, de_pending d = (be_bytes 4 (len c + 16) ++ ct) ++ pend ∧ pend ++ rest = outs') as (pend & Hpd & Hpr).
      { assert (length (be_bytes 4 (len c + 16) ++ ct) ≤ length (de_pending d))%nat as Hle.
        { rewrite length_app, length_be_bytes. unfold len in *. lia. }
        exists (drop (length (be_bytes 4 (len c + 16) ++ ct)) (de_pending d)). split.
        - rewrite <- (take_drop (length (be_bytes 4 (len c + 16) ++ ct)) (de_pending d)) at 1. f_equal.
          rewrite <- (take_app_le _ rest) by done. rewrite <- Ho. by rewrite take_app_length.
        - rewrite <- drop_app_le by done. rewrite <- Ho. by rewrite drop_app_length. }
      destruct (push_loop_turn bits fuel d e c ct pend out He Hd Hctb Hctl Hw Hbits Hl ltac:(lia) Hdec Hpd)
        as (d1 & Hturn & Hd1 & Hpend).
      destruct (IH d1 (advance e (len c)) outs' e' rest (out ++ [c]) fuel)
        as (n & d' & e2 & outs2 & Hrun & He2 & Hd2 & Hsz & Hlay2 & Hi2 & Hs2 & Hp2 & Hrest);
        [by apply advance_ok|done|done|done|cbn; lia|done|by rewrite Hpend| |].
      { rewrite Hpend. rewrite Hpd, !length_app, length_be_bytes in Hf. lia. }
      exists (S n), d', e2, outs2. rewrite Hturn, Hrun. cbn [take drop]. rewrite <- app_assoc.
      split_and!; done.
Qed.

(** [d] with more bytes pending. *)
Definition feed (d : MediaDecryptor) (bytes : list Z) : MediaDecryptor :=
  mkDecryptor (de_cipher d) (de_aad_prefix d) (de_nonce_prefix d) (de_plaintext_size d)
    (de_written d) (de_index d) (de_pending d ++ bytes) (de_header_read d).

Lemma push_after_header bits d p :
  de_header_read d = true →
  push bits d p = push_loop bits (S (length (de_pending (feed d p)))) (feed d p) [].
Proof. intros Hh. unfold push, push_header. fold (feed d p). cbn [de_header_read feed]. by rewrite Hh. Qed.

(** After the header: the remaining slices yield exactly the remaining chunks. *)
Lemma push_all_sim bits parts : ∀ d e cs outs e',
  encryptor_ok e → in_step d e → layout (en_plaintext_size e) (en_written e) cs →
  en_plaintext_size e < 2 ^ bits → en_index e + len cs ≤ u64_max →
  seal_chunks e cs = (Ok outs, e') → de_pending d ++ concat parts = outs →
  (parts = [] → cs = []) →
  ∃ chunks d', push_all bits d parts = (Ok chunks, d') ∧ chunks = cs ∧
    decryptor_finish d' = Ok (en_plaintext_size e).
Proof.
  induction parts as [|p parts IH]; intros d e cs outs e' He Hd Hlay Hbits Hi Hs Hp Hnil.
  - rewrite (Hnil eq_refl) in *. inversion Hlay as [Ew|].
    apply pair_equal_spec in Hs as [Ho _]. apply Ok_inj in Ho. rewrite <- Ho in Hp. cbn [concat] in Hp.
    exists [], d. split_and!; [done|done|]. destruct Hd as [_ _ _ H4 H5 _ H7].
    unfold decryptor_finish. rewrite H7, H4, H5, <- Ew, Z.eqb_refl.
    rewrite app_nil_r in Hp. by rewrite Hp.
  - cbn [push_all concat] in *. rewrite push_after_header by apply Hd.
    assert (in_step (feed d p) e) as Hdf by (destruct Hd; by constructor).
    destruct (push_loop_sim bits cs (feed d p) e outs e' (concat parts) [] (S (length (de_pending (feed d p)))))
      as (n & d1 & e2 & outs2 & Hrun & He2 & Hd2 & Hsz & Hlay2 & Hi2 & Hs2 & Hp2 & Hrest);
      [done..|cbn [feed de_pending]; by rewrite <- app_assoc|lia|].
    rewrite Hrun. rewrite <- Hsz in Hlay2.
    destruct (IH d1 e2 (drop n cs) outs2 e') as (chunks & d' & Hall & -> & Hfin);
      [done|done|done|by rewrite Hsz|done|done|done| |].
    { intros ->. by apply Hrest. }
    rewrite Hall. exists cs, d'. by rewrite Hfin, Hsz, app_nil_l, take_drop.
Qed.

Lemma media_header_parts size np :
  is_u64 size → length np = 16%nat →
  let h := media_header size np in
  length h = 32%nat ∧ take 4 h = MEDIA_MAGIC ∧ nth 4 h 0 = MEDIA_ENVELOPE_VERSION ∧ nth 5 h 0 = 16 ∧
  nth 6 h 0 = 0 ∧ nth 7 h 0 = 0 ∧ from_be (slice 8 16 h) = size ∧ drop 16 h = np.
Proof.
  intros Hs Hn h. unfold h, media_header. split_and!; try done.
  - rewrite !length_app, length_be_bytes, Hn. reflexivity.
  - rewrite !slice_app_skip by (simpl; lia).
    change (8 - _ - _)%nat with 0%nat. change (16 - _ - _)%nat with 8%nat.
    rewrite slice_app_exact by apply length_be_bytes. apply be_bytes_roundtrip. widths. simpl. lia.
Qed.

(** The first push that completes the header. *)
Lemma push_header_complete bits d p size np rest :
  is_u64 size → length np = 16%nat → de_header_read d = false → de_pending d ++ p = media_header size np ++ rest →
  push bits d p =
    let d1 := mkDecryptor (de_cipher d) (de_aad_prefix d) np size (de_written d) (de_index d) rest true in
    push_loop bits (S (length rest)) d1 [].
Proof.
  intros Hs Hn Hh Hp. destruct (media_header_parts size np Hs Hn) as (Hl & P0 & P4 & P5 & P6 & P7 & Psz & Pnp).
  unfold push, push_header. fold (feed d p). cbn [de_header_read feed de_pending]. rewrite Hh, Hp.
  pose proof (len_nonneg rest). assert (len (media_header size np ++ rest) = 32 + len rest) as ->.
  { rewrite len_app. unfold len. rewrite Hl. done. }
  unfold MEDIA_HEADER_SIZE. zbool. rewrite take_app_length', drop_app_length' by done.
  rewrite P0, P4, P5, P6, P7, Psz, Pnp. unfold beq. rewrite bool_decide_eq_true_2 by done. done.
Qed.

(** Everything from a fresh decryptor. *)
Lemma push_all_container bits parts : ∀ d e cs outs e',
  encryptor_ok e → de_header_read d = false → (length (de_pending d) < 32)%nat →
  de_cipher d = en_cipher e → de_aad_prefix d = en_aad_prefix e →
  de_written d = en_written e → de_index d = en_index e →
  layout (en_plaintext_size e) (en_written e) cs →
  en_plaintext_size e < 2 ^ bits → en_index e + len cs ≤ u64_max →
  seal_chunks e cs = (Ok outs, e') → de_pending d ++ concat parts = encryptor_header e ++ outs →
  ∃ d', push_all bits d parts = (Ok cs, d') ∧ decryptor_finish d' = Ok (en_plaintext_size e).
Proof.
  induction parts as [|p parts IH]; intros d e cs outs e' He Hh Hsh Hci Haa Hwr Hix Hlay Hbits Hi Hs Hp;
    pose proof He as [_ [Hnp _] Hsz _];
    destruct (media_header_parts (en_plaintext_size e) (en_nonce_prefix e) Hsz Hnp) as (Hl & _).
  - exfalso. rewrite app_nil_r in Hp. apply (f_equal length) in Hp. rewrite length_app in Hp.
    unfold encryptor_header in Hp. lia.
  - cbn [push_all concat] in *. rewrite app_assoc in Hp.
    destruct (Nat.lt_ge_cases (length (de_pending d ++ p)) 32) as [Hlt|Hge].
    + assert (push bits d p = (Ok [], feed d p)) as ->.
      { unfold push, push_header. fold (feed d p). cbn [de_header_read feed de_pending]. rewrite Hh.
        unfold MEDIA_HEADER_SIZE, len. by rewrite (proj2 (Z.ltb_lt _ _)) by lia. }
      destruct (IH (feed d p) e cs outs e') as (d' & Hall & Hfin); try done. rewrite Hall. by exists d'.
    + assert (∃ rest, de_pending d ++ p = encryptor_header e ++ rest ∧ rest ++ concat parts = outs) as (rest & Hpd & Hpr).
      { exists (drop 32 (de_pending d ++ p)). split.
        - rewrite <- (take_drop 32 (de_pending d ++ p)) at 1. f_equal.
          rewrite <- (take_app_le _ (concat parts)) by done. rewrite Hp. by apply take_app_length'.
        - rewrite <- drop_app_le by done. rewrite Hp. by apply drop_app_length'. }
      rewrite (push_header_complete bits d p (en_plaintext_size e) (en_nonce_prefix e) rest) by done.
      cbv zeta. set (d1 := mkDecryptor _ _ _ _ _ _ _ _).
      destruct (push_loop_sim bits cs d1 e outs e' (concat parts) [] (S (length (de_pending d1))))
        as (n & d2 & e2 & outs2 & Hrun & He2 & Hd2 & Hsz2 & Hlay2 & Hi2 & Hs2 & Hp2 & Hrest);
        [done|by constructor|done..|lia|].
      change (length rest) with (length (de_pending d1)). rewrite Hrun. rewrite <- Hsz2 in Hlay2.
      destruct (push_all_sim bits parts d2 e2 (drop n cs) outs2 e') as (chunks & d' & Hall & -> & Hfin);
        [done|done|done|by rewrite Hsz2|done|done|done| |].
      { intros ->. by apply Hrest. }
      rewrite Hall. exists d'. by rewrite Hfin, Hsz2, app_nil_l, take_drop.
Qed.

Lemma media_roundtrip_core bits key aad np data parts :
  key32 key → length np = 16%nat → is_bytes np → is_bytes data →
  len data < 2 ^ bits → len data < 2 ^ 63 →
  ∃ e d e' body,
    encryptor_with_key key aad (len data) (Ok np) = Ok e ∧ decryptor_with_key key aad = Ok d ∧
    seal_chunks e (file_chunks data) = (Ok body, e') ∧ encryptor_finish e' = Ok tt ∧
    encrypted_media_size (len data) = Ok (len (encryptor_header e ++ body)) ∧
    (concat parts = encryptor_header e ++ body →
     ∃ d', push_all bits d parts = (Ok (file_chunks data), d') ∧
       decryptor_finish d' = Ok (len data) ∧ concat (file_chunks data) = data).
Proof.
  intros Hk Hn Hnb Hb Hbits Hmax. pose proof (len_nonneg data).
  destruct (chunks_layout (length data) data 0 Hb ltac:(lia) ltac:(lia)) as (Hlay & Hcat & Hnum).
  fold (file_chunks data) in *. rewrite Z.add_0_l in Hlay. unfold MEDIA_CHUNK_SIZE in Hnum.
  set (e := mkEncryptor key aad np (len data) 0 0).
  assert (encryptor_ok e) as He by (constructor; cbn; auto; widths; lia).
  destruct (seal_chunks_ok e (file_chunks data) He Hlay) as (body & e' & Hs & Hw & Hsz & Hlen);
    [cbn; widths; lia|]. cbn in Hlen, Hsz.
  exists e, (mkDecryptor key aad (replicate 16 0) 0 0 0 [] false), e', body.
  assert (len key = 32) as Hk32 by (unfold len; destruct Hk as [_ ->]; done).
  destruct (media_header_parts (len data) np ltac:(widths; lia) Hn) as (Hhl & _).
  split_and!.
  - unfold encryptor_with_key. by rewrite Hk32.
  - unfold decryptor_with_key. by rewrite Hk32.
  - done.
  - unfold encryptor_finish. by rewrite Hw, Z.eqb_refl.
  - assert (div_ceil (len data) MEDIA_CHUNK_SIZE = len (file_chunks data)) as Hceil.
    { unfold div_ceil, MEDIA_CHUNK_SIZE. symmetry. apply (Z.div_unique_pos _ _ _
        (len data + 64 * 1024 - 1 - 64 * 1024 * len (file_chunks data))); [|lia].
      split; [lia|]. assert (len data ≤ 64 * 1024 * len (file_chunks data)); [|lia].
      apply layout_concat_bound in Hlay. by rewrite Hcat in Hlay. }
    unfold encrypted_media_size. rewrite Hceil. unfold MEDIA_TAG_SIZE, MEDIA_HEADER_SIZE.
    pose proof (len_nonneg (file_chunks data)).
    rewrite (proj2 (checked_mul64_some _ _ _)) by (split; [done|widths; lia]).
    rewrite (proj2 (checked_add64_some _ _ _)) by (split; [done|widths; lia]). cbn [ok_or].
    rewrite (proj2 (checked_add64_some _ _ _)) by (split; [done|widths; lia]). cbn [ok_or]. f_equal.
    rewrite len_app, Hlen. assert (len (encryptor_header e) = 32) as ->; [|lia].
    unfold len. by rewrite (Hhl : length (encryptor_header e) = 32%nat).
  - intros Hp. destruct (push_all_container bits parts (mkDecryptor key aad (replicate 16 0) 0 0 0 [] false) e
      (file_chunks data) body e') as (d' & Hall & Hfin); try done; [cbn; lia|cbn; widths; lia|].
    by exists d'.
Qed.

(** Encrypted media survive any transport framing: a file is sealed chunk by
    chunk without error into a container of exactly [encrypted_media_size]
    bytes, and however those bytes are sliced, the decryptor returns the chunks
    of the file in order and its [finish] accepts. *)
Theorem media_roundtrip bits key aad np data parts :
  key32 key → length np = 16%nat → is_bytes np → is_bytes data →
  len data < 2 ^ bits → len data < 2 ^ 63 →
  ∃ e d e' body,
    encryptor_with_key key aad (len data) (Ok np) = Ok e ∧ decryptor_with_key key aad = Ok d ∧
    seal_chunks e (file_chunks data) = (Ok body, e') ∧ encryptor_finish e' = Ok tt ∧
    encrypted_media_size (len data) = Ok (len (encryptor_header e ++ body)) ∧
    (concat parts = encryptor_header e ++ body →
     ∃ d', push_all bits d parts = (Ok (file_chunks data), d') ∧
       decryptor_finish d' = Ok (len data) ∧ concat (file_chunks data) = data).
Proof. apply media_roundtrip_core. Qed.
End Media_proofs.

(** ** What an accepted container looks like *)
Section Accounting.
Context `{CL : CryptoLaws}.

(** The bytes fed so far are accounted for: header, complete chunks with their
    overhead, and the pending rest; chunks before the last are full. *)
Record accounted (fed : Z) (d : MediaDecryptor) : Prop := {
  ac_bytes : is_bytes (de_pending d);
  ac_size : is_u64 (de_plaintext_size d);
  ac_written : 0 ≤ de_written d ≤ de_plaintext_size d;
  ac_index : 0 ≤ de_index d;
  ac_fed : fed = 32 + de_written d + 20 * de_index d + len (de_pending d);
  ac_full : de_written d < de_plaintext_size d → de_written d = de_index d * MEDIA_CHUNK_SIZE;
  ac_ceil : (de_index d - 1) * MEDIA_CHUNK_SIZE < de_written d ≤ de_index d * MEDIA_CHUNK_SIZE
            ∨ (de_index d = 0 ∧ de_written d = 0)
}.

Lemma push_loop_accounted fuel fed d out outs d' :
  accounted fed d → push_loop 64 fuel d out = (Ok outs, d') →
  accounted fed d' ∧ de_header_read d' = de_header_read d ∧
  len (concat outs) - len (concat out) = de_written d' - de_written d.
Proof.
  revert d out. induction fuel as [|fuel IH]; intros d out Hd H; cbn [push_loop] in H.
  { simplify_eq. split_and!; [done|done|lia]. }
  destruct (Z.ltb_spec (de_written d) (de_plaintext_size d)) as [Hw|]; cbn [negb] in H.
  2:{ simplify_eq. split_and!; [done|done|lia]. }
  destruct (Z.ltb_spec (len (de_pending d)) 4); [simplify_eq; split_and!; [done|done|lia]|].
  destruct (negb _) eqn:Elen in H; [done|]. destruct (Z.ltb_spec (len (de_pending d)) (4 + from_be (take 4 (de_pending d)))).
  { simplify_eq. split_and!; [done|done|lia]. }
  to_prop. apply Z.eqb_eq in Elen. pose proof Hd as [Hb Hu Hwr Hix Hfed Hfull Hceil].
  widths. rewrite Z.mod_small in * by lia.
  destruct (xchacha_decrypt _ _ _ _) as [pt|] eqn:Edec; [|done].
  destruct (checked_add64 (de_index d) 1) eqn:Eix; [|done]. apply checked_add64_some in Eix as [-> _].
  apply xchacha_pt in Edec as [_ Hptl]; [|by apply is_bytes_slice].
  unfold MEDIA_TAG_SIZE, MEDIA_CHUNK_SIZE in *.
  assert (len pt = Z.min (de_plaintext_size d - de_written d) (64 * 1024)) as Hpt.
  { revert Hptl. unfold len at 1. rewrite length_slice by (unfold len in *; lia). lia. }
  apply IH in H as (Hd' & Hh & Hsum).
  - cbn in Hh, Hsum. rewrite concat_app, len_app in Hsum. cbn in Hsum. rewrite app_nil_r in Hsum.
    split_and!; [done|done|lia].
  - constructor; cbn; unfold MEDIA_CHUNK_SIZE; widths; auto with mst5; try lia.
    + rewrite Hfed. unfold len at 3. rewrite length_drop. unfold len in *. lia.
Qed.

Definition fresh_or_accounted (fed : Z) (d : MediaDecryptor) : Prop :=
  if de_header_read d then accounted fed d
  else is_bytes (de_pending d) ∧ de_written d = 0 ∧ de_index d = 0 ∧ fed = len (de_pending d).

Lemma push_accounted fed d p outs d' :
  is_bytes p → fresh_or_accounted fed d → push 64 d p = (Ok outs, d') →
  fresh_or_accounted (fed + len p) d' ∧ len (concat outs) = de_written d' - de_written d.
Proof.
  intros Hp Hd H. unfold fresh_or_accounted in Hd. destruct (de_header_read d) eqn:Hh.
  - rewrite push_after_header in H by done.
    apply (push_loop_accounted _ (fed + len p)) in H as (Ha & Hr & Hs).
    + unfold fresh_or_accounted. cbn in Hr. rewrite Hr, Hh. cbn in Hs. rewrite (@len_nil Z) in Hs. split; [done|lia].
    + destruct Hd as [? ? ? ? ? ? ?]. constructor; cbn; try done; [by apply is_bytes_app|rewrite len_app; lia].
  - destruct Hd as (Hb & Hw & Hi & ->). unfold push, push_header in H. fold (feed d p) in H.
    cbn [feed de_header_read de_pending] in H. rewrite Hh in H.
    assert (is_bytes (de_pending d ++ p)) as Hbp by by apply is_bytes_app.
    destruct (Z.ltb_spec (len (de_pending d ++ p)) MEDIA_HEADER_SIZE) as [|Hlen].
    { simplify_eq. unfold fresh_or_accounted. cbn. rewrite Hh, len_app. split_and!; try done. rewrite (@len_nil Z). lia. }
    destruct (_ || _) in H; [done|]. unfold MEDIA_HEADER_SIZE in Hlen.
    apply (push_loop_accounted _ (len (de_pending d ++ p))) in H as (Ha & Hr & Hs).
    + unfold fresh_or_accounted. cbn in Hr. rewrite Hr. rewrite <- len_app. cbn in Hs. rewrite (@len_nil Z) in Hs.
      split; [done|lia].
    + pose proof (from_be_range 8 (slice 8 16 (take 32 (de_pending d ++ p)))) as Hsz.
      rewrite length_slice in Hsz by (rewrite ?length_take; unfold len in *; lia).
      specialize (Hsz (is_bytes_slice _ _ _ (is_bytes_take _ _ Hbp)) eq_refl). cbn in Hsz.
      constructor; cbn; auto with mst5; rewrite ?Hw, ?Hi; widths; try lia.
      unfold len. rewrite length_drop. unfold len in Hlen. lia.
Qed.

Lemma push_all_accounted parts : ∀ fed d outs d',
  is_bytes (concat parts) → fresh_or_accounted fed d → push_all 64 d parts = (Ok outs, d') →
  fresh_or_accounted (fed + len (concat parts)) d' ∧ len (concat outs) = de_written d' - de_written d.
Proof.
  induction parts as [|p parts IH]; intros fed d outs d' Hb Hd H; cbn [push_all concat] in *.
  { simplify_eq. rewrite (@len_nil Z), Z.add_0_r. split; [done|]. cbn. rewrite (@len_nil Z). lia. }
  apply is_bytes_app in Hb as [Hp Hb].
  destruct (push 64 d p) as [[out|] d1] eqn:E1; [|done].
  destruct (push_all 64 d1 parts) as [[outs1|] d2] eqn:E2; [|done]. simplify_eq.
  apply (push_accounted fed) in E1 as [Hd1 Hs1]; [|done|done].
  apply (IH (fed + len p)) in E2 as [Hd2 Hs2]; [|done|done].
  rewrite len_app, Z.add_assoc. split; [done|]. rewrite concat_app, len_app. lia.
Qed.

(** A container is accepted only whole: whatever slices arrive, when every
    [push] succeeds and [finish] accepts, exactly the declared number of
    plaintext bytes was delivered and exactly the container length of that size
    was consumed, so truncation and trailing bytes are always detected. *)
Theorem media_finish_exact key aad d0 parts outs d n :
  decryptor_with_key key aad = Ok d0 → is_bytes (concat parts) → len (concat parts) ≤ u64_max →
  push_all 64 d0 parts = (Ok outs, d) → decryptor_finish d = Ok n →
  len (concat outs) = n ∧ encrypted_media_size n = Ok (len (concat parts)).
Proof.
  intros Hd0 Hb Hmax Hp Hf. unfold decryptor_with_key in Hd0. destruct (negb _); [done|].
  apply Ok_inj in Hd0. subst d0.
  apply (push_all_accounted parts 0) in Hp as [Ha Hs]; [|done|by split_and!; try constructor].
  unfold decryptor_finish in Hf. destruct (_ || _) eqn:E; [done|]. apply Ok_inj in Hf. subst n.
  apply orb_false_elim in E as [E Hpend]. apply orb_false_elim in E as [Hread Hwz].
  to_prop. apply Z.eqb_eq in Hwz. unfold fresh_or_accounted in Ha. rewrite Hread in Ha.
  destruct Ha as [_ Hu _ Hix Hfed Hfull Hceil]. destruct (de_pending d); [|done].
  rewrite (@len_nil Z) in Hfed. cbn in Hs. split; [lia|].
  assert (div_ceil (de_written d) MEDIA_CHUNK_SIZE = de_index d) as Hc.
  { unfold div_ceil, MEDIA_CHUNK_SIZE in *. symmetry.
    apply (Z.div_unique_pos _ _ _ (de_written d + 64 * 1024 - 1 - 64 * 1024 * de_index d)); lia. }
  unfold encrypted_media_size. rewrite Hc. unfold MEDIA_TAG_SIZE, MEDIA_HEADER_SIZE. widths.
  rewrite (proj2 (checked_mul64_some _ _ _)) by (split; [done|widths; lia]).
  rewrite (proj2 (checked_add64_some _ _ _)) by (split; [done|widths; lia]). cbn [ok_or].
  rewrite (proj2 (checked_add64_some _ _ _)) by (split; [done|widths; lia]). cbn [ok_or]. f_equal. lia.
Qed.
End Accounting.

(** ** A 32-bit target *)

(** The remaining size is converted with [as usize]: with 32-bit pointers a file
    of 4 GiB has a "remaining" size of zero, so its first chunk, which the
    encryptor produced without error, is refused. *)
Theorem media_4gib_refused_on_32bit `{CL : CryptoLaws} key aad np c e d :
  key32 key → length np = 16%nat → is_bytes np → is_bytes c → len c = MEDIA_CHUNK_SIZE →
  encryptor_with_key key aad (2 ^ 32) (Ok np) = Ok e → decryptor_with_key key aad = Ok d →
  ∃ out, (seal_chunk e c).1 = Ok out ∧
    (push 64 d (encryptor_header e ++ out)).1 = Ok [c] ∧
    (push 32 d (encryptor_header e ++ out)).1 = Err (invalid (lit "invalid E2E media chunk length")).
Proof.
  intros Hk Hn Hnb Hc Hl He Hd. unfold encryptor_with_key in He. unfold decryptor_with_key in Hd.
  destruct (negb _); [done|]. apply Ok_inj in He, Hd. subst e d.
  set (e := mkEncryptor key aad np (2 ^ 32) 0 0).
  assert (encryptor_ok e) as He by (constructor; cbn; auto; widths; lia).
  unfold MEDIA_CHUNK_SIZE in Hl.
  destruct (seal_chunk_ok e c He Hc) as (ct & Hs & Hctb & Hctl & Hdec);
    [cbn; lia|cbn; unfold MEDIA_CHUNK_SIZE; lia|cbn; widths; lia|].
  exists (be_bytes 4 (len c + 16) ++ ct). rewrite Hs. split; [done|].
  rewrite !(push_header_complete _ _ _ (2 ^ 32) np (be_bytes 4 (len c + 16) ++ ct)) by (done || (widths; lia)).
  cbv zeta. set (d1 := mkDecryptor _ _ _ _ _ _ _ _). split.
  - destruct (push_loop_turn 64 (length (be_bytes 4 (len c + 16) ++ ct)) d1 e c ct [] [] He)
      as (d2 & -> & Hd2 & Hp2);
      first [done | by constructor | by rewrite app_nil_r | cbn; unfold MEDIA_CHUNK_SIZE; widths; lia | idtac].
    rewrite length_app, length_be_bytes. cbn [Nat.add push_loop].
    destruct Hd2 as [_ _ _ H4 H5 _ _]. rewrite H4, H5, Hp2. cbn [advance en_plaintext_size en_written e].
    rewrite Hl. by vm_compute.
  - cbn [push_loop d1 de_written de_plaintext_size de_pending]. 
    assert (len (be_bytes 4 (len c + 16) ++ ct) = 65556) as -> by (autorewrite with len; lia).
    rewrite take_app_length' by (by rewrite length_be_bytes).
    rewrite be_bytes_roundtrip by (simpl; lia). rewrite Hl. by vm_compute.
Qed.

(** ** The theorems at concrete inputs *)
Definition sample_key : list Z := replicate 32 11.
Definition sample_prefix : list Z := replicate 16 12.
Definition sample_container : list Z :=
  match @seal_chunks Toy.toy_crypto (mkEncryptor sample_key [] sample_prefix 5 0 0) [lit "hello"] with
  | (Ok body, _) => media_header 5 sample_prefix ++ body
  | _ => []
  end.
Definition sample_parts : list (list Z) := [take 10 sample_container; slice 10 40 sample_container; drop 40 sample_container].

Lemma media_roundtrip_witness :
  ∃ e d e' body,
    encryptor_with_key sample_key [] 5 (Ok sample_prefix) = Ok e ∧ decryptor_with_key sample_key [] = Ok d ∧
    @seal_chunks Toy.toy_crypto e (file_chunks (lit "hello")) = (Ok body, e') ∧ encryptor_finish e' = Ok tt ∧
    encrypted_media_size 5 = Ok (len (encryptor_header e ++ body)) ∧
    (concat sample_parts = encryptor_header e ++ body →
     ∃ d', @push_all Toy.toy_crypto 64 d sample_parts = (Ok (file_chunks (lit "hello")), d') ∧
       decryptor_finish d' = Ok 5 ∧ concat (file_chunks (lit "hello")) = lit "hello").
Proof.
  apply (@media_roundtrip Toy.toy_crypto Toy.toy_laws 64 sample_key [] sample_prefix (lit "hello") sample_parts).
  - by_vm.
  - reflexivity.
  - by_vm.
  - by_vm.
  - vm_compute. reflexivity.
  - vm_compute. reflexivity.
Defined.

Definition sample_decryptor : MediaDecryptor := mkDecryptor sample_key [] (replicate 16 0) 0 0 0 [] false.

Lemma media_finish_exact_witness :
  len (concat [lit "hello"]) = 5 ∧ encrypted_media_size 5 = Ok (len (concat sample_parts)).
Proof.
  apply (@media_finish_exact Toy.toy_crypto Toy.toy_laws sample_key [] sample_decryptor sample_parts [lit "hello"]
    (@push_all Toy.toy_crypto 64 sample_decryptor sample_parts).2 5).
  - reflexivity.
  - by_vm.
  - vm_compute. congruence.
  - vm_compute. reflexivity.
  - vm_compute. reflexivity.
Defined.
