(* ===== verification/Connection.v ===== *)
(** * The multiplexed connection (src/src/connection.rs)

    [Mst5Connection] is shared by request tasks, a writer task, a reader task
    and a keep-alive task.  The model is a transition system: [Conn] is the
    shared state together with the position of every request task, and
    [step ev c] is the effect of one piece of code between two await points, or
    [None] when that piece cannot run.  A run is a list of events; theorems hold
    for all runs, so for all interleavings.  Waiting with a timeout is the pair
    of an event that needs the resource and an event that gives up.  A lock that
    is only held between two await points is part of a step; what a task holds
    across an await (a sender, a queued command) is part of the state. *)
From S2P Require Import Prelude RustStr Cbor Frame.

Definition MAX_IN_FLIGHT : Z := 64.
Definition RESPONSE_QUEUE : Z := 128.
Definition WRITER_QUEUE : Z := 128.
Definition CONTROL_WRITER_QUEUE : Z := 64.
Definition WRITER_BUDGET_BYTES : Z := 16 * 1024 * 1024.
Definition WRITER_BUDGET_UNIT : Z := 16 * 1024.

Definition closed_error : io_error := IoError BrokenPipe (lit "MST5 connection is closed").

(** [deadline_timeout]: milliseconds left, given the clock and the fallback. *)
Definition deadline_timeout (deadline_ms now fallback : Z) : io Z :=
  if deadline_ms =? 0 then Ok fallback
  else
    let remaining := saturating_sub64 deadline_ms now in
    fail_if (remaining =? 0) with IoError TimedOut (lit "MST5 request deadline has expired");
    Ok (Z.min fallback remaining).

(** Permits of the writer budget a frame takes. *)
Definition frame_units (f : Frame) : Z :=
  Z.max (div_ceil (saturating_add64 (len (fr_payload f)) 40) WRITER_BUDGET_UNIT) 1.

Definition is_terminal_response (k : Z) : bool :=
  existsb (Z.eqb k) [kind.RESULT; kind.EVENT_BATCH; kind.ERROR; kind.PONG; kind.STREAM_END; kind.STREAM_ABORT].

(** Kinds [dispatch] accepts besides PING. *)
Definition server_kind (k : Z) : bool :=
  existsb (Z.eqb k) [kind.RESULT; kind.EVENT_BATCH; kind.ACK; kind.ERROR; kind.PONG;
                     kind.STREAM_DATA; kind.STREAM_END; kind.STREAM_ABORT].

(** [Result<Frame, String>], as sent on a response channel. *)
Inductive item := Reply (f : Frame) | Failed (message : list Z).

(** What waits for the outcome of a command: a request task, or the [write_control]
    or [enqueue_close] with this number. *)
Inductive completion := CRequest (t : nat) | CControl (n : nat).
Inductive WriterCommand := WFrame (f : Frame) (complete : completion) | WClose (complete : completion).

(** What follows a [write_control] or [enqueue_close]. *)
Inductive continuation :=
| KPong                       (** [dispatch] of a PING, in the reader *)
| KPing                       (** [keepalive_loop] *)
| KClose                      (** [close] *)
| KCancel (t : nat)           (** [PendingRequest::cancel] *)
| KAbort (t : nat)            (** [PendingRequest::abort] *)
| KRemove (id : Z)            (** [StreamHandle::close] and [Drop for StreamHandle] *)
| KNothing.                   (** a [send], or [cancel] in a spawned task *)

(** How far it is: it waits for room (a CLOSE has no frame), for the writer, or it was
    answered. *)
Inductive control_phase := CWant (f : option Frame) | CQueued | CAnswered (r : option io_error).

(** Where [reader_loop] stands. *)
Inductive reader :=
| Reading
| Handing (f : Frame)         (** has taken or cloned the sender of [f]'s request *)
| Ponging                     (** waits for its PONG to be written *)
| Stopped.

(** Where a task of [begin] or [begin_stream] stands.  [stream] tells which. *)
Inductive phase :=
| Permit (stream : bool) (deadline : Z)                       (** has an in-flight permit *)
| Locked (stream : bool) (deadline id : Z) (f : io Frame)     (** holds [request_order] *)
| Registered (stream : bool) (id : Z) (f : Frame)             (** sender in [pending] *)
| Queued (stream : bool) (id : Z)                             (** waits for the writer *)
| Written (stream : bool) (id : Z) (r : option io_error)      (** the writer answered *)
| Handle (stream : bool) (id : Z) (active : bool)             (** [PendingRequest]/[StreamHandle] *)
| Finished (r : option io_error).

(** Work left to a spawned task or to the rest of [close]/[fail]. *)
Inductive deferred :=
| DrainPending (message : list Z)              (** [fail_pending] *)
| Draining (message : list Z) (ids : list Z)   (** its loop, with the senders still to tell *)
| SpawnCancel (id : Z)              (** [Drop for PendingRequest] *)
| SpawnAbort (id : Z).              (** [Drop for StreamHandle] *)

Record Conn := mkConn {
  cn_closed : bool;
  cn_next : Z;                              (** [request_order] *)
  cn_lock : option nat;                     (** task that holds it *)
  cn_permits : Z;                           (** free permits of [inflight] *)
  cn_pending : gset Z;                      (** ids with a registered sender *)
  cn_channels : gmap Z (list item);         (** queue of each live receiver *)
  cn_control : list WriterCommand;
  cn_media : list WriterCommand;
  cn_wire : list WriterCommand;             (** commands written, oldest first *)
  cn_writer : bool;                         (** the writer task runs *)
  cn_reader : reader;
  cn_waits : gmap nat (continuation * control_phase); (** control writes under way *)
  cn_tickets : nat;                         (** control writes started *)
  cn_events : list Frame;                   (** EVENT_BATCH frames broadcast *)
  cn_deferred : list deferred;
  cn_tasks : gmap nat phase;
  cn_received : list Frame;                 (** frames the reader has read, oldest first *)
  cn_log : list (Z * item)                  (** items put into channels, oldest first *)
}.

(** [Mst5Connection::start]. *)
Definition start : Conn :=
  mkConn false 1 None MAX_IN_FLIGHT ∅ ∅ [] [] [] true Reading ∅ 0 [] [] ∅ [] [].

(** ** Record updates *)
Definition set_closed c := mkConn true (cn_next c) (cn_lock c) (cn_permits c) (cn_pending c) (cn_channels c) (cn_control c) (cn_media c) (cn_wire c) (cn_writer c) (cn_reader c) (cn_waits c) (cn_tickets c) (cn_events c) (cn_deferred c) (cn_tasks c) (cn_received c) (cn_log c).
Definition set_next n c := mkConn (cn_closed c) n (cn_lock c) (cn_permits c) (cn_pending c) (cn_channels c) (cn_control c) (cn_media c) (cn_wire c) (cn_writer c) (cn_reader c) (cn_waits c) (cn_tickets c) (cn_events c) (cn_deferred c) (cn_tasks c) (cn_received c) (cn_log c).
Definition set_lock l c := mkConn (cn_closed c) (cn_next c) l (cn_permits c) (cn_pending c) (cn_channels c) (cn_control c) (cn_media c) (cn_wire c) (cn_writer c) (cn_reader c) (cn_waits c) (cn_tickets c) (cn_events c) (cn_deferred c) (cn_tasks c) (cn_received c) (cn_log c).
Definition set_permits p c := mkConn (cn_closed c) (cn_next c) (cn_lock c) p (cn_pending c) (cn_channels c) (cn_control c) (cn_media c) (cn_wire c) (cn_writer c) (cn_reader c) (cn_waits c) (cn_tickets c) (cn_events c) (cn_deferred c) (cn_tasks c) (cn_received c) (cn_log c).
Definition set_pending p c := mkConn (cn_closed c) (cn_next c) (cn_lock c) (cn_permits c) p (cn_channels c) (cn_control c) (cn_media c) (cn_wire c) (cn_writer c) (cn_reader c) (cn_waits c) (cn_tickets c) (cn_events c) (cn_deferred c) (cn_tasks c) (cn_received c) (cn_log c).
Definition set_channels ch c := mkConn (cn_closed c) (cn_next c) (cn_lock c) (cn_permits c) (cn_pending c) ch (cn_control c) (cn_media c) (cn_wire c) (cn_writer c) (cn_reader c) (cn_waits c) (cn_tickets c) (cn_events c) (cn_deferred c) (cn_tasks c) (cn_received c) (cn_log c).
Definition set_queues ctl med wire c := mkConn (cn_closed c) (cn_next c) (cn_lock c) (cn_permits c) (cn_pending c) (cn_channels c) ctl med wire (cn_writer c) (cn_reader c) (cn_waits c) (cn_tickets c) (cn_events c) (cn_deferred c) (cn_tasks c) (cn_received c) (cn_log c).
Definition stop_writer c := mkConn (cn_closed c) (cn_next c) (cn_lock c) (cn_permits c) (cn_pending c) (cn_channels c) (cn_control c) (cn_media c) (cn_wire c) false (cn_reader c) (cn_waits c) (cn_tickets c) (cn_events c) (cn_deferred c) (cn_tasks c) (cn_received c) (cn_log c).
Definition set_reader r c := mkConn (cn_closed c) (cn_next c) (cn_lock c) (cn_permits c) (cn_pending c) (cn_channels c) (cn_control c) (cn_media c) (cn_wire c) (cn_writer c) r (cn_waits c) (cn_tickets c) (cn_events c) (cn_deferred c) (cn_tasks c) (cn_received c) (cn_log c).
Definition set_waits w n c := mkConn (cn_closed c) (cn_next c) (cn_lock c) (cn_permits c) (cn_pending c) (cn_channels c) (cn_control c) (cn_media c) (cn_wire c) (cn_writer c) (cn_reader c) w n (cn_events c) (cn_deferred c) (cn_tasks c) (cn_received c) (cn_log c).
Definition add_event f c := mkConn (cn_closed c) (cn_next c) (cn_lock c) (cn_permits c) (cn_pending c) (cn_channels c) (cn_control c) (cn_media c) (cn_wire c) (cn_writer c) (cn_reader c) (cn_waits c) (cn_tickets c) (cn_events c ++ [f]) (cn_deferred c) (cn_tasks c) (cn_received c) (cn_log c).
Definition set_deferred d c := mkConn (cn_closed c) (cn_next c) (cn_lock c) (cn_permits c) (cn_pending c) (cn_channels c) (cn_control c) (cn_media c) (cn_wire c) (cn_writer c) (cn_reader c) (cn_waits c) (cn_tickets c) (cn_events c) d (cn_tasks c) (cn_received c) (cn_log c).
Definition set_task t p c := mkConn (cn_closed c) (cn_next c) (cn_lock c) (cn_permits c) (cn_pending c) (cn_channels c) (cn_control c) (cn_media c) (cn_wire c) (cn_writer c) (cn_reader c) (cn_waits c) (cn_tickets c) (cn_events c) (cn_deferred c) (<[t := p]> (cn_tasks c)) (cn_received c) (cn_log c).
Definition add_received f c := mkConn (cn_closed c) (cn_next c) (cn_lock c) (cn_permits c) (cn_pending c) (cn_channels c) (cn_control c) (cn_media c) (cn_wire c) (cn_writer c) (cn_reader c) (cn_waits c) (cn_tickets c) (cn_events c) (cn_deferred c) (cn_tasks c) (cn_received c ++ [f]) (cn_log c).
Definition add_log id i c := mkConn (cn_closed c) (cn_next c) (cn_lock c) (cn_permits c) (cn_pending c) (cn_channels c) (cn_control c) (cn_media c) (cn_wire c) (cn_writer c) (cn_reader c) (cn_waits c) (cn_tickets c) (cn_events c) (cn_deferred c) (cn_tasks c) (cn_received c) (cn_log c ++ [(id, i)]).

Definition defer (d : deferred) (c : Conn) : Conn := set_deferred (cn_deferred c ++ [d]) c.

(** A task ends: its permit goes back, and the guard of [request_order] with it
    when it holds that. *)
Definition finish (t : nat) (r : option io_error) (c : Conn) : Conn :=
  let c := set_permits (cn_permits c + 1) c in
  let c := if decide (cn_lock c = Some t) then set_lock None c else c in
  set_task t (Finished r) c.

(** ** Shared operations *)

Definition remove_pending (id : Z) (c : Conn) : Conn := set_pending (cn_pending c ∖ {[id]}) c.

(** A receiver is dropped. *)
Definition drop_channel (id : Z) (c : Conn) : Conn := set_channels (delete id (cn_channels c)) c.

(** Whether a [send] to the channel can go on: there is room, or the receiver is gone. *)
Definition channel_ready (id : Z) (c : Conn) : bool :=
  match cn_channels c !! id with Some q => len q <? RESPONSE_QUEUE | None => true end.

(** [sender.send(..)], ignored when the receiver is gone. *)
Definition deliver (id : Z) (i : item) (c : Conn) : Conn :=
  match cn_channels c !! id with
  | Some q => add_log id i (set_channels (<[id := q ++ [i]]> (cn_channels c)) c)
  | None => c
  end.

(** The senders a task holds outside the table. *)
Definition draining (d : deferred) : list Z := match d with Draining _ ids => ids | _ => [] end.
Definition handing (r : reader) : list Z := match r with Handing f => [fr_id f] | _ => [] end.
Definition held (c : Conn) : list Z := handing (cn_reader c) ++ concat (map draining (cn_deferred c)).
Definition has_sender (id : Z) (c : Conn) : bool := bool_decide (id ∈ cn_pending c) || bool_decide (id ∈ held c).

(** [fail_pending]: the table is taken, its senders in the order of the hash map, *)
Definition fail_pending (i : nat) (message : list Z) (order : list Z) (c : Conn) : option Conn :=
  if decide (NoDup order ∧ list_to_set order = cn_pending c)
  then Some (set_pending ∅ (set_deferred (<[i := Draining message order]> (cn_deferred c)) c)) else None.

(** and each is sent the message in turn. *)
Definition fail_next (i : nat) (message : list Z) (ids : list Z) (c : Conn) : option Conn :=
  match ids with
  | [] => Some (set_deferred (delete i (cn_deferred c)) c)
  | id :: rest =>
      if channel_ready id c
      then Some (deliver id (Failed message) (set_deferred (<[i := Draining message rest]> (cn_deferred c)) c)) else None
  end.

(** [fail]: the swap of [closed]; [fail_pending] follows as deferred work. *)
Definition fail (message : list Z) (c : Conn) : Conn :=
  if cn_closed c then c else defer (DrainPending message) (set_closed c).

(** [writer.send(..)]: STREAM_DATA frames have a queue of their own. *)
Definition is_media (cmd : WriterCommand) : bool :=
  match cmd with WFrame f _ => fr_kind f =? kind.STREAM_DATA | WClose _ => false end.
Definition push_command (cmd : WriterCommand) (c : Conn) : Conn :=
  if is_media cmd
  then set_queues (cn_control c) (cn_media c ++ [cmd]) (cn_wire c) c
  else set_queues (cn_control c ++ [cmd]) (cn_media c) (cn_wire c) c.

(** Whether the queue of a command has room. *)
Definition has_room (cmd : WriterCommand) (c : Conn) : bool :=
  if is_media cmd then len (cn_media c) <? WRITER_QUEUE
  else len (cn_control c) <? CONTROL_WRITER_QUEUE.

(** ** Control writes *)

(** An error in the reader. *)
Definition protocol_error (e : io_error) (c : Conn) : Conn :=
  set_reader Stopped (fail (lit "MST5 protocol error: " ++ emsg e) c).

(** What the caller does with the outcome [r]; the caller is where it waits. *)
Definition continue_control (k : continuation) (r : option io_error) (c : Conn) : Conn :=
  match k with
  | KPong =>
      match cn_reader c, r with
      | Ponging, None => set_reader Reading c
      | Ponging, Some e => protocol_error e c
      | _, _ => c
      end
  | KPing => match r with None => c | Some e => fail (lit "MST5 keepalive failed: " ++ emsg e) c end
  | KClose => defer (DrainPending (lit "MST5 client closed the connection")) c
  | KCancel t =>
      match cn_tasks c !! t with
      | Some (Handle stream id true) => set_task t (Handle stream id false) c
      | _ => c
      end
  | KAbort t =>
      match cn_tasks c !! t with
      | Some (Handle stream id true) => set_task t (Handle stream id false) (remove_pending id c)
      | _ => c
      end
  | KRemove id => remove_pending id c
  | KNothing => c
  end.

(** A command is on its way to the writer. *)
Definition start_control (k : continuation) (f : option Frame) (c : Conn) : Conn :=
  set_waits (<[cn_tickets c := (k, CWant f)]> (cn_waits c)) (S (cn_tickets c)) c.

(** [write_control]: refused once closed. *)
Definition write_control (k : continuation) (f : Frame) (c : Conn) : Conn :=
  if cn_closed c then continue_control k (Some closed_error) c else start_control k (Some f) c.

(** [let _ = write_control(..)] of a frame that may not exist. *)
Definition try_control (k : continuation) (f : io Frame) (c : Conn) : Conn :=
  match f with
  | Ok f => write_control k f c
  | Err e => continue_control k (Some e) c
  end.

Definition end_wait (n : nat) (c : Conn) : Conn := set_waits (delete n (cn_waits c)) (cn_tickets c) c.

(** [enqueue_frame] and [enqueue_close] up to the queue. *)
Definition control_enqueue (n : nat) (c : Conn) : option Conn :=
  match cn_waits c !! n with
  | Some (k, CWant f) =>
      let cmd := match f with Some f => WFrame f (CControl n) | None => WClose (CControl n) end in
      if cn_writer c && has_room cmd c
      then Some (push_command cmd (set_waits (<[n := (k, CQueued)]> (cn_waits c)) (cn_tickets c) c)) else None
  | _ => None
  end.

(** A timeout or a dead writer; closing has no timeout. *)
Definition control_give_up (n : nat) (e : io_error) (c : Conn) : option Conn :=
  match cn_waits c !! n with
  | Some (KClose, CWant _) | Some (KClose, CQueued) =>
      if cn_writer c then None else Some (continue_control KClose (Some closed_error) (end_wait n c))
  | Some (k, CWant _) | Some (k, CQueued) => Some (continue_control k (Some e) (end_wait n c))
  | _ => None
  end.

(** The writer's answer arrives. *)
Definition control_complete (n : nat) (c : Conn) : option Conn :=
  match cn_waits c !! n with
  | Some (k, CAnswered r) => Some (continue_control k r (end_wait n c))
  | _ => None
  end.

(** ** [begin] and [begin_stream], piece by piece *)

(** Up to the permit and the first check of [closed]. *)
Definition begin_acquire (t : nat) (stream : bool) (deadline now write_timeout : Z) (c : Conn) : option Conn :=
  match cn_tasks c !! t with
  | Some _ => None
  | None =>
      match deadline_timeout deadline now write_timeout with
      | Err e => Some (set_task t (Finished (Some e)) c)
      | Ok _ =>
          if cn_permits c <=? 0 then None
          else if cn_closed c then Some (set_task t (Finished (Some closed_error)) c)
          else Some (set_task t (Permit stream deadline) (set_permits (cn_permits c - 1) c))
      end
  end.

(** [request_order] is taken: the id is allocated, and [begin] builds its frame. *)
Definition begin_lock (t : nat) (k code : Z) (nonce payload : list Z) (now write_timeout : Z) (c : Conn)
  : option Conn :=
  match cn_tasks c !! t with
  | Some (Permit stream deadline) =>
      match deadline_timeout deadline now write_timeout with
      | Err e => Some (finish t (Some e) c)
      | Ok _ =>
          match cn_lock c with
          | Some _ => None
          | None =>
              if cn_closed c then Some (finish t (Some closed_error) c)
              else
                let id := cn_next c in
                if (id =? 0) || (id =? u64_max)
                then Some (finish t (Some (invalid_data
                       (lit "MST5 request ID space exhausted; reconnect required"))) c)
                else
                  let c := set_next (id + 1) c in
                  let f := frame_request (if stream then kind.STREAM_OPEN else k) code id
                             (if stream then zero_nonce else nonce) deadline payload in
                  match f, stream with
                  | Err e, false => Some (finish t (Some e) c)
                  | _, _ => Some (set_task t (Locked stream deadline id f) (set_lock (Some t) c))
                  end
          end
      end
  | _ => None
  end.

(** [pending.insert]; then [begin_stream] builds its frame, and [begin] looks at
    its deadline again (its guard [PendingRequest] exists from here on). *)
Definition begin_register (t : nat) (now write_timeout : Z) (c : Conn) : option Conn :=
  match cn_tasks c !! t with
  | Some (Locked stream deadline id f) =>
      let c := set_channels (<[id := []]> (cn_channels c)) (set_pending ({[id]} ∪ cn_pending c) c) in
      match f with
      | Err e => Some (drop_channel id (finish t (Some e) c))
      | Ok f =>
          if stream then Some (set_task t (Registered stream id f) c)
          else match deadline_timeout deadline now write_timeout with
               | Err e => Some (defer (SpawnCancel id) (drop_channel id (finish t (Some e) c)))
               | Ok _ => Some (set_task t (Registered stream id f) c)
               end
      end
  | _ => None
  end.

(** [enqueue_frame] up to the queue. *)
Definition begin_enqueue (t : nat) (c : Conn) : option Conn :=
  match cn_tasks c !! t with
  | Some (Registered stream id f) =>
      let cmd := WFrame f (CRequest t) in
      if cn_writer c && has_room cmd c
      then Some (set_task t (Queued stream id) (push_command cmd c)) else None
  | _ => None
  end.

(** The error path of [enqueue_frame]: [begin] fails the connection,
    [begin_stream] only removes its entry. *)
Definition begin_failed (t : nat) (stream : bool) (id : Z) (e : io_error) (c : Conn) : Conn :=
  let c := drop_channel id (finish t (Some e) (remove_pending id c)) in
  if stream then c else fail (lit "MST5 write failed: " ++ emsg e) c.

(** A timeout (or a dead writer) while enqueueing or waiting. *)
Definition begin_give_up (t : nat) (e : io_error) (c : Conn) : option Conn :=
  match cn_tasks c !! t with
  | Some (Permit _ _) => Some (finish t (Some e) c)
  | Some (Registered stream id _) | Some (Queued stream id) => Some (begin_failed t stream id e c)
  | _ => None
  end.

(** The writer's answer arrives: the handle is returned and the lock released. *)
Definition begin_complete (t : nat) (c : Conn) : option Conn :=
  match cn_tasks c !! t with
  | Some (Written stream id None) =>
      Some (set_task t (Handle stream id true) (if decide (cn_lock c = Some t) then set_lock None c else c))
  | Some (Written stream id (Some e)) => Some (begin_failed t stream id e c)
  | _ => None
  end.

(** ** The writer task *)

(** The oneshot of a command is answered. *)
Definition complete (w : completion) (r : option io_error) (c : Conn) : Conn :=
  match w with
  | CRequest t => match cn_tasks c !! t with
                  | Some (Queued stream id) => set_task t (Written stream id r) c
                  | _ => c
                  end
  | CControl n => match cn_waits c !! n with
                  | Some (k, CQueued) => set_waits (<[n := (k, CAnswered r)]> (cn_waits c)) (cn_tickets c) c
                  | _ => c
                  end
  end.

(** One turn of [writer_loop]: the control queue goes first; [r] is the outcome
    of the write. *)
Definition writer_turn (r : option io_error) (c : Conn) : option Conn :=
  if negb (cn_writer c) then None else
  let run cmd ctl med :=
    let w := match cmd with WFrame _ w | WClose w => w end in
    match r with
    | None => complete w None (set_queues ctl med (cn_wire c ++ [cmd]) c)
    | Some e => fail (lit "MST5 write failed: " ++ emsg e)
                  (stop_writer (complete w (Some e) (set_queues ctl med (cn_wire c) c)))
    end in
  match cn_control c, cn_media c with
  | cmd :: ctl, med => Some (run cmd ctl med)
  | [], cmd :: med => Some (run cmd [] med)
  | [], [] => None
  end.

(** ** The reader task *)

(** [dispatch] up to its await: the PONG, or the sender of the frame's request. *)
Definition dispatch (f : Frame) (c : Conn) : Conn :=
  let c := add_received f c in
  if fr_kind f =? kind.PING then
    match frame_new kind.PONG 0 (fr_id f) [] with
    | Err e => protocol_error e c
    | Ok pong => write_control KPong pong (set_reader Ponging c)
    end
  else if negb (server_kind (fr_kind f)) then protocol_error (invalid_data (lit "unexpected MST5 server frame")) c
  else if decide (fr_id f ∈ cn_pending c) then
    set_reader (Handing f) (if is_terminal_response (fr_kind f) then remove_pending (fr_id f) c else c)
  else if fr_kind f =? kind.EVENT_BATCH then add_event f c
  else c.

(** The rest of [dispatch]: [sender.send(Ok(frame))], when there is room. *)
Definition dispatch_send (c : Conn) : option Conn :=
  match cn_reader c with
  | Handing f =>
      if channel_ready (fr_id f) c then Some (set_reader Reading (deliver (fr_id f) (Reply f) c)) else None
  | _ => None
  end.

(** One turn of [reader_loop], given what [read_frame] returned. *)
Definition reader_turn (r : io (option Frame)) (c : Conn) : option Conn :=
  match cn_reader c with
  | Reading =>
      Some (match r with
            | Ok None => set_reader Stopped (fail (lit "MST5 server closed the connection") c)
            | Err e => set_reader Stopped (fail (lit "MST5 read failed: " ++ emsg e) c)
            | Ok (Some f) => dispatch f c
            end)
  | _ => None
  end.

(** ** Keep-alive, close, and the handles *)

Definition keepalive_turn (c : Conn) : Conn :=
  if cn_closed c then c
  else match frame_new kind.PING 0 0 [] with
       | Ok ping => write_control KPing ping c
       | Err _ => c
       end.

(** [close]: the swap of [closed]; then the CLOSE record is written and the pending
    requests are failed. *)
Definition close (c : Conn) : Conn :=
  if cn_closed c then c else start_control KClose None (set_closed c).

(** [recv] of a handle, when an item is queued or every sender is gone.  A
    stream handle stays active. *)
Definition recv (t : nat) (c : Conn) : option (io Frame * Conn) :=
  match cn_tasks c !! t with
  | Some (Handle stream id active) =>
      match cn_channels c !! id with
      | Some (Reply f :: q) =>
          let active := if stream then active else active && negb (is_terminal_response (fr_kind f)) in
          Some (Ok f, set_task t (Handle stream id active) (set_channels (<[id := q]> (cn_channels c)) c))
      | Some (Failed m :: q) =>
          Some (Err (IoError ConnectionReset m),
                set_task t (Handle stream id (if stream then active else false))
                  (set_channels (<[id := q]> (cn_channels c)) c))
      | Some [] =>
          if has_sender id c then None
          else Some (Err (IoError BrokenPipe (if stream then lit "MST5 stream closed"
                                              else lit "MST5 response channel closed")),
                     set_task t (Handle stream id (if stream then active else false)) c)
      | None => None
      end
  | _ => None
  end.

(** The operations that end a handle: [PendingRequest::cancel], [remove], [abort] and
    [StreamHandle::close]. *)
Inductive ending := Cancel | Remove | Abort (status : Z) | CloseStream.

Definition end_handle (t : nat) (how : ending) (c : Conn) : option Conn :=
  match cn_tasks c !! t with
  | Some (Handle false id true) =>
      match how with
      | Cancel => Some (try_control (KCancel t) (frame_new kind.CANCEL 0 id []) (remove_pending id c))
      | Remove => Some (set_task t (Handle false id false) (remove_pending id c))
      | Abort status => Some (try_control (KAbort t) (frame_new kind.STREAM_ABORT status id []) c)
      | CloseStream => None
      end
  | Some (Handle true id true) =>
      match how with
      | CloseStream =>
          Some (try_control (KRemove id) (frame_new kind.STREAM_END 200 id []) (set_task t (Handle true id false) c))
      | _ => None
      end
  | Some (Handle _ _ false) => Some c
  | _ => None
  end.

(** What [Mst5Connection::request] does with the outcome of [recv]. *)
Definition request_ending (r : io Frame) : option ending :=
  match r with
  | Ok _ => None
  | Err e => Some (if decide (ekind e = TimedOut) then Cancel else Remove)
  end.

(** Dropping a handle: its permit and receiver go; an active one leaves a
    spawned task behind. *)
Definition drop_handle (t : nat) (c : Conn) : option Conn :=
  match cn_tasks c !! t with
  | Some (Handle stream id active) =>
      let c := drop_channel id (finish t None c) in
      Some (if active then defer (if stream then SpawnAbort id else SpawnCancel id) c else c)
  | _ => None
  end.

(** [send] of a handle. *)
Definition handle_send (t : nat) (k code : Z) (payload : list Z) (c : Conn) : option Conn :=
  match cn_tasks c !! t with
  | Some (Handle stream id active) =>
      if stream && negb active then Some c
      else Some (try_control KNothing
             (frame_new (if stream then kind.STREAM_DATA else k) (if stream then 0 else code) id payload) c)
  | _ => None
  end.

(** A piece of deferred work; [order] is the order of the hash map. *)
Definition run_deferred (i : nat) (order : list Z) (c : Conn) : option Conn :=
  match cn_deferred c !! i with
  | None => None
  | Some (DrainPending m) => fail_pending i m order c
  | Some (Draining m ids) => fail_next i m ids c
  | Some (SpawnCancel id) =>
      Some (try_control KNothing (frame_new kind.CANCEL 0 id []) (remove_pending id (set_deferred (delete i (cn_deferred c)) c)))
  | Some (SpawnAbort id) =>
      Some (try_control (KRemove id) (frame_new kind.STREAM_ABORT 499 id []) (set_deferred (delete i (cn_deferred c)) c))
  end.

(** ** Events *)
Inductive event :=
| EAcquire (t : nat) (stream : bool) (deadline now write_timeout : Z)
| ELock (t : nat) (k code : Z) (nonce payload : list Z) (now write_timeout : Z)
| ERegister (t : nat) (now write_timeout : Z)
| EEnqueue (t : nat)
| EGiveUp (t : nat) (e : io_error)
| EComplete (t : nat)
| EWriter (r : option io_error)
| EReader (r : io (option Frame))
| EHand
| EKeepalive
| EClose
| EControlQueue (n : nat)
| EControlGiveUp (n : nat) (e : io_error)
| EControlDone (n : nat)
| ERecv (t : nat)
| ESend (t : nat) (k code : Z) (payload : list Z)
| EEnd (t : nat) (how : ending)
| EDrop (t : nat)
| EDeferred (i : nat) (order : list Z).

Definition step (ev : event) (c : Conn) : option Conn :=
  match ev with
  | EAcquire t stream deadline now wt => begin_acquire t stream deadline now wt c
  | ELock t k code nonce payload now wt => begin_lock t k code nonce payload now wt c
  | ERegister t now wt => begin_register t now wt c
  | EEnqueue t => begin_enqueue t c
  | EGiveUp t e => begin_give_up t e c
  | EComplete t => begin_complete t c
  | EWriter r => writer_turn r c
  | EReader r => reader_turn r c
  | EHand => dispatch_send c
  | EKeepalive => Some (keepalive_turn c)
  | EClose => Some (close c)
  | EControlQueue n => control_enqueue n c
  | EControlGiveUp n e => control_give_up n e c
  | EControlDone n => control_complete n c
  | ERecv t => option_map snd (recv t c)
  | ESend t k code payload => handle_send t k code payload c
  | EEnd t how => end_handle t how c
  | EDrop t => drop_handle t c
  | EDeferred i order => run_deferred i order c
  end.

Fixpoint run (evs : list event) (c : Conn) : option Conn :=
  match evs with
  | [] => Some c
  | ev :: t => match step ev c with Some c' => run t c' | None => None end
  end.
