(* ===== verification/ConnIds.v ===== *)
(** * Request ids and the order of request frames

    The invariant behind [request_order]: ids are allocated under the lock, which
    is held until the frame is written, so the request frames reach the wire in
    the order of their ids. *)
From Stdlib Require Import Sorted.
From S2P Require Import Prelude RustStr Cbor Frame Connection.

(** The ids of the request frames among commands. *)
Definition opening (w : WriterCommand) : option Z :=
  match w with WFrame f (CRequest _) => Some (fr_id f) | _ => None end.
Definition openings (l : list WriterCommand) : list Z := omap opening l.

(** Request frames written or on their way, oldest first. *)
Definition opened (c : Conn) : list Z := openings (cn_wire c ++ cn_control c).

(** The task holds [request_order]; it has not queued its frame yet. *)
Definition holds_lock (p : phase) : bool :=
  match p with Locked _ _ _ _ | Registered _ _ _ | Queued _ _ | Written _ _ _ => true | _ => false end.
Definition early (p : phase) : option Z :=
  match p with Locked _ _ id _ | Registered _ id _ => Some id | _ => None end.

(** The frame a task will queue carries its id and goes to the control queue. *)
Definition frame_ok (p : phase) : Prop :=
  match p with
  | Locked _ _ id (Ok f) | Registered _ id f => fr_id f = id ∧ (fr_kind f =? kind.STREAM_DATA) = false
  | _ => True
  end.

(** The ids a part of the connection refers to: the table, a live receiver, a sender
    held outside the table, or an item delivered earlier. *)
Definition known (c : Conn) (id : Z) : Prop :=
  id ∈ cn_pending c ∨ is_Some (cn_channels c !! id) ∨ id ∈ held c ∨ id ∈ (cn_log c).*1.

Record ids_inv (c : Conn) : Prop := {
  ii_next : 1 ≤ cn_next c ≤ u64_max;
  ii_lock t p : cn_tasks c !! t = Some p → holds_lock p = true → cn_lock c = Some t;
  ii_frame t p : cn_tasks c !! t = Some p → frame_ok p;
  ii_sorted : StronglySorted Z.lt (opened c);
  ii_below : Forall (λ i, 1 ≤ i < cn_next c) (opened c);
  ii_media : openings (cn_media c) = [];
  ii_early t p id : cn_tasks c !! t = Some p → early p = Some id →
    1 ≤ id < cn_next c ∧ Forall (λ i, i < id) (opened c);
  ii_known id : known c id → 1 ≤ id < cn_next c;
  ii_fresh t stream deadline id f : cn_tasks c !! t = Some (Locked stream deadline id f) → ¬ known c id
}.

Lemma openings_app a b : openings (a ++ b) = openings a ++ openings b.
Proof. apply omap_app. Qed.

Lemma start_ids_inv : ids_inv start.
Proof.
  assert (∀ id, ¬ known start id) as Hk.
  { intros id [H|[[? H]|[H|H]]]; [by apply not_elem_of_empty in H|done|by apply not_elem_of_nil in H..]. }
  constructor; try done; try (intros ? Hx; by apply Hk in Hx); try constructor; cbn; widths; lia.
Qed.

Lemma Forall_part {A} (P : A → Prop) l k : l `sublist_of` k → Forall P k → Forall P l.
Proof. induction 1; intros Hk; [done|inversion Hk; auto..]. Qed.

Lemma sublist_sorted l k : l `sublist_of` k → StronglySorted Z.lt k → StronglySorted Z.lt l.
Proof.
  induction 1 as [|x l k Hs IH|x l k Hs IH]; intros Hk; [constructor| |]; inversion Hk; subst; auto.
  constructor; auto. by eapply Forall_part.
Qed.

(** Steps that allocate no id: frames are consumed, entries removed, and the
    tasks that still hold the lock held it before. *)
Lemma ids_inv_weaken c c' :
  ids_inv c → cn_next c' = cn_next c → opened c' `sublist_of` opened c → openings (cn_media c') = [] →
  (∀ id, known c' id → known c id) →
  (∀ t p, cn_tasks c' !! t = Some p → holds_lock p = true →
     cn_lock c' = Some t ∧ (early p ≠ None → cn_tasks c !! t = Some p)) →
  ids_inv c'.
Proof.
  intros [Hn Hl Hf Hs Hb Hm He Hk Hfr] En Eo Em Ek Et.
  constructor; rewrite ?En; auto.
  - intros t p H1 H2. by apply (Et t p).
  - intros t p H1. destruct (early p) eqn:E; [|by destruct p].
    destruct (Et t p H1) as [_ H3]; [by destruct p|]. apply (Hf t), H3. congruence.
  - by eapply sublist_sorted.
  - by eapply Forall_part.
  - intros t p id H1 H2. destruct (Et t p H1) as [_ H3]; [by destruct p|].
    destruct (He t p id) as [H4 H5]; [apply H3; congruence|done|]. split; [done|]. by eapply Forall_part.
  - intros t stream deadline id f H1. destruct (Et _ _ H1 eq_refl) as [_ H2].
    intros Hx. apply (Hfr t stream deadline id f); [by apply H2|auto].
Qed.

(** [request_order] is free and the connection allocates the next id. *)
Lemma ids_inv_lock c t stream deadline f :
  ids_inv c → cn_lock c = None → cn_next c < u64_max → frame_ok (Locked stream deadline (cn_next c) f) →
  ids_inv (set_task t (Locked stream deadline (cn_next c) f) (set_lock (Some t) (set_next (cn_next c + 1) c))).
Proof.
  intros [Hn Hl Hf Hs Hb Hm He Hk Hfr] Hlock Hmax Hok.
  assert (∀ t' p, cn_tasks c !! t' = Some p → holds_lock p = false) as Hnone.
  { intros t' p H. destruct (holds_lock p) eqn:E; [|done]. specialize (Hl t' p H E). congruence. }
  constructor; cbn; auto; try lia.
  - intros t' p H Hh. apply lookup_insert_Some in H as [[-> <-]|[? H]]; [done|].
    by rewrite (Hnone _ _ H) in Hh.
  - intros t' p H. apply lookup_insert_Some in H as [[-> <-]|[? H]]; eauto.
  - eapply List.Forall_impl; [|exact Hb]. cbn. lia.
  - intros t' p id H Hid. apply lookup_insert_Some in H as [[-> <-]|[? H]].
    + cbn in Hid. simplify_eq. split; [lia|]. eapply List.Forall_impl; [|exact Hb]. cbn. lia.
    + specialize (Hnone _ _ H). by destruct p.
  - intros id H. specialize (Hk id H). lia.
  - intros t' s d id g H. apply lookup_insert_Some in H as [[-> ?]|[? H]]; [|by specialize (Hnone _ _ H)].
    simplify_eq. intros Hin. specialize (Hk _ Hin). lia.
Qed.

(** No other task is early while [t] holds the lock. *)
Lemma sole_holder c t p t' p' :
  ids_inv c → cn_tasks c !! t = Some p → holds_lock p = true →
  cn_tasks c !! t' = Some p' → holds_lock p' = true → t' = t.
Proof. intros Hi H1 H2 H3 H4. pose proof (ii_lock _ Hi _ _ H1 H2). pose proof (ii_lock _ Hi _ _ H3 H4). congruence. Qed.

(** The entry of a locked task is inserted, and the task goes on to [p]. *)
Lemma ids_inv_insert c t stream deadline id f p :
  ids_inv c → cn_tasks c !! t = Some (Locked stream deadline id f) →
  frame_ok p → (p = Finished None ∨ ∃ g, p = Registered stream id g) →
  ids_inv (set_task t p
    (set_channels (<[id := []]> (cn_channels c)) (set_pending ({[id]} ∪ cn_pending c) c))).
Proof.
  intros Hi Ht Hok Hp'. pose proof Hi as [Hn Hl Hf Hs Hb Hm He Hk Hfr].
  destruct (He t _ id Ht eq_refl) as [Hid Hbelow].
  constructor; cbn; auto.
  - intros t' q H Hh. apply lookup_insert_Some in H as [[-> <-]|[? H]]; eauto.
  - intros t' q H. apply lookup_insert_Some in H as [[-> <-]|[? H]]; [done|eauto].
  - intros t' q i H Hi'. apply lookup_insert_Some in H as [[-> <-]|[? H]]; [|eauto].
    destruct Hp' as [->|[g ->]]; cbn in Hi'; simplify_eq. done.
  - intros i [Hx|[[q Hx]|Hx]].
    + apply elem_of_union in Hx as [Hx|Hx]; [|apply Hk; by left]. apply elem_of_singleton in Hx. lia.
    + cbn in Hx. apply lookup_insert_Some in Hx as [[-> _]|[_ Hx]]; [lia|]. apply Hk. right. left. eauto.
    + apply Hk. right. by right.
  - intros t' s d i g H. apply lookup_insert_Some in H as [[_ ?]|[Hne H]].
    { destruct Hp' as [->|[? ->]]; done. }
    exfalso. apply Hne. symmetry. by eapply (sole_holder c t).
Qed.

(** The frame of a registered task enters the control queue. *)
Lemma ids_inv_enqueue c t stream id f :
  ids_inv c → cn_tasks c !! t = Some (Registered stream id f) →
  ids_inv (set_task t (Queued stream id) (push_command (WFrame f (CRequest t)) c)).
Proof.
  intros Hi Ht. pose proof Hi as [Hn Hl Hf Hs Hb Hm He Hkn Hfr].
  destruct (Hf t _ Ht) as [Hid Hk]. destruct (He t _ id Ht eq_refl) as [Hr Hbelow].
  unfold push_command. cbn [is_media]. rewrite Hk.
  assert (∀ t' p', <[t := Queued stream id]> (cn_tasks c) !! t' = Some p' → early p' = None) as Hnone.
  { intros t' p' H. apply lookup_insert_Some in H as [[-> <-]|[Hne H]]; [done|].
    destruct (early p') eqn:E; [|done]. exfalso. apply Hne. symmetry.
    eapply (sole_holder c t); try done; destruct p'; done. }
  assert (openings (cn_wire c ++ cn_control c ++ [WFrame f (CRequest t)]) = opened c ++ [id]) as Ho.
  { unfold opened. rewrite app_assoc, openings_app. cbn. by rewrite Hid. }
  constructor; unfold opened; cbn -[openings]; rewrite ?Ho; auto.
  - intros t' p H Hh. apply lookup_insert_Some in H as [[-> <-]|[? H]]; [|eauto]. by apply (Hl t' _ Ht).
  - intros t' p H. apply lookup_insert_Some in H as [[-> <-]|[? H]]; [done|eauto].
  - clear -Hs Hbelow. induction Hs as [|x l Hl IH Hx]; cbn; [repeat constructor|].
    inversion Hbelow; subst. constructor; [auto|]. apply Forall_app. auto.
  - apply Forall_app. split; [done|]. constructor; [lia|constructor].
  - intros t' p i H Hx. by rewrite (Hnone _ _ H) in Hx.
  - intros t' s d i g H. specialize (Hnone _ _ H). done.
Qed.

Lemma frame_request_fields k code id nonce deadline payload f :
  frame_request k code id nonce deadline payload = Ok f → fr_id f = id ∧ fr_kind f = k.
Proof.
  unfold frame_request, frame_new. intros H. destruct (negb _); [done|]. destruct (_ <? _); [done|].
  by simplify_eq/=.
Qed.

(** Requests are not STREAM_DATA frames. *)
Definition valid_event (ev : event) : Prop :=
  match ev with ELock _ k _ _ _ _ _ => k ≠ kind.STREAM_DATA | _ => True end.

(** Side conditions of [ids_inv_weaken]. *)
Lemma opened_pop c cmd ctl : cn_control c = cmd :: ctl →
  openings ((cn_wire c ++ [cmd]) ++ ctl) = opened c ∧ openings (cn_wire c ++ ctl) `sublist_of` opened c.
Proof.
  intros E. unfold opened. rewrite E. split; [by rewrite <- app_assoc|].
  rewrite !openings_app. apply sublist_app; [done|]. cbn. destruct (opening cmd); [by apply sublist_cons|done].
Qed.

Lemma openings_media_pop cmd med : openings (cmd :: med) = [] → opening cmd = None ∧ openings med = [].
Proof. cbn. destruct (opening cmd) eqn:E; cbn; [done|auto]. Qed.

Lemma opened_media_pop c cmd : openings (cn_wire c ++ [cmd]) = openings (cn_wire c) ++ openings [cmd].
Proof. apply openings_app. Qed.

Lemma opened_push_control c cmd :
  opening cmd = None → openings (cn_wire c ++ cn_control c ++ [cmd]) = opened c.
Proof. intros E. unfold opened. rewrite app_assoc, openings_app. cbn. by rewrite E, app_nil_r. Qed.

(** Every primitive keeps the invariant; a step is a chain of them. *)
Section Ids_primitives.
Context (c : Conn) (Hc : ids_inv c).

(** Close a side condition about tasks that were left alone. *)
Local Ltac weaken :=
  apply (ids_inv_weaken c); cbn -[openings]; try done; try apply (ii_media _ Hc); eauto using ii_lock;
  try (intros ? ? ? ?; split; [by eapply ii_lock|done]).

Lemma ids_set_permits n : ids_inv (set_permits n c). Proof. weaken. Qed.
Lemma ids_set_closed : ids_inv (set_closed c). Proof. weaken. Qed.
Lemma ids_stop_writer : ids_inv (stop_writer c). Proof. weaken. Qed.
Lemma ids_add_event f : ids_inv (add_event f c). Proof. weaken. Qed.
Lemma ids_add_received f : ids_inv (add_received f c). Proof. weaken. Qed.
Lemma ids_set_waits w n : ids_inv (set_waits w n c). Proof. weaken. Qed.

Lemma ids_set_deferred d :
  (∀ id, id ∈ concat (map draining d) → known c id) → ids_inv (set_deferred d c).
Proof.
  intros Hd. weaken. intros id [H|[H|[H|H]]]; [by left|by right; left| |by do 3 right].
  apply elem_of_app in H as [H|H]; [|by apply Hd]. right. right. left. apply elem_of_app. by left.
Qed.

Lemma ids_set_reader r : (∀ id, id ∈ handing r → known c id) → ids_inv (set_reader r c).
Proof.
  intros Hd. weaken. intros id [H|[H|[H|H]]]; [by left|by right; left| |by do 3 right].
  apply elem_of_app in H as [H|H]; [by apply Hd|]. right. right. left. apply elem_of_app. by right.
Qed.

Lemma ids_remove_pending id : ids_inv (remove_pending id c).
Proof. weaken. intros i [H|H]; [left; cbn in H; set_solver|by right]. Qed.

Lemma ids_drop_channel id : ids_inv (drop_channel id c).
Proof.
  weaken. intros i [H|[[q H]|H]]; [by left| |by right; right].
  cbn in H. apply lookup_delete_Some in H as [_ H]. right. left. eauto.
Qed.

Lemma ids_pop_channel id q q' :
  cn_channels c !! id = Some q → ids_inv (set_channels (<[id := q']> (cn_channels c)) c).
Proof.
  intros E. weaken. intros i [H|[[r H]|H]]; [by left| |by right; right].
  right. left. cbn in H. apply lookup_insert_Some in H as [[-> _]|[_ H]]; eauto.
Qed.

Lemma ids_deliver id i : ids_inv (deliver id i c).
Proof.
  unfold deliver. destruct (cn_channels c !! id) as [q|] eqn:E; [|done].
  weaken. intros j [H|[[r H]|[H|H]]]; [by left| |by right; right; left|].
  - right. left. cbn in H. apply lookup_insert_Some in H as [[-> _]|[_ H]]; eauto.
  - cbn in H. rewrite fmap_app in H. apply elem_of_app in H as [H|H]; [by do 3 right|].
    apply list_elem_of_singleton in H. right. left. subst j. eauto.
Qed.

Lemma ids_set_pending_empty : ids_inv (set_pending ∅ c).
Proof. weaken. intros i [H|H]; [by apply not_elem_of_empty in H|by right]. Qed.

Lemma ids_release t p :
  holds_lock p = false → ids_inv (set_task t p (if decide (cn_lock c = Some t) then set_lock None c else c)).
Proof.
  intros Hp. assert (∀ t' q, <[t := p]> (cn_tasks c) !! t' = Some q → holds_lock q = true →
    t' ≠ t ∧ cn_tasks c !! t' = Some q) as Hother.
  { intros t' q H Hq. apply lookup_insert_Some in H as [[-> <-]|[? H]]; [congruence|done]. }
  case_decide; weaken; intros t' q H1 Hq; destruct (Hother t' q H1 Hq) as [Hne Ht].
  - pose proof (ii_lock _ Hc _ _ Ht Hq). congruence.
  - split; [by eapply ii_lock|done].
Qed.

(** A task that does not hold the lock goes on without it. *)
Lemma ids_set_idle t p :
  holds_lock p = false → (∀ q, cn_tasks c !! t = Some q → holds_lock q = false) → ids_inv (set_task t p c).
Proof.
  intros Hp Hq. weaken. intros t' q H Hh. apply lookup_insert_Some in H as [[-> <-]|[? H]]; [congruence|].
  split; [by eapply ii_lock|done].
Qed.

Lemma ids_push_control cmd : opening cmd = None → ids_inv (push_command cmd c).
Proof.
  intros E. unfold push_command. destruct (is_media cmd).
  - apply (ids_inv_weaken c); cbn -[openings]; try done; eauto.
    + rewrite openings_app, (ii_media _ Hc). cbn. by rewrite E.
    + intros ? ? ? ?; split; [by eapply ii_lock|done].
  - apply (ids_inv_weaken c); cbn -[openings]; try done; try apply (ii_media _ Hc); eauto.
    + unfold opened at 1. cbn -[openings]. by rewrite opened_push_control.
    + intros ? ? ? ?; split; [by eapply ii_lock|done].
Qed.

Lemma ids_complete w r : ids_inv (complete w r c).
Proof.
  unfold complete. destruct w as [t|n].
  - destruct (cn_tasks c !! t) as [[| | |stream id| | |]|] eqn:E; try done.
    weaken. intros t' q H Hq. apply lookup_insert_Some in H as [[-> <-]|[? H]];
      (split; [by eapply ii_lock|done]).
  - repeat (case_match; try done). apply ids_set_waits.
Qed.

Lemma ids_pop cmd ctl med ctl' med' wire :
  cn_control c = ctl → cn_media c = med →
  (ctl = cmd :: ctl' ∧ med = med' ∨ ctl = [] ∧ ctl' = [] ∧ med = cmd :: med') →
  wire = cn_wire c ∨ wire = cn_wire c ++ [cmd] →
  ids_inv (set_queues ctl' med' wire c).
Proof.
  intros <- <- Hq Hw. destruct Hq as [[E <-]|(E1 & -> & E2)].
  - destruct (opened_pop c cmd ctl' E) as [H1 H2].
    apply (ids_inv_weaken c); cbn -[openings]; try done; try apply (ii_media _ Hc); eauto.
    + unfold opened at 1. cbn -[openings]. destruct Hw as [->| ->]; [done|by rewrite H1].
    + intros ? ? ? ?; split; [by eapply ii_lock|done].
  - pose proof (ii_media _ Hc) as Hm. rewrite E2 in Hm. apply openings_media_pop in Hm as [Hcmd Hm].
    apply (ids_inv_weaken c); cbn -[openings]; try done; eauto.
    + unfold opened. cbn -[openings]. rewrite E1, !app_nil_r. destruct Hw as [->| ->]; [done|].
      rewrite openings_app. cbn. rewrite Hcmd. by rewrite app_nil_r.
    + intros ? ? ? ?; split; [by eapply ii_lock|done].
Qed.
End Ids_primitives.

(** Where the senders outside the table come from. *)
Lemma held_known c id : id ∈ held c → known c id.
Proof. intros H. by do 2 right; left. Qed.

Lemma draining_held c id : id ∈ concat (map draining (cn_deferred c)) → id ∈ held c.
Proof. intros H. apply elem_of_app. by right. Qed.

(** Replacing one piece of deferred work. *)
Lemma draining_insert i d l id :
  id ∈ concat (map draining (<[i := d]> l)) → id ∈ draining d ∨ id ∈ concat (map draining l).
Proof.
  revert i. induction l as [|e l IH]; intros [|i]; cbn; try set_solver.
Qed.

Lemma draining_delete i l id :
  id ∈ concat (map draining (delete i l)) → id ∈ concat (map draining l).
Proof. revert i. induction l as [|e l IH]; intros [|i]; cbn; rewrite ?elem_of_app; naive_solver. Qed.

Lemma draining_lookup i d l id :
  l !! i = Some d → id ∈ draining d → id ∈ concat (map draining l).
Proof.
  revert i. induction l as [|e l IH]; intros [|i] E H; cbn in *; simplify_eq; rewrite elem_of_app; eauto.
Qed.

Lemma ids_defer d c : ids_inv c → draining d = [] → ids_inv (defer d c).
Proof.
  intros Hc E. apply ids_set_deferred; [done|]. intros id. rewrite map_app, concat_app, elem_of_app. cbn.
  rewrite E. intros [H|H]; [by apply held_known, draining_held|by apply not_elem_of_nil in H].
Qed.

Lemma ids_undefer i c : ids_inv c → ids_inv (set_deferred (delete i (cn_deferred c)) c).
Proof. intros Hc. apply ids_set_deferred; [done|]. intros id H. by eapply held_known, draining_held, draining_delete. Qed.

Lemma ids_set_quiet r c : ids_inv c → handing r = [] → ids_inv (set_reader r c).
Proof. intros Hc E. apply ids_set_reader; [done|]. rewrite E. intros id H. by apply not_elem_of_nil in H. Qed.

Lemma ids_fail m c : ids_inv c → ids_inv (fail m c).
Proof. intros. unfold fail. destruct (cn_closed c); [done|]. by apply ids_defer; [apply ids_set_closed|]. Qed.

Lemma ids_finish t r c : ids_inv c → ids_inv (finish t r c).
Proof. intros. unfold finish. apply ids_release; [by apply ids_set_permits|done]. Qed.

Lemma ids_begin_failed t stream id e c : ids_inv c → ids_inv (begin_failed t stream id e c).
Proof.
  intros. unfold begin_failed.
  assert (ids_inv (drop_channel id (finish t (Some e) (remove_pending id c)))) by
    (by apply ids_drop_channel, ids_finish, ids_remove_pending).
  destruct stream; [done|by apply ids_fail].
Qed.

Lemma ids_set_handle c t stream id a stream' id' a' :
  ids_inv c → cn_tasks c !! t = Some (Handle stream id a) → ids_inv (set_task t (Handle stream' id' a') c).
Proof. intros Hc Ht. apply ids_set_idle; [done|done|]. intros q Hq. by simplify_eq. Qed.

Lemma ids_continue k r c : ids_inv c → ids_inv (continue_control k r c).
Proof.
  intros Hc. unfold continue_control, protocol_error.
  repeat (case_match; subst; try done); try (by apply ids_set_quiet; [try apply ids_fail|]);
    try (by apply ids_fail); try (by apply ids_defer); try (by eapply ids_set_handle; [try apply ids_remove_pending|]).
  by apply ids_remove_pending.
Qed.

Lemma ids_try_control k f c : ids_inv c → ids_inv (try_control k f c).
Proof.
  intros Hc. unfold try_control, write_control, start_control.
  repeat (case_match; try done); by first [apply ids_continue|apply ids_set_waits].
Qed.

Lemma ids_fail_next i m ids c c' :
  ids_inv c → cn_deferred c !! i = Some (Draining m ids) → fail_next i m ids c = Some c' → ids_inv c'.
Proof.
  intros Hc Ei H. unfold fail_next in H. destruct ids as [|id rest]; simplify_eq; [by apply ids_undefer|].
  case_match; simplify_eq. apply ids_deliver, ids_set_deferred; [done|].
  intros j Hj. apply held_known, draining_held. apply draining_insert in Hj as [Hj|Hj]; [|done].
  eapply draining_lookup; [done|]. cbn in *. by right.
Qed.

Lemma ids_fail_pending i m order c c' : ids_inv c → fail_pending i m order c = Some c' → ids_inv c'.
Proof.
  intros Hc H. unfold fail_pending in H. case_decide as Hd; simplify_eq. destruct Hd as [_ Hd].
  apply ids_set_pending_empty, ids_set_deferred; [done|].
  intros j Hj. apply draining_insert in Hj as [Hj|Hj]; [|by apply held_known, draining_held].
  left. rewrite <- Hd. by apply elem_of_list_to_set.
Qed.
#[export] Hint Resolve ids_set_permits ids_set_closed ids_undefer ids_stop_writer ids_set_quiet ids_set_waits
  ids_add_event ids_add_received ids_remove_pending ids_drop_channel ids_deliver ids_fail ids_finish ids_defer
  ids_begin_failed ids_continue ids_try_control ids_complete : mst5.

Lemma ids_begin_lock t k code nonce payload now wt c c' :
  ids_inv c → k ≠ kind.STREAM_DATA → begin_lock t k code nonce payload now wt c = Some c' → ids_inv c'.
Proof.
  intros Hc Hk H. unfold begin_lock in H.
  destruct (cn_tasks c !! t) as [[stream deadline| | | | | |]|] eqn:Et; try done.
  destruct (deadline_timeout _ _ _); [|simplify_eq; auto with mst5].
  destruct (cn_lock c) eqn:El; [done|]. destruct (cn_closed c); [simplify_eq; auto with mst5|].
  destruct (_ || _) eqn:Eid; [simplify_eq; auto with mst5|]. to_prop.
  pose proof (ii_next _ Hc) as Hn. rewrite Z.eqb_neq in *.
  set (f := frame_request _ _ _ _ _ _) in H.
  assert (frame_ok (Locked stream deadline (cn_next c) f)) as Hf.
  { cbn. destruct f as [f0|] eqn:Ef; [|done]. apply frame_request_fields in Ef as [-> ->]. split; [done|].
    destruct stream; [done|]. by apply Z.eqb_neq. }
  pose proof (ids_inv_lock c t stream deadline f Hc El ltac:(lia) Hf) as Hi.
  destruct f as [f0|e]; [|destruct stream]; simplify_eq; try done.
  (* the frame of [begin] is invalid: the id is consumed *)
  assert (ids_inv (set_next (cn_next c + 1) c)) as Hc'.
  { destruct Hc as [Hn' Hl Hf' Hs Hb Hm He Hkn Hfr]. constructor; cbn; auto; try lia.
    - eapply List.Forall_impl; [|exact Hb]. cbn. lia.
    - intros t' p id Hx Hy. destruct (He t' p id Hx Hy). split; [lia|done].
    - intros id Hx. specialize (Hkn id Hx). lia. }
  auto with mst5.
Qed.

Lemma ids_begin_register t now wt c c' :
  ids_inv c → begin_register t now wt c = Some c' → ids_inv c'.
Proof.
  intros Hc H. unfold begin_register in H.
  destruct (cn_tasks c !! t) as [[|stream deadline id f| | | | |]|] eqn:Et; try done.
  pose proof (ids_inv_insert c t stream deadline id f (Finished None) Hc Et I (or_introl eq_refl)) as Hfin.
  assert (∀ e, ids_inv (finish t e (set_channels (<[id:=[]]> (cn_channels c)) (set_pending ({[id]} ∪ cn_pending c) c)))) as Hfinish.
  { intros e. pose proof (ids_finish t e _ Hfin) as Hx. unfold finish in *. cbn in Hx |- *.
    case_decide; unfold set_task in *; cbn in *; by rewrite insert_insert_eq in Hx. }
  destruct f as [f|e]; [|simplify_eq; auto with mst5].
  assert (ids_inv (set_task t (Registered stream id f)
    (set_channels (<[id:=[]]> (cn_channels c)) (set_pending ({[id]} ∪ cn_pending c) c)))) as Hreg.
  { eapply ids_inv_insert; try done; [|eauto]. exact (ii_frame _ Hc _ _ Et). }
  destruct stream; [by simplify_eq|]. destruct (deadline_timeout _ _ _); simplify_eq; [done|].
  auto with mst5.
Qed.

Lemma ids_writer r c c' : ids_inv c → writer_turn r c = Some c' → ids_inv c'.
Proof.
  intros Hc H. unfold writer_turn in H. destruct (negb _); [done|].
  destruct (cn_control c) as [|cmd ctl] eqn:E1; [destruct (cn_media c) as [|cmd med] eqn:E2; [done|]|];
    destruct r; simplify_eq;
    first [apply ids_fail, ids_stop_writer|idtac]; apply ids_complete;
    eapply (ids_pop c Hc cmd); eauto 10.
Qed.

Lemma ids_dispatch f c : ids_inv c → ids_inv (dispatch f c).
Proof.
  intros Hc. assert (ids_inv (add_received f c)) as Hr by auto with mst5.
  unfold dispatch, protocol_error. repeat (case_match; try done); auto with mst5.
  - apply (ids_try_control KPong (Ok a)). auto with mst5.
  - (* the sender is taken from the table *)
    assert (ids_inv (set_reader (Handing f) (add_received f c))) as Hh.
    { apply ids_set_reader; [done|]. intros id Hid. cbn in Hid. apply list_elem_of_singleton in Hid as ->. by left. }
    exact (ids_remove_pending _ Hh (fr_id f)).
  - apply ids_set_reader; [done|]. intros id Hid. cbn in Hid. apply list_elem_of_singleton in Hid as ->. by left.
Qed.

Lemma ids_recv t c r c' : ids_inv c → recv t c = Some (r, c') → ids_inv c'.
Proof.
  intros Hc H. unfold recv in H.
  destruct (cn_tasks c !! t) as [[| | | | |stream id active|]|] eqn:Et; try done.
  destruct (cn_channels c !! id) as [[|[f|m] q]|] eqn:Ech; simplify_eq/=; try done.
  - case_match; simplify_eq. by eapply ids_set_handle.
  - eapply ids_set_handle; [by eapply ids_pop_channel|done].
  - eapply ids_set_handle; [by eapply ids_pop_channel|done].
Qed.

Lemma ids_control n c c' e :
  ids_inv c → (control_enqueue n c = Some c' ∨ control_give_up n e c = Some c' ∨ control_complete n c = Some c') →
  ids_inv c'.
Proof.
  intros Hc [H|[H|H]].
  - unfold control_enqueue in H. repeat (case_match; simplify_eq; try done);
      (apply ids_push_control; [by apply ids_set_waits|done]).
  - unfold control_give_up in H. repeat (case_match; simplify_eq; try done); by apply ids_continue, ids_set_waits.
  - unfold control_complete in H. repeat (case_match; simplify_eq; try done); by apply ids_continue, ids_set_waits.
Qed.

Lemma ids_handle_ops ev c c' :
  match ev with ESend _ _ _ _ | EEnd _ _ | EDrop _ | EDeferred _ _ => True | _ => False end →
  ids_inv c → step ev c = Some c' → ids_inv c'.
Proof.
  intros Hev Hc H. destruct ev; try done; cbn [step] in H.
  - unfold handle_send in H. repeat (case_match; simplify_eq; try done); auto with mst5.
  - unfold end_handle in H. repeat (case_match; simplify_eq; try done); auto with mst5.
    + by apply ids_try_control; eapply ids_set_handle.
    + by eapply ids_set_handle; [apply ids_remove_pending|].
  - unfold drop_handle in H. repeat (case_match; simplify_eq; try done); auto with mst5.
  - unfold run_deferred in H. destruct (cn_deferred c !! i) as [[m|m ids|id|id]|] eqn:Ei; try done; simplify_eq;
      eauto using ids_fail_pending, ids_fail_next with mst5.
Qed.

Lemma ids_step ev c c' : valid_event ev → ids_inv c → step ev c = Some c' → ids_inv c'.
Proof.
  intros Hv Hc H. destruct ev; try (by eapply ids_handle_ops; [|done..]); cbn [step valid_event] in *.
  - unfold begin_acquire in H. destruct (cn_tasks c !! t) eqn:Et; [done|].
    repeat (case_match; simplify_eq; try done);
      (apply ids_set_idle; [auto with mst5|done|cbn; intros q Hq; congruence]).
  - by eapply ids_begin_lock.
  - by eapply ids_begin_register.
  - unfold begin_enqueue in H. repeat (case_match; simplify_eq; try done). by eapply ids_inv_enqueue.
  - unfold begin_give_up in H. repeat (case_match; simplify_eq; try done); auto with mst5.
  - unfold begin_complete in H.
    destruct (cn_tasks c !! t) as [[| | | |stream id [e|]| |]|]; simplify_eq; auto with mst5.
    by apply ids_release.
  - by eapply ids_writer.
  - unfold reader_turn in H. repeat (case_match; simplify_eq; try done); eauto using ids_dispatch with mst5.
  - unfold dispatch_send in H. repeat (case_match; simplify_eq; try done). auto with mst5.
  - simplify_eq. unfold keepalive_turn. repeat (case_match; try done).
    by apply (ids_try_control KPing (Ok a)).
  - simplify_eq. unfold close, start_control. case_match; [done|]. auto with mst5.
  - eapply (ids_control n c c' closed_error); eauto.
  - eapply (ids_control n c c' e); eauto.
  - eapply (ids_control n c c' closed_error); eauto.
  - destruct (recv t c) as [[]|] eqn:E; simplify_eq/=. by eapply ids_recv.
Qed.

Lemma ids_run evs : ∀ c c', Forall valid_event evs → ids_inv c → run evs c = Some c' → ids_inv c'.
Proof.
  induction evs as [|ev evs IH]; intros c c' Hv Hc H; cbn in H; [by simplify_eq|].
  inversion Hv; subst. destruct (step ev c) as [c1|] eqn:E; [|done].
  eapply IH; [done| |done]. by eapply ids_step.
Qed.

(** C7: request frames leave in the order of their ids: in every interleaving of
    request tasks, writer, reader, keep-alive, cancellations and failures, the
    ids of the request frames written so far (and of those still queued behind
    them) are strictly increasing, at least 1 and below the next id, so no id is
    ever used for two requests. *)
Theorem request_ids_ordered evs c :
  Forall valid_event evs → run evs start = Some c →
  StronglySorted Z.lt (openings (cn_wire c ++ cn_control c)) ∧
  Forall (λ i, 1 ≤ i < cn_next c) (openings (cn_wire c ++ cn_control c)) ∧ cn_next c ≤ u64_max.
Proof.
  intros Hv H. pose proof (ids_run evs start c Hv start_ids_inv H) as [Hn _ _ Hs Hb _ _ _ _].
  split_and!; [done|done|lia].
Qed.

(** Two requests whose tasks interleave; the second one waits for the lock. *)
Definition sample_interleaving : list event :=
  [EAcquire 0 false 0 0 1000; EAcquire 1 false 0 0 1000;
   ELock 1 kind.QUERY 7 zero_nonce (lit "a") 0 1000; ERegister 1 0 1000; EEnqueue 1; EWriter None; EComplete 1;
   ELock 0 kind.COMMAND 8 zero_nonce (lit "b") 0 1000; ERegister 0 0 1000; EEnqueue 0].

Lemma request_ids_ordered_witness :
  StronglySorted Z.lt (openings (cn_wire (default start (run sample_interleaving start))
    ++ cn_control (default start (run sample_interleaving start)))).
Proof.
  refine (proj1 (request_ids_ordered sample_interleaving _ _ _)).
  - repeat constructor; discriminate.
  - vm_compute. reflexivity.
Defined.
