(* ===== verification/ConnFlow.v ===== *)
(** * Permits and response channels of a connection

    The in-flight limit and the discipline of the response channels, for every
    interleaving.  Most steps are quiet ([calm]): they leave the channels alone; the
    invariant [flow] of one request is proved for those once and for the few others
    one by one. *)
From S2P Require Import Prelude RustStr Cbor Frame Connection ConnIds.

(** ** In-flight permits *)

Definition occupied (o : option phase) : Z :=
  match o with None | Some (Finished _) => 0 | Some _ => 1 end.

(** The tasks that hold a permit. *)
Definition in_flight (m : gmap nat phase) : Z :=
  Z.of_nat (size (filter (λ kv, occupied (Some kv.2) = 1) m)).

Lemma in_flight_insert m t p : in_flight (<[t := p]> m) = in_flight m - occupied (m !! t) + occupied (Some p).
Proof.
  unfold in_flight.
  set (P := λ kv : nat * phase, occupied (Some kv.2) = 1).
  assert (filter P m !! t = match m !! t with Some q => if decide (P (t, q)) then Some q else None | None => None end) as Hl.
  { rewrite map_lookup_filter. destruct (m !! t) as [q|]; cbn; [|done]. case_decide as Hd; [|by rewrite option_guard_False].
    by rewrite option_guard_True. }
  assert (∀ q, occupied (Some q) = if decide (P (t, q)) then 1 else 0) as Hocc.
  { intros q. unfold P. cbn [snd]. case_decide as Hd; [done|]. destruct q; cbn in *; done. }
  rewrite map_filter_insert, (Hocc p). destruct (decide (P (t, p))) as [Hp|Hp].
  - rewrite map_size_insert, Hl. destruct (m !! t) as [q|]; [rewrite (Hocc q); destruct (decide (P (t, q)))|]; change (occupied None) with 0; cbn -[occupied]; lia.
  - rewrite map_filter_delete, map_size_delete, Hl.
    destruct (m !! t) as [q|] eqn:Eq; [rewrite (Hocc q); destruct (decide (P (t, q))) as [Hq|Hq]|]; change (occupied None) with 0; cbn -[occupied]; try lia.
    assert (size (filter P m) ≠ 0%nat); [|lia]. intros Hz. apply map_size_empty_iff in Hz.
    rewrite Hz, lookup_empty in Hl. done.
Qed.

Definition permits_inv (c : Conn) : Prop :=
  cn_permits c + in_flight (cn_tasks c) = MAX_IN_FLIGHT ∧ 0 ≤ cn_permits c.

Lemma permits_fail m c : permits_inv c → permits_inv (fail m c).
Proof. unfold fail. by destruct (cn_closed c). Qed.

Lemma permits_finish t r c : permits_inv c → occupied (cn_tasks c !! t) = 1 → permits_inv (finish t r c).
Proof.
  unfold permits_inv, finish. intros [H1 H2] Ho. case_decide; cbn; rewrite in_flight_insert, Ho; cbn; lia.
Qed.

Lemma permits_same c c' :
  permits_inv c → cn_permits c' = cn_permits c → cn_tasks c' = cn_tasks c → permits_inv c'.
Proof. unfold permits_inv. by intros ? -> ->. Qed.

Lemma permits_set c t p c1 :
  permits_inv c1 → cn_tasks c1 = cn_tasks c → occupied (cn_tasks c !! t) = occupied (Some p) →
  permits_inv (set_task t p c1).
Proof. unfold permits_inv. intros [H1 H2] E Ho. cbn. rewrite in_flight_insert, E, Ho. rewrite E in H1. lia. Qed.

Lemma permits_begin_failed t stream id e c :
  permits_inv c → occupied (cn_tasks c !! t) = 1 → permits_inv (begin_failed t stream id e c).
Proof.
  intros Hc Ho. unfold begin_failed. assert (permits_inv (drop_channel id (finish t (Some e) (remove_pending id c)))) as H.
  { apply (permits_same (finish t (Some e) (remove_pending id c))); try done. by apply permits_finish. }
  destruct stream; [done|by apply permits_fail].
Qed.

Lemma permits_stop r m c : permits_inv c → permits_inv (set_reader r (fail m c)).
Proof. unfold fail. by destruct (cn_closed c). Qed.

(** A handle stays a handle. *)
Lemma permits_handle c t stream id a stream' id' a' :
  permits_inv c → cn_tasks c !! t = Some (Handle stream id a) → permits_inv (set_task t (Handle stream' id' a') c).
Proof. intros Hc Et. apply (permits_set c); [done|done|by rewrite Et]. Qed.

Lemma permits_continue k r c : permits_inv c → permits_inv (continue_control k r c).
Proof.
  intros Hc. unfold continue_control, protocol_error. repeat (case_match; try done);
    first [by eapply permits_handle | by apply permits_fail | by apply permits_stop].
Qed.

Lemma permits_try_control k f c : permits_inv c → permits_inv (try_control k f c).
Proof. intros Hc. unfold try_control, write_control. repeat (case_match; try done); by apply permits_continue. Qed.

Lemma permits_push cmd c : permits_inv c → permits_inv (push_command cmd c).
Proof. unfold push_command. by case_match. Qed.

Lemma permits_reader f c : permits_inv c → permits_inv (dispatch f c).
Proof.
  intros Hc. assert (permits_inv (add_received f c)) as Hr by done.
  unfold dispatch, protocol_error. repeat (case_match; try done).
  - apply (permits_try_control KPong (Ok a)). done.
  - by apply permits_stop.
Qed.

Lemma permits_control n c c' e :
  permits_inv c → (control_enqueue n c = Some c' ∨ control_give_up n e c = Some c' ∨ control_complete n c = Some c') →
  permits_inv c'.
Proof.
  intros Hc [H|[H|H]].
  - unfold control_enqueue in H. repeat (case_match; simplify_eq; try done); by apply permits_push.
  - unfold control_give_up in H. repeat (case_match; simplify_eq; try done); by apply permits_continue.
  - unfold control_complete in H. repeat (case_match; simplify_eq; try done); by apply permits_continue.
Qed.

Lemma permits_deliver id i c : permits_inv c → permits_inv (deliver id i c).
Proof. unfold deliver. by case_match. Qed.

Lemma permits_complete w r c : permits_inv c → permits_inv (complete w r c).
Proof.
  intros Hc. unfold complete. destruct w as [t|n]; [|by repeat case_match].
  destruct (cn_tasks c !! t) as [[]|] eqn:Et; try done. apply (permits_set c); try done. by rewrite Et.
Qed.

(** The events of a request task. *)
Lemma permits_begin ev c c' :
  match ev with EAcquire _ _ _ _ _ | ELock _ _ _ _ _ _ _ | ERegister _ _ _ | EEnqueue _ | EGiveUp _ _ | EComplete _ => True
  | _ => False end → permits_inv c → step ev c = Some c' → permits_inv c'.
Proof.
  intros Hev Hc H. destruct ev; try done; cbn [step] in *.
  - unfold begin_acquire in H. destruct (cn_tasks c !! t) eqn:Et; [done|].
    destruct Hc as [H1 H2].
    repeat (case_match; simplify_eq; try done); unfold permits_inv; cbn; rewrite in_flight_insert, Et; cbn;
      rewrite ?Z.leb_gt in *; lia.
  - unfold begin_lock in H. destruct (cn_tasks c !! t) as [[]|] eqn:Et; try done.
    assert (occupied (cn_tasks c !! t) = 1) as Ho by by rewrite Et.
    repeat (case_match; simplify_eq; try done); try (apply permits_finish; done);
      apply (permits_set c); try done; by rewrite Et.
  - unfold begin_register, drop_channel, defer in H. destruct (cn_tasks c !! t) as [[]|] eqn:Et; try done.
    set (c1 := set_channels _ _) in H. assert (permits_inv c1) as Hc1 by done.
    assert (∀ e, permits_inv (finish t e c1)) as Hf by (intros e; apply permits_finish; [done|cbn; by rewrite Et]).
    repeat (case_match; simplify_eq; try done); try (eapply permits_same; [apply Hf|done|done]);
      apply (permits_set c); try done; by rewrite Et.
  - unfold begin_enqueue in H. destruct (cn_tasks c !! t) as [[]|] eqn:Et; try done.
    repeat (case_match; simplify_eq; try done). apply (permits_set c); [by apply permits_push|by unfold push_command; case_match|by rewrite Et].
  - unfold begin_give_up in H. destruct (cn_tasks c !! t) as [[]|] eqn:Et; simplify_eq;
      first [apply permits_finish|apply permits_begin_failed]; try done; by rewrite Et.
  - unfold begin_complete in H. destruct (cn_tasks c !! t) as [[| | | |stream id [e|]| |]|] eqn:Et; simplify_eq.
    + apply permits_begin_failed; [done|by rewrite Et].
    + apply (permits_set c); [by case_decide|by case_decide|by rewrite Et].
Qed.

Lemma permits_step ev c c' : permits_inv c → step ev c = Some c' → permits_inv c'.
Proof.
  intros Hc H. destruct ev; try (by eapply permits_begin; [|done..]); cbn [step] in *.
  - unfold writer_turn in H. destruct (negb _); [done|].
    assert (∀ q1 q2 w t r, permits_inv (complete t r (set_queues q1 q2 w c))) as Hcomp by (intros; by apply permits_complete).
    destruct (cn_control c); [destruct (cn_media c); [done|]|]; destruct r; simplify_eq;
      first [apply Hcomp | apply permits_fail; eapply permits_same; [apply Hcomp|done|done]].
  - unfold reader_turn in H. repeat (case_match; simplify_eq; try done); first [by apply permits_reader|
      by apply permits_stop].
  - unfold dispatch_send in H. repeat (case_match; simplify_eq; try done).
    by apply (permits_deliver (fr_id f) (Reply f) c).
  - simplify_eq. unfold keepalive_turn. repeat (case_match; try done). by apply (permits_try_control KPing (Ok a)).
  - simplify_eq. unfold close. by case_match.
  - eapply (permits_control n c c' closed_error); eauto.
  - eapply (permits_control n c c' e); eauto.
  - eapply (permits_control n c c' closed_error); eauto.
  - unfold recv in H. destruct (cn_tasks c !! t) as [[]|] eqn:Et; try done.
    repeat (case_match; simplify_eq/=; try done); by eapply permits_handle.
  - unfold handle_send in H. repeat (case_match; simplify_eq; try done); by apply permits_try_control.
  - unfold end_handle in H. destruct (cn_tasks c !! t) as [[| | | | |[] id []|]|] eqn:Et; try done; 
      repeat (case_match; try done); simplify_eq; try done; try apply permits_try_control; try done; by eapply permits_handle.
  - unfold drop_handle, defer, drop_channel in H. destruct (cn_tasks c !! t) as [[]|] eqn:Et; simplify_eq.
    assert (permits_inv (finish t None c)) as Hf by (apply permits_finish; [done|by rewrite Et]).
    destruct active; by eapply permits_same.
  - unfold run_deferred, fail_pending, fail_next in H.
    repeat (case_match; simplify_eq; try done); first [by apply permits_try_control|by apply permits_deliver].
Qed.

(** C9: the in-flight limit holds in every interleaving: the tasks between the
    acquisition of their permit and the drop of their handle number at most 64,
    and the free permits are exactly the rest, so no permit is lost or
    duplicated on any error, timeout or cancellation path. *)
Theorem in_flight_bounded evs c :
  run evs start = Some c →
  cn_permits c = MAX_IN_FLIGHT - in_flight (cn_tasks c) ∧ 0 ≤ in_flight (cn_tasks c) ≤ MAX_IN_FLIGHT.
Proof.
  intros H. assert (permits_inv c) as [H1 H2].
  { assert (permits_inv start) as Hs by done. revert H Hs. generalize start.
    induction evs as [|ev evs IH]; intros c0 H Hs; cbn in H; [by simplify_eq|].
    destruct (step ev c0) as [c1|] eqn:E; [|done]. apply (IH c1 H). by eapply permits_step. }
  unfold in_flight in *. unfold MAX_IN_FLIGHT in *. lia.
Qed.

(** ** Quiet steps

    Most steps leave the response channels alone: they may remove an entry of the
    table, drop a receiver or start a failure, and nothing else. *)

(** The frame the reader is about to hand over, and the senders a failure still holds. *)
Definition hand (c : Conn) : list Frame := match cn_reader c with Handing f => [f] | _ => [] end.
Definition drains (c : Conn) : list Z := concat (map draining (cn_deferred c)).

(** A task is between the allocation of this id and its registration. *)
Definition allocating (c : Conn) (id : Z) : Prop :=
  ∃ t stream deadline f, cn_tasks c !! t = Some (Locked stream deadline id f).

(** [fail_pending] has still to be run, by a failure or by [close]. *)
Definition due (c : Conn) : Prop :=
  (∃ m, DrainPending m ∈ cn_deferred c) ∨ ∃ n p, cn_waits c !! n = Some (KClose, p).

(** A pending failure has still to tell this request [m]. *)
Definition owed (id : Z) (m : list Z) (c : Conn) : Prop :=
  ∃ ids, Draining m ids ∈ cn_deferred c ∧ id ∈ ids.

(** The numbers of control writes are not used twice. *)
Definition tickets_ok (c : Conn) : Prop := ∀ n p, cn_waits c !! n = Some p → (n < cn_tickets c)%nat.

Record calm (c c' : Conn) : Prop := {
  ca_closed : cn_closed c = true → cn_closed c' = true;
  ca_next : cn_next c' = cn_next c;
  ca_pending : cn_pending c' ⊆ cn_pending c;
  ca_channels id q : cn_channels c' !! id = Some q → cn_channels c !! id = Some q;
  ca_log : cn_log c' = cn_log c;
  ca_received : cn_received c' = cn_received c;
  ca_hand : hand c' = hand c;
  ca_drains : drains c' = drains c;
  ca_owed id m : owed id m c → owed id m c';
  ca_locked t stream deadline id f :
    cn_tasks c' !! t = Some (Locked stream deadline id f) → cn_tasks c !! t = Some (Locked stream deadline id f);
  ca_tickets : tickets_ok c → tickets_ok c';
  ca_due : tickets_ok c → due c → due c';
  ca_opened : tickets_ok c → cn_closed c = false → cn_closed c' = true → due c'
}.

#[export] Instance calm_refl : Reflexive calm.
Proof. split; congruence || done || eauto. Qed.

#[export] Instance calm_trans : Transitive calm.
Proof.
  intros x y z [] []. split; try congruence; try (etrans; done); eauto.
  intros Ht Hx Hz. destruct (cn_closed y) eqn:E; eauto.
Qed.

Lemma calm_allocating c c' id : calm c c' → allocating c' id → allocating c id.
Proof. intros Hc (t & s & d & f & H). exists t, s, d, f. by apply (ca_locked _ _ Hc). Qed.

(** The primitives. *)
Section Calm.
Context (c0 c : Conn) (Hc : calm c0 c).

Local Ltac prim := transitivity c; [exact Hc|split; cbn; try done; auto; try congruence].

Lemma calm_set_permits n : calm c0 (set_permits n c). Proof. prim. Qed.
Lemma calm_set_lock l : calm c0 (set_lock l c). Proof. prim. Qed.
Lemma calm_set_queues ctl med w : calm c0 (set_queues ctl med w c). Proof. prim. Qed.
Lemma calm_stop_writer : calm c0 (stop_writer c). Proof. prim. Qed.
Lemma calm_add_event f : calm c0 (add_event f c). Proof. prim. Qed.

Lemma calm_set_reader r :
  (∀ f, r ≠ Handing f) → (∀ f, cn_reader c ≠ Handing f) → calm c0 (set_reader r c).
Proof.
  intros H1 H2. prim. unfold hand. cbn.
  destruct (cn_reader c) as [|f| |]; [|by destruct (H2 f)|..]; (destruct r as [|f| |]; [|by destruct (H1 f)|..]; done).
Qed.

Lemma calm_remove_pending id : calm c0 (remove_pending id c).
Proof. prim. set_solver. Qed.

Lemma calm_drop_channel id : calm c0 (drop_channel id c).
Proof. prim. intros i q H. by apply lookup_delete_Some in H as [_ H]. Qed.

Lemma calm_set_task t p : (∀ s d i f, p ≠ Locked s d i f) → calm c0 (set_task t p c).
Proof.
  intros Hp. prim. intros t' s d i f H. apply lookup_insert_Some in H as [[_ H]|[_ H]]; [by apply Hp in H|done].
Qed.

Lemma calm_defer d : draining d = [] → calm c0 (defer d c).
Proof.
  intros Hd. prim.
  - unfold drains. cbn. rewrite map_app, concat_app. cbn. by rewrite Hd, !app_nil_r.
  - intros id m (ids & H & Hi). exists ids. split; [cbn; apply elem_of_app; by left|done].
  - intros _ [(m & H)|H]; [left; exists m; cbn; apply elem_of_app; by left|by right].
Qed.

Lemma calm_undefer i d :
  cn_deferred c !! i = Some d → (∀ m, d ≠ DrainPending m) → draining d = [] →
  calm c0 (set_deferred (delete i (cn_deferred c)) c).
Proof.
  intros E Hd Hn. pose proof (take_drop_middle _ _ _ E) as Em.
  assert (∀ x, x ∈ cn_deferred c → x ≠ d → x ∈ delete i (cn_deferred c)) as Hin.
  { intros x Hx Hne. rewrite delete_take_drop. rewrite <- Em in Hx. set_solver. }
  prim.
  - unfold drains. cbn. rewrite delete_take_drop. rewrite <- Em at 3.
    by rewrite !map_app, !concat_app, map_cons, concat_cons, Hn.
  - intros id m (ids & H & Hi). exists ids. split; [|done]. cbn. apply Hin; [done|]. intros <-. cbn in Hn. set_solver.
  - intros _ [(m & H)|H]; [|by right]. left. exists m. cbn. apply Hin; [done|]. by intros <-; eapply Hd.
Qed.

Lemma calm_wait_new k f : calm c0 (start_control k f c).
Proof.
  prim.
  - intros H n p Hn. cbn in *. apply lookup_insert_Some in Hn as [[<- _]|[_ Hn]]; [lia|]. specialize (H _ _ Hn). lia.
  - intros Ht [H|(n & p & H)]; [by left|]. right. exists n, p. cbn. rewrite lookup_insert_ne; [done|].
    specialize (Ht _ _ H). lia.
Qed.

(** A control write goes on. *)
Lemma calm_wait_step n k p p' :
  cn_waits c !! n = Some (k, p) → calm c0 (set_waits (<[n := (k, p')]> (cn_waits c)) (cn_tickets c) c).
Proof.
  intros E. prim.
  - intros H i x Hi. cbn in *. apply lookup_insert_Some in Hi as [[<- _]|[_ Hi]]; eauto.
  - intros Ht [H|(i & q & H)]; [by left|]. right. destruct (decide (n = i)) as [<-|Hne].
    + simplify_eq. exists n, p'. cbn. by rewrite lookup_insert_eq.
    + exists i, q. cbn. by rewrite lookup_insert_ne.
Qed.

Lemma calm_end_wait n k p : cn_waits c !! n = Some (k, p) → k ≠ KClose → calm c0 (end_wait n c).
Proof.
  intros E Hk. prim.
  - intros H i x Hi. cbn in *. apply lookup_delete_Some in Hi as [_ Hi]. eauto.
  - intros Ht [H|(i & q & H)]; [by left|]. right. exists i, q. cbn. rewrite lookup_delete_ne; [done|].
    intros <-. simplify_eq.
Qed.

Lemma calm_end_close n p m : cn_waits c !! n = Some (KClose, p) → calm c0 (defer (DrainPending m) (end_wait n c)).
Proof.
  intros E. prim.
  - unfold drains. cbn. by rewrite map_app, concat_app, app_nil_r.
  - intros id x (ids & H & Hi). exists ids. split; [cbn; apply elem_of_app; by left|done].
  - intros H i x Hi. cbn in *. apply lookup_delete_Some in Hi as [_ Hi]. eauto.
  - intros _ _. left. exists m. cbn. apply elem_of_app. right. by apply list_elem_of_singleton.
Qed.

Lemma calm_fail m : calm c0 (fail m c).
Proof.
  unfold fail. destruct (cn_closed c) eqn:E; [done|]. prim.
  - unfold drains. cbn. by rewrite map_app, concat_app, app_nil_r.
  - intros id x (ids & H & Hi). exists ids. split; [cbn; apply elem_of_app; by left|done].
  - intros _ _. left. exists m. cbn. apply elem_of_app. right. by apply list_elem_of_singleton.
  - intros _ _ _. left. exists m. cbn. apply elem_of_app. right. by apply list_elem_of_singleton.
Qed.

Lemma calm_close : calm c0 (close c).
Proof.
  unfold close. destruct (cn_closed c) eqn:E; [done|]. transitivity c; [done|].
  assert (calm (set_closed c) (start_control KClose None (set_closed c))) as H.
  { split; cbn; try done.
    - intros H n p Hn. cbn in *. apply lookup_insert_Some in Hn as [[<- _]|[_ Hn]]; [lia|]. specialize (H _ _ Hn). cbn in H. lia.
    - intros Ht _. right. exists (cn_tickets c), (CWant None). cbn. by rewrite lookup_insert_eq. }
  destruct H. split; cbn in *; auto. intros _ _ _. right. exists (cn_tickets c), (CWant None). cbn. by rewrite lookup_insert_eq.
Qed.
End Calm.
#[export] Hint Resolve calm_set_permits calm_set_lock calm_set_queues calm_stop_writer calm_add_event
  calm_remove_pending calm_drop_channel calm_set_task calm_defer calm_wait_new calm_fail calm_close : mst5.

Lemma calm_finish c0 c t r : calm c0 c → calm c0 (finish t r c).
Proof. intros. unfold finish. case_decide; auto with mst5. Qed.

Lemma calm_begin_failed c0 c t stream id e : calm c0 c → calm c0 (begin_failed t stream id e c).
Proof. intros. unfold begin_failed. destruct stream; auto using calm_finish with mst5. Qed.

Lemma calm_push c0 c cmd : calm c0 c → calm c0 (push_command cmd c).
Proof. intros. unfold push_command. case_match; auto with mst5. Qed.

Lemma calm_protocol_error c0 c e : calm c0 c → (∀ f, cn_reader c ≠ Handing f) → calm c0 (protocol_error e c).
Proof.
  intros Hc Hr. unfold protocol_error. apply calm_set_reader; [by apply calm_fail|done|].
  unfold fail. by destruct (cn_closed c).
Qed.

Lemma calm_continue c0 c k r : k ≠ KClose → calm c0 c → calm c0 (continue_control k r c).
Proof.
  intros Hk Hc. unfold continue_control. repeat (case_match; try done); subst; auto with mst5;
    first [apply calm_protocol_error|apply calm_set_reader]; by congruence || done.
Qed.

Lemma calm_try_control c0 c k f : k ≠ KClose → calm c0 c → calm c0 (try_control k f c).
Proof.
  intros Hk Hc. unfold try_control, write_control. repeat (case_match; try done); auto using calm_continue with mst5.
Qed.
#[export] Hint Resolve calm_finish calm_begin_failed calm_push calm_try_control : mst5.
#[export] Hint Extern 0 (calm ?c ?c) => reflexivity : mst5.

Lemma calm_complete c0 c w r : calm c0 c → calm c0 (complete w r c).
Proof.
  intros Hc. unfold complete. destruct w; repeat (case_match; try done); subst; eauto using calm_wait_step with mst5.
Qed.

Lemma calm_control n c c' e :
  control_enqueue n c = Some c' ∨ control_give_up n e c = Some c' ∨ control_complete n c = Some c' → calm c c'.
Proof.
  assert (∀ k p r, cn_waits c !! n = Some (k, p) → calm c (continue_control k r (end_wait n c))) as Hend.
  { intros k p r E. assert (k = KClose ∨ k ≠ KClose) as [->|Hk] by (destruct k; auto).
    - by eapply calm_end_close.
    - apply calm_continue; [done|]. by eapply calm_end_wait. }
  intros [H|[H|H]].
  - unfold control_enqueue in H. repeat (case_match; simplify_eq; try done);
      by apply calm_push; eapply calm_wait_step.
  - unfold control_give_up in H. repeat (case_match; simplify_eq; try done); by eapply Hend.
  - unfold control_complete in H. repeat (case_match; simplify_eq; try done); by eapply Hend.
Qed.

(** The steps that concern no response channel. *)
Definition quiet (ev : event) : bool :=
  match ev with
  | ELock _ _ _ _ _ _ _ | ERegister _ _ _ | EReader _ | EHand | ERecv _ | EDeferred _ _ => false
  | _ => true
  end.

Lemma quiet_step ev c c' : quiet ev = true → step ev c = Some c' → calm c c'.
Proof.
  intros Hq H. destruct ev; try done; cbn [step] in H.
  - unfold begin_acquire in H. repeat (case_match; simplify_eq; try done); auto with mst5.
  - unfold begin_enqueue in H. repeat (case_match; simplify_eq; try done); auto with mst5.
  - unfold begin_give_up in H. repeat (case_match; simplify_eq; try done); auto with mst5.
  - unfold begin_complete in H. repeat (case_match; simplify_eq; try done); auto with mst5.
  - unfold writer_turn in H. repeat (case_match; simplify_eq; try done);
      first [apply calm_fail, calm_stop_writer|idtac]; by apply calm_complete, calm_set_queues.
  - simplify_eq. unfold keepalive_turn. repeat (case_match; try done). by apply (calm_try_control c c KPing (Ok a)).
  - simplify_eq. by apply calm_close.
  - eapply (calm_control n c c' closed_error); eauto.
  - eapply (calm_control n c c' e); eauto.
  - eapply (calm_control n c c' closed_error); eauto.
  - unfold handle_send in H. repeat (case_match; simplify_eq; try done); auto with mst5.
  - unfold end_handle in H. repeat (case_match; simplify_eq; try done); auto with mst5.
  - unfold drop_handle in H. repeat (case_match; simplify_eq; try done); auto with mst5.
Qed.

(** The others, each up to quiet ones. *)
Lemma lock_step t k code nonce payload now wt c c' :
  begin_lock t k code nonce payload now wt c = Some c' →
  calm c c' ∨ cn_closed c = false ∧
  (calm (set_next (cn_next c + 1) c) c' ∨
   ∃ stream deadline f, c' = set_task t (Locked stream deadline (cn_next c) f) (set_lock (Some t) (set_next (cn_next c + 1) c))).
Proof.
  intros H. unfold begin_lock in H. repeat (case_match; simplify_eq; try done);
    first [by left; auto with mst5 | by right; split; [done|]; left; auto with mst5 | by right; split; [done|]; right; eauto].
Qed.

(** A sender enters the table, with its channel. *)
Definition enter (id : Z) (c : Conn) : Conn :=
  set_channels (<[id := []]> (cn_channels c)) (set_pending ({[id]} ∪ cn_pending c) c).

Lemma register_step t now wt c c' :
  begin_register t now wt c = Some c' →
  ∃ stream deadline id f, cn_tasks c !! t = Some (Locked stream deadline id f) ∧
    calm (enter id c) c' ∧ ∀ s d i g, cn_tasks c' !! t ≠ Some (Locked s d i g).
Proof.
  intros H. unfold begin_register in H. destruct (cn_tasks c !! t) as [[|stream deadline id f| | | | |]|] eqn:Et; try done.
  exists stream, deadline, id, f. split; [done|]. fold (enter id c) in H.
  assert (∀ e x s d i g, cn_tasks (drop_channel x (finish t e (enter id c))) !! t ≠ Some (Locked s d i g)) as Hf.
  { intros e x s d i g. unfold finish. case_decide; cbn; by rewrite lookup_insert_eq. }
  repeat (case_match; simplify_eq; try done); (split; [auto with mst5|]); first [exact (Hf _ _)|
    intros s d i g; cbn; by rewrite lookup_insert_eq].
Qed.

Lemma reader_step r c c' :
  reader_turn r c = Some c' →
  hand c = [] ∧
  (calm c c' ∨ ∃ f, r = Ok (Some f) ∧
   ((calm (add_received f c) c' ∧ (server_kind (fr_kind f) = false ∨ fr_id f ∉ cn_pending c)) ∨
    (server_kind (fr_kind f) = true ∧ fr_id f ∈ cn_pending c ∧
     c' = set_reader (Handing f)
            (if is_terminal_response (fr_kind f) then remove_pending (fr_id f) (add_received f c) else add_received f c)))).
Proof.
  intros H. unfold reader_turn in H. destruct (cn_reader c) eqn:Er; try done. simplify_eq.
  split; [unfold hand; by rewrite Er|].
  assert (∀ m, calm c (set_reader Stopped (fail m c))) as Hs.
  { intros m. apply calm_set_reader; [auto with mst5|done|]. unfold fail. destruct (cn_closed c); cbn; congruence. }
  destruct r as [[f|]|e]; [|by left|by left]. right. exists f. split; [done|]. unfold dispatch.
  destruct (fr_kind f =? kind.PING) eqn:Ep.
  { left. split; [|left; apply Z.eqb_eq in Ep; by rewrite Ep].
    assert (∀ g, cn_reader (add_received f c) ≠ Handing g) as Hr by (cbn; congruence).
    destruct (frame_new _ _ _ _) as [pong|]; [|by apply calm_protocol_error].
    apply (calm_try_control _ _ KPong (Ok pong)); [done|]. by apply calm_set_reader. }
  destruct (server_kind (fr_kind f)) eqn:Ek; cbn [negb].
  - change (cn_pending (add_received f c)) with (cn_pending c). case_decide as Hin; [right; by split_and!|left].
    case_match; auto with mst5.
  - left. split; [|by left]. apply calm_protocol_error; [done|]. cbn. congruence.
Qed.

Lemma deferred_step i order c c' :
  run_deferred i order c = Some c' →
  calm c c' ∨ (∃ m, cn_deferred c !! i = Some (DrainPending m) ∧ fail_pending i m order c = Some c') ∨
  (∃ m ids, cn_deferred c !! i = Some (Draining m ids) ∧ fail_next i m ids c = Some c').
Proof.
  intros H. unfold run_deferred in H. destruct (cn_deferred c !! i) as [[m|m ids|id|id]|] eqn:Ei; try done; eauto 6.
  - simplify_eq. left. apply calm_try_control, calm_remove_pending; [done|]. by eapply calm_undefer.
  - simplify_eq. left. apply calm_try_control; [done|]. by eapply calm_undefer.
Qed.

(** ** Response channels *)

#[local] Arguments is_terminal_response : simpl never.
#[local] Arguments server_kind : simpl never.

(** Everything put into the channel of a request so far. *)
Definition items_of (id : Z) (c : Conn) : list item :=
  omap (λ p : Z * item, if p.1 =? id then Some p.2 else None) (cn_log c).

(** The frames among the items. *)
Definition replies (h : list item) : list Frame := omap (λ i, match i with Reply f => Some f | Failed _ => None end) h.

(** The server frames of a request. *)
Definition routed (id : Z) (f : Frame) : bool := (fr_id f =? id) && server_kind (fr_kind f).
Definition routed_to (id : Z) (l : list Frame) : list Frame := List.filter (routed id) l.

(** A terminal reply or a failure. *)
Definition closing (i : item) : bool :=
  match i with Reply f => is_terminal_response (fr_kind f) | Failed _ => true end.
Definition open_items (h : list item) : Prop := Forall (λ i, closing i = false) h.

(** Nothing follows a terminal reply; a failure is followed by at most one frame, which
    the reader had taken the sender for before the failure took the table. *)
Fixpoint disciplined (h : list item) : bool :=
  match h with
  | [] => true
  | Reply f :: t => if is_terminal_response (fr_kind f) then is_empty t else disciplined t
  | Failed _ :: t => match t with [] => true | [Reply f] => negb (is_terminal_response (fr_kind f)) | _ => false end
  end.

(** What [recv] makes of an item, and what the [recv]s of a run returned for a request. *)
Definition outcome (i : item) : io Frame :=
  match i with Reply f => Ok f | Failed m => Err (IoError ConnectionReset m) end.
Definition answer (id : Z) (ev : event) (c : Conn) : list (io Frame) :=
  match ev with
  | ERecv t =>
      match cn_tasks c !! t, cn_channels c !! id, recv t c with
      | Some (Handle _ id' _), Some (_ :: _), Some (r, _) => if id' =? id then [r] else []
      | _, _, _ => []
      end
  | _ => []
  end.
Fixpoint answers (id : Z) (evs : list event) (c : Conn) : list (io Frame) :=
  match evs with
  | [] => []
  | ev :: t => answer id ev c ++ match step ev c with Some c' => answers id t c' | None => [] end
  end.

Definition tally (id : Z) (l : list Z) : nat := List.count_occ Z.eq_dec l id.

(** The request [id] after its registration, when [n] frames had been read; [acc] is
    what its [recv]s returned. *)
Record flow (id : Z) (n : nat) (acc : list (io Frame)) (c : Conn) : Prop := {
  fl_old : id < cn_next c ∧ ¬ allocating c id ∧ (n ≤ length (cn_received c))%nat;
  fl_queue q : cn_channels c !! id = Some q → map outcome (items_of id c) = acc ++ map outcome q;
  fl_own f : Reply f ∈ items_of id c → fr_id f = id;
  fl_disciplined : disciplined (items_of id c) = true;
  fl_open : id ∈ cn_pending c ∨ id ∈ drains c → open_items (items_of id c);
  fl_once : (tally id (drains c) + (if decide (id ∈ cn_pending c) then 1 else 0) ≤ 1)%nat;
  fl_hand f : hand c = [f] → fr_id f = id → server_kind (fr_kind f) = true ∧
    disciplined (items_of id c ++ [Reply f]) = true ∧
    (is_terminal_response (fr_kind f) = true → id ∉ cn_pending c ∧ id ∉ drains c);
  fl_received : is_Some (cn_channels c !! id) →
    ∃ after, routed_to id (drop n (cn_received c)) = replies (items_of id c) ++ routed_to id (hand c) ++ after ∧
      (id ∈ cn_pending c → after = [])
}.

Lemma items_of_log id j i c : items_of id (add_log j i c) = items_of id c ++ (if j =? id then [i] else []).
Proof. unfold items_of. cbn. rewrite omap_app. cbn. by destruct (j =? id). Qed.

Lemma replies_app a b : replies (a ++ b) = replies a ++ replies b.
Proof. apply omap_app. Qed.

Lemma routed_to_app id a b : routed_to id (a ++ b) = routed_to id a ++ routed_to id b.
Proof. apply List.filter_app. Qed.

Lemma disciplined_snoc h i : open_items h → disciplined (h ++ [i]) = true.
Proof.
  induction 1 as [|x h Hx Hh IH]; cbn; [destruct i; [by case_match|done]|].
  destruct x as [f|m]; [|done]. cbn in Hx. by rewrite Hx.
Qed.

Lemma disciplined_failed h m f :
  open_items h → is_terminal_response (fr_kind f) = false → disciplined (h ++ [Failed m; Reply f]) = true.
Proof.
  intros H Hf. induction H as [|x h Hx Hh IH]; cbn; [by rewrite Hf|].
  destruct x as [g|]; [|done]. cbn in Hx. by rewrite Hx.
Qed.

(** Quiet steps keep it. *)
Lemma flow_calm id n acc c c' : flow id n acc c → calm c c' → flow id n acc c'.
Proof.
  intros [(H1 & H2 & H3) Hq Ho Hd Hop H1x Hh Hr] Hc. assert (items_of id c' = items_of id c) as Eh.
  { unfold items_of. by rewrite (ca_log _ _ Hc). }
  pose proof (ca_pending _ _ Hc) as Hp.
  split; rewrite ?Eh, ?(ca_next _ _ Hc), ?(ca_received _ _ Hc), ?(ca_drains _ _ Hc), ?(ca_hand _ _ Hc); auto.
  - split_and!; [done| |done]. intros Ha. by apply (calm_allocating _ _ _ Hc) in Ha.
  - intros q E. by apply Hq, (ca_channels _ _ Hc).
  - intros [Hx|Hx]; apply Hop; [left; set_solver|by right].
  - do 2 case_decide; try lia. set_solver.
  - intros f E1 E2. destruct (Hh f E1 E2) as (Hk & H4 & H5). split_and!; [done..|]. intros Ht.
    destruct (H5 Ht). set_solver.
  - intros [q E]. destruct Hr as (after & E1 & E2); [exists q; by apply (ca_channels _ _ Hc)|].
    exists after. split; [done|]. intros Hx. apply E2. set_solver.
Qed.

Lemma flow_next id n acc c : flow id n acc c → flow id n acc (set_next (cn_next c + 1) c).
Proof. intros [(H1 & H2 & H3) Hq Ho Hd Hop H1x Hh Hr]. split; auto. cbn. split_and!; [lia|done|done]. Qed.

Lemma flow_lock id n acc c t stream deadline f :
  flow id n acc c →
  flow id n acc (set_task t (Locked stream deadline (cn_next c) f) (set_lock (Some t) (set_next (cn_next c + 1) c))).
Proof.
  intros [(H1 & H2 & H3) Hq Ho Hd Hop H1x Hh Hr]. split; auto. cbn. split_and!; [lia| |done].
  intros (t' & s & d & g & H). cbn in H. apply lookup_insert_Some in H as [[_ H]|[_ H]]; [simplify_eq; lia|].
  apply H2. by exists t', s, d, g.
Qed.

Lemma flow_enter id n acc c j : flow id n acc c → j ≠ id → flow id n acc (enter j c).
Proof.
  intros [Hold Hq Ho Hd Hop H1x Hh Hr] Hne.
  assert (id ∈ cn_pending (enter j c) ↔ id ∈ cn_pending c) as Hp by (cbn; set_solver).
  assert (cn_channels (enter j c) !! id = cn_channels c !! id) as Hch by (cbn; by rewrite lookup_insert_ne).
  split; rewrite ?Hch; auto.
  - intros [H|H]; apply Hop; [left; by apply Hp|by right].
  - change (drains (enter j c)) with (drains c). do 2 case_decide; solve [lia|tauto].
  - intros f E1 E2. destruct (Hh f E1 E2) as (H4 & H5 & H6). split_and!; [done..|]. intros Ht.
    destruct (H6 Ht). split; [by rewrite Hp|done].
  - intros Hl. destruct (Hr Hl) as (after & E1 & E2). exists after. split; [done|]. intros Hx. by apply E2, Hp.
Qed.

(** A frame is read that is not for a registered request. *)
Lemma flow_received id n acc c f :
  flow id n acc c → hand c = [] → server_kind (fr_kind f) = false ∨ fr_id f ∉ cn_pending c →
  flow id n acc (add_received f c).
Proof.
  intros [(H1 & H2 & H3) Hq Ho Hd Hop H1x Hh Hr] He Hf. split; auto.
  - split_and!; [done|done|]. cbn. rewrite length_app. lia.
  - intros Hl. destruct (Hr Hl) as (after & E1 & E2). rewrite He in E1. cbn in E1.
    exists (after ++ routed_to id [f]). change (hand (add_received f c)) with (hand c). rewrite He. cbn [cn_received add_received].
    rewrite drop_app_le, routed_to_app, E1 by done. cbn [app routed_to List.filter]. split; [by rewrite <- app_assoc|].
    intros Hp. rewrite (E2 Hp). unfold routed_to, routed. cbn. destruct Hf as [Hf|Hf].
    + by rewrite Hf, andb_false_r.
    + rewrite (proj2 (Z.eqb_neq (fr_id f) id)); [done|]. intros E. by rewrite E in Hf.
Qed.

(** The reader takes the sender of a registered request, and its entry when the frame is
    terminal. *)
Lemma flow_taken_own n acc c f x :
  flow (fr_id f) n acc c → hand c = [] → server_kind (fr_kind f) = true → fr_id f ∈ cn_pending c →
  calm (add_received f c) x → hand x = [] →
  (is_terminal_response (fr_kind f) = true → fr_id f ∉ cn_pending x) →
  flow (fr_id f) n acc (set_reader (Handing f) x).
Proof.
  intros [(H1 & H2 & H3) Hq Ho Hd Hop H1x Hh Hr] He Hk Hin Hx Hhx Ht.
  assert (open_items (items_of (fr_id f) c)) as Hopen by auto.
  rewrite decide_True in H1x by done.
  assert (fr_id f ∉ drains c) as Hnd.
  { intros Hi. apply list_elem_of_In, (List.count_occ_In Z.eq_dec) in Hi. unfold tally in H1x. lia. }
  assert (items_of (fr_id f) (set_reader (Handing f) x) = items_of (fr_id f) c) as Eh.
  { unfold items_of. cbn. by rewrite (ca_log _ _ Hx). }
  assert (drains (set_reader (Handing f) x) = drains c) as Edr by apply (ca_drains _ _ Hx).
  split; rewrite ?Eh, ?Edr; auto; cbn [cn_next cn_received cn_channels cn_pending set_reader].
  - rewrite (ca_next _ _ Hx), (ca_received _ _ Hx). cbn. rewrite length_app. split_and!; [done| |lia].
    intros Ha. apply H2. by apply (calm_allocating _ _ _ Hx).
  - intros q E. by apply Hq, (ca_channels _ _ Hx).
  - case_decide; lia.
  - intros g Hg _. cbn in Hg. simplify_eq. split_and!; [done|by apply disciplined_snoc|auto].
  - intros [q E]. destruct Hr as (after & E1 & E2); [exists q; by apply (ca_channels _ _ Hx)|].
    rewrite (E2 Hin), He in E1. cbn in E1. exists []. split; [|done].
    rewrite (ca_received _ _ Hx). cbn [cn_received add_received hand cn_reader set_reader].
    by rewrite drop_app_le, routed_to_app, E1, !app_nil_r.
Qed.

Lemma flow_taken_other id n acc c f :
  flow id n acc c → hand c = [] → fr_id f ≠ id → flow id n acc (set_reader (Handing f) (add_received f c)).
Proof.
  intros [(H1 & H2 & H3) Hq Ho Hd Hop H1x Hh Hr] He Hne.
  assert (routed_to id [f] = []) as Enil.
  { unfold routed_to, routed. cbn. by rewrite (proj2 (Z.eqb_neq _ _) Hne). }
  split; auto.
  - split_and!; [done|done|]. cbn. rewrite length_app. lia.
  - intros g Hg. cbn in Hg. by simplify_eq.
  - intros Hl. destruct (Hr Hl) as (after & E1 & E2). rewrite He in E1. exists after. split; [|done].
    cbn [hand cn_reader set_reader cn_received add_received]. rewrite drop_app_le, routed_to_app, E1 by done.
    by rewrite Enil, app_nil_r.
Qed.

Lemma flow_taken id n acc c f :
  flow id n acc c → hand c = [] → server_kind (fr_kind f) = true → fr_id f ∈ cn_pending c →
  flow id n acc (set_reader (Handing f)
    (if is_terminal_response (fr_kind f) then remove_pending (fr_id f) (add_received f c) else add_received f c)).
Proof.
  intros Hfl He Hk Hin. destruct (decide (fr_id f = id)) as [<-|Hne].
  - destruct (is_terminal_response (fr_kind f)) eqn:Et; apply (flow_taken_own _ _ c); try done; auto with mst5.
    + intros _. cbn. set_solver.
    + congruence.
  - pose proof (flow_taken_other _ _ _ _ _ Hfl He Hne) as H.
    case_match; [|done]. exact (flow_calm _ _ _ _ _ H (calm_remove_pending _ _ (calm_refl _) (fr_id f))).
Qed.

(** An item is delivered: the frame in hand, or a failure. *)
Lemma flow_deliver_other id n acc c j i : flow id n acc c → j ≠ id → flow id n acc (deliver j i c).
Proof.
  intros [Hold Hq Ho Hd Hop H1x Hh Hr] Hne. unfold deliver. destruct (cn_channels c !! j) as [q|] eqn:E; [|done].
  set (c1 := set_channels _ _).
  assert (items_of id (add_log j i c1) = items_of id c) as Eh.
  { rewrite items_of_log, (proj2 (Z.eqb_neq _ _) Hne). by rewrite app_nil_r. }
  assert (cn_channels (add_log j i c1) !! id = cn_channels c !! id) as Ech by (cbn; by rewrite lookup_insert_ne).
  split; rewrite ?Eh, ?Ech; auto.
Qed.

Lemma flow_hand_over id n acc c f :
  flow id n acc c → cn_reader c = Handing f → flow id n acc (set_reader Reading (deliver (fr_id f) (Reply f) c)).
Proof.
  intros Hfl Er. assert (hand c = [f]) as Eh by (unfold hand; by rewrite Er).
  destruct (decide (fr_id f = id)) as [<-|Hne].
  - destruct Hfl as [Hold Hq Ho Hd Hop H1x Hh Hr]. destruct (Hh f Eh eq_refl) as (Hk & Hdis & Hterm).
    unfold deliver. destruct (cn_channels c !! fr_id f) as [q|] eqn:E.
    + set (c1 := set_channels _ _).
      assert (items_of (fr_id f) (set_reader Reading (add_log (fr_id f) (Reply f) c1)) = items_of (fr_id f) c ++ [Reply f]) as Eh'.
      { change (items_of (fr_id f) (add_log (fr_id f) (Reply f) c1) = items_of (fr_id f) c ++ [Reply f]).
        rewrite items_of_log, Z.eqb_refl. done. }
      split; rewrite ?Eh'; auto.
      * intros q' E'. cbn in E'. rewrite lookup_insert_eq in E'. simplify_eq. rewrite !map_app, (Hq q eq_refl).
        by rewrite <- app_assoc.
      * intros g Hg. apply elem_of_app in Hg as [Hg|Hg]; [auto|]. apply list_elem_of_singleton in Hg. congruence.
      * intros Hp. apply Forall_app. split; [by apply Hop|]. constructor; [|constructor]. cbn.
        destruct (is_terminal_response (fr_kind f)) eqn:Et; [|done]. destruct (Hterm eq_refl). destruct Hp; done.
      * done.
      * intros _. destruct Hr as (after & E1 & E2); [eauto|]. exists after. split; [|done].
        change (cn_received _) with (cn_received c). change (hand _) with (@nil Frame). rewrite E1, Eh, replies_app.
        unfold routed_to, routed. cbn. rewrite Z.eqb_refl, Hk. cbn. by rewrite <- app_assoc.
    + split; auto; try done; cbn [cn_channels set_reader]; rewrite E; [done|by intros []].
  - apply (flow_deliver_other _ _ _ _ (fr_id f) (Reply f)) in Hfl; [|done].
    set (x := deliver _ _ _) in *. assert (hand x = [f]) as Ehx.
    { unfold x, deliver. by destruct (cn_channels c !! fr_id f). }
    destruct Hfl as [Hold Hq Ho Hd Hop H1x Hh Hr]. split; auto; try done.
    intros Hl. destruct (Hr Hl) as (after & E1 & E2). exists after. split; [|done].
    change (hand (set_reader Reading x)) with (@nil Frame). rewrite Ehx in E1.
    unfold routed_to at 2, routed in E1. cbn in E1. by rewrite (proj2 (Z.eqb_neq _ _) Hne) in E1.
Qed.

(** Counting the senders a failure holds. *)
Lemma tally_in id l : id ∈ l ↔ (0 < tally id l)%nat.
Proof. rewrite list_elem_of_In. apply List.count_occ_In. Qed.

Lemma tally_order id order : NoDup order → tally id order = if decide (id ∈ order) then 1%nat else 0%nat.
Proof.
  intros H. case_decide as Hi; [|apply List.count_occ_not_In; by rewrite <- list_elem_of_In].
  apply NoDup_ListNoDup, (List.NoDup_count_occ' Z.eq_dec) with (x := id) in H; [done|by apply list_elem_of_In].
Qed.

Lemma tally_drains_insert id i d d' l :
  l !! i = Some d →
  (tally id (concat (map draining (<[i := d']> l))) + tally id (draining d) =
   tally id (concat (map draining l)) + tally id (draining d'))%nat.
Proof.
  unfold tally. revert i. induction l as [|x l IH]; intros [|i] H; try done.
  - cbn in H |- *. simplify_eq. rewrite !List.count_occ_app. lia.
  - change (<[S i := d']> (x :: l)) with (x :: <[i := d']> l).
    rewrite !map_cons, !concat_cons, !List.count_occ_app. specialize (IH i H). lia.
Qed.

Lemma tally_drains_delete id i l :
  (tally id (concat (map draining (delete i l))) ≤ tally id (concat (map draining l)))%nat.
Proof.
  unfold tally. revert i. induction l as [|x l IH]; intros [|i]; [done..| |].
  - cbn. rewrite List.count_occ_app. lia.
  - change (delete (S i) (x :: l)) with (x :: delete i l).
    rewrite !map_cons, !concat_cons, !List.count_occ_app. specialize (IH i). lia.
Qed.

Lemma flow_fewer id n acc c d :
  flow id n acc c → (tally id (concat (map draining d)) ≤ tally id (drains c))%nat → flow id n acc (set_deferred d c).
Proof.
  intros [Hold Hq Ho Hd Hop H1x Hh Hr] Hle.
  change (concat (map draining d)) with (drains (set_deferred d c)) in Hle.
  assert (id ∈ drains (set_deferred d c) → id ∈ drains c) as Hin by (rewrite !tally_in; lia).
  split; auto.
  - intros [H|H]; auto.
  - change (cn_pending (set_deferred d c)) with (cn_pending c). lia.
  - intros f E1 E2. destruct (Hh f E1 E2) as (H4 & H5 & H6). split_and!; [done..|]. intros Ht.
    destruct (H6 Ht). auto.
Qed.

(** A failure takes the table. *)
Lemma flow_fail_pending id n acc c i m order c' :
  flow id n acc c → cn_deferred c !! i = Some (DrainPending m) → fail_pending i m order c = Some c' → flow id n acc c'.
Proof.
  intros [Hold Hq Ho Hd Hop H1x Hh Hr] Ei H. unfold fail_pending in H. case_decide as Hor; simplify_eq.
  destruct Hor as [Hnd Hset]. set (c1 := set_pending _ _).
  assert (tally id (drains c1) = tally id (drains c) + (if decide (id ∈ cn_pending c) then 1 else 0))%nat as Et.
  { pose proof (tally_drains_insert id i _ (Draining m order) _ Ei) as E. cbn [draining] in E.
    rewrite (tally_order id order Hnd) in E. change (tally id []) with 0%nat in E.
    change (concat (map draining (<[i := Draining m order]> (cn_deferred c)))) with (drains c1) in E.
    change (concat (map draining (cn_deferred c))) with (drains c) in E.
    assert (id ∈ order ↔ id ∈ cn_pending c) as Hiff by (rewrite <- Hset; symmetry; apply elem_of_list_to_set).
    do 2 case_decide; solve [lia|tauto]. }
  assert (id ∈ drains c1 → id ∈ cn_pending c ∨ id ∈ drains c) as Hin.
  { rewrite !tally_in, Et. case_decide; [by left|right; lia]. }
  split; auto.
  - intros [H|H]; [by apply not_elem_of_empty in H|auto].
  - rewrite Et. change (cn_pending c1) with (∅ : gset Z). rewrite (decide_False (P := id ∈ ∅)); [lia|apply not_elem_of_empty].
  - intros f E1 E2. destruct (Hh f E1 E2) as (H4 & H5 & H6). split_and!; [done..|]. intros Ht.
    destruct (H6 Ht). split; [apply not_elem_of_empty|]. intros Hx. destruct (Hin Hx); done.
  - intros Hl. destruct (Hr Hl) as (after & E1 & E2). exists after. split; [done|]. intros Hx. by apply not_elem_of_empty in Hx.
Qed.

(** It tells one request. *)
Lemma flow_failed id n acc c m :
  flow id n acc c → id ∉ cn_pending c → id ∉ drains c → open_items (items_of id c) →
  (∀ f, hand c = [f] → fr_id f = id → is_terminal_response (fr_kind f) = false) →
  flow id n acc (deliver id (Failed m) c).
Proof.
  intros Hfl Hp Hdr Hopen Hf. unfold deliver. destruct (cn_channels c !! id) as [q|] eqn:E; [|done].
  destruct Hfl as [Hold Hq Ho Hd Hop H1x Hh Hr]. set (c1 := set_channels _ _).
  assert (items_of id (add_log id (Failed m) c1) = items_of id c ++ [Failed m]) as Eh by (by rewrite items_of_log, Z.eqb_refl).
  split; rewrite ?Eh; auto.
  - intros q' E'. cbn in E'. rewrite lookup_insert_eq in E'. simplify_eq. by rewrite !map_app, (Hq q E), <- app_assoc.
  - intros f Hx. apply elem_of_app in Hx as [Hx|Hx]; [auto|]. by apply list_elem_of_singleton in Hx.
  - by apply disciplined_snoc.
  - by intros [H|H].
  - intros f E1 E2. destruct (Hh f E1 E2) as (H4 & H5 & H6). split_and!; [done| |done].
    rewrite <- app_assoc. by apply disciplined_failed; [|apply Hf].
  - intros _. destruct Hr as (after & E1 & E2); [eauto|]. exists after. by rewrite replies_app, app_nil_r.
Qed.

Lemma flow_fail_next id n acc c i m ids c' :
  flow id n acc c → cn_deferred c !! i = Some (Draining m ids) → fail_next i m ids c = Some c' → flow id n acc c'.
Proof.
  intros Hfl Ei H. unfold fail_next in H. destruct ids as [|j rest]; simplify_eq.
  { apply flow_fewer; [done|]. apply tally_drains_delete. }
  case_match; simplify_eq. set (c1 := set_deferred _ c).
  pose proof (tally_drains_insert id i _ (Draining m rest) _ Ei) as Et. cbn [draining] in Et.
  change (concat _) with (drains c1) in Et at 1. change (concat _) with (drains c) in Et.
  assert (tally id (j :: rest) = if Z.eq_dec j id then S (tally id rest) else tally id rest) as Ej by done.
  assert (flow id n acc c1) as Hc1.
  { apply flow_fewer; [done|]. change (concat _) with (drains c1). destruct (Z.eq_dec j id); lia. }
  destruct (Z.eq_dec j id) as [->|Hne]; [|by apply flow_deliver_other].
  assert (id ∈ drains c) as Hin by (apply tally_in; lia).
  pose proof (fl_once _ _ _ _ Hfl) as Hone. pose proof (proj1 (tally_in _ _) Hin).
  apply flow_failed; [done| | |by apply (fl_open _ _ _ _ Hfl); right|].
  - intros Hp. change (id ∈ cn_pending c) in Hp. rewrite decide_True in Hone by done. lia.
  - rewrite tally_in. lia.
  - intros f E1 E2. destruct (fl_hand _ _ _ _ Hfl f E1 E2) as (_ & _ & H6).
    destruct (is_terminal_response _); [|done]. by destruct (H6 eq_refl).
Qed.

(** [recv] takes the oldest item. *)
Lemma flow_recv id n acc c t r c' :
  flow id n acc c → recv t c = Some (r, c') → flow id n (acc ++ answer id (ERecv t) c) c'.
Proof.
  intros Hfl H. unfold answer. rewrite H. unfold recv in H.
  destruct (cn_tasks c !! t) as [[| | | | |stream j active|]|] eqn:Et; try done.
  assert (∀ p c1, (∀ s d i f, p ≠ Locked s d i f) → ∀ a, flow id n a c1 → flow id n a (set_task t p c1)) as Hset.
  { intros p c1 Hp a Ha. eapply flow_calm; [done|]. by apply calm_set_task. }
  assert (∀ i q, cn_channels c !! j = Some (i :: q) →
    flow id n (acc ++ (if j =? id then [outcome i] else [])) (set_channels (<[j := q]> (cn_channels c)) c)) as Hpop.
  { intros i q E. destruct Hfl as [Hold Hq Ho Hd Hop H1x Hh Hr]. destruct (Z.eqb_spec j id) as [->|Hne].
    - split; auto. intros q' E'. cbn in E'. rewrite lookup_insert_eq in E'. simplify_eq. rewrite <- app_assoc. exact (Hq _ E).
    - assert (∀ x, cn_channels (set_channels (<[j := q]> (cn_channels c)) c) !! id = x → cn_channels c !! id = x) as Ech.
      { intros x. cbn. by rewrite lookup_insert_ne. }
      rewrite app_nil_r. split; auto. intros [x Hx]. apply Hr. exists x. auto. }
  destruct (cn_channels c !! j) as [[|[f|m] q]|] eqn:Ech; simplify_eq/=; try done.
  - destruct (has_sender j c); simplify_eq. apply Hset; [done|]. destruct (Z.eqb_spec j id) as [->|Hne].
    + rewrite Ech. by rewrite app_nil_r.
    + repeat case_match; by rewrite app_nil_r.
  - apply Hset; [done|]. specialize (Hpop _ _ eq_refl). destruct (Z.eqb_spec j id) as [->|Hne].
    + by rewrite Ech.
    + by repeat case_match.
  - apply Hset; [done|]. specialize (Hpop _ _ eq_refl). destruct (Z.eqb_spec j id) as [->|Hne].
    + by rewrite Ech.
    + by repeat case_match.
Qed.

Lemma flow_step ev id n acc c c' :
  flow id n acc c → step ev c = Some c' → flow id n (acc ++ answer id ev c) c'.
Proof.
  intros Hfl H. destruct (quiet ev) eqn:Eq.
  { replace (answer id ev c) with (@nil (io Frame)) by (by destruct ev). rewrite app_nil_r.
    eapply flow_calm; [done|]. by eapply quiet_step. }
  destruct ev; try done; cbn [step] in H; try (cbn [answer]; rewrite app_nil_r).
  - apply lock_step in H as [H|[_ [H|(s & d & f & ->)]]].
    + by eapply flow_calm.
    + eapply flow_calm; [by apply flow_next|done].
    + by apply flow_lock.
  - apply register_step in H as (s & d & j & f & Et & H & _). eapply flow_calm; [|done].
    apply flow_enter; [done|]. intros ->. destruct (fl_old _ _ _ _ Hfl) as (_ & Hn & _). apply Hn. by exists t, s, d, f.
  - apply reader_step in H as [He [H|(f & -> & [[H Hf]|(Hk & Hin & ->)])]].
    + by eapply flow_calm.
    + eapply flow_calm; [|done]. by apply flow_received.
    + by apply flow_taken.
  - unfold dispatch_send in H. repeat (case_match; simplify_eq; try done). by apply flow_hand_over.
  - destruct (recv t c) as [[r c1]|] eqn:E; [|done]. cbn [option_map snd] in H. simplify_eq. by eapply flow_recv.
  - apply deferred_step in H as [H|[(m & Ei & H)|(m & ids & Ei & H)]].
    + by eapply flow_calm.
    + by eapply flow_fail_pending.
    + by eapply flow_fail_next.
Qed.

Lemma flow_run evs : ∀ id n acc c c',
  flow id n acc c → run evs c = Some c' → flow id n (acc ++ answers id evs c) c'.
Proof.
  induction evs as [|ev evs IH]; intros id n acc c c' Hfl H; cbn [run answers] in *.
  { simplify_eq. by rewrite app_nil_r. }
  destruct (step ev c) as [c1|] eqn:E; [|done]. rewrite app_assoc. eapply IH; [|done]. by eapply flow_step.
Qed.

(** A request starts with nothing in its channel and none of its frames in hand. *)
Lemma flow_start c0 t stream deadline id f now wt c1 :
  ids_inv c0 → cn_tasks c0 !! t = Some (Locked stream deadline id f) → begin_register t now wt c0 = Some c1 →
  flow id (length (cn_received c0)) [] c1.
Proof.
  intros Hi Et H. pose proof (ii_fresh _ Hi _ _ _ _ _ Et) as Hnew.
  destruct (ii_early _ Hi _ _ id Et eq_refl) as [Hid _].
  apply register_step in H as (s & d & j & g & Et' & Hc & Hnl). rewrite Et in Et'. simplify_eq.
  assert (items_of j c1 = []) as Eh.
  { unfold items_of. rewrite (ca_log _ _ Hc). cbn. destruct (omap _ _) as [|x l] eqn:E; [done|]. exfalso.
    assert (x ∈ x :: l) as Hx by left. rewrite <- E in Hx. apply list_elem_of_omap in Hx as ([k y] & Hin & Hy). cbn in Hy.
    destruct (Z.eqb_spec k j) as [->|]; [|done]. apply Hnew. do 3 right. by apply (list_elem_of_fmap_2 fst) in Hin. }
  assert (j ∉ drains c1) as Hdr.
  { rewrite (ca_drains _ _ Hc). intros Hx. apply Hnew, held_known, draining_held, Hx. }
  assert (∀ h, hand c1 = [h] → fr_id h ≠ j) as Hhand.
  { intros h Hh Heq. rewrite (ca_hand _ _ Hc) in Hh. apply Hnew, held_known, elem_of_app. left.
    unfold hand in Hh. cbn in Hh. destruct (cn_reader c0); simplify_eq. cbn. by left. }
  split; rewrite ?Eh; try done.
  - rewrite (ca_next _ _ Hc), (ca_received _ _ Hc). split_and!; [exact (proj2 Hid)| |done].
    intros (t' & s' & d' & g' & Ht'). pose proof (ca_locked _ _ Hc _ _ _ _ _ Ht') as Ht0.
    assert (t' = t) as -> by (by eapply (sole_holder c0 t)). by eapply Hnl.
  - intros q E. apply (ca_channels _ _ Hc) in E. cbn in E. rewrite lookup_insert_eq in E. by simplify_eq.
  - intros h Hh. by apply not_elem_of_nil in Hh.
  - constructor.
  - rewrite tally_in in Hdr. case_decide; lia.
  - intros h Hh Heq. by destruct (Hhand h Hh).
  - intros _. exists []. rewrite (ca_received _ _ Hc). cbn [cn_received enter set_channels set_pending].
    rewrite drop_all. split; [|done]. unfold hand in *. destruct (cn_reader c1) as [|h| |]; try done.
    unfold routed_to, routed. cbn. rewrite (proj2 (Z.eqb_neq _ _)); [done|]. by apply Hhand.
Qed.

(** C8: responses reach the request they belong to, whatever the interleaving: from the
    moment a request [id] is registered, and as long as its receiver lives,
    - its [recv]s have returned, in order, everything put into its channel but what is
      still queued;
    - every reply put there carries its id;
    - nothing follows a terminal reply, and a failure of the connection is followed by at
      most one frame, which is not terminal (the reader took the sender for it first);
    - the server frames with this id read since then are those replies in order, then the
      one the reader is handing over, then frames that came after the entry was removed:
      while the entry is registered none is lost and none has closed the request. *)
Theorem responses_routed evs0 c0 t stream deadline id f now wt c1 evs c q :
  Forall valid_event evs0 → run evs0 start = Some c0 →
  cn_tasks c0 !! t = Some (Locked stream deadline id f) → step (ERegister t now wt) c0 = Some c1 →
  run evs c1 = Some c → cn_channels c !! id = Some q →
  map outcome (items_of id c) = answers id evs c1 ++ map outcome q ∧
  (∀ g, Reply g ∈ items_of id c → fr_id g = id) ∧
  disciplined (items_of id c) = true ∧
  ∃ after, routed_to id (drop (length (cn_received c0)) (cn_received c)) =
             replies (items_of id c) ++ routed_to id (hand c) ++ after ∧
    (id ∈ cn_pending c → after = [] ∧ open_items (items_of id c)).
Proof.
  intros Hv H0 Et Hr H Hq. pose proof (ids_run _ _ _ Hv start_ids_inv H0) as Hi.
  pose proof (flow_start _ _ _ _ _ _ _ _ _ Hi Et Hr) as Hfl.
  destruct (flow_run _ _ _ _ _ _ Hfl H) as [_ H1 H2 H3 H4 _ _ H5]. split_and!; [by apply H1|done..|].
  destruct H5 as (after & E1 & E2); [by rewrite Hq|]. exists after. split; [done|]. auto.
Qed.

(** ** Concrete runs *)

(** A request task up to its handle. *)
Definition open_request (t : nat) : list event :=
  [EAcquire t false 0 0 1000; ELock t kind.QUERY 7 zero_nonce (lit "q") 0 1000; ERegister t 0 1000;
   EEnqueue t; EWriter None; EComplete t].

Definition reply (id : Z) : Frame := mkFrame kind.RESULT 0 200 id zero_nonce 0 (lit "r").
Definition progress (id : Z) : Frame := mkFrame kind.ACK 0 102 id zero_nonce 0 (lit "p").

Definition state_after (evs : list event) : Conn := default start (run evs start).

(** Two requests; the second is answered first, and its caller takes the first of its frames. *)
Definition answered_second : list event :=
  [EEnqueue 1; EWriter None; EComplete 1; EReader (Ok (Some (progress 2))); EHand; ERecv 1;
   EReader (Ok (Some (reply 2))); EHand].
Definition before_second : list event := open_request 0 ++ firstn 2 (open_request 1).
Definition sample_run : list event := before_second ++ [ERegister 1 0 1000] ++ answered_second.

Lemma in_flight_bounded_witness :
  cn_permits (state_after sample_run) = MAX_IN_FLIGHT - in_flight (cn_tasks (state_after sample_run)) ∧
  0 ≤ in_flight (cn_tasks (state_after sample_run)) ≤ MAX_IN_FLIGHT.
Proof. apply (in_flight_bounded sample_run). vm_compute. reflexivity. Defined.

Lemma responses_routed_witness :
  map outcome (items_of 2 (state_after sample_run)) =
    answers 2 answered_second (state_after (before_second ++ [ERegister 1 0 1000])) ++ [Ok (reply 2)] ∧
  answers 2 answered_second (state_after (before_second ++ [ERegister 1 0 1000])) = [Ok (progress 2)].
Proof.
  split; [|vm_compute; reflexivity].
  refine (proj1 (responses_routed before_second (state_after before_second) 1 false 0 2
    (frame_request kind.QUERY 7 2 zero_nonce 0 (lit "q")) 0 1000
    (state_after (before_second ++ [ERegister 1 0 1000])) answered_second (state_after sample_run) [Reply (reply 2)] _ _ _ _ _ _)).
  - repeat constructor; discriminate.
  - vm_compute. reflexivity.
  - vm_compute. reflexivity.
  - vm_compute. reflexivity.
  - vm_compute. reflexivity.
  - vm_compute. reflexivity.
Defined.

(** The exception in the discipline happens: the reader has taken the sender for a progress
    frame when [close] fails the requests, and hands it over after the failure. *)
Example frame_after_failure :
  items_of 1 (state_after (open_request 0 ++
    [EReader (Ok (Some (progress 1))); EClose; EControlQueue 0; EWriter None; EControlDone 0;
     EDeferred 0 [1]; EDeferred 0 []; EHand])) =
  [Failed (lit "MST5 client closed the connection"); Reply (progress 1)].
Proof. vm_compute. reflexivity. Qed.

(** A frame never waits for more writer budget than exists: the units
    [enqueue_frame] acquires for any frame of at most 4 MiB are between 1 and a
    quarter of the budget plus one, so the acquisition cannot block forever. *)
Theorem writer_budget_suffices f :
  len (fr_payload f) ≤ MST5_MAX_PLAIN_PAYLOAD →
  1 ≤ frame_units f ≤ WRITER_BUDGET_BYTES / WRITER_BUDGET_UNIT / 4 + 1.
Proof.
  intros H. pose proof (len_nonneg (fr_payload f)).
  unfold frame_units, saturating_add64, div_ceil, MST5_MAX_PLAIN_PAYLOAD, WRITER_BUDGET_BYTES, WRITER_BUDGET_UNIT in *.
  change (16 * 1024 * 1024 / (16 * 1024) / 4 + 1) with 257. rewrite Z.min_l by (widths; lia).
  split; [lia|]. apply Z.max_lub; [|lia]. apply Z.lt_succ_r. apply Z.div_lt_upper_bound; lia.
Qed.

Lemma writer_budget_suffices_witness :
  1 ≤ frame_units (reply 1) ≤ WRITER_BUDGET_BYTES / WRITER_BUDGET_UNIT / 4 + 1.
Proof. apply (writer_budget_suffices (reply 1)). vm_compute. congruence. Defined.
