(* ===== verification/ConnClose.v ===== *)
(** * Shutdown of a connection

    What closing or failing a connection guarantees, for every interleaving. *)
From S2P Require Import Prelude RustStr Cbor Frame Connection ConnIds ConnFlow.

(** An invariant of steps is an invariant of runs. *)
Lemma run_ind (P : Conn → Prop) evs c c' :
  (∀ ev x y, P x → step ev x = Some y → P y) → P c → run evs c = Some c' → P c'.
Proof.
  intros Hs. revert c. induction evs as [|ev evs IH]; intros c Hc H; cbn in H; [by simplify_eq|].
  destruct (step ev c) as [c1|] eqn:E; [|done]. eauto.
Qed.

(** The other pieces of deferred work stay when one goes on or ends. *)
Lemma deferred_keep (l : list deferred) i d d' x :
  l !! i = Some d → x ≠ d → x ∈ l → x ∈ <[i := d']> l ∧ x ∈ delete i l.
Proof.
  intros E Hne Hx. rewrite <- (take_drop_middle _ _ _ E) in Hx.
  pose proof (lookup_lt_Some _ _ _ E) as Hi. rewrite delete_take_drop, insert_take_drop by done. set_solver.
Qed.

Lemma fail_next_deferred i m ids c c' :
  cn_deferred c !! i = Some (Draining m ids) → fail_next i m ids c = Some c' →
  cn_waits c' = cn_waits c ∧ cn_pending c' = cn_pending c ∧
  ∀ x, x ∈ cn_deferred c → x ≠ Draining m ids → x ∈ cn_deferred c'.
Proof.
  intros Ei H. unfold fail_next, deliver in H.
  repeat (case_match; simplify_eq; try done); (split_and!; [done..|]); intros x Hx Hne; by eapply deferred_keep.
Qed.

(** ** The numbers of control writes *)

Lemma tickets_step ev c c' : tickets_ok c → step ev c = Some c' → tickets_ok c'.
Proof.
  intros Ht H. destruct (quiet ev) eqn:Eq; [by apply (ca_tickets _ _ (quiet_step _ _ _ Eq H))|].
  destruct ev; try done; cbn [step] in H.
  - apply lock_step in H as [H|[_ [H|(s & d & f & ->)]]]; [by apply (ca_tickets _ _ H)..|done].
  - apply register_step in H as (s & d & j & f & _ & H & _). by apply (ca_tickets _ _ H).
  - apply reader_step in H as [_ [H|(f & -> & [[H _]|(_ & _ & ->)])]]; [by apply (ca_tickets _ _ H)..|by case_match].
  - unfold dispatch_send, deliver in H. repeat (case_match; simplify_eq; try done).
  - destruct (recv t c) as [[r c1]|] eqn:E; [|done]. cbn in H. simplify_eq. unfold recv in E.
    repeat (case_match; simplify_eq; try done).
  - apply deferred_step in H as [H|[(m & _ & H)|(m & ids & _ & H)]]; [by apply (ca_tickets _ _ H)| |].
    + unfold fail_pending in H. by case_decide; simplify_eq.
    + unfold fail_next, deliver in H. repeat (case_match; simplify_eq; try done).
Qed.

(** ** Once closed *)

(** A step of a closed connection allocates no id and registers only what was allocated;
    the failure stays due until it takes the table. *)
Record closed_step (c c' : Conn) : Prop := {
  cs_closed : cn_closed c' = true;
  cs_next : cn_next c' = cn_next c;
  cs_locked id : allocating c' id → allocating c id;
  cs_pending id : id ∈ cn_pending c' → id ∈ cn_pending c ∨ allocating c id;
  cs_due : due c → due c' ∨ cn_pending c' = ∅
}.

Lemma calm_closed c c' : tickets_ok c → cn_closed c = true → calm c c' → closed_step c c'.
Proof.
  intros Ht Hc H. split.
  - by apply (ca_closed _ _ H).
  - apply (ca_next _ _ H).
  - intros id. by apply calm_allocating.
  - intros id Hi. left. by apply (ca_pending _ _ H).
  - intros Hd. left. by apply (ca_due _ _ H).
Qed.

Lemma step_closed ev c c' : tickets_ok c → cn_closed c = true → step ev c = Some c' → closed_step c c'.
Proof.
  intros Ht Hc H. destruct (quiet ev) eqn:Eq; [by apply calm_closed; [..|eapply quiet_step]|].
  destruct ev; try done; cbn [step] in H.
  - apply lock_step in H as [H|[? _]]; [by apply calm_closed|congruence].
  - apply register_step in H as (s & d & j & f & Et & H & _).
    assert (closed_step (enter j c) c') as [H1 H2 H3 H4 H5] by by apply calm_closed.
    split; auto. intros id Hi. destruct (H4 id Hi) as [Hx|Hx]; [|by right]. cbn in Hx.
    apply elem_of_union in Hx as [Hx|Hx]; [|by left]. apply elem_of_singleton in Hx as ->. right. by exists t, s, d, f.
  - apply reader_step in H as [_ [H|(f & -> & [[H _]|(_ & _ & ->)])]].
    + by apply calm_closed.
    + assert (closed_step (add_received f c) c') as [] by by apply calm_closed. by split.
    + case_match; split; auto. cbn. set_solver.
  - unfold dispatch_send, deliver in H. repeat (case_match; simplify_eq; try done); split; auto.
  - destruct (recv t c) as [[r c1]|] eqn:E; [|done]. cbn in H. simplify_eq.
    assert (∃ c2 p, c' = set_task t p c2 ∧ (∀ s d i f, p ≠ Locked s d i f) ∧ closed_step c c2) as (c2 & p & -> & Hp & Hs).
    { unfold recv in E. repeat (case_match; simplify_eq; try done); eexists _, _; (split; [reflexivity|]); (split; [done|]); split; auto. }
    destruct Hs as [H1 H2 H3 H4 H5]. split; auto.
    intros id Ha. apply H3. by eapply calm_allocating; [apply (calm_set_task c2 c2 (calm_refl _) t p Hp)|].
  - apply deferred_step in H as [H|[(m & _ & H)|(m & ids & Ei & H)]]; [by apply calm_closed| |].
    + unfold fail_pending in H. case_decide; simplify_eq. split; auto. cbn. set_solver.
    + destruct (fail_next_deferred _ _ _ _ _ Ei H) as (Ew & Ep & Hd).
      unfold fail_next, deliver in H. split.
      * repeat (case_match; simplify_eq; try done).
      * repeat (case_match; simplify_eq; try done).
      * intros id Ha. repeat (case_match; simplify_eq; try done).
      * rewrite Ep. auto.
      * intros [(x & Hx)|(n & p & Hx)]; left; [left; exists x; by apply Hd|right; exists n, p; by rewrite Ew].
Qed.

(** ** What a failure owes *)

(** The request [id] is registered or gone, and when its receiver lives it has been told
    [m] or a failure still owes it. *)
Record told (id : Z) (m : list Z) (c : Conn) : Prop := {
  to_old : id < cn_next c ∧ ¬ allocating c id;
  to_told : owed id m c ∨ Failed m ∈ items_of id c ∨ cn_channels c !! id = None
}.

Lemma told_calm id m c c' : told id m c → calm c c' → told id m c'.
Proof.
  intros [[H1 H2] H3] Hc. split.
  - rewrite (ca_next _ _ Hc). split; [done|]. intros Ha. by apply (calm_allocating _ _ _ Hc) in Ha.
  - destruct H3 as [H|[H|H]].
    + left. by apply (ca_owed _ _ Hc).
    + right. left. unfold items_of. by rewrite (ca_log _ _ Hc).
    + right. right. destruct (cn_channels c' !! id) as [q|] eqn:E; [|done]. apply (ca_channels _ _ Hc) in E. congruence.
Qed.

Lemma told_deliver id m c j i : told id m c → told id m (deliver j i c).
Proof.
  intros [[H1 H2] H3]. unfold deliver. destruct (cn_channels c !! j) as [q|] eqn:E; [|done].
  split; [done|]. destruct H3 as [H|[H|H]]; [by left|..].
  - right. left. rewrite items_of_log. apply elem_of_app. by left.
  - right. right. cbn. rewrite lookup_insert_ne; [done|]. congruence.
Qed.

Lemma told_fail_next id m c i m' ids c' :
  told id m c → cn_deferred c !! i = Some (Draining m' ids) → fail_next i m' ids c = Some c' → told id m c'.
Proof.
  intros Ht Ei H. destruct (fail_next_deferred _ _ _ _ _ Ei H) as (_ & _ & Hd). unfold fail_next in H.
  destruct ids as [|j rest]; simplify_eq.
  - destruct Ht as [Ho [(ids & Hin & Hi)|H3]]; split; auto. left. exists ids. split; [|done].
    apply Hd; [done|]. intros [= -> ->]. by apply not_elem_of_nil in Hi.
  - case_match; simplify_eq. set (c1 := set_deferred _ c) in *.
    destruct Ht as [Ho H3]. destruct (decide (m' = m ∧ j = id)) as [[-> ->]|Hne].
    + (* its turn *)
      unfold deliver. destruct (cn_channels c1 !! id) as [q|] eqn:E; [|by split; [|right; right]].
      split; [done|]. right. left. rewrite items_of_log, Z.eqb_refl. apply elem_of_app. right. by left.
    + apply told_deliver. split; [done|]. destruct H3 as [(ids & Hin & Hi)|H3]; [|by right]. left.
      destruct (decide (m' = m ∧ ids = j :: rest)) as [[-> ->]|Hd'].
      * exists rest. split; [cbn; eapply list_elem_of_lookup_2, list_lookup_insert_eq, lookup_lt_Some, Ei|].
        apply elem_of_cons in Hi as [->|Hi]; [|done]. destruct Hne. done.
      * exists ids. split; [|done]. assert (Draining m ids ≠ Draining m' (j :: rest)) as Hx by (intros [= -> ->]; by apply Hd').
        cbn. by eapply deferred_keep.
Qed.

Lemma told_step ev id m c c' : told id m c → step ev c = Some c' → told id m c'.
Proof.
  intros Ht H. destruct (quiet ev) eqn:Eq; [by eapply told_calm; [|eapply quiet_step]|].
  pose proof Ht as [[H1 H2] H3]. destruct ev; try done; cbn [step] in H.
  - apply lock_step in H as [H|[_ [H|(s & d & f & ->)]]]; [by eapply told_calm| |].
    + eapply told_calm; [|done]. split; [cbn; split; [lia|done]|done].
    + split; [|done]. cbn. split; [lia|]. intros (t' & s' & d' & f' & Hx). cbn in Hx.
      apply lookup_insert_Some in Hx as [[_ Hx]|[_ Hx]]; [simplify_eq; lia|]. apply H2. by exists t', s', d', f'.
  - apply register_step in H as (s & d & j & f & Et & H & _). eapply told_calm; [|done]. split; [done|].
    destruct H3 as [H3|[H3|H3]]; [by left|by right; left|]. do 2 right. cbn. rewrite lookup_insert_ne; [done|].
    intros ->. apply H2. by exists t, s, d, f.
  - apply reader_step in H as [_ [H|(f & -> & [[H _]|(_ & _ & ->)])]]; [by eapply told_calm| |].
    + by eapply told_calm; [|done].
    + by case_match.
  - unfold dispatch_send in H. repeat (case_match; simplify_eq; try done).
    by destruct (told_deliver id m c (fr_id f) (Reply f) Ht).
  - destruct (recv t c) as [[r c1]|] eqn:E; [|done]. cbn in H. simplify_eq. unfold recv in E.
    assert (∀ p c1, (∀ s d i f, p ≠ Locked s d i f) → told id m c1 → told id m (set_task t p c1)) as Hset.
    { intros p c1 Hp Ha. eapply told_calm; [done|]. by apply calm_set_task. }
    repeat (case_match; simplify_eq; try done); apply Hset; try done; (split; [done|]);
      (destruct H3 as [H3|[H3|H3]]; [by left|by right; left|]); do 2 right; cbn;
      (rewrite lookup_insert_ne; [done|congruence]).
  - apply deferred_step in H as [H|[(x & Ei & H)|(x & ids & Ei & H)]]; [by eapply told_calm| |by eapply told_fail_next].
    unfold fail_pending in H. case_decide; simplify_eq. split; [done|].
    destruct H3 as [(ids & Hin & Hi)|H3]; [|by right]. left. exists ids. split; [|done]. cbn. by eapply deferred_keep.
Qed.

(** A failure takes the table: what was in it is owed. *)
Lemma drain_owes i order m c c' :
  ids_inv c → cn_deferred c !! i = Some (DrainPending m) → step (EDeferred i order) c = Some c' →
  cn_pending c' = ∅ ∧ ∀ id, id ∈ cn_pending c → told id m c'.
Proof.
  intros Hi Ei H. cbn [step] in H. unfold run_deferred in H. rewrite Ei in H.
  unfold fail_pending in H. case_decide as Ho; simplify_eq. destruct Ho as [_ Ho]. split; [done|].
  intros id Hin. assert (known c id) as Hk by by left. split; [split|].
  - apply (ii_known _ Hi _ Hk).
  - intros (t & s & d & f & Ht). by apply (ii_fresh _ Hi _ _ _ _ _ Ht).
  - left. exists order. split; [cbn; eapply list_elem_of_lookup_2, list_lookup_insert_eq, lookup_lt_Some, Ei|].
    rewrite <- Ho in Hin. by apply elem_of_list_to_set in Hin.
Qed.

(** Deferred work waits for nothing but room in a live channel. *)
Lemma deferred_progress i d c :
  cn_deferred c !! i = Some d →
  (∃ order c', step (EDeferred i order) c = Some c') ∨
  ∃ m id rest q, d = Draining m (id :: rest) ∧ cn_channels c !! id = Some q ∧ RESPONSE_QUEUE ≤ len q.
Proof.
  intros Ei. cbn [step]. unfold run_deferred. rewrite Ei. destruct d as [m|m [|id rest]|id|id]; try (left; by exists []; eauto).
  - left. exists (elements (cn_pending c)). unfold fail_pending. rewrite decide_True; [by eauto|].
    split; [apply NoDup_elements|apply list_to_set_elements_L].
  - cbn [fail_next]. unfold channel_ready. destruct (cn_channels c !! id) as [q|] eqn:E; [|left; by exists []; eauto].
    destruct (Z.ltb_spec (len q) RESPONSE_QUEUE); [left; by exists []; eauto|]. right. by exists m, id, rest, q.
Qed.

(** ** Every handle has its receiver *)

Definition owner (p : phase) : option Z :=
  match p with
  | Locked _ _ id _ | Registered _ id _ | Queued _ id | Written _ id _ | Handle _ id _ => Some id
  | _ => None
  end.
Definition is_locked (p : phase) : bool := match p with Locked _ _ _ _ => true | _ => false end.

Definition owners (c : Conn) : Prop :=
  (∀ t p id, cn_tasks c !! t = Some p → owner p = Some id → id < cn_next c) ∧
  (∀ t t' p p' id, cn_tasks c !! t = Some p → cn_tasks c !! t' = Some p' →
     owner p = Some id → owner p' = Some id → t = t') ∧
  (∀ t p id, cn_tasks c !! t = Some p → owner p = Some id → is_locked p = false → is_Some (cn_channels c !! id)).

(** Tasks keep their ids or lose them; a receiver goes when no task owns it. *)
Lemma owners_weaken c c' :
  owners c → cn_next c ≤ cn_next c' →
  (∀ t p id, cn_tasks c' !! t = Some p → owner p = Some id →
     ∃ p0, cn_tasks c !! t = Some p0 ∧ owner p0 = Some id ∧ (is_locked p = false → is_locked p0 = false)) →
  (∀ t p id, cn_tasks c' !! t = Some p → owner p = Some id → is_Some (cn_channels c !! id) → is_Some (cn_channels c' !! id)) →
  owners c'.
Proof.
  intros (Hn & Ho & Hl) Hle Ht Hch. split_and!.
  - intros t p id H1 H2. destruct (Ht t p id H1 H2) as (p0 & H3 & H4 & _). specialize (Hn _ _ _ H3 H4). lia.
  - intros t t' p p' id H1 H2 H3 H4. destruct (Ht t p id H1 H3) as (p0 & H5 & H6 & _).
    destruct (Ht t' p' id H2 H4) as (p1 & H7 & H8 & _). by eapply Ho.
  - intros t p id H1 H2 H3. destruct (Ht t p id H1 H2) as (p0 & H5 & H6 & H7). eapply Hch; [done|done|]. eauto.
Qed.

Section Owners.
Context (c : Conn) (Hc : owners c).

Lemma owners_same t p p' :
  cn_tasks c !! t = Some p → owner p' = owner p → is_locked p = false → owners (set_task t p' c).
Proof.
  intros Ht Ho Hl. apply (owners_weaken c _ Hc); [reflexivity| |done]; cbn.
  intros t' q id Hq Hid. apply lookup_insert_Some in Hq as [[<- <-]|[_ Hq]]; [|by eauto].
  exists p. by rewrite <- Ho.
Qed.

Lemma owners_idle t p' : owner p' = None → owners (set_task t p' c).
Proof.
  intros Ho. apply (owners_weaken c _ Hc); [reflexivity| |done]; cbn.
  intros t' q id Hq Hid. apply lookup_insert_Some in Hq as [[<- <-]|[_ Hq]]; [congruence|by eauto].
Qed.

(** A task ends and drops its receiver. *)
Lemma owners_end t p id r :
  cn_tasks c !! t = Some p → owner p = Some id → owners (drop_channel id (finish t r c)).
Proof.
  intros Ht Ho. assert (cn_tasks (finish t r c) = <[t := Finished r]> (cn_tasks c) ∧ cn_next (finish t r c) = cn_next c ∧
    cn_channels (finish t r c) = cn_channels c) as (E1 & E2 & E3) by (unfold finish; by case_decide).
  apply (owners_weaken c _ Hc); cbn [cn_next cn_tasks cn_channels drop_channel set_channels]; rewrite ?E1, ?E2, ?E3; [reflexivity|..].
  - intros t' q i Hq Hid. apply lookup_insert_Some in Hq as [[<- <-]|[_ Hq]]; [done|by eauto].
  - intros t' q i Hq Hid Hs. apply lookup_insert_Some in Hq as [[<- <-]|[Hne Hq]]; [done|].
    rewrite lookup_delete_ne; [done|]. intros <-. apply Hne. by eapply (proj1 (proj2 Hc)).
Qed.

Lemma owners_finish t r : owners (finish t r c).
Proof. unfold finish. case_decide; exact (owners_idle t (Finished r) eq_refl). Qed.

Lemma owners_fail m : owners (fail m c).
Proof. unfold fail. by destruct (cn_closed c). Qed.

Lemma owners_set_channels id q q' :
  cn_channels c !! id = Some q → owners (set_channels (<[id := q']> (cn_channels c)) c).
Proof.
  intros E. apply (owners_weaken c _ Hc); [reflexivity|by eauto|]; cbn.
  intros _ _ i _ _ Hs. destruct (decide (id = i)) as [<-|Hne]; [by rewrite lookup_insert_eq|by rewrite lookup_insert_ne].
Qed.

Lemma owners_deliver id i : owners (deliver id i c).
Proof. unfold deliver. destruct (cn_channels c !! id) eqn:E; [|done]. by eapply owners_set_channels. Qed.
End Owners.

Lemma owners_continue k r c : owners c → owners (continue_control k r c).
Proof.
  intros Hc. unfold continue_control, protocol_error.
  repeat (case_match; try done); first [by eapply owners_same | exact (owners_fail c Hc _)].
Qed.

Lemma owners_try_control k f c : owners c → owners (try_control k f c).
Proof. intros Hc. unfold try_control, write_control. repeat (case_match; try done); by apply owners_continue. Qed.

Lemma owners_begin_failed t stream id e c p :
  owners c → cn_tasks c !! t = Some p → owner p = Some id → owners (begin_failed t stream id e c).
Proof.
  intros Hc Ht Ho. assert (owners (drop_channel id (finish t (Some e) (remove_pending id c)))) as H by by eapply owners_end.
  unfold begin_failed. destruct stream; [done|by apply owners_fail].
Qed.

(** The id is allocated, and its sender and receiver are created. *)
Lemma owners_lock c t stream deadline f :
  owners c → (∀ p, cn_tasks c !! t = Some p → owner p = None) →
  owners (set_task t (Locked stream deadline (cn_next c) f) (set_lock (Some t) (set_next (cn_next c + 1) c))).
Proof.
  intros (Hn & Ho & Hl) Ht. split_and!; cbn.
  - intros t' p id H Hid. apply lookup_insert_Some in H as [[<- <-]|[_ H]]; [cbn in Hid; simplify_eq; lia|].
    specialize (Hn _ _ _ H Hid). lia.
  - intros t1 t2 p1 p2 id H1 H2 Hi1 Hi2.
    apply lookup_insert_Some in H1 as [[<- <-]|[_ H1]]; apply lookup_insert_Some in H2 as [[<- <-]|[_ H2]];
      cbn in *; simplify_eq; [done| | |by eapply Ho].
    + specialize (Hn _ _ _ H2 Hi2). lia.
    + specialize (Hn _ _ _ H1 Hi1). lia.
  - intros t' p id H Hid Hlk. apply lookup_insert_Some in H as [[<- <-]|[_ H]]; [done|eauto].
Qed.

Lemma owners_register t now wt c c' : owners c → begin_register t now wt c = Some c' → owners c'.
Proof.
  intros Hc H. unfold begin_register in H. destruct (cn_tasks c !! t) as [[|stream deadline id f| | | | |]|] eqn:Et; try done.
  fold (enter id c) in H.
  assert (owners (enter id c)) as He.
  { apply (owners_weaken c _ Hc); [reflexivity|by eauto|]; cbn. intros _ _ i _ _ Hs.
    destruct (decide (id = i)) as [<-|Hne]; [by rewrite lookup_insert_eq|by rewrite lookup_insert_ne]. }
  assert (∀ r, owners (drop_channel id (finish t r (enter id c)))) as Hend by (intros r; by eapply owners_end).
  assert (∀ g, owners (set_task t (Registered stream id g) (enter id c))) as Hreg.
  { intros g. destruct He as (Hn & Ho & Hl). split_and!; cbn in *.
    - intros t' p i Hp Hi. apply lookup_insert_Some in Hp as [[<- <-]|[_ Hp]]; [|eauto]. cbn in Hi. simplify_eq. by eapply Hn.
    - intros t1 t2 p1 p2 i H1 H2 Hi1 Hi2.
      apply lookup_insert_Some in H1 as [[<- <-]|[_ H1]]; apply lookup_insert_Some in H2 as [[<- <-]|[_ H2]];
        cbn in *; simplify_eq; [done|by eapply Ho..].
    - intros t' p i Hp Hi Hlk. apply lookup_insert_Some in Hp as [[<- <-]|[_ Hp]]; [|eauto].
      cbn in Hi. simplify_eq. by rewrite lookup_insert_eq. }
  repeat (case_match; simplify_eq; try done); first [apply Hreg|apply Hend].
Qed.

Lemma owners_dispatch f c : owners c → owners (dispatch f c).
Proof.
  intros Hc. assert (owners (add_received f c)) as Hr by done.
  unfold dispatch, protocol_error. repeat (case_match; try done); try exact (owners_fail _ Hr _).
  by apply (owners_try_control KPong (Ok a)).
Qed.

Lemma owners_complete w r c : owners c → owners (complete w r c).
Proof. intros Hc. unfold complete. repeat (case_match; try done). by eapply owners_same. Qed.

Lemma owners_control n c c' e :
  owners c → (control_enqueue n c = Some c' ∨ control_give_up n e c = Some c' ∨ control_complete n c = Some c') → owners c'.
Proof.
  intros Hc [H|[H|H]].
  - unfold control_enqueue, push_command in H. repeat (case_match; simplify_eq; try done).
  - unfold control_give_up in H. repeat (case_match; simplify_eq; try done); by apply owners_continue.
  - unfold control_complete in H. repeat (case_match; simplify_eq; try done); by apply owners_continue.
Qed.

Lemma owners_step ev c c' : owners c → step ev c = Some c' → owners c'.
Proof.
  intros Hc H. destruct ev; cbn [step] in H.
  - unfold begin_acquire in H. repeat (case_match; simplify_eq; try done); by apply owners_idle.
  - unfold begin_lock in H. destruct (cn_tasks c !! t) as [[stream deadline| | | | | |]|] eqn:Et; try done.
    assert (owners (set_next (cn_next c + 1) c)) as Hn.
    { apply (owners_weaken c _ Hc); cbn; [lia|eauto|done]. }
    repeat (case_match; simplify_eq; try done);
      first [by apply owners_finish | by apply owners_lock; [done|intros p Hp; by simplify_eq]].
  - by eapply owners_register.
  - unfold begin_enqueue, push_command in H. repeat (case_match; simplify_eq; try done); by eapply owners_same.
  - unfold begin_give_up in H. repeat (case_match; simplify_eq; try done);
      first [by apply owners_finish | by eapply owners_begin_failed].
  - unfold begin_complete in H. repeat (case_match; simplify_eq; try done);
      first [by eapply owners_same | by eapply owners_begin_failed].
  - unfold writer_turn in H. repeat (case_match; simplify_eq; try done);
      first [by apply owners_complete | apply owners_fail; refine (owners_complete _ _ (set_queues _ _ _ c) Hc)].
  - unfold reader_turn in H. repeat (case_match; simplify_eq; try done);
      first [by apply owners_dispatch | exact (owners_fail c Hc _)].
  - unfold dispatch_send in H. repeat (case_match; simplify_eq; try done). exact (owners_deliver c Hc _ _).
  - simplify_eq. unfold keepalive_turn. repeat (case_match; try done). by apply (owners_try_control KPing (Ok a)).
  - simplify_eq. unfold close. by case_match.
  - eapply (owners_control n c c' closed_error); eauto.
  - eapply (owners_control n c c' e); eauto.
  - eapply (owners_control n c c' closed_error); eauto.
  - destruct (recv t c) as [[r c1]|] eqn:E; [|done]. cbn in H. simplify_eq. unfold recv in E.
    repeat (case_match; simplify_eq; try done); (eapply owners_same; [|done|done|done]);
      first [done | by eapply owners_set_channels].
  - unfold handle_send in H. repeat (case_match; simplify_eq; try done); by apply owners_try_control.
  - unfold end_handle in H. repeat (case_match; simplify_eq; try done); try apply owners_try_control; try done;
      by eapply owners_same.
  - unfold drop_handle in H. repeat (case_match; simplify_eq; try done); by eapply owners_end.
  - unfold run_deferred, fail_pending, fail_next in H. repeat (case_match; simplify_eq; try done);
      first [by apply owners_try_control | by apply owners_deliver].
Qed.

Lemma start_owners : owners start.
Proof.
  assert (∀ t p, cn_tasks start !! t ≠ Some p) as H by (intros t p; cbn; by rewrite lookup_empty).
  split_and!; intros; by edestruct H.
Qed.

(** ** Shutdown *)

(** The step that closes the connection leaves the failure of the requests due. *)
Lemma closing_due ev c c' :
  tickets_ok c → cn_closed c = false → step ev c = Some c' → cn_closed c' = true → due c'.
Proof.
  intros Ht Hc H Hc'. destruct (quiet ev) eqn:Eq; [by eapply ca_opened; [eapply quiet_step|..]|].
  destruct ev; try done; cbn [step] in H.
  - apply lock_step in H as [H|[_ [H|(s & d & f & ->)]]]; [by eapply ca_opened..|]. cbn in Hc'. congruence.
  - apply register_step in H as (s & d & j & f & Et & H & _). by eapply ca_opened.
  - apply reader_step in H as [_ [H|(f & -> & [[H _]|(_ & _ & ->)])]]; [by eapply ca_opened..|].
    case_match; cbn in Hc'; congruence.
  - unfold dispatch_send, deliver in H. repeat (case_match; simplify_eq; try done); cbn in Hc'; congruence.
  - destruct (recv t c) as [[r c1]|] eqn:E; [|done]. cbn in H. simplify_eq. unfold recv in E.
    repeat (case_match; simplify_eq; try done); cbn in Hc'; congruence.
  - apply deferred_step in H as [H|[(x & Ei & H)|(x & ids & Ei & H)]]; [by eapply ca_opened|..].
    + unfold fail_pending in H. case_decide; simplify_eq. cbn in Hc'. congruence.
    + unfold fail_next, deliver in H. repeat (case_match; simplify_eq; try done); cbn in Hc'; congruence.
Qed.

(** The state after some steps of a connection closed in [c]. *)
Record after_close (c x : Conn) : Prop := {
  ac_tickets : tickets_ok x;
  ac_closed : cn_closed x = true;
  ac_next : cn_next x = cn_next c;
  ac_locked id : allocating x id → allocating c id;
  ac_pending id : id ∈ cn_pending x → id ∈ cn_pending c ∨ allocating c id;
  ac_due : due x ∨ ∀ id, id ∈ cn_pending x → allocating c id
}.

Lemma after_close_step ev c x y : after_close c x → step ev x = Some y → after_close c y.
Proof.
  intros [Ht Hc Hn Hl Hp Hd] H. destruct (step_closed ev x y Ht Hc H) as [H1 H2 H3 H4 H5]. split.
  - by eapply tickets_step.
  - done.
  - congruence.
  - auto.
  - intros id Hi. destruct (H4 id Hi); auto.
  - destruct Hd as [Hd|Hd].
    + destruct (H5 Hd) as [?|E]; [by left|]. right. intros id. rewrite E. intros Hi. by apply not_elem_of_empty in Hi.
    + right. intros id Hi. destruct (H4 id Hi); auto.
Qed.

(** With no sender left, [recv] does not wait. *)
Lemma recv_answers c t stream id active :
  owners c → cn_pending c = ∅ → held c = [] → cn_tasks c !! t = Some (Handle stream id active) →
  ∃ r c', recv t c = Some (r, c').
Proof.
  intros (_ & _ & Hl) Hp Hh Ht. destruct (Hl t _ id Ht eq_refl eq_refl) as [q Hq]. unfold recv. rewrite Ht, Hq.
  assert (has_sender id c = false) as Hs.
  { unfold has_sender. rewrite Hp, Hh. rewrite !bool_decide_eq_false_2; [done|apply not_elem_of_nil|apply not_elem_of_empty]. }
  rewrite Hs. destruct q as [|[f|m] q]; eauto.
Qed.

(** C10: closing or failing a connection is final.  Let a step close the connection, in any
    interleaving, and let it run on.  Then
    - it stays closed and allocates no id; an entry still in the table was there when the
      connection closed, or belongs to the one task that was between the allocation of
      its id and its registration (such a task may register afterwards);
    - the failure of the requests stays due until it takes the table, after which only
      that task's entry can be there;
    - when it takes the table, each of its requests whose receiver lives is told the error
      or is still owed it, from then on; telling waits for nothing but room in a
      receiver's queue;
    - once that is done, and if no task was in between, every [recv] answers at once: no
      caller waits for a reply that cannot come. *)
Theorem closed_is_final evs0 c0 ev c evs c' :
  Forall valid_event evs0 → valid_event ev → Forall valid_event evs →
  run evs0 start = Some c0 → cn_closed c0 = false → step ev c0 = Some c → cn_closed c = true → run evs c = Some c' →
  cn_closed c' = true ∧ cn_next c' = cn_next c ∧
  (∀ id, id ∈ cn_pending c' → id ∈ cn_pending c ∨ allocating c id) ∧
  (due c' ∨ ∀ id, id ∈ cn_pending c' → allocating c id) ∧
  (∀ i m order c1 evs' c2, cn_deferred c' !! i = Some (DrainPending m) → step (EDeferred i order) c' = Some c1 →
     run evs' c1 = Some c2 → cn_pending c1 = ∅ ∧
     ∀ id q, id ∈ cn_pending c' → cn_channels c2 !! id = Some q → owed id m c2 ∨ Failed m ∈ items_of id c2) ∧
  (∀ i d, cn_deferred c' !! i = Some d →
     (∃ order c1, step (EDeferred i order) c' = Some c1) ∨
     ∃ m id rest q, d = Draining m (id :: rest) ∧ cn_channels c' !! id = Some q ∧ RESPONSE_QUEUE ≤ len q) ∧
  ((∀ id, ¬ allocating c id) → ¬ due c' → held c' = [] →
   ∀ t stream id active, cn_tasks c' !! t = Some (Handle stream id active) → ∃ r c1, recv t c' = Some (r, c1)).
Proof.
  intros Hv0 Hve Hv H0 Hc0 Hs Hc H.
  assert (tickets_ok c0) as Ht0.
  { eapply (run_ind tickets_ok); [intros; by eapply tickets_step| |done]. intros n p Hn. cbn in Hn. by rewrite lookup_empty in Hn. }
  assert (owners c') as How.
  { eapply (run_ind owners); [apply owners_step| |done]. eapply owners_step; [|done].
    eapply (run_ind owners); [apply owners_step|exact start_owners|done]. }
  assert (ids_inv c') as Hi.
  { eapply ids_run; [done| |done]. eapply ids_step; [done| |done]. exact (ids_run _ _ _ Hv0 start_ids_inv H0). }
  assert (after_close c c') as [_ H1 H2 H3 H4 H5].
  { eapply (run_ind (after_close c)); [intros; by eapply after_close_step| |done]. split; auto.
    - by eapply tickets_step.
    - left. by eapply closing_due. }
  split_and!; try done.
  - intros i m order c1 evs' c2 Ei Hd Hr. destruct (drain_owes _ _ _ _ _ Hi Ei Hd) as [E Ho]. split; [done|].
    intros id q Hin Hq. assert (told id m c2) as [_ Hto].
    { eapply (run_ind (told id m)); [intros; by eapply told_step| |done]. auto. }
    destruct Hto as [?|[?|?]]; [by left|by right|congruence].
  - intros i d. apply deferred_progress.
  - intros Hno Hnd Hh t stream id active Ht. eapply recv_answers; [done| |done|done].
    destruct H5 as [?|H5]; [done|]. apply set_eq. intros x. split; [|by intros ?%not_elem_of_empty].
    intros Hx. exfalso. apply (Hno x). by apply H5.
Qed.

(** One request waits when the connection is closed; the failure reaches it. *)
Definition closing_run : list event :=
  [EControlQueue 0; EWriter None; EControlDone 0; EDeferred 0 [1]; EDeferred 0 []; EDeferred 0 []].
Definition closed_state : Conn := state_after (open_request 0 ++ [EClose]).
Definition drained_state : Conn := state_after (open_request 0 ++ [EClose] ++ closing_run).

Lemma closed_state_tasks : cn_tasks closed_state = {[ 0%nat := Handle false 1 true ]}.
Proof. vm_compute. reflexivity. Qed.

Lemma drained_state_facts :
  cn_deferred drained_state = [] ∧ cn_waits drained_state = ∅ ∧ held drained_state = [] ∧
  cn_tasks drained_state !! 0%nat = Some (Handle false 1 true).
Proof. vm_compute. done. Qed.

Lemma closed_is_final_witness :
  cn_closed drained_state = true ∧ ∃ r c1, recv 0 drained_state = Some (r, c1).
Proof.
  refine (_ (closed_is_final (open_request 0) (state_after (open_request 0)) EClose closed_state closing_run drained_state
    _ _ _ _ _ _ _ _)).
  - intros (H1 & _ & _ & _ & _ & _ & H6). split; [exact H1|].
    destruct drained_state_facts as (E1 & E2 & E3 & E4). apply (H6) with (stream := false) (id := 1) (active := true); [| |exact E3|exact E4].
    + intros id (t & s & d & f & Ht). rewrite closed_state_tasks in Ht. apply lookup_singleton_Some in Ht as [_ Ht]. discriminate Ht.
    + intros [(m & Hm)|(n & p & Hp)]; [rewrite E1 in Hm; by apply not_elem_of_nil in Hm|rewrite E2 in Hp; by rewrite lookup_empty in Hp].
  - repeat constructor; discriminate.
  - exact I.
  - repeat constructor.
  - vm_compute. reflexivity.
  - vm_compute. reflexivity.
  - vm_compute. reflexivity.
  - vm_compute. reflexivity.
  - vm_compute. reflexivity.
Defined.

(** The task in between can miss the failure: [fail] sets [closed] and drains the table, but
    a task that passed its check of [closed] before that registers its entry afterwards.
    In this run the server closes the connection between the two; the request is then
    written successfully, stays registered on a closed connection whose reader has stopped
    and whose deferred work is done, and its empty channel can only time out. *)
Example request_misses_failure :
  ∃ c, run [EAcquire 0 false 0 0 1000; ELock 0 kind.QUERY 7 zero_nonce (lit "q") 0 1000;
            EReader (Ok None); EDeferred 0 []; EDeferred 0 [];
            ERegister 0 0 1000; EEnqueue 0; EWriter None; EComplete 0] start = Some c ∧
    cn_closed c = true ∧ cn_reader c = Stopped ∧ cn_deferred c = [] ∧
    cn_tasks c !! 0%nat = Some (Handle false 1 true) ∧ 1 ∈ cn_pending c ∧ cn_channels c !! 1 = Some [].
Proof.
  eexists. split; [vm_compute; reflexivity|]. split_and!; try (vm_compute; reflexivity).
Qed.
