(* ===== verification/Outbox.v ===== *)
(** * The outbox (src/src/outbox.rs)

    The persistent send queue and its retry policy.  [serde_json] is a parameter
    (a parser and a printer of the item list); the clock is an argument. *)
From S2P Require Import Prelude RustStr.

Inductive DeliveryState := SQueued | SSending | SDelivered | SFailed.

#[export] Instance DeliveryState_eq_dec : EqDecision DeliveryState.
Proof. solve_decision. Defined.

Record QueueItem := mkItem {
  qi_id : list Z; qi_payload : list Z; qi_state : DeliveryState; qi_attempts : Z;
  qi_next_attempt_at_ms : Z; qi_progress_percent : Z; qi_error : option (list Z)
}.

#[export] Instance QueueItem_eq_dec : EqDecision QueueItem.
Proof. solve_decision. Defined.

Record RetryPolicy := mkPolicy { max_attempts : Z; initial_delay_ms : Z; max_delay_ms : Z }.

(** [RetryPolicy::default]. *)
Definition default_policy : RetryPolicy := mkPolicy 8 1000 (5 * 60 * 1000).

(** [Outbox { items }]. *)
Abbreviation Outbox := (list QueueItem).

(** [QueueItem::new]. *)
Definition queue_item_new (id payload : list Z) : io QueueItem :=
  fail_if (is_empty (trim id) || (256 <? len id) || existsb is_control (chars id))
    with invalid_input (lit "queue item id is invalid");
  Ok (mkItem id payload SQueued 0 0 0 None).

(** [items.iter_mut().find(p)] and a mutation of what it finds. *)
Fixpoint update_first (p : QueueItem → bool) (f : QueueItem → QueueItem) (items : Outbox)
  : option (QueueItem * Outbox) :=
  match items with
  | [] => None
  | i :: t =>
      if p i then Some (i, f i :: t)
      else match update_first p f t with
           | Some (x, t') => Some (x, i :: t')
           | None => None
           end
  end.

Definition has_id (id : list Z) (i : QueueItem) : bool := beq (qi_id i) id.

Definition enqueue (q : Outbox) (i : QueueItem) : io Outbox :=
  fail_if (existsb (has_id (qi_id i)) q) with IoError AlreadyExists (lit "queue item already exists");
  Ok (q ++ [i]).

Definition ready (now_ms : Z) (i : QueueItem) : bool :=
  bool_decide (qi_state i = SQueued) && (qi_next_attempt_at_ms i <=? now_ms).

Definition claim (i : QueueItem) : QueueItem :=
  mkItem (qi_id i) (qi_payload i) SSending (qi_attempts i) (qi_next_attempt_at_ms i)
    (Z.min (qi_progress_percent i) 99) None.

Definition claim_ready (q : Outbox) (now_ms : Z) : option (list Z) * Outbox :=
  match update_first (ready now_ms) claim q with
  | Some (i, q') => (Some (qi_id i), q')
  | None => (None, q)
  end.

(** The operations that find an item by id and return whether they did. *)
Definition update_progress (q : Outbox) (id : list Z) (percent : Z) : bool * Outbox :=
  match update_first (has_id id)
          (λ i, if decide (qi_state i = SSending)
                then mkItem (qi_id i) (qi_payload i) (qi_state i) (qi_attempts i) (qi_next_attempt_at_ms i)
                       (Z.min percent 99) (qi_error i)
                else i) q with
  | Some (i, q') => (bool_decide (qi_state i = SSending), q')
  | None => (false, q)
  end.

Definition delivered (i : QueueItem) : QueueItem :=
  mkItem (qi_id i) (qi_payload i) SDelivered (qi_attempts i) (qi_next_attempt_at_ms i) 100 None.

Definition mark_delivered (q : Outbox) (id : list Z) : bool * Outbox :=
  match update_first (has_id id) delivered q with
  | Some (_, q') => (true, q')
  | None => (false, q)
  end.

(** The delay before the next attempt, after [attempts] failures. *)
Definition retry_delay (policy : RetryPolicy) (attempts : Z) : Z :=
  let exponent := Z.min (saturating_sub32 attempts 1) 31 in
  Z.min (saturating_mul64 (initial_delay_ms policy) (Z.shiftl 1 exponent)) (max_delay_ms policy).

Definition failed (error : list Z) (policy : RetryPolicy) (now_ms : Z) (i : QueueItem) : QueueItem :=
  let attempts := saturating_add32 (qi_attempts i) 1 in
  if max_attempts policy <=? attempts
  then mkItem (qi_id i) (qi_payload i) SFailed attempts 0 (qi_progress_percent i) (Some error)
  else mkItem (qi_id i) (qi_payload i) SQueued attempts
         (saturating_add64 now_ms (retry_delay policy attempts)) (qi_progress_percent i) (Some error).

Definition mark_failed (q : Outbox) (id error : list Z) (policy : RetryPolicy) (now_ms : Z) : bool * Outbox :=
  match update_first (has_id id) (failed error policy now_ms) q with
  | Some (_, q') => (true, q')
  | None => (false, q)
  end.

Definition retry_failed (q : Outbox) (id : list Z) : bool * Outbox :=
  match update_first (has_id id)
          (λ i, if decide (qi_state i = SFailed)
                then mkItem (qi_id i) (qi_payload i) SQueued (qi_attempts i) 0 (qi_progress_percent i) None
                else i) q with
  | Some (i, q') => (bool_decide (qi_state i = SFailed), q')
  | None => (false, q)
  end.

Definition remove_delivered (q : Outbox) : Outbox :=
  filter (λ i, qi_state i ≠ SDelivered) q.

Fixpoint validate (q : Outbox) : io unit :=
  match q with
  | [] => Ok tt
  | i :: t =>
      fail_if (is_empty (trim (qi_id i)) || (256 <? len (qi_id i)))
        with invalid_input (lit "outbox contains invalid item id");
      fail_if (100 <? qi_progress_percent i) with invalid_input (lit "outbox contains invalid progress");
      validate t
  end.

(** [serde_json::from_str] and [to_string] for the queue. *)
Class OutboxJson := {
  json_parse : list Z → io Outbox;
  json_print : Outbox → io (list Z)
}.

Definition from_json `{OutboxJson} (raw : list Z) : io Outbox :=
  let? q := map_err (λ e, invalid_input (lit "invalid outbox JSON: " ++ emsg e)) (json_parse raw) in
  let? _ := validate q in Ok q.

Definition to_json `{OutboxJson} (q : Outbox) : io (list Z) :=
  map_err (λ e, IoError OtherKind (lit "cannot encode outbox: " ++ emsg e)) (json_print q).

(** ** Commands, for statements about sequences of operations *)
Inductive command :=
| CEnqueue (i : QueueItem)
| CClaim (now_ms : Z)
| CProgress (id : list Z) (percent : Z)
| CDelivered (id : list Z)
| CFailed (id error : list Z) (policy : RetryPolicy) (now_ms : Z)
| CRetry (id : list Z)
| CPrune.

Definition apply (c : command) (q : Outbox) : Outbox :=
  match c with
  | CEnqueue i => match enqueue q i with Ok q' => q' | Err _ => q end
  | CClaim now => (claim_ready q now).2
  | CProgress id percent => (update_progress q id percent).2
  | CDelivered id => (mark_delivered q id).2
  | CFailed id error policy now => (mark_failed q id error policy now).2
  | CRetry id => (retry_failed q id).2
  | CPrune => remove_delivered q
  end.

(** ** Invariant *)

Record item_ok (i : QueueItem) : Prop := {
  io_id : (is_empty (trim (qi_id i)) || (256 <? len (qi_id i))) = false;
  io_progress : 0 ≤ qi_progress_percent i ≤ 100;
  io_attempts : is_u32 (qi_attempts i);
  io_next : is_u64 (qi_next_attempt_at_ms i);
  io_sending : qi_state i = SSending → qi_progress_percent i ≤ 99;
  io_delivered : qi_state i = SDelivered → qi_progress_percent i = 100 ∧ qi_error i = None
}.

Record outbox_ok (q : Outbox) : Prop := {
  oo_items : Forall item_ok q;
  oo_ids : NoDup (map qi_id q)
}.

(** ** Lemmas *)

Lemma has_id_spec id i : has_id id i = true ↔ qi_id i = id.
Proof. unfold has_id, beq. by rewrite bool_decide_eq_true. Qed.

(** What [update_first] finds and leaves. *)
Lemma update_first_some p f q i q' :
  update_first p f q = Some (i, q') →
  ∃ a b, q = a ++ i :: b ∧ q' = a ++ f i :: b ∧ p i = true ∧ Forall (λ x, p x = false) a.
Proof.
  revert q'. induction q as [|x q IH]; intros q' H; cbn in H; [done|].
  destruct (p x) eqn:E; simplify_eq.
  - exists [], q. auto.
  - destruct (update_first p f q) as [[y t]|] eqn:E2; [|done]. simplify_eq.
    destruct (IH t eq_refl) as (a & b & -> & -> & Hp & Ha). exists (x :: a), b. auto.
Qed.

Lemma update_first_none p f q : update_first p f q = None ↔ Forall (λ x, p x = false) q.
Proof.
  induction q as [|x q IH]; cbn; [split; auto|]. destruct (p x) eqn:E.
  - split; [done|]. intros H. inversion H. congruence.
  - destruct (update_first p f q) as [[y t]|] eqn:E2; split; intros H; try done.
    + inversion H; subst. by apply IH in H3.
    + constructor; [done|by apply IH].
Qed.

(** An update that keeps ids and item invariants keeps the queue's. *)
Lemma update_first_ok p f q i q' :
  (∀ x, qi_id (f x) = qi_id x) → (∀ x, item_ok x → item_ok (f x)) → outbox_ok q →
  update_first p f q = Some (i, q') → outbox_ok q' ∧ map qi_id q' = map qi_id q.
Proof.
  intros Hid Hok [Hi Hn] H. apply update_first_some in H as (a & b & -> & -> & _ & _).
  assert (map qi_id (a ++ f i :: b) = map qi_id (a ++ i :: b)) as E by (rewrite !map_app; cbn; by rewrite Hid).
  split; [|done]. split; [|by rewrite E].
  apply Forall_app in Hi as [Ha Hb]. inversion Hb; subst. apply Forall_app. split; [done|]. constructor; auto.
Qed.

Lemma claim_ok i : item_ok i → item_ok (claim i).
Proof. intros [? ? ? ? ? ?]. constructor; cbn; auto; try lia. done. Qed.
Lemma delivered_ok i : item_ok i → item_ok (delivered i).
Proof. intros [? ? ? ? ? ?]. constructor; cbn; auto; try lia. done. Qed.

(** Progress below 100 unless the item was delivered; a failure keeps the progress. *)
Lemma failed_ok error policy now i :
  0 ≤ now → 0 ≤ initial_delay_ms policy → 0 ≤ max_delay_ms policy → item_ok i → item_ok (failed error policy now i).
Proof.
  intros Hn Hd Hm [? ? Ha ? ? ?]. unfold failed.
  assert (is_u32 (saturating_add32 (qi_attempts i) 1)) by (unfold saturating_add32; widths; lia).
  assert (0 ≤ retry_delay policy (saturating_add32 (qi_attempts i) 1)).
  { unfold retry_delay, saturating_mul64. apply Z.min_glb; [|lia]. apply Z.min_glb; [|widths; lia].
    apply Z.mul_nonneg_nonneg; [lia|]. rewrite Z.shiftl_nonneg. lia. }
  destruct (_ <=? _); constructor; cbn; auto; try done; try (widths; lia).
  unfold saturating_add64. widths. lia.
Qed.

(** The commands of a run: counters within their Rust types, and well-formed items.
    [enqueue] does not validate its item (only [from_json] does), so an item that is
    not well formed would be stored as it is; [QueueItem::new] makes well-formed ones. *)
Definition command_ok (c : command) : Prop :=
  match c with
  | CEnqueue i => item_ok i
  | CProgress _ percent => is_u8 percent
  | CFailed _ _ policy now => 0 ≤ now ∧ 0 ≤ initial_delay_ms policy ∧ 0 ≤ max_delay_ms policy
  | _ => True
  end.

Lemma outbox_ok_update p f q :
  (∀ x, qi_id (f x) = qi_id x) → (∀ x, item_ok x → item_ok (f x)) → outbox_ok q →
  outbox_ok (match update_first p f q with Some (_, q') => q' | None => q end).
Proof.
  intros Hid Hok Hq. destruct (update_first p f q) as [[i q']|] eqn:E; [|done].
  by apply (update_first_ok p f q i) in E as [? _].
Qed.

Lemma apply_ok c q : command_ok c → outbox_ok q → outbox_ok (apply c q).
Proof.
  intros Hc Hq. destruct c; cbn [apply command_ok] in *.
  - unfold enqueue. destruct (existsb _ _) eqn:E; [done|]. destruct Hq as [Hi Hn]. split.
    + apply Forall_app. auto.
    + rewrite map_app. apply list.NoDup_app. split_and!; [done| |by_vm || (repeat constructor; set_solver)].
      intros x Hx Hx'. cbn in Hx'. apply list_elem_of_singleton in Hx'. subst x.
      apply list_elem_of_fmap in Hx as (y & Hy & Hin). apply list_elem_of_In in Hin.
      assert (existsb (has_id (qi_id i)) q = true) as Ht; [|congruence].
      apply existsb_exists. exists y. split; [done|]. by apply has_id_spec.
  - pose proof (outbox_ok_update (ready now_ms) claim q (λ _, eq_refl) claim_ok Hq) as H.
    unfold claim_ready. by destruct (update_first _ _ _) as [[]|].
  - unfold update_progress. match goal with |- context [update_first _ ?f _] =>
      pose proof (outbox_ok_update (has_id id) f q) as H end.
    destruct (update_first _ _ _) as [[]|]; [|done]. apply H; [by intros; case_decide| |done].
    intros x Hx. case_decide as Hs; [|done]. destruct Hx. widths. constructor; cbn; auto; try lia. by rewrite Hs.
  - pose proof (outbox_ok_update (has_id id) delivered q (λ _, eq_refl) delivered_ok Hq) as H.
    unfold mark_delivered. by destruct (update_first _ _ _) as [[]|].
  - destruct Hc as (H1 & H2 & H3). pose proof (outbox_ok_update (has_id id) (failed error policy now_ms) q) as H.
    unfold mark_failed. destruct (update_first _ _ _) as [[]|]; [|done].
    apply H; [by intros; unfold failed; destruct (_ <=? _)| |done]. intros x Hx. by apply failed_ok.
  - unfold retry_failed. match goal with |- context [update_first _ ?f _] =>
      pose proof (outbox_ok_update (has_id id) f q) as H end.
    destruct (update_first _ _ _) as [[]|]; [|done]. apply H; [by intros; case_decide| |done].
    intros x Hx. case_decide; [|done]. destruct Hx. constructor; cbn; auto; try (widths; lia); done.
  - destruct Hq as [Hi Hn]. unfold remove_delivered. split.
    + apply list.Forall_forall. intros x Hx. apply list_elem_of_filter in Hx as [_ Hx].
      rewrite list.Forall_forall in Hi. auto.
    + clear Hi. induction q as [|i q IH]; [constructor|]. inversion Hn as [|? ? Hnin Hq]; subst.
      rewrite filter_cons. case_decide; [|auto]. constructor; [|auto].
      intros Hx. apply Hnin. apply list_elem_of_fmap in Hx as (y & Hy & Hx).
      apply list_elem_of_filter in Hx as [_ Hx]. apply list_elem_of_fmap. eauto.
Qed.

(** C40: the queue stays well formed under every sequence of operations: ids
    are unique and valid, attempt counts and times fit their types, progress is
    at most 100, below 100 while sending, and exactly 100 without an error once
    delivered. *)
Theorem outbox_invariant cs q :
  Forall command_ok cs → outbox_ok q → outbox_ok (fold_left (λ q c, apply c q) cs q).
Proof. intros Hcs. revert q. induction Hcs; cbn; intros; auto using apply_ok. Qed.

Definition sample_item : QueueItem := mkItem (lit "m1") (lit "payload") SQueued 0 0 0 None.

Lemma sample_item_ok : item_ok sample_item.
Proof. constructor; cbn; widths; try lia; try done. Qed.

Lemma outbox_invariant_witness :
  outbox_ok (fold_left (λ q c, apply c q)
    [CEnqueue sample_item; CClaim 5; CProgress (lit "m1") 40; CFailed (lit "m1") (lit "offline") default_policy 10] []).
Proof.
  apply (outbox_invariant [CEnqueue sample_item; CClaim 5; CProgress (lit "m1") 40;
    CFailed (lit "m1") (lit "offline") default_policy 10] []).
  - constructor; [exact sample_item_ok|]. do 3 (constructor; [vm_compute; intuition congruence|]). constructor.
  - split; constructor.
Defined.

(** ** Claiming *)

(** An item is handed out once: after [claim_ready] returned an id, the
    item is the first ready one, it is marked as being sent, everything else is
    unchanged, and no claim at any later time returns that id again before
    another operation changes the item. *)
Theorem claim_exclusive q now id q' :
  NoDup (map qi_id q) → claim_ready q now = (Some id, q') →
  ∃ a i b, q = a ++ i :: b ∧ q' = a ++ claim i :: b ∧ qi_id i = id ∧ ready now i = true ∧
    Forall (λ x, ready now x = false) a ∧
    (∀ now' r, (claim_ready q' now').1 = Some r → r ≠ id).
Proof.
  intros Hn H. unfold claim_ready in H.
  destruct (update_first (ready now) claim q) as [[i q1]|] eqn:E; simplify_eq.
  apply update_first_some in E as (a & b & -> & -> & Hr & Ha). exists a, i, b. split_and!; try done.
  intros now' r Hr'. unfold claim_ready in Hr'.
  destruct (update_first (ready now') claim (a ++ claim i :: b)) as [[j q2]|] eqn:E2; [|done]. cbn in Hr'. simplify_eq.
  apply update_first_some in E2 as (a' & b' & Eq & _ & Hrj & _). intros Hid.
  assert (j ∈ a ++ claim i :: b) as Hj by (rewrite Eq; set_solver).
  rewrite map_app in Hn. cbn in Hn. apply list.NoDup_app in Hn as (_ & Hd & Hb').
  apply elem_of_app in Hj as [Hj|Hj].
  - apply (Hd (qi_id i)); [|set_solver]. rewrite <- Hid. by apply list_elem_of_fmap_2.
  - apply elem_of_cons in Hj as [->|Hj]; [by unfold ready in Hrj|].
    inversion Hb' as [|? ? Hnin _]; subst. apply Hnin. rewrite <- Hid. by apply list_elem_of_fmap_2.
Qed.

Lemma claim_exclusive_witness :
  ∃ a i b, [sample_item] = a ++ i :: b ∧ [claim sample_item] = a ++ claim i :: b ∧ qi_id i = lit "m1" ∧
    ready 5 i = true ∧ Forall (λ x, ready 5 x = false) a ∧
    (∀ now' r, (claim_ready [claim sample_item] now').1 = Some r → r ≠ lit "m1").
Proof.
  apply (claim_exclusive [sample_item] 5 (lit "m1") [claim sample_item]).
  - by_vm.
  - vm_compute. reflexivity.
Defined.

(** ** Retrying *)

(** One attempt that fails. *)
Definition failed_attempt (error : list Z) (policy : RetryPolicy) (now : Z) (i : QueueItem) : QueueItem :=
  failed error policy now (claim i).

Lemma failed_attempts_count error policy now n i :
  0 ≤ qi_attempts i → qi_attempts i + Z.of_nat n ≤ u32_max →
  qi_attempts (Nat.iter n (failed_attempt error policy now) i) = qi_attempts i + Z.of_nat n.
Proof.
  intros H0. induction n as [|n IH]; intros Hn; [cbn; lia|]. rewrite Nat.iter_succ.
  specialize (IH ltac:(lia)). set (x := Nat.iter n _ i) in *. clearbody x. unfold failed_attempt, failed.
  cbn [claim qi_attempts]. rewrite IH. unfold saturating_add32. destruct (_ <=? _); cbn; lia.
Qed.

(** Retries end: an item that keeps failing is queued again after each of
    the first [max_attempts - 1] failures and gives up at the [max_attempts]-th;
    each time it is queued again, the wait is the exponential backoff, never
    longer than [max_delay_ms]. *)
Theorem retries_terminate error policy now n i :
  qi_attempts i = 0 → 1 ≤ max_attempts policy ≤ u32_max → 1 ≤ Z.of_nat n ≤ max_attempts policy →
  let j := Nat.iter n (failed_attempt error policy now) i in
  qi_state j = (if Z.of_nat n <? max_attempts policy then SQueued else SFailed) ∧
  qi_attempts j = Z.of_nat n ∧ qi_error j = Some error ∧
  (Z.of_nat n < max_attempts policy →
   qi_next_attempt_at_ms j = saturating_add64 now (retry_delay policy (Z.of_nat n)) ∧
   retry_delay policy (Z.of_nat n) ≤ max_delay_ms policy).
Proof.
  intros Ha Hm Hn j. destruct n as [|n]; [lia|].
  assert (qi_attempts (Nat.iter n (failed_attempt error policy now) i) = Z.of_nat n) as Hc.
  { rewrite failed_attempts_count; lia. }
  subst j. rewrite Nat.iter_succ. set (x := Nat.iter n _ i) in *. clearbody x.
  unfold failed_attempt, failed. cbn [claim qi_attempts]. rewrite Hc. unfold saturating_add32. rewrite Z.min_l by lia.
  replace (Z.of_nat n + 1) with (Z.of_nat (S n)) by lia.
  destruct (Z.leb_spec (max_attempts policy) (Z.of_nat (S n))); zbool; cbn; split_and!; try done; try lia.
  intros _. split; [done|]. unfold retry_delay. lia.
Qed.

Lemma retries_terminate_witness :
  qi_state (Nat.iter 8 (failed_attempt (lit "offline") default_policy 100) sample_item) = SFailed.
Proof.
  refine (proj1 (retries_terminate (lit "offline") default_policy 100 8 sample_item _ _ _)).
  - reflexivity.
  - vm_compute. split; congruence.
  - vm_compute. split; congruence.
Defined.

(** The backoff doubles from [initial_delay_ms] until it reaches
    [max_delay_ms], and stays there without overflow. *)
Theorem retry_delay_spec policy attempts :
  1 ≤ attempts ≤ u32_max → 0 ≤ initial_delay_ms policy → is_u64 (max_delay_ms policy) →
  retry_delay policy attempts = Z.min (initial_delay_ms policy * 2 ^ Z.min (attempts - 1) 31) (max_delay_ms policy) ∧
  (attempts < u32_max → retry_delay policy attempts ≤ retry_delay policy (attempts + 1)).
Proof.
  intros Ha Hi Hm. assert (∀ k, 1 ≤ k ≤ u32_max →
    retry_delay policy k = Z.min (initial_delay_ms policy * 2 ^ Z.min (k - 1) 31) (max_delay_ms policy)) as H.
  { intros k Hk. unfold retry_delay, saturating_sub32, saturating_mul64. rewrite Z.max_l by lia.
    rewrite Z.shiftl_mul_pow2, Z.mul_1_l by lia. widths. lia. }
  split; [by apply H|]. intros Hlt. rewrite !H by lia. apply Z.min_le_compat_r.
  apply Z.mul_le_mono_nonneg_l; [lia|]. apply Z.pow_le_mono_r; lia.
Qed.

Lemma retry_delay_spec_witness :
  retry_delay default_policy 3 = 4000.
Proof.
  refine (proj1 (retry_delay_spec default_policy 3 _ _ _)); vm_compute; try split; congruence.
Defined.

(** An item saved while it was being sent is not picked up again: [validate]
    accepts it, but no claim at any time returns it, a manual retry refuses it
    and pruning keeps it, so after a restart only the code that sent it can
    release it. *)
Theorem sending_item_not_reclaimed i now :
  item_ok i → qi_state i = SSending →
  validate [i] = Ok tt ∧ claim_ready [i] now = (None, [i]) ∧
  retry_failed [i] (qi_id i) = (false, [i]) ∧ remove_delivered [i] = [i].
Proof.
  intros [Hid Hp _ _ _ _] Hs. split_and!.
  - cbn. rewrite Hid. by rewrite (proj2 (Z.ltb_ge _ _)) by lia.
  - unfold claim_ready, ready. cbn. by rewrite Hs.
  - unfold retry_failed. cbn. rewrite (proj2 (has_id_spec (qi_id i) i) eq_refl). by rewrite Hs.
  - unfold remove_delivered. rewrite filter_cons_True by (by rewrite Hs). done.
Qed.

Lemma sending_item_not_reclaimed_witness :
  claim_ready [claim sample_item] 1000 = (None, [claim sample_item]).
Proof.
  refine (proj1 (proj2 (sending_item_not_reclaimed (claim sample_item) 1000 _ eq_refl))).
  apply claim_ok, sample_item_ok.
Defined.
