(* ===== verification/Codec.v ===== *)
(** * Text codecs (src/src/lib.rs, src/src/m5oh.rs)

    Base64 (the lenient decoder of configuration values and the URL-safe encoder
    of the HTTP transport), percent-encoding and query strings, and hexadecimal. *)
From S2P Require Import Prelude RustStr.

Definition base64_value (byte : Z) : io Z :=
  if in_range 65 90 byte then Ok (byte - 65)
  else if in_range 97 122 byte then Ok (byte - 97 + 26)
  else if in_range 48 57 byte then Ok (byte - 48 + 52)
  else if (byte =? 43) || (byte =? 45) then Ok 62
  else if (byte =? 47) || (byte =? 95) then Ok 63
  else Err (invalid_input (lit "invalid base64 character")).

(** One group of four characters. *)
Definition decode_quad (c0 c1 c2 c3 : Z) : io (list Z) :=
  let? a := base64_value c0 in
  let? b := base64_value c1 in
  let c_pad := c2 =? 61 in
  let d_pad := c3 =? 61 in
  fail_if (c_pad && negb d_pad) with invalid_input (lit "invalid base64 padding");
  let? c := (if c_pad then Ok 0 else base64_value c2) in
  let? d := (if d_pad then Ok 0 else base64_value c3) in
  Ok ([Z.lor (as_u8 (Z.shiftl a 2)) (Z.shiftr b 4)]
      ++ (if c_pad then [] else [Z.lor (as_u8 (Z.shiftl b 4)) (Z.shiftr c 2)])
      ++ (if d_pad then [] else [Z.lor (as_u8 (Z.shiftl c 6)) d])).

(** [for chunk in clean.chunks_exact(4)]. *)
Fixpoint decode_quads (l : list Z) : io (list Z) :=
  match l with
  | c0 :: c1 :: c2 :: c3 :: t =>
      let? out := decode_quad c0 c1 c2 c3 in
      let? rest := decode_quads t in
      Ok (out ++ rest)
  | _ => Ok []
  end.

(** [while clean.len() % 4 != 0 { clean.push(b'=') }]. *)
Definition pad_base64 (clean : list Z) : list Z :=
  clean ++ replicate (Z.to_nat ((4 - len clean mod 4) mod 4)) 61.

Definition decode_base64 (input : list Z) : io (list Z) :=
  let clean := List.filter (λ b, negb (is_ascii_ws b)) input in
  fail_if (is_empty clean) with invalid_input (lit "empty base64 value");
  fail_if (len clean mod 4 =? 1) with invalid_input (lit "invalid base64 length");
  decode_quads (pad_base64 clean).

Definition URL_ALPHABET : list Z := lit "ABCDEFGHIJKLMNOPQRSTUVWXYZabcdefghijklmnopqrstuvwxyz0123456789-_".

Definition url_char (v : Z) : Z := nth (Z.to_nat v) URL_ALPHABET 0.

(** The four indices of a chunk of three bytes. *)
Definition idx0 (a : Z) : Z := Z.shiftr a 2.
Definition idx1 (a b : Z) : Z := Z.lor (as_u8 (Z.shiftl (Z.land a 3) 4)) (Z.shiftr b 4).
Definition idx2 (b c : Z) : Z := Z.lor (as_u8 (Z.shiftl (Z.land b 15) 2)) (Z.shiftr c 6).
Definition idx3 (c : Z) : Z := Z.land c 63.

(** [for chunk in input.chunks(3)]. *)
Fixpoint base64url_no_pad (input : list Z) : list Z :=
  match input with
  | [] => []
  | [a] => [url_char (idx0 a); url_char (idx1 a 0)]
  | [a; b] => [url_char (idx0 a); url_char (idx1 a b); url_char (idx2 b 0)]
  | a :: b :: c :: t =>
      [url_char (idx0 a); url_char (idx1 a b); url_char (idx2 b c); url_char (idx3 c)] ++ base64url_no_pad t
  end.

Definition unreserved (b : Z) : bool :=
  is_ascii_alnum b || (b =? 45) || (b =? 46) || (b =? 95) || (b =? 126).

Definition percent_byte (b : Z) : list Z :=
  if unreserved b then [b] else [37; hex_digit true (Z.shiftr b 4); hex_digit true (Z.land b 15)].

Definition percent_encode (value : list Z) : list Z := concat (map percent_byte value).

(** [QueryBuilder { value }] and its methods. *)
Abbreviation QueryBuilder := (list Z) (only parsing).

Definition query_push (q key value : list Z) : list Z :=
  (if is_empty q then q else q ++ [38]) ++ percent_encode key ++ [61] ++ percent_encode value.
Definition query_push_i64 (q key : list Z) (value : Z) : list Z := query_push q key (dec value).
Definition query_push_u64 (q key : list Z) (value : Z) : list Z := query_push q key (dec value).
Definition query_push_usize (q key : list Z) (value : Z) : list Z := query_push q key (dec value).

(** [media_hex]. *)
Definition media_hex (bytes : list Z) : list Z := concat (map hex02 bytes).

(** ** Reference decoders *)

Definition hex_value (c : Z) : option Z :=
  if is_ascii_digit c then Some (c - 48)
  else if in_range 65 70 c then Some (c - 55)
  else if in_range 97 102 c then Some (c - 87)
  else None.

Fixpoint percent_decode (l : list Z) : option (list Z) :=
  match l with
  | [] => Some []
  | 37 :: h :: k :: t =>
      match hex_value h, hex_value k, percent_decode t with
      | Some x, Some y, Some r => Some (16 * x + y :: r)
      | _, _, _ => None
      end
  | b :: t => match percent_decode t with Some r => Some (b :: r) | None => None end
  end.

(** A query string back to its pairs. *)
Definition parse_pair (l : list Z) : option (list Z * list Z) :=
  match split_once 61 l with
  | Some (k, v) => match percent_decode k, percent_decode v with
                   | Some k', Some v' => Some (k', v')
                   | _, _ => None
                   end
  | None => None
  end.

(** ** Base64 *)

Lemma forall_u8_2 (p : Z → Z → bool) :
  forallb (λ a, forallb (p a) (map Z.of_nat (List.seq 0 256))) (map Z.of_nat (List.seq 0 256)) = true →
  ∀ a b, is_u8 a → is_u8 b → p a b = true.
Proof.
  intros H a b Ha Hb. pose proof (forall_u8 _ H a Ha) as H1. cbn beta in H1. by apply (forall_u8 (p a)).
Qed.

(** An index of the alphabet. *)
Definition good_index (v : Z) : bool :=
  (0 <=? v) && (v <=? 63) && bool_decide (base64_value (url_char v) = Ok v)
  && negb (is_ascii_ws (url_char v)) && negb (url_char v =? 61).

Lemma idx_good a b : is_u8 a → is_u8 b →
  good_index (idx0 a) = true ∧ good_index (idx1 a b) = true ∧ good_index (idx2 a b) = true ∧ good_index (idx3 a) = true.
Proof.
  intros Ha Hb.
  assert (good_index (idx0 a) && good_index (idx1 a b) && good_index (idx2 a b) && good_index (idx3 a) = true) as H.
  { revert a b Ha Hb. apply (forall_u8_2 (λ a b,
      good_index (idx0 a) && good_index (idx1 a b) && good_index (idx2 a b) && good_index (idx3 a))).
    vm_compute. reflexivity. }
  to_prop. auto.
Qed.

Lemma idx_join a b : is_u8 a → is_u8 b →
  Z.lor (as_u8 (Z.shiftl (idx0 a) 2)) (Z.shiftr (idx1 a b) 4) = a ∧
  Z.lor (as_u8 (Z.shiftl (idx1 a b) 4)) (Z.shiftr (idx2 b a) 2) = b ∧
  Z.lor (as_u8 (Z.shiftl (idx2 a b) 6)) (idx3 b) = b.
Proof.
  intros Ha Hb.
  assert ((Z.lor (as_u8 (Z.shiftl (idx0 a) 2)) (Z.shiftr (idx1 a b) 4) =? a)
    && (Z.lor (as_u8 (Z.shiftl (idx1 a b) 4)) (Z.shiftr (idx2 b a) 2) =? b)
    && (Z.lor (as_u8 (Z.shiftl (idx2 a b) 6)) (idx3 b) =? b) = true) as H.
  { revert a b Ha Hb. apply (forall_u8_2 (λ a b, (Z.lor (as_u8 (Z.shiftl (idx0 a) 2)) (Z.shiftr (idx1 a b) 4) =? a)
    && (Z.lor (as_u8 (Z.shiftl (idx1 a b) 4)) (Z.shiftr (idx2 b a) 2) =? b)
    && (Z.lor (as_u8 (Z.shiftl (idx2 a b) 6)) (idx3 b) =? b))). vm_compute. reflexivity. }
  to_prop. rewrite !Z.eqb_eq in *. auto.
Qed.

(** The middle byte does not depend on its neighbours. *)
Lemma idx_middle a b c : is_u8 a → is_u8 b → is_u8 c →
  Z.lor (as_u8 (Z.shiftl (idx1 a b) 4)) (Z.shiftr (idx2 b c) 2) = b.
Proof.
  intros Ha Hb Hc.
  assert (as_u8 (Z.shiftl (idx1 a b) 4) = as_u8 (Z.shiftl (idx1 0 b) 4)) as ->.
  { apply Z.eqb_eq. revert a b Ha Hb. apply (forall_u8_2 (λ a b,
      as_u8 (Z.shiftl (idx1 a b) 4) =? as_u8 (Z.shiftl (idx1 0 b) 4))). vm_compute. reflexivity. }
  assert (Z.shiftr (idx2 b c) 2 = Z.shiftr (idx2 b 0) 2) as ->.
  { apply Z.eqb_eq. revert b c Hb Hc. apply (forall_u8_2 (λ b c,
      Z.shiftr (idx2 b c) 2 =? Z.shiftr (idx2 b 0) 2)). vm_compute. reflexivity. }
  apply (idx_join 0 b); [widths; lia|done].
Qed.

Lemma good_index_value v : good_index v = true →
  base64_value (url_char v) = Ok v ∧ is_ascii_ws (url_char v) = false ∧ (url_char v =? 61) = false.
Proof. unfold good_index. intros H. to_prop. auto. Qed.

Lemma chunk3_ind (P : list Z → Prop) :
  P [] → (∀ a, P [a]) → (∀ a b, P [a; b]) → (∀ a b c t, P t → P (a :: b :: c :: t)) → ∀ l, P l.
Proof.
  intros H0 H1 H2 H3 l. remember (length l) as n eqn:Hn. revert l Hn.
  induction n as [n IH] using lt_wf_ind. intros [|a [|b [|c t]]] ->; auto.
  apply H3. apply (IH (length t)); [simpl; lia|done].
Qed.

Lemma pad_base64_quad c0 c1 c2 c3 l :
  pad_base64 (c0 :: c1 :: c2 :: c3 :: l) = c0 :: c1 :: c2 :: c3 :: pad_base64 l.
Proof.
  unfold pad_base64. cbn [app]. do 4 f_equal. f_equal. f_equal. f_equal. f_equal.
  rewrite !len_cons. replace (1 + (1 + (1 + (1 + len l)))) with (len l + 1 * 4) by lia.
  by rewrite Z_mod_plus_full.
Qed.

(** Decoding one group whose indices are good. *)
Lemma decode_quad_good i0 i1 i2 i3 :
  good_index i0 = true → good_index i1 = true → good_index i2 = true → good_index i3 = true →
  decode_quad (url_char i0) (url_char i1) (url_char i2) (url_char i3) =
    Ok [Z.lor (as_u8 (Z.shiftl i0 2)) (Z.shiftr i1 4); Z.lor (as_u8 (Z.shiftl i1 4)) (Z.shiftr i2 2);
        Z.lor (as_u8 (Z.shiftl i2 6)) i3].
Proof.
  intros H0 H1 H2 H3. apply good_index_value in H0 as (E0 & _ & _), H1 as (E1 & _ & _),
    H2 as (E2 & _ & N2), H3 as (E3 & _ & N3).
  unfold decode_quad. by rewrite E0, E1, N2, N3, E2, E3.
Qed.

Lemma decode_encode_quads bs : is_bytes bs → decode_quads (pad_base64 (base64url_no_pad bs)) = Ok bs.
Proof.
  assert (is_u8 0) as H0 by (widths; lia).
  induction bs as [|a|a b|a b c t IH] using chunk3_ind; intros Hb; [done| | |].
  - inversion Hb; subst. destruct (idx_good a 0) as (G0 & G1 & _ & _); [done..|].
    apply good_index_value in G0 as (E0 & _ & _), G1 as (E1 & _ & _).
    cbn [base64url_no_pad]. unfold pad_base64. cbn [len length Z.of_nat Z.modulo app].
    change (Z.to_nat ((4 - len [url_char (idx0 a); url_char (idx1 a 0)] mod 4) mod 4)) with 2%nat.
    cbn [replicate decode_quads]. unfold decode_quad. rewrite E0, E1. cbn.
    destruct (idx_join a 0) as (-> & _ & _); done.
  - inversion Hb as [|? ? Ha Hb']; subst. inversion Hb'; subst.
    destruct (idx_good a b) as (G0 & G1 & _ & _); [done..|]. destruct (idx_good b 0) as (_ & _ & G2 & _); [done..|].
    apply good_index_value in G0 as (E0 & _ & _), G1 as (E1 & _ & _), G2 as (E2 & _ & N2).
    cbn [base64url_no_pad]. unfold pad_base64.
    change (Z.to_nat ((4 - len [url_char (idx0 a); url_char (idx1 a b); url_char (idx2 b 0)] mod 4) mod 4)) with 1%nat.
    cbn [replicate decode_quads app]. unfold decode_quad. rewrite E0, E1, N2, E2. cbn.
    destruct (idx_join a b) as (-> & _ & _); [done..|]. by rewrite idx_middle.
  - inversion Hb as [|? ? Ha Hb']; subst. inversion Hb' as [|? ? Hb2 Hc']; subst. inversion Hc' as [|? ? Hc Ht]; subst.
    destruct (idx_good a b) as (G0 & G1 & _ & _); [done..|]. destruct (idx_good b c) as (_ & _ & G2 & _); [done..|].
    destruct (idx_good c 0) as (_ & _ & _ & G3); [done..|].
    cbn [base64url_no_pad]. change ([?x; ?y; ?z; ?w] ++ ?l) with (x :: y :: z :: w :: l).
    rewrite pad_base64_quad. cbn [decode_quads]. rewrite decode_quad_good, IH by done.
    destruct (idx_join a b) as (-> & _ & _); [done..|]. destruct (idx_join b c) as (_ & _ & ->); [done..|].
    by rewrite idx_middle.
Qed.

Lemma encoded_no_ws bs : is_bytes bs →
  List.filter (λ b, negb (is_ascii_ws b)) (base64url_no_pad bs) = base64url_no_pad bs ∧
  len (base64url_no_pad bs) = div_ceil (4 * len bs) 3.
Proof.
  assert (is_u8 0) as H0 by (widths; lia). unfold div_ceil.
  induction bs as [|a|a b|a b c t IH] using chunk3_ind; intros Hb; [done| | |].
  - inversion Hb; subst. destruct (idx_good a 0) as (G0 & G1 & _ & _); [done..|].
    apply good_index_value in G0 as (_ & W0 & _), G1 as (_ & W1 & _). cbn. by rewrite W0, W1.
  - inversion Hb as [|? ? Ha Hb']; subst. inversion Hb'; subst.
    destruct (idx_good a b) as (G0 & G1 & _ & _); [done..|]. destruct (idx_good b 0) as (_ & _ & G2 & _); [done..|].
    apply good_index_value in G0 as (_ & W0 & _), G1 as (_ & W1 & _), G2 as (_ & W2 & _). cbn. by rewrite W0, W1, W2.
  - inversion Hb as [|? ? Ha Hb']; subst. inversion Hb' as [|? ? Hb2 Hc']; subst. inversion Hc' as [|? ? Hc Ht]; subst.
    destruct (idx_good a b) as (G0 & G1 & _ & _); [done..|]. destruct (idx_good b c) as (_ & _ & G2 & _); [done..|].
    destruct (idx_good c 0) as (_ & _ & _ & G3); [done..|].
    apply good_index_value in G0 as (_ & W0 & _), G1 as (_ & W1 & _), G2 as (_ & W2 & _), G3 as (_ & W3 & _).
    destruct (IH Ht) as [IHf IHl].
    split; [cbn; rewrite W0, W1, W2, W3; cbn; by rewrite IHf|].
    cbn [base64url_no_pad app]. rewrite !len_cons, IHl.
    replace (4 * (1 + (1 + (1 + len t))) + 3 - 1) with (4 * len t + 3 - 1 + 4 * 3) by lia.
    rewrite Z_div_plus_full by lia. lia.
Qed.

Lemma base64_decode_encode bs :
  is_bytes bs → bs ≠ [] →
  decode_base64 (base64url_no_pad bs) = Ok bs ∧ len (base64url_no_pad bs) = div_ceil (4 * len bs) 3.
Proof.
  intros Hb Hne. destruct (encoded_no_ws bs Hb) as [Hf Hl]. split; [|done].
  unfold decode_base64. rewrite Hf, decode_encode_quads by done.
  assert (is_empty (base64url_no_pad bs) = false) as ->.
  { destruct bs as [|a [|b [|c t]]]; done. }
  rewrite Hl. unfold div_ceil.
  destruct (Z.eqb_spec ((4 * len bs + 3 - 1) / 3 mod 4) 1) as [E|]; [exfalso|done].
  revert E. div_lia.
Qed.

(** The base64 decoder reads the client's own URL-safe encoding: decoding
    [base64url_no_pad] of any non-empty byte string, which has four characters
    for every three bytes rounded up, gives the bytes back. *)
Theorem base64_roundtrip bs :
  is_bytes bs → bs ≠ [] →
  decode_base64 (base64url_no_pad bs) = Ok bs ∧ len (base64url_no_pad bs) = div_ceil (4 * len bs) 3.
Proof. apply base64_decode_encode. Qed.

Lemma base64_roundtrip_witness :
  decode_base64 (base64url_no_pad [0; 16; 131; 16; 255]) = Ok [0; 16; 131; 16; 255] ∧
  len (base64url_no_pad [0; 16; 131; 16; 255]) = div_ceil (4 * len [0; 16; 131; 16; 255]) 3.
Proof. apply (base64_roundtrip [0; 16; 131; 16; 255]); [by_vm|discriminate]. Defined.

(** ** Query strings *)

Lemma percent_byte_spec b : is_u8 b →
  38 ∉ percent_byte b ∧ 61 ∉ percent_byte b ∧
  ∀ l r, percent_decode l = Some r → percent_decode (percent_byte b ++ l) = Some (b :: r).
Proof.
  intros Hb.
  assert (negb (existsb (Z.eqb 38) (percent_byte b)) && negb (existsb (Z.eqb 61) (percent_byte b))
    && (if unreserved b then negb (b =? 37)
        else bool_decide (hex_value (hex_digit true (Z.shiftr b 4)) = Some (Z.shiftr b 4))
          && bool_decide (hex_value (hex_digit true (Z.land b 15)) = Some (Z.land b 15))
          && (16 * Z.shiftr b 4 + Z.land b 15 =? b)) = true) as H.
  { revert b Hb. apply (forall_u8 (λ b, negb (existsb (Z.eqb 38) (percent_byte b)) && negb (existsb (Z.eqb 61) (percent_byte b))
    && (if unreserved b then negb (b =? 37)
        else bool_decide (hex_value (hex_digit true (Z.shiftr b 4)) = Some (Z.shiftr b 4))
          && bool_decide (hex_value (hex_digit true (Z.land b 15)) = Some (Z.land b 15))
          && (16 * Z.shiftr b 4 + Z.land b 15 =? b)))). vm_compute. reflexivity. }
  apply andb_prop in H as [H Hdec]. apply andb_prop in H as [H38 H61]. to_prop.
  assert (∀ c l, existsb (Z.eqb c) l = false → c ∉ l) as Hnot.
  { intros c l He Hin. assert (existsb (Z.eqb c) l = true); [|congruence].
    apply existsb_exists. exists c. split; [by apply list_elem_of_In|apply Z.eqb_refl]. }
  split; [by apply Hnot|]. split; [by apply Hnot|]. intros l r Hl. unfold percent_byte.
  destruct (unreserved b) eqn:Eu.
  - cbn [app]. apply negb_true_iff, Z.eqb_neq in Hdec. cbn [percent_decode].
    destruct b as [|p|p]; try (by rewrite Hl). do 6 (destruct p as [p|p|]; try (by rewrite Hl); try done).
  - apply andb_prop in Hdec as [Hdec Hsum]. to_prop. rewrite Z.eqb_eq in Hsum.
    cbn [app percent_decode]. rewrite H, H0, Hl. by rewrite Hsum.
Qed.

Lemma percent_roundtrip v : is_bytes v →
  percent_decode (percent_encode v) = Some v ∧ 38 ∉ percent_encode v ∧ 61 ∉ percent_encode v.
Proof.
  induction 1 as [|b v Hb Hv (IH1 & IH2 & IH3)]; [cbn; set_solver|].
  destruct (percent_byte_spec b Hb) as (H1 & H2 & H3). unfold percent_encode in *. cbn [map concat].
  split; [by apply H3|]. set_solver.
Qed.

Lemma split_once_here c x y : c ∉ x → split_once c (x ++ c :: y) = Some (x, y).
Proof.
  induction x as [|b x IH]; intros Hx; cbn; [by rewrite Z.eqb_refl|].
  rewrite not_elem_of_cons in Hx. rewrite (proj2 (Z.eqb_neq b c)), IH by naive_solver. done.
Qed.

Definition encode_pair (kv : list Z * list Z) : list Z := percent_encode kv.1 ++ [61] ++ percent_encode kv.2.

Lemma query_push_join (kvs : list (list Z * list Z)) q :
  q ≠ [] → fold_left (λ q kv, query_push q kv.1 kv.2) kvs q = join [38] (q :: map encode_pair kvs).
Proof.
  revert q. induction kvs as [|kv kvs IH]; intros q Hq; [done|]. cbn [fold_left map]. rewrite IH.
  - unfold query_push. destruct q; [done|]. cbn [is_empty]. fold (encode_pair kv).
    destruct kvs; cbn [map join]; unfold encode_pair; by rewrite <- ?app_assoc.
  - unfold query_push. destruct q; [done|]. cbn. discriminate.
Qed.

Lemma split_on_join_id c l : l ≠ [] → Forall (λ p, c ∉ p) l → split_on c (join [c] l) = l.
Proof.
  assert (∀ p, c ∉ p → split_on c p = [p]) as Hone.
  { induction p as [|b p IH]; intros Hp; cbn; [done|]. rewrite not_elem_of_cons in Hp.
    rewrite (proj2 (Z.eqb_neq b c)) by naive_solver. by rewrite IH by naive_solver. }
  assert (∀ p t, c ∉ p → split_on c (p ++ c :: t) = p :: split_on c t) as Hcons.
  { induction p as [|b p IH]; intros t Hp; cbn; [by rewrite Z.eqb_refl|]. rewrite not_elem_of_cons in Hp.
    rewrite (proj2 (Z.eqb_neq b c)) by naive_solver. by rewrite IH by naive_solver. }
  induction l as [|p [|p2 l] IH]; intros Hne Hl; [done| |]; inversion Hl; subst.
  - by apply Hone.
  - change (join [c] (p :: p2 :: l)) with (p ++ c :: join [c] (p2 :: l)).
    rewrite Hcons by done. by rewrite IH.
Qed.

(** Query strings are unambiguous: splitting a built query at [&], then at
    the first [=], and percent-decoding, gives back exactly the pairs that were
    pushed, whatever bytes keys and values contain. *)
Theorem query_roundtrip (kvs : list (list Z * list Z)) :
  kvs ≠ [] → Forall (λ kv, is_bytes kv.1 ∧ is_bytes kv.2) kvs →
  map parse_pair (split_on 38 (fold_left (λ q kv, query_push q kv.1 kv.2) kvs [])) = map Some kvs.
Proof.
  intros Hne Hkvs. destruct kvs as [|kv kvs]; [done|]. cbn [fold_left].
  change (query_push [] kv.1 kv.2) with (encode_pair kv).
  assert (∀ x, is_bytes x.1 ∧ is_bytes x.2 → 38 ∉ encode_pair x ∧ parse_pair (encode_pair x) = Some x) as Hpair.
  { intros [k v] [Hk Hv]. cbn in Hk, Hv. destruct (percent_roundtrip k Hk) as (D1 & A1 & B1).
    destruct (percent_roundtrip v Hv) as (D2 & A2 & B2). unfold encode_pair, parse_pair. cbn [fst snd app].
    split; [set_solver|]. rewrite split_once_here by done. by rewrite D1, D2. }
  rewrite query_push_join.
  2:{ unfold encode_pair. by destruct (percent_encode kv.1). }
  rewrite <- (map_cons encode_pair kv kvs). rewrite split_on_join_id; [|done|].
  - rewrite map_map. apply map_ext_in. intros x Hx. apply Hpair.
    rewrite List.Forall_forall in Hkvs. auto.
  - rewrite List.Forall_map. eapply List.Forall_impl; [|exact Hkvs]. cbn. intros x Hx. by apply Hpair.
Qed.

Lemma query_roundtrip_witness :
  map parse_pair (split_on 38 (fold_left (λ q kv, query_push q kv.1 kv.2)
    [(lit "chat id", lit "a&b=c"); (lit "limit", lit "50")] []))
  = map Some [(lit "chat id", lit "a&b=c"); (lit "limit", lit "50")].
Proof.
  apply (query_roundtrip [(lit "chat id", lit "a&b=c"); (lit "limit", lit "50")]).
  - discriminate.
  - by_vm.
Defined.
