(* ===== verification/Types.v ===== *)
(** * Responses and typed results (src/src/lib.rs)

    [Response], [ApiError], [AuthInfo], [ServerHello], [User], [Me],
    [AuthResult] and [Message], with the field readers they are decoded by. *)
From S2P Require Import Prelude RustStr Cbor Frame.

(** ** Field readers *)

Definition required_field (value : Value) (key context : list Z) : io Value :=
  ok_or (get value key) (invalid_data (lit "missing " ++ key ++ lit " in " ++ context)).

Definition required_string (value : Value) (key context : list Z) : io (list Z) :=
  let? v := required_field value key context in
  ok_or (as_str v) (invalid_data (lit "invalid " ++ key ++ lit " in " ++ context)).

Definition invalid_field (key : list Z) : io_error :=
  invalid_data (lit "invalid " ++ key ++ lit " field").

Definition optional_string (value : Value) (key : list Z) : io (option (list Z)) :=
  match get value key with
  | None | Some VNull => Ok None
  | Some (VText s) => Ok (Some s)
  | Some _ => Err (invalid_field key)
  end.

Definition required_i64 (value : Value) (key context : list Z) : io Z :=
  let? v := required_field value key context in
  ok_or (as_i64_v v) (invalid_data (lit "invalid " ++ key ++ lit " in " ++ context)).

Definition optional_i64 (value : Value) (key : list Z) : io (option Z) :=
  match get value key with
  | None | Some VNull => Ok None
  | Some v => result_map Some (ok_or (as_i64_v v) (invalid_field key))
  end.

Definition optional_bool (value : Value) (key : list Z) : io (option bool) :=
  match get value key with
  | None | Some VNull => Ok None
  | Some (VBool b) => Ok (Some b)
  | Some _ => Err (invalid_field key)
  end.

Definition optional_array (value : Value) (key : list Z) : io (option (list Value)) :=
  match get value key with
  | None | Some VNull => Ok None
  | Some (VArray vs) => Ok (Some vs)
  | Some _ => Err (invalid_field key)
  end.

Definition value_as_string (value : Value) : option (list Z) :=
  match value with
  | VText s => Some s
  | VUnsigned n => Some (dec n)
  | VInteger z => Some (dec z)
  | _ => None
  end.

(** [string_array]. *)
Definition string_array (values : list (list Z)) : Value := VArray (map VText values).

(** ** Errors *)

Record ApiError := mkApiError {
  ae_status : Z; ae_code : list Z; ae_message : list Z; ae_retryable : bool;
  ae_retry_after_ms : option Z; ae_details : Value; ae_trace_id : option (list Z)
}.

(** [Option::and_then] on a field. *)
Definition field {A} (value : Value) (key : list Z) (f : Value → option A) : option A :=
  match get value key with Some v => f v | None => None end.

Definition api_error_from_value (status : Z) (value : Value) : ApiError := {|
  ae_status := as_u16 (default status (field value (lit "status") as_u64_v));
  ae_code := default (lit "APPLICATION_ERROR") (field value (lit "code") as_str);
  ae_message := default (lit "MST5 request failed") (field value (lit "message") as_str);
  ae_retryable := default false (field value (lit "retryable") as_bool);
  ae_retry_after_ms := field value (lit "retry_after_ms") as_u64_v;
  ae_details := default (VMap []) (get value (lit "details"));
  ae_trace_id := field value (lit "trace_id") as_str
|}.

(** [Display for ApiError]. *)
Definition api_error_display (e : ApiError) : list Z :=
  lit "MST5 " ++ ae_code e ++ lit " (" ++ dec (ae_status e) ++ lit "): " ++ ae_message e.

(** The [io::ErrorKind] of a status. *)
Definition status_kind (status : Z) : error_kind :=
  if (status =? 401) || (status =? 403) then PermissionDenied
  else if status =? 404 then NotFound
  else if status =? 408 then TimedOut
  else if status =? 409 then AlreadyExists
  else if in_range 400 499 status then InvalidInput
  else OtherKind.

Definition api_response_error (status : Z) (value : Value) : io_error :=
  IoError (status_kind status) (api_error_display (api_error_from_value status value)).

(** ** [Response] *)

Record Response := mkResponse {
  rs_kind : Z; rs_flags : Z; rs_status : Z; rs_id : Z;
  rs_request_nonce : list Z; rs_deadline_ms : Z; rs_payload : list Z
}.

(** [Response::from_frame]. *)
Definition from_frame (f : Frame) : Response :=
  mkResponse (fr_kind f) (fr_flags f) (fr_code f) (fr_id f) (fr_request_nonce f) (fr_deadline_ms f) (fr_payload f).

Definition is_error (r : Response) : bool := (rs_kind r =? kind.ERROR) || (400 <=? rs_status r).

(** [Response::cbor] and [into_cbor]: an empty payload is an empty map. *)
Definition response_cbor (r : Response) : io Value :=
  if is_empty (rs_payload r) then Ok (VMap []) else decode_cbor (rs_payload r).

Definition into_result (r : Response) : io Value :=
  let? value := response_cbor r in
  fail_if (is_error r) with api_response_error (rs_status r) value;
  Ok value.

Definition into_api_result (r : Response) : result ApiError Value :=
  match response_cbor r with
  | Err e => Err (mkApiError (rs_status r) (lit "INVALID_ERROR_PAYLOAD") (emsg e) false None (VMap []) None)
  | Ok value => if is_error r then Err (api_error_from_value (rs_status r) value) else Ok value
  end.

Definition api_error (r : Response) : io (option ApiError) :=
  if negb (is_error r) then Ok None
  else let? value := response_cbor r in Ok (Some (api_error_from_value (rs_status r) value)).

(** ** Authentication and the server's hello *)

Record ServerHello := mkServerHello {
  sh_transport_major : Z; sh_rpc_major : Z; sh_rpc_minor : Z; sh_features : Z;
  sh_max_frame : Z; sh_connection_id : option (list Z)
}.

Record AuthInfo := mkAuthInfo {
  ai_principal_type : list Z; ai_principal_id : option (list Z); ai_scopes : list (list Z);
  ai_session_id : option (list Z); ai_expires_at : option Z; ai_raw : Value
}.

(** The first of several keys that is present. *)
Fixpoint first_key (value : Value) (keys : list (list Z)) : option Value :=
  match keys with
  | [] => None
  | k :: t => match get value k with Some v => Some v | None => first_key value t end
  end.

(** [AuthInfo::from_value]. *)
Definition auth_info_from_value (value : Value) : io AuthInfo :=
  let principal_type :=
    default (lit "anonymous")
      (match first_key value [lit "principal_type"; lit "principal"; lit "type"] with
       | Some v => as_str v | None => None end) in
  let principal_id :=
    match first_key value [lit "principal_id"; lit "id"] with Some v => value_as_string v | None => None end in
  let? scopes :=
    match get value (lit "scopes") with
    | Some (VArray vs) => Ok (omap as_str vs)
    | None | Some VNull => Ok []
    | Some _ => Err (invalid_data (lit "invalid scopes in MST5 AUTH response"))
    end in
  Ok (mkAuthInfo principal_type principal_id scopes (field value (lit "session_id") value_as_string)
        (field value (lit "expires_at") as_i64_v) value).

(** ** Users and messages *)

Record User := mkUser {
  us_id : list Z; us_username : option (list Z); us_name : option (list Z); us_description : list Z;
  us_email : option (list Z); us_email_verified : bool; us_verified : bool; us_bot : bool;
  us_created_at : option Z; us_kind : option (list Z); us_message_privacy : option (list Z);
  us_call_privacy : option (list Z); us_invite_privacy : option (list Z)
}.

Definition user_from_value (value : Value) : io User :=
  let? id := required_string value (lit "id") (lit "user") in
  let? username := optional_string value (lit "username") in
  let? name := optional_string value (lit "name") in
  let? description := optional_string value (lit "description") in
  let? email := optional_string value (lit "email") in
  let? email_verified := optional_bool value (lit "email_verified") in
  let? verified := optional_bool value (lit "verified") in
  let? bot := optional_bool value (lit "bot") in
  let? created_at := optional_i64 value (lit "created_at") in
  let? kind := optional_string value (lit "kind") in
  let? message_privacy := optional_string value (lit "message_privacy") in
  let? call_privacy := optional_string value (lit "call_privacy") in
  let? invite_privacy := optional_string value (lit "invite_privacy") in
  Ok (mkUser id username name (default [] description) email (default false email_verified)
        (default false verified) (default false bot) created_at kind message_privacy call_privacy invite_privacy).

Record Me := mkMe { me_user : User; me_cloud_password : bool }.

Definition me_from_value (value : Value) : io Me :=
  let? user := required_field value (lit "user") (lit "get_me response") in
  let? user := user_from_value user in
  let? cloud_password := optional_bool value (lit "cloud_password") in
  Ok (mkMe user (default false cloud_password)).

Record AuthResult := mkAuthResult { ar_token : list Z; ar_user : User }.

Definition auth_result_from_value (value : Value) (context : list Z) : io AuthResult :=
  let? token := required_string value (lit "token") context in
  let? user := required_field value (lit "user") context in
  let? user := user_from_value user in
  Ok (mkAuthResult token user).

Record Message := mkMessage {
  ms_id : Z; ms_chat_id : list Z; ms_from : User; ms_to : User; ms_text : list Z; ms_date : Z;
  ms_comment_post_id : option Z; ms_reply_to_message_id : option Z; ms_client_message_id : option (list Z);
  ms_edited_at : option Z; ms_pinned_at : option Z; ms_read_at : option Z; ms_media : list Value;
  ms_system : bool; ms_data : option Value; ms_reactions : list Value
}.

Definition message_from_value (value : Value) : io Message :=
  let? from := required_field value (lit "from") (lit "message") in
  let? to := required_field value (lit "to") (lit "message") in
  let? id := required_i64 value (lit "id") (lit "message") in
  let? chat_id := required_string value (lit "chat_id") (lit "message") in
  let? from := user_from_value from in
  let? to := user_from_value to in
  let? text := required_string value (lit "text") (lit "message") in
  let? date := required_i64 value (lit "date") (lit "message") in
  let? comment_post_id := optional_i64 value (lit "comment_post_id") in
  let? reply_to_message_id := optional_i64 value (lit "reply_to_message_id") in
  let? client_message_id := optional_string value (lit "client_message_id") in
  let? edited_at := optional_i64 value (lit "edited_at") in
  let? pinned_at := optional_i64 value (lit "pinned_at") in
  let? read_at := optional_i64 value (lit "read_at") in
  let? media := optional_array value (lit "media") in
  let? system := optional_bool value (lit "system") in
  let? reactions := optional_array value (lit "reactions") in
  Ok (mkMessage id chat_id from to text date comment_post_id reply_to_message_id client_message_id
        edited_at pinned_at read_at (default [] media) (default false system)
        (get value (lit "data")) (default [] reactions)).

(** [message_from_result]. *)
Definition message_from_result (value : Value) (context : list Z) : io Message :=
  let? m := required_field value (lit "message") context in message_from_value m.

(** ** Agreement of the three ways to read a response *)

(** The three readers of a response agree: [into_result] succeeds exactly
    when [into_api_result] does, with the same value; an error response with a
    readable payload gives the same [ApiError] through [api_error] and
    [into_api_result], and [into_result] fails with its rendering and the kind of
    the status of the frame. *)
Theorem response_readers_agree r :
  (∀ v, into_result r = Ok v ↔ into_api_result r = Ok v) ∧
  (∀ v, response_cbor r = Ok v → is_error r = true →
     let e := api_error_from_value (rs_status r) v in
     into_api_result r = Err e ∧ api_error r = Ok (Some e) ∧
     into_result r = Err (IoError (status_kind (rs_status r)) (api_error_display e))) ∧
  (is_error r = false → api_error r = Ok None ∧ into_result r = response_cbor r).
Proof.
  unfold into_result, into_api_result, api_error. split_and!.
  - intros v. destruct (response_cbor r); [destruct (is_error r)|]; split; congruence.
  - intros v -> ->. done.
  - intros ->. split; [done|]. by destruct (response_cbor r).
Qed.

(** ** Objects as a server sends them *)

Definition opt_text (o : option (list Z)) : Value := match o with Some s => VText s | None => VNull end.
Definition opt_int (o : option Z) : Value := match o with Some z => VInteger z | None => VNull end.

Definition user_to_value (u : User) : Value :=
  VMap [(lit "id", VText (us_id u)); (lit "username", opt_text (us_username u)); (lit "name", opt_text (us_name u));
        (lit "description", VText (us_description u)); (lit "email", opt_text (us_email u));
        (lit "email_verified", VBool (us_email_verified u)); (lit "verified", VBool (us_verified u));
        (lit "bot", VBool (us_bot u)); (lit "created_at", opt_int (us_created_at u)); (lit "kind", opt_text (us_kind u));
        (lit "message_privacy", opt_text (us_message_privacy u)); (lit "call_privacy", opt_text (us_call_privacy u));
        (lit "invite_privacy", opt_text (us_invite_privacy u))].

Definition message_to_value (m : Message) : Value :=
  VMap ([(lit "id", VInteger (ms_id m)); (lit "chat_id", VText (ms_chat_id m)); (lit "from", user_to_value (ms_from m));
         (lit "to", user_to_value (ms_to m)); (lit "text", VText (ms_text m)); (lit "date", VInteger (ms_date m));
         (lit "comment_post_id", opt_int (ms_comment_post_id m)); (lit "reply_to_message_id", opt_int (ms_reply_to_message_id m));
         (lit "client_message_id", opt_text (ms_client_message_id m)); (lit "edited_at", opt_int (ms_edited_at m));
         (lit "pinned_at", opt_int (ms_pinned_at m)); (lit "read_at", opt_int (ms_read_at m));
         (lit "media", VArray (ms_media m)); (lit "system", VBool (ms_system m)); (lit "reactions", VArray (ms_reactions m))]
        ++ match ms_data m with Some d => [(lit "data", d)] | None => [] end).

Lemma optional_string_opt v k o : get v k = Some (opt_text o) → optional_string v k = Ok o.
Proof. unfold optional_string. intros ->. by destruct o. Qed.
Lemma optional_string_some v k s : get v k = Some (VText s) → optional_string v k = Ok (Some s).
Proof. unfold optional_string. by intros ->. Qed.
Lemma optional_i64_opt v k o : get v k = Some (opt_int o) → optional_i64 v k = Ok o.
Proof. unfold optional_i64. intros ->. by destruct o. Qed.
Lemma optional_bool_some v k b : get v k = Some (VBool b) → optional_bool v k = Ok (Some b).
Proof. unfold optional_bool. by intros ->. Qed.
Lemma optional_array_some v k l : get v k = Some (VArray l) → optional_array v k = Ok (Some l).
Proof. unfold optional_array. by intros ->. Qed.
Lemma required_field_some v k c w : get v k = Some w → required_field v k c = Ok w.
Proof. unfold required_field. by intros ->. Qed.
Lemma required_string_some v k c s : get v k = Some (VText s) → required_string v k c = Ok s.
Proof. unfold required_string, required_field. by intros ->. Qed.
Lemma required_i64_some v k c z : get v k = Some (VInteger z) → required_i64 v k c = Ok z.
Proof. unfold required_i64, required_field. by intros ->. Qed.

Ltac read_fields :=
  repeat first
  [ erewrite required_field_some by reflexivity | erewrite required_string_some by reflexivity
  | erewrite required_i64_some by reflexivity | erewrite optional_string_some by reflexivity
  | erewrite optional_string_opt by reflexivity | erewrite optional_i64_opt by reflexivity
  | erewrite optional_bool_some by reflexivity | erewrite optional_array_some by reflexivity ].

Lemma user_roundtrip u : user_from_value (user_to_value u) = Ok u.
Proof. unfold user_from_value. read_fields. by destruct u. Qed.

(** Messages are decoded field by field from the object a server sends:
    every attribute of a message and of its two users comes from the key of its
    name, absent and null optional attributes included. *)
Theorem message_fields_decoded m : message_from_value (message_to_value m) = Ok m.
Proof.
  unfold message_from_value.
  unfold message_to_value. destruct (ms_data m) as [d|] eqn:Ed; cbn [app];
    read_fields; rewrite !user_roundtrip; read_fields; destruct m; cbn in *; by subst.
Qed.
