(* ===== verification/Endpoint.v ===== *)
(** * Endpoints and the HTTP request target (src/src/lib.rs, src/src/m5oh.rs)

    Parsing of configured endpoints (raw MST5, routed MST5 and M5oH), the router
    preface, and the GET target that carries the bytes of an M5oH upload. *)
From S2P Require Import Prelude RustStr Codec Record.

Definition ROUTER_MAGIC : list Z := lit "M5RT".
Definition ROUTER_VERSION : Z := 1.
Definition MAX_GET_TARGET : Z := 23 * 1024.
Definition GET_TARGET_PREFIX : Z := 4.
Definition PACKET_ROUTE_DESTINATION_BYTES : Z := 8.
Definition UPLOAD_CHUNK : Z := (MAX_GET_TARGET - GET_TARGET_PREFIX) / 4 * 3 - PACKET_ROUTE_DESTINATION_BYTES.

(** [m5oh::Endpoint]. *)
Record Endpoint := mkEndpoint {
  ep_host : list Z; ep_port : Z; ep_tls : bool; ep_route : option (list Z);
  ep_packet_destination : option SocketAddrV4
}.

Definition host_header (e : Endpoint) : list Z :=
  if (ep_tls e && (ep_port e =? 443)) || (negb (ep_tls e) && (ep_port e =? 80)) then ep_host e
  else if contains_byte 58 (ep_host e) then lit "[" ++ ep_host e ++ lit "]:" ++ dec (ep_port e)
  else ep_host e ++ lit ":" ++ dec (ep_port e).

Record ParsedEndpoint := mkParsed {
  pa_address : list Z; pa_route : option (list Z); pa_m5oh : option Endpoint
}.

Definition validate_route_id (route : list Z) : io unit :=
  let valid := negb (is_empty route) && (len route <=? 63) && is_ascii_lower (nth 0 route 0)
    && forallb (λ b, is_ascii_lower b || is_ascii_digit b || (b =? 46) || (b =? 95) || (b =? 45)) route in
  fail_if (negb valid) with invalid_input (lit "invalid MST5 route ID");
  Ok tt.

Definition endpoint_socket_address (value : list Z) (default_port : Z) : io (list Z) :=
  fail_if (is_empty value || contains_byte 47 value) with invalid_input (lit "invalid MST5 endpoint address");
  if starts_with (lit "[") value then
    Ok (if contains_str (lit "]:") value then value else value ++ lit ":" ++ dec default_port)
  else
    Ok (match rsplit_once 58 value with Some _ => value | None => value ++ lit ":" ++ dec default_port end).

(** [route.parse::<SocketAddrV4>().ok().filter(|a| a.port() != 0)]. *)
Definition packet_route (route : list Z) : option SocketAddrV4 :=
  match parse_socket_v4 route with
  | Some a => if sa_port a =? 0 then None else Some a
  | None => None
  end.

Definition parse_m5oh_endpoint (value : list Z) (default_port : Z) (tls : bool)
  : io (Endpoint * option (list Z)) :=
  let? (address, route) :=
    match split_once 47 value with
    | Some (address, []) => Ok (address, None)
    | Some (address, route) =>
        match packet_route route with
        | None => Err (invalid_input (lit "M5oH endpoint must use an IP:port packet destination"))
        | Some _ => Ok (address, Some route)
        end
    | None => Ok (value, None)
    end in
  fail_if (is_empty address || contains_byte 47 address
           || existsb (λ c, is_whitespace c || is_control c) (chars address))
    with invalid_input (lit "invalid M5oH endpoint");
  let? (host, port) :=
    match strip_prefix (lit "[") address with
    | Some inner =>
        match split_once 93 inner with
        | None => Err (invalid_input (lit "invalid M5oH IPv6 endpoint"))
        | Some (host, port) =>
            let? port :=
              match strip_prefix (lit ":") port with
              | Some [] => Err (invalid_input (lit "invalid M5oH IPv6 endpoint"))
              | Some p => ok_or (parse_u16 p) (invalid_input (lit "invalid M5oH endpoint port"))
              | None => Ok default_port
              end in
            Ok (host, port)
        end
    | None =>
        match rsplit_once 58 address with
        | Some (host, port) =>
            fail_if (contains_byte 58 host) with invalid_input (lit "M5oH IPv6 endpoints must use brackets");
            let? port := ok_or (parse_u16 port) (invalid_input (lit "invalid M5oH endpoint port")) in
            Ok (host, port)
        | None => Ok (address, default_port)
        end
    end in
  fail_if (is_empty host || (port =? 0)) with invalid_input (lit "invalid M5oH endpoint");
  Ok (mkEndpoint host port tls route (match route with Some r => packet_route r | None => None end), route).

Definition parse_endpoint (endpoint : list Z) : io ParsedEndpoint :=
  let value := trim_end_matches 47 (trim endpoint) in
  match strip_prefix (lit "https://") value with
  | Some address =>
      let? (e, route) := parse_m5oh_endpoint address 443 true in Ok (mkParsed [] route (Some e))
  | None =>
  match strip_prefix (lit "http://") value with
  | Some address =>
      let? (e, route) := parse_m5oh_endpoint address 80 false in Ok (mkParsed [] route (Some e))
  | None =>
  fail_if (starts_with (lit "tcps://") value)
    with invalid_input (lit "MST5 endpoint must use tcp://host:port, mst5://host:port/route, http://host, or https://host");
  match strip_prefix (lit "mst5://") value with
  | Some routed =>
      match split_once 47 routed with
      | None => Err (invalid_input (lit "routed MST5 endpoint is missing route ID"))
      | Some (address, route) =>
          let? _ := validate_route_id route in
          let? address := endpoint_socket_address address 8067 in
          Ok (mkParsed address (Some route) None)
      end
  | None =>
      let value := match strip_prefix (lit "tcp://") value with Some v => v | None => value end in
      fail_if (is_empty value || contains_byte 47 value) with invalid_input (lit "invalid MST5 endpoint");
      let? address := endpoint_socket_address value 8080 in
      Ok (mkParsed address None None)
  end end end.

(** [write_router_preface]. *)
Definition router_preface (route : list Z) : list Z :=
  ROUTER_MAGIC ++ [ROUTER_VERSION; as_u8 (len route)] ++ route.

Definition write_router_preface (stream : Stream) (route : list Z) : io Stream :=
  let? _ := validate_route_id route in
  write_all (router_preface route) stream.

(** ** The GET target of an upload *)

Definition packet_route_permute (d : SocketAddrV4) : list Z :=
  let logical := be_bytes 2 (sa_port d) ++ sa_octets d ++ [0; 0] in
  map (λ i, nth i logical 0) [0%nat; 7%nat; 3%nat; 5%nat; 1%nat; 6%nat; 4%nat; 2%nat].

Definition get_target (packet_destination : option SocketAddrV4) (payload : list Z) : list Z :=
  match packet_destination with
  | Some d => lit "/?r=" ++ base64url_no_pad (packet_route_permute d ++ payload)
  | None => if is_empty payload then lit "/" else lit "/?r=" ++ base64url_no_pad payload
  end.

(** ** Lemmas *)

Lemma length_permute d : length (packet_route_permute d) = 8%nat.
Proof. reflexivity. Qed.

Record wf_socket (d : SocketAddrV4) : Prop := {
  ws_octets : is_bytes (sa_octets d) ∧ length (sa_octets d) = 4%nat;
  ws_port : is_u16 (sa_port d)
}.

Lemma permute_bytes d : wf_socket d → is_bytes (packet_route_permute d).
Proof.
  intros [[Hb Hl] Hp]. unfold packet_route_permute, is_bytes. rewrite List.Forall_map.
  rewrite List.Forall_forall. intros i _. apply is_bytes_nth. rewrite !is_bytes_app.
  split_and!; auto with mst5. repeat constructor; widths; lia.
Qed.

(** The router's view of the permuted destination: [wire = logical[1,8,4,6,2,7,5,3]]. *)
Definition unpermute (w : list Z) : SocketAddrV4 :=
  mkSocketAddrV4 [nth 7 w 0; nth 2 w 0; nth 6 w 0; nth 3 w 0] (from_be [nth 0 w 0; nth 4 w 0]).

Lemma unpermute_permute d : wf_socket d → unpermute (packet_route_permute d) = d.
Proof.
  intros [[Hb Hl] Hp]. destruct d as [o p]. cbn in *.
  destruct o as [|o0 [|o1 [|o2 [|o3 [|]]]]]; try done.
  unfold unpermute, packet_route_permute. cbn [sa_port sa_octets].
  pose proof (be_bytes_roundtrip 2 p) as Hr. pose proof (length_be_bytes 2 p) as Hlen.
  destruct (be_bytes 2 p) as [|x [|y [|]]]; try done. cbn. f_equal. apply Hr. widths. simpl. lia.
Qed.

(** An upload fits the CDN: for every destination and every chunk of at most
    [UPLOAD_CHUNK] bytes, the GET target stays within 23 KiB, and the router
    recovers the destination and the exact bytes from it. *)
Theorem get_target_fits dest payload :
  wf_socket dest → is_bytes payload → len payload ≤ UPLOAD_CHUNK →
  ∃ encoded, get_target (Some dest) payload = lit "/?r=" ++ encoded ∧
    len (get_target (Some dest) payload) ≤ MAX_GET_TARGET ∧
    ∃ packet, decode_base64 encoded = Ok packet ∧ unpermute (take 8 packet) = dest ∧ drop 8 packet = payload.
Proof.
  intros Hd Hp Hl. set (packet := packet_route_permute dest ++ payload).
  assert (is_bytes packet) as Hb by (apply is_bytes_app; auto using permute_bytes).
  assert (packet ≠ []) as Hne by done.
  destruct (base64_decode_encode packet Hb Hne) as [Hdec Hlen].
  exists (base64url_no_pad packet). split; [done|]. split.
  - unfold get_target. fold packet. rewrite len_app, Hlen. change (len (lit "/?r=")) with 4.
    assert (len packet = 8 + len payload) as -> by (unfold packet; rewrite len_app; done).
    change UPLOAD_CHUNK with 17653 in Hl. unfold MAX_GET_TARGET, div_ceil.
    pose proof (len_nonneg payload). div_lia.
  - exists packet. split; [done|]. unfold packet.
    rewrite take_app_length', drop_app_length' by done. split; [by apply unpermute_permute|done].
Qed.

Definition sample_dest : SocketAddrV4 := mkSocketAddrV4 [10; 0; 0; 7] 8067.

Lemma get_target_fits_witness :
  ∃ encoded, get_target (Some sample_dest) (lit "data") = lit "/?r=" ++ encoded ∧
    len (get_target (Some sample_dest) (lit "data")) ≤ MAX_GET_TARGET ∧
    ∃ packet, decode_base64 encoded = Ok packet ∧ unpermute (take 8 packet) = sample_dest ∧ drop 8 packet = lit "data".
Proof.
  apply (get_target_fits sample_dest (lit "data")).
  - split; [split; [by_vm|reflexivity]|vm_compute; split; congruence].
  - by_vm.
  - vm_compute. congruence.
Defined.

(** ** What an accepted endpoint looks like *)

Lemma parse_digits_range max acc l v :
  0 ≤ acc ≤ max → parse_digits max acc l = Some v → 0 ≤ v ≤ max.
Proof.
  revert acc. induction l as [|b t IH]; intros acc Ha H; cbn in H; [by simplify_eq|].
  destruct (is_ascii_digit b) eqn:Ed; [|done]. unfold is_ascii_digit, in_range in Ed. to_prop.
  destruct (Z.leb_spec (acc * 10 + (b - 48)) max); [|done]. eapply IH; [|exact H]; lia.
Qed.

Lemma parse_u16_range l v : parse_u16 l = Some v → is_u16 v.
Proof.
  unfold parse_u16, parse_uint. intros H. widths.
  destruct l as [|b l]; [done|].
  repeat case_match; simplify_eq; by (eapply parse_digits_range in H; [exact H|lia]).
Qed.

Lemma contains_byte_false c l : contains_byte c l = false → c ∉ l.
Proof.
  unfold contains_byte. intros He Hin. assert (existsb (Z.eqb c) l = true); [|congruence].
  apply existsb_exists. exists c. split; [by apply list_elem_of_In|apply Z.eqb_refl].
Qed.

Lemma contains_str_colon l : contains_str (lit "]:") l = true → 58 ∈ l.
Proof.
  induction l as [|b t IH]; intros H; cbn in H; [by vm_compute in H|].
  apply orb_prop in H as [H|H]; [|apply elem_of_cons; right; auto].
  apply starts_with_spec in H as [r Hr]. rewrite Hr. vm_compute. set_solver.
Qed.

Lemma socket_address_sound value port a :
  47 ∉ dec port → endpoint_socket_address value port = Ok a →
  a ≠ [] ∧ 47 ∉ a ∧ 58 ∈ a.
Proof.
  unfold endpoint_socket_address. intros Hport H. destruct (_ || _) eqn:E; [done|]. to_prop.
  apply contains_byte_false in H1. destruct value as [|b value]; [done|].
  assert (47 ∉ (b :: value) ++ lit ":" ++ dec port ∧ 58 ∈ (b :: value) ++ lit ":" ++ dec port) as [N Y].
  { rewrite !not_elem_of_app, !elem_of_app. change (lit ":") with [58]. set_solver. }
  destruct (starts_with _ _); apply Ok_inj in H; subst a.
  - destruct (contains_str _ _) eqn:Ec; [|done]. apply contains_str_colon in Ec. done.
  - destruct (rsplit_once 58 (b :: value)) as [[x y]|] eqn:Er; [|done].
    apply rsplit_once_some in Er as [Er _]. split_and!; try done. rewrite Er. set_solver.
Qed.

Lemma m5oh_sound value port tls e route :
  1 ≤ port ≤ u16_max → parse_m5oh_endpoint value port tls = Ok (e, route) →
  ep_host e ≠ [] ∧ 1 ≤ ep_port e ≤ u16_max ∧ ep_tls e = tls ∧ ep_route e = route ∧
  match route with
  | Some r => ∃ d, packet_route r = Some d ∧ ep_packet_destination e = Some d ∧ sa_port d ≠ 0
  | None => ep_packet_destination e = None
  end.
Proof.
  intros Hport H. unfold parse_m5oh_endpoint in H.
  match type of H with (match ?x with _ => _ end) = _ => destruct x as [[address route']|] eqn:Er; [|done] end.
  destruct (_ || _) in H; [done|].
  match type of H with (match ?x with _ => _ end) = _ => destruct x as [[host p]|] eqn:Eh; [|done] end.
  destruct (_ || _) eqn:E in H; [done|]. apply Ok_inj in H. simplify_eq. cbn. to_prop. apply Z.eqb_neq in H0.
  assert (0 ≤ p ≤ u16_max) as Hp.
  { repeat (case_match; simplify_eq; try done); try lia;
      match goal with Hx : ok_or (parse_u16 ?q) _ = Ok _ |- _ =>
        destruct (parse_u16 q) eqn:Eq; [|done]; cbn in Hx; simplify_eq; by apply parse_u16_range in Eq
      end. }
  split_and!; try done; try lia. { by destruct host. }
  destruct route as [r|]; [|done].
  assert (is_Some (packet_route r)) as [d Hd].
  { repeat (case_match; simplify_eq; try done); eauto. }
  exists d. rewrite Hd. split_and!; try done. unfold packet_route in Hd.
  destruct (parse_socket_v4 r); [|done]. destruct (Z.eqb_spec (sa_port s) 0); by simplify_eq.
Qed.

(** An endpoint that parses is usable: an HTTP endpoint has a host, a
    non-zero port and, when it has a route, the packet destination that route
    spells; any other endpoint has a non-empty address without a slash and with
    a port separator, and a route only if it is a valid route id. *)
Theorem parse_endpoint_sound s p :
  parse_endpoint s = Ok p →
  match pa_m5oh p with
  | Some e =>
      pa_address p = [] ∧ ep_host e ≠ [] ∧ 1 ≤ ep_port e ≤ u16_max ∧ ep_route e = pa_route p ∧
      match pa_route p with
      | Some r => ∃ d, packet_route r = Some d ∧ ep_packet_destination e = Some d ∧ sa_port d ≠ 0
      | None => ep_packet_destination e = None
      end
  | None =>
      pa_address p ≠ [] ∧ 47 ∉ pa_address p ∧ 58 ∈ pa_address p ∧
      ∀ r, pa_route p = Some r → validate_route_id r = Ok tt
  end.
Proof.
  unfold parse_endpoint. intros H.
  destruct (strip_prefix (lit "https://") _) as [a|].
  { destruct (parse_m5oh_endpoint a 443 true) as [[e route]|] eqn:E; [|done]. inv_ok H. cbn.
    apply m5oh_sound in E as (Ha & Hb & _ & Hc & Hd); [|widths; lia].
    exact (conj eq_refl (conj Ha (conj Hb (conj Hc Hd)))). }
  destruct (strip_prefix (lit "http://") _) as [a|].
  { destruct (parse_m5oh_endpoint a 80 false) as [[e route]|] eqn:E; [|done]. inv_ok H. cbn.
    apply m5oh_sound in E as (Ha & Hb & _ & Hc & Hd); [|widths; lia].
    exact (conj eq_refl (conj Ha (conj Hb (conj Hc Hd)))). }
  destruct (starts_with _ _); [done|]. destruct (strip_prefix (lit "mst5://") _) as [routed|].
  - destruct (split_once 47 routed) as [[address route]|]; [|done].
    destruct (validate_route_id route) as [[]|] eqn:Ev; [|done].
    destruct (endpoint_socket_address address 8067) as [a|] eqn:E; [|done]. inv_ok H. cbn.
    apply socket_address_sound in E as (? & ? & ?); [|by_vm]. split_and!; try done. intros r Hr. by simplify_eq.
  - destruct (_ || _); [done|]. destruct (endpoint_socket_address _ 8080) as [a|] eqn:E; [|done]. inv_ok H. cbn.
    apply socket_address_sound in E as (? & ? & ?); [|by_vm]. split_and!; done.
Qed.

Lemma parse_endpoint_sound_witness :
  lit "example.org:8067" ≠ [] ∧ 47 ∉ lit "example.org:8067" ∧ 58 ∈ lit "example.org:8067" ∧
  ∀ r, Some (lit "node-a") = Some r → validate_route_id r = Ok tt.
Proof.
  apply (parse_endpoint_sound (lit "mst5://example.org/node-a")
    (mkParsed (lit "example.org:8067") (Some (lit "node-a")) None)).
  vm_compute. reflexivity.
Defined.
