(* ===== verification/Ops.v ===== *)
(** * Operation codes (src/src/lib.rs, modules [op], [media_op], [voice_op])

    The [u16] opcodes of requests.  The media and voice services number their
    operations separately from the messenger. *)
From S2P Require Import Prelude.

Module media_op.
Definition UPLOAD : Z := 1.
Definition DOWNLOAD : Z := 2.
Definition STAT : Z := 3.
Definition DELETE : Z := 4.
Definition HEALTH : Z := 5.
End media_op.

Module voice_op.
Definition JOIN : Z := 1.
End voice_op.

Module op.
Definition REGISTER : Z := 1.
Definition LOGIN : Z := 2.
Definition EMAIL_AUTH_START : Z := 3.
Definition EMAIL_AUTH_VERIFY : Z := 4.
Definition ME : Z := 5.
Definition ACCOUNT_DELETE : Z := 6.
Definition SET_USERNAME : Z := 7.
Definition SET_NAME : Z := 8.
Definition SET_PRIVACY : Z := 9.
Definition CONTACTS : Z := 10.
Definition CONTACT_ADD : Z := 11.
Definition CONTACT_DELETE : Z := 12.
Definition CREATE_GROUP : Z := 13.
Definition CREATE_CHANNEL : Z := 14.
Definition SET_CHAT_TITLE : Z := 15.
Definition SET_CHANNEL_USERNAME : Z := 16.
Definition SET_CHANNEL_COMMENTS : Z := 17.
Definition SEND_CHANNEL_COMMENT : Z := 18.
Definition CHANNEL_COMMENTS : Z := 19.
Definition ADD_CHAT_MEMBER : Z := 20.
Definition REMOVE_CHAT_MEMBER : Z := 21.
Definition SET_CLOUD_PASSWORD : Z := 22.
Definition RESET_CLOUD_PASSWORD : Z := 23.
Definition SESSIONS : Z := 24.
Definition REVOKE_SESSION : Z := 25.
Definition REVOKE_OTHER_SESSIONS : Z := 26.
Definition CREATE_BOT : Z := 27.
Definition RESET_BOT_TOKEN : Z := 28.
Definition SET_E2E_KEY : Z := 29.
Definition GET_E2E_KEY : Z := 30.
Definition SET_E2E_BACKUP : Z := 31.
Definition GET_E2E_BACKUP : Z := 32.
Definition RESET_E2E : Z := 33.
Definition WALLET : Z := 34.
Definition WALLET_SEND : Z := 35.
Definition WALLET_HISTORY : Z := 36.
Definition CALL : Z := 37.
Definition VOICE_TICKET : Z := 38.
Definition VOICE_PARTICIPANTS : Z := 39.
Definition SEND : Z := 40.
Definition EDIT : Z := 41.
Definition CALLBACK : Z := 42.
Definition REACT : Z := 43.
Definition REACT_PAID : Z := 44.
Definition READ : Z := 45.
Definition DELETE : Z := 46.
Definition FAVORITE : Z := 47.
Definition NODES_STATUS : Z := 50.
Definition CHATS : Z := 51.
Definition DELETE_CHAT : Z := 52.
Definition BAN_USER : Z := 53.
Definition UNBAN_USER : Z := 54.
Definition HISTORY : Z := 55.
Definition SYNC : Z := 56.
Definition BOT_ACK : Z := 57.
Definition NODE_REGISTER : Z := 58.
Definition NODE_LIST : Z := 59.
Definition OAUTH_DEVICE_REQUEST : Z := 60.
Definition OAUTH_DEVICE_DECISION : Z := 61.
Definition BOTFATHER_EXECUTE : Z := 62.
Definition DASTARS_CREDIT : Z := 63.
Definition FILE_TICKET : Z := 65.
Definition FORWARD : Z := 69.
Definition MEDIA_QUOTE : Z := 70.
Definition MESSAGE_PREPARE : Z := 71.
Definition MESSAGE_COMMIT : Z := 72.
Definition MESSAGE_CANCEL : Z := 73.
Definition SET_PROFILE_DESCRIPTION : Z := 74.
Definition NOTIFYBOT_DRAFT : Z := 75.
Definition NOTIFYBOT_CONFIRM : Z := 76.
Definition NOTIFYBOT_CANCEL : Z := 77.
Definition NOTIFYBOT_WORK : Z := 78.
Definition BOT_COMMANDS : Z := 79.
Definition STICKER_PACKS : Z := 80.
Definition STICKER_PACK : Z := 81.
Definition STICKER_CREATE : Z := 82.
Definition STICKER_PURCHASE : Z := 83.
Definition STICKER_SEND : Z := 84.
Definition STICKER_PRICE : Z := 85.
Definition AVATAR_PREPARE : Z := 86.
Definition AVATAR_COMMIT : Z := 87.
Definition AVATAR_DELETE : Z := 88.
Definition ACCOUNT_INACTIVITY_GET : Z := 90.
Definition ACCOUNT_INACTIVITY_SET : Z := 91.
Definition PIN : Z := 92.
Definition POLL_VOTE : Z := 93.
Definition CHAT_FAVORITES : Z := 94.
Definition CHAT_FAVORITE : Z := 95.
Definition CHAT_FOLDERS : Z := 96.
Definition CHAT_FOLDER : Z := 97.
Definition QR_LOGIN_START : Z := 98.
Definition QR_LOGIN_POLL : Z := 99.
Definition QR_LOGIN_APPROVE : Z := 100.
End op.
