(* ===== verification/Json.v ===== *)
(** * JSON values at the messenger boundary (src/src/messenger.rs)

    [JsonValue] has the constructors of [serde_json::Value]; an object is a
    [BTreeMap], a list of entries with strictly increasing keys.  The number
    type of serde_json is an interface, [JsonNumber], with the conversions the
    code calls; [JsonNumberLaws] is what their documentation promises.  The file
    translates [json_to_cbor], [json_number_to_cbor] and [cbor_to_json] and shows
    that a JSON document survives the CBOR wire format. *)
From stdpp Require Import sorting.
From S2P Require Import Prelude RustStr Cbor.

(** [serde_json::Number]: integers of [u64] or [i64], or a finite [f64] (by
    its bits). *)
Class JsonNumber := {
  Number : Type;
  num_as_u64 : Number → option Z;
  num_as_i64 : Number → option Z;
  num_as_f64 : Number → option Z;
  num_from_u64 : Z → Number;
  num_from_i64 : Z → Number;
  num_from_f64 : Z → option Number
}.

(** [f64::is_finite] on the bit pattern: the exponent is not all ones. *)
Definition is_finite (bits : Z) : bool := negb ((bits / 2 ^ 52) mod 2048 =? 2047).

Class JsonNumberLaws `{N : JsonNumber} : Prop := {
  from_u64_spec k : is_u64 k → num_as_u64 (num_from_u64 k) = Some k;
  as_u64_spec n k : num_as_u64 n = Some k → is_u64 k ∧ num_from_u64 k = n;
  as_i64_spec n z : num_as_u64 n = None → num_as_i64 n = Some z → i64_min ≤ z < 0 ∧ num_from_i64 z = n;
  as_f64_spec n : num_as_u64 n = None → num_as_i64 n = None →
    ∃ x, num_as_f64 n = Some x ∧ is_u64 x ∧ is_finite x = true ∧ num_from_f64 x = Some n
}.

Inductive JsonValue `{N : JsonNumber} :=
| JNull
| JBool (b : bool)
| JNumber (n : Number)
| JString (s : list Z)
| JArray (l : list JsonValue)
| JObject (l : list (list Z * JsonValue)).

(** ** [BTreeMap<String, _>] *)
Fixpoint btree_insert {A} (k : list Z) (v : A) (l : list (list Z * A)) : list (list Z * A) :=
  match l with
  | [] => [(k, v)]
  | (k', v') :: t =>
      if beq k k' then (k, v) :: t
      else if str_le k k' then (k, v) :: l
      else (k', v') :: btree_insert k v t
  end.

(** [iter.collect::<BTreeMap<_, _>>()]: later entries replace earlier ones. *)
Definition btree_collect {A} (l : list (list Z * A)) : list (list Z * A) :=
  fold_left (λ m kv, btree_insert kv.1 kv.2 m) l [].

Fixpoint btree_get {A} (k : list Z) (l : list (list Z * A)) : option A :=
  match l with
  | [] => None
  | (k', v) :: t => if beq k k' then Some v else btree_get k t
  end.

(** ** Accessors of [serde_json::Value] *)
Section Json_ops.
Context `{N : JsonNumber}.

Definition jget (v : JsonValue) (key : list Z) : option JsonValue :=
  match v with JObject l => btree_get key l | _ => None end.
Definition jas_u64 (v : JsonValue) : option Z :=
  match v with JNumber n => num_as_u64 n | _ => None end.
Definition jas_str (v : JsonValue) : option (list Z) :=
  match v with JString s => Some s | _ => None end.
Definition jas_object (v : JsonValue) : option (list (list Z * JsonValue)) :=
  match v with JObject l => Some l | _ => None end.

(** ** Conversions *)
Definition json_number_to_cbor (n : Number) : io Value :=
  match num_as_u64 n with
  | Some k => Ok (VUnsigned k)
  | None =>
      match num_as_i64 n with
      | Some z => Ok (VInteger z)
      | None =>
          match num_as_f64 n with
          | Some x =>
              if is_finite x then Ok (VFloat x)
              else Err (invalid_input (lit "messenger JSON contains a non-finite number"))
          | None => Err (invalid_input (lit "messenger JSON contains a non-finite number"))
          end
      end
  end.

Fixpoint json_to_cbor (v : JsonValue) : io Value :=
  match v with
  | JNull => Ok VNull
  | JBool b => Ok (VBool b)
  | JNumber n => json_number_to_cbor n
  | JString s => Ok (VText s)
  | JArray l => let? vs := map_result json_to_cbor l in Ok (VArray vs)
  | JObject l =>
      let? es := map_result (λ kv, let? w := json_to_cbor kv.2 in Ok (kv.1, w)) l in
      Ok (VMap es)
  end.

Fixpoint cbor_to_json (v : Value) : JsonValue :=
  match v with
  | VNull => JNull
  | VBool b => JBool b
  | VUnsigned n => JNumber (num_from_u64 n)
  | VInteger z => JNumber (num_from_i64 z)
  | VFloat x => match num_from_f64 x with Some n => JNumber n | None => JNull end
  | VBytes l => JArray (map (λ b, JNumber (num_from_u64 b)) l)
  | VText s => JString s
  | VArray l => JArray (map cbor_to_json l)
  | VMap l => JObject (btree_collect (map (λ kv, (kv.1, cbor_to_json kv.2)) l))
  end.
End Json_ops.

(** ** Sorted maps *)

(** The order of [BTreeMap] keys. *)
Definition str_lt (a b : list Z) : Prop := str_le a b = true ∧ a ≠ b.

Lemma str_lt_not_le a b : str_lt a b → str_le b a = false.
Proof.
  intros [H Hne]. destruct (str_le b a) eqn:E; [|done]. by destruct Hne; apply str_le_antisym.
Qed.

Lemma btree_insert_last {A} k (v : A) l :
  Forall (λ kv, str_lt kv.1 k) l → btree_insert k v l = l ++ [(k, v)].
Proof.
  induction 1 as [|[k' v'] l Hk Hl IH]; [done|]. cbn in *.
  rewrite (str_lt_not_le _ _ Hk), IH. destruct Hk as [_ Hne].
  unfold beq. by rewrite bool_decide_eq_false_2.
Qed.

(** Collecting entries whose keys increase keeps them as they are. *)
Lemma btree_collect_sorted {A} (l : list (list Z * A)) :
  StronglySorted (λ x y, str_lt x.1 y.1) l → btree_collect l = l.
Proof.
  intros H. unfold btree_collect. change l with ([] ++ l) in H at 1.
  change (fold_left (λ m kv, btree_insert kv.1 kv.2 m) l [] = [] ++ l).
  generalize dependent (@nil (list Z * A)).
  induction l as [|[k v] l IH]; intros acc H; cbn; [by rewrite app_nil_r|].
  apply StronglySorted_app in H as (Hlt & Hacc & Hl).
  inversion Hl as [|? ? Hl' Hk]; subst.
  rewrite btree_insert_last.
  - rewrite IH; [by rewrite <- app_assoc|]. rewrite <- app_assoc. cbn. apply StronglySorted_app. auto.
  - apply list.Forall_forall. intros x Hx. apply (Hlt x (k, v)); set_solver.
Qed.

(** ** Documents *)
Section Json_proofs.
Context `{NL : JsonNumberLaws}.

Section Json_induction.
  Variable P : JsonValue → Prop.
  Hypothesis Hnull : P JNull.
  Hypothesis Hbool : ∀ b, P (JBool b).
  Hypothesis Hnum : ∀ n, P (JNumber n).
  Hypothesis Hstr : ∀ s, P (JString s).
  Hypothesis Harr : ∀ l, Forall P l → P (JArray l).
  Hypothesis Hobj : ∀ l, Forall (λ kv, P kv.2) l → P (JObject l).

Fixpoint JsonValue_nested (v : JsonValue) : P v :=
    match v with
    | JNull => Hnull
    | JBool b => Hbool b
    | JNumber n => Hnum n
    | JString s => Hstr s
    | JArray l => Harr l
        ((fix go l : Forall P l :=
            match l with
            | [] => Forall_nil_2 _
            | x :: t => Forall_cons_2 _ _ _ (JsonValue_nested x) (go t)
            end) l)
    | JObject l => Hobj l
        ((fix go l : Forall (λ kv, P kv.2) l :=
            match l with
            | [] => Forall_nil_2 _
            | x :: t => Forall_cons_2 _ _ _ (JsonValue_nested x.2) (go t)
            end) l)
    end.
End Json_induction.

(** The documents a JSON parser builds: text is UTF-8, the keys of an object
    are sorted and distinct. *)
Fixpoint wf_json (v : JsonValue) : Prop :=
  match v with
  | JString s => is_bytes s ∧ utf8_valid s = true
  | JArray l => fold_right (λ x P, wf_json x ∧ P) True l
  | JObject l =>
      StronglySorted (λ x y, str_lt x.1 y.1) l ∧
      fold_right (λ kv P, (is_bytes kv.1 ∧ utf8_valid kv.1 = true ∧ wf_json kv.2) ∧ P) True l
  | _ => True
  end.

(** [v] translates to a value that decodes to itself and converts back. *)
Definition crosses (v : JsonValue) : Prop :=
  wf_json v → ∃ w, json_to_cbor v = Ok w ∧ wf_value w ∧ normalise w = w ∧ cbor_to_json w = v.

Lemma number_crosses n : crosses (JNumber n).
Proof.
  intros _. cbn. unfold json_number_to_cbor. destruct (num_as_u64 n) as [k|] eqn:E1.
  { apply as_u64_spec in E1 as [Hk <-]. by eexists. }
  destruct (num_as_i64 n) as [z|] eqn:E2.
  { apply as_i64_spec in E2 as [Hz <-]; [|done]. eexists. split; [done|]. cbn. zbool.
    split; [|done]. widths. lia. }
  destruct (as_f64_spec n E1 E2) as (x & -> & Hx & -> & Hf). eexists. split; [done|].
  cbn. by rewrite Hf.
Qed.

Lemma array_crosses l : Forall crosses l → crosses (JArray l).
Proof.
  intros Hl Hwf. cbn [wf_json] in Hwf. apply fold_and_Forall in Hwf.
  assert (∃ ws, map_result json_to_cbor l = Ok ws ∧ Forall wf_value ws ∧ map normalise ws = ws ∧
    map cbor_to_json ws = l) as (ws & E & Hw & Hn & Hj).
  { revert Hwf. induction Hl as [|v l Hv Hl IH]; intros Hwf; [by exists []|].
    apply Forall_cons_1 in Hwf as [Hwv Hwl]. destruct (Hv Hwv) as (w & Ew & Hw & Hn & Hj).
    destruct (IH Hwl) as (ws & Es & Hws & Hns & Hjs). exists (w :: ws). cbn. rewrite Ew, Es, Hn, Hns, Hj, Hjs.
    split_and!; try done. by constructor. }
  exists (VArray ws). cbn. rewrite E, Hn, Hj. split_and!; try done. by apply fold_and_Forall.
Qed.

Lemma object_crosses l : Forall (λ kv, crosses kv.2) l → crosses (JObject l).
Proof.
  intros Hl [Hs Hwf]. apply fold_and_Forall in Hwf.
  assert (∃ ws, map_result (λ kv : list Z * JsonValue, let? w := json_to_cbor kv.2 in Ok (kv.1, w)) l = Ok ws ∧
    Forall (λ kv, is_bytes kv.1 ∧ utf8_valid kv.1 = true ∧ wf_value kv.2) ws ∧
    map (λ kv, (kv.1, normalise kv.2)) ws = ws ∧
    map (λ kv, (kv.1, cbor_to_json kv.2)) ws = l) as (ws & E & Hw & Hn & Hj).
  { clear Hs. revert Hwf. induction Hl as [|[k v] l Hv Hl IH]; intros Hwf; [by exists []|].
    apply Forall_cons_1 in Hwf as [(Hk & Hu & Hwv) Hwl]. destruct (Hv Hwv) as (w & Ew & Hw & Hn & Hj).
    destruct (IH Hwl) as (ws & Es & Hws & Hns & Hjs). exists ((k, w) :: ws). cbn in *.
    rewrite Ew, Es, Hn, Hns, Hj, Hjs. split_and!; try done. by constructor. }
  exists (VMap ws). cbn [json_to_cbor normalise cbor_to_json]. rewrite E, Hn, Hj.
  split_and!; try done; [by apply fold_and_Forall|]. by rewrite btree_collect_sorted.
Qed.

Lemma json_crosses v : crosses v.
Proof.
  induction v using JsonValue_nested;
    [intros _; by eexists..|apply number_crosses| |by apply array_crosses|by apply object_crosses].
  intros Hwf. by eexists.
Qed.

(** A JSON document handed to the messenger survives the wire.  It always
    translates to CBOR; that value, within the decoder's limits, is decoded from
    its own encoding as it was, and translates back to the same document: object
    keys, number classes and text included. *)
Theorem json_wire_roundtrip v :
  wf_json v →
  ∃ w, json_to_cbor v = Ok w ∧ cbor_to_json w = v ∧
    (small_containers w → height w ≤ 64 → len (encode_cbor w) ≤ i64_max →
     decode_cbor (encode_cbor w) = Ok w).
Proof.
  intros H. destruct (json_crosses v H) as (w & E & Hw & Hn & Hj). exists w.
  split_and!; try done. intros. rewrite cbor_decode_encode by done. by rewrite Hn.
Qed.
End Json_proofs.

(** ** An instance of the number interface *)
Module Plain.

Definition is_neg (z : Z) : Prop := i64_min ≤ z < 0.
Definition is_float (x : Z) : Prop := is_u64 x ∧ is_finite x = true.
#[export] Instance is_u64_dec z : Decision (is_u64 z).
Proof. unfold is_u64. apply _. Defined.
#[export] Instance is_neg_dec z : Decision (is_neg z).
Proof. unfold is_neg. apply _. Defined.
#[export] Instance is_float_dec z : Decision (is_float z).
Proof. unfold is_float. apply _. Defined.

Inductive number := PosInt (n : dsig is_u64) | NegInt (z : dsig is_neg) | Float (x : dsig is_float).

Lemma zero_u64 : is_u64 0.
Proof. by_vm. Qed.

Definition from_u64 (n : Z) : number :=
  match decide (is_u64 n) with left H => PosInt (dexist n H) | right _ => PosInt (dexist 0 zero_u64) end.
Definition from_i64 (z : Z) : number :=
  match decide (is_neg z) with left H => NegInt (dexist z H) | right _ => from_u64 z end.
Definition from_f64 (x : Z) : option number :=
  match decide (is_float x) with left H => Some (Float (dexist x H)) | right _ => None end.

#[local] Instance plain_number : JsonNumber := {|
  Number := number;
  num_as_u64 n := match n with PosInt k => Some (`k) | _ => None end;
  num_as_i64 n := match n with
    | PosInt k => if `k <=? i64_max then Some (`k) else None
    | NegInt z => Some (`z)
    | Float _ => None
    end;
  num_as_f64 n := match n with Float x => Some (`x) | _ => None end;
  num_from_u64 := from_u64;
  num_from_i64 := from_i64;
  num_from_f64 := from_f64
|}.

Lemma plain_laws : JsonNumberLaws.
Proof.
  split.
  - intros k Hk. cbn. unfold from_u64. by destruct (decide (is_u64 k)).
  - intros [k|z|x] n H; cbn in *; simplify_eq. split; [apply (proj2_dsig k)|].
    unfold from_u64. destruct (decide (is_u64 (`k))) as [?|Hn];
      [f_equal; by apply dsig_eq|destruct Hn; apply (proj2_dsig k)].
  - intros [k|z|x] n H1 H2; cbn in *; simplify_eq. split; [apply (proj2_dsig z)|].
    unfold from_i64. destruct (decide (is_neg (`z))) as [?|Hn];
      [f_equal; by apply dsig_eq|destruct Hn; apply (proj2_dsig z)].
  - intros [k|z|x] H1 H2; cbn in *; simplify_eq. exists (`x). pose proof (proj2_dsig x) as [? ?].
    split_and!; try done. unfold from_f64. destruct (decide (is_float (`x))) as [?|Hn];
      [do 2 f_equal; by apply dsig_eq|by destruct Hn].
Qed.
End Plain.

Definition sample_json : @JsonValue Plain.plain_number :=
  @JObject Plain.plain_number
    [(lit "chat", @JString Plain.plain_number (lit "alice"));
     (lit "ids", @JArray Plain.plain_number
        [@JNumber Plain.plain_number (Plain.from_u64 7); @JNumber Plain.plain_number (Plain.from_i64 (-7))])].

Lemma json_wire_roundtrip_witness :
  ∃ w, json_to_cbor sample_json = Ok w ∧ cbor_to_json w = sample_json ∧
    decode_cbor (encode_cbor w) = Ok w.
Proof.
  destruct (@json_wire_roundtrip Plain.plain_number Plain.plain_laws sample_json) as (w & E & Hj & Hd).
  - split; [|repeat split; by_vm]. repeat constructor; by_vm.
  - exists w. split_and!; [done|done|].
    vm_compute in E. injection E as <-. apply Hd; vm_compute; intuition congruence.
Defined.
