(* ===== verification/Account.v ===== *)
(** * The account reactor (src/src/account.rs)

    [AccountClient] is shared by concurrent tasks: requests that reconnect and
    retry, changes of the credentials, and [close].  As for the connection, the
    model is a transition system.  [Account] holds the shared state and the
    position of every task; an [event] is one atomic access to the shared state,
    or the answer of something awaited (a connect, an authentication, a request,
    a sleep).  A [Client] is a number; [ac_clients] records the credentials it was
    authenticated with and whether its connection is closed, which can happen at
    any time ([EvDies]).  [ac_sent] is the history of the calls of
    [Client::request_cbor_with_options]; it is read by theorems only.

    Poisoned locks are not modelled: no code panics while it holds one.  The
    generation counter wraps as it does with overflow checks off. *)
From S2P Require Import Prelude RustStr Cbor Frame Types.

(** ** Configuration *)

(** Durations are milliseconds. *)
Record ClientOptions := mkClientOptions {
  connect_timeout : Z; read_timeout : Z; write_timeout : Z; nodelay : bool
}.

Definition default_client_options : ClientOptions := mkClientOptions 10000 40000 15000 true.

Record RequestOptions := mkRequestOptions {
  request_nonce : option (list Z);
  deadline_ms : option Z
}.

Definition default_request_options : RequestOptions := mkRequestOptions None None.
Definition with_request_nonce (o : RequestOptions) (n : list Z) : RequestOptions :=
  mkRequestOptions (Some n) (deadline_ms o).
Definition with_deadline_ms (o : RequestOptions) (d : Z) : RequestOptions :=
  mkRequestOptions (request_nonce o) (Some d).

Record AccountConfig := mkAccountConfig {
  cf_endpoint : list Z;
  cf_pinned_public_key_b64 : list Z;
  cf_token : list Z;
  cf_client_name : list Z;
  cf_device_model : list Z;
  cf_options : ClientOptions;
  cf_reconnect_min : Z;
  cf_reconnect_max : Z
}.

Definition account_config_new (endpoint key token client_name : list Z) : AccountConfig :=
  mkAccountConfig endpoint key token client_name [] default_client_options 500 60000.

Definition with_device_model (c : AccountConfig) (m : list Z) : AccountConfig :=
  mkAccountConfig (cf_endpoint c) (cf_pinned_public_key_b64 c) (cf_token c) (cf_client_name c) m
    (cf_options c) (cf_reconnect_min c) (cf_reconnect_max c).

(** [with_compiled_key], given the pin embedded in the build. *)
Definition with_compiled_key (compiled : io (list Z)) (endpoint token client_name : list Z) : io AccountConfig :=
  let? key := compiled in Ok (account_config_new endpoint key token client_name).

Inductive AccountEvent :=
| Connected (generation : Z)
| Disconnected (message : list Z) (retry_in : Z)
| AuthenticationInvalid (message : list Z)
| EventBatch (payload : list Z)
| ResyncRequired
| AccountClosed.

(** What [broadcast::Receiver::recv] returns to [AccountEventReceiver::recv]. *)
Inductive received := Received (e : AccountEvent) | Lagged | ChannelClosed.

Definition account_recv (r : received) : io AccountEvent :=
  match r with
  | Received e => Ok e
  | Lagged => Ok ResyncRequired
  | ChannelClosed => Err (IoError BrokenPipe (lit "MST5 account event queue closed"))
  end.

(** ** State *)

(** [token], [client_name], [device_model]. *)
Abbreviation Credentials := (list Z * list Z * list Z)%type.

Record client_info := mkClient { cl_credentials : Credentials; cl_generation : Z; cl_closed : bool }.

(** The arguments of a request, with its options after the nonce was chosen. *)
Record request := mkRequest {
  rq_kind : Z; rq_opcode : Z; rq_payload : list Z; rq_options : RequestOptions
}.

Inductive phase :=
(* request_cbor *)
| Top (r : request) (attempt : Z)                        (** head of the loop *)
| Peek (r : request) (attempt : Z)                       (** [connected], before the first look *)
| WaitLock (r : request) (attempt : Z)                   (** waits for [connect_lock] *)
| Peek2 (r : request) (attempt : Z)                      (** holds it, before the second look *)
| Connecting (r : request) (attempt : Z)                 (** in [Client::connect_with_options] *)
| ReadCreds (r : request) (attempt : Z)                  (** connected, before the credentials are read *)
| Authing (r : request) (attempt : Z) (cr : Credentials) (** in [authenticate_info_...] *)
| Install (r : request) (attempt : Z) (cr : Credentials) (** authenticated, not yet current *)
| Sent (r : request) (attempt g : Z) (cl : nat)          (** in [request_cbor_with_options] *)
| Invalidate (r : request) (attempt : Z) (e : io_error) (g : Z) (cl : nat)
| Dropping (r : request) (attempt : Z) (e : io_error) (victim : option nat)
| Retry (r : request) (attempt : Z) (e : io_error)
| Sleep (r : request) (attempt delay : Z)
| Returned (x : io Response)
(* set_credentials *)
| Changed
| ChangedDropping (victim : option nat)
| SetDone (x : io unit)
(* close *)
| Closing
| ClosingDrop (victim : option nat)
| CloseDone (x : io unit)
| Cancelled.                                             (** the future was dropped *)

Record Account := mkAccount {
  ac_config : AccountConfig;
  ac_credentials : Credentials;
  ac_current : option (Z * nat);
  ac_lock : option nat;                          (** task that holds [connect_lock] *)
  ac_generation : Z;
  ac_closed : bool;
  ac_events : list AccountEvent;                 (** events broadcast, oldest first *)
  ac_clients : list client_info;                 (** every client authenticated, by number *)
  ac_sent : list (nat * nat * request);          (** task, client, request *)
  ac_tasks : gmap nat phase
}.

Definition set_credentials_of x a := mkAccount (ac_config a) x (ac_current a) (ac_lock a) (ac_generation a) (ac_closed a) (ac_events a) (ac_clients a) (ac_sent a) (ac_tasks a).
Definition set_current x a := mkAccount (ac_config a) (ac_credentials a) x (ac_lock a) (ac_generation a) (ac_closed a) (ac_events a) (ac_clients a) (ac_sent a) (ac_tasks a).
Definition set_lock x a := mkAccount (ac_config a) (ac_credentials a) (ac_current a) x (ac_generation a) (ac_closed a) (ac_events a) (ac_clients a) (ac_sent a) (ac_tasks a).
Definition set_generation x a := mkAccount (ac_config a) (ac_credentials a) (ac_current a) (ac_lock a) x (ac_closed a) (ac_events a) (ac_clients a) (ac_sent a) (ac_tasks a).
Definition set_closed a := mkAccount (ac_config a) (ac_credentials a) (ac_current a) (ac_lock a) (ac_generation a) true (ac_events a) (ac_clients a) (ac_sent a) (ac_tasks a).
Definition send_event e a := mkAccount (ac_config a) (ac_credentials a) (ac_current a) (ac_lock a) (ac_generation a) (ac_closed a) (ac_events a ++ [e]) (ac_clients a) (ac_sent a) (ac_tasks a).
Definition set_clients x a := mkAccount (ac_config a) (ac_credentials a) (ac_current a) (ac_lock a) (ac_generation a) (ac_closed a) (ac_events a) x (ac_sent a) (ac_tasks a).
Definition add_sent x a := mkAccount (ac_config a) (ac_credentials a) (ac_current a) (ac_lock a) (ac_generation a) (ac_closed a) (ac_events a) (ac_clients a) (ac_sent a ++ [x]) (ac_tasks a).
Definition goto t p a := mkAccount (ac_config a) (ac_credentials a) (ac_current a) (ac_lock a) (ac_generation a) (ac_closed a) (ac_events a) (ac_clients a) (ac_sent a) (<[t := p]> (ac_tasks a)).

(** ** Helpers *)

Definition client_name_error : io_error := invalid_input (lit "client_name must contain at most 64 characters").

(** [AccountClient::new]. *)
Definition account_new (config : AccountConfig) : io Account :=
  fail_if (is_empty (trim (cf_endpoint config))) with invalid_input (lit "MST5 endpoint is empty");
  fail_if (64 <? len (chars (cf_client_name config))) with client_name_error;
  fail_if ((128 <? len (chars (cf_device_model config)))
           || existsb is_control (chars (cf_device_model config)))
    with invalid_input (lit "device_model must contain at most 128 printable characters");
  Ok (mkAccount config (cf_token config, cf_client_name config, trim (cf_device_model config))
        None None 0 false [] [] [] ∅).

Definition is_authentication_error (e : io_error) : bool :=
  bool_decide (ekind e = PermissionDenied)
  || contains_str (lit "UNAUTHENTICATED") (emsg e)
  || contains_str (lit "invalid credentials") (emsg e).

(** The full-jitter delay; [random] is what [getrandom] filled in, if it did. *)
Definition backoff (config : AccountConfig) (attempt : Z) (random : option (list Z)) : Z :=
  let min := as_u64 (Z.max (cf_reconnect_min config) 1) in
  let max := as_u64 (Z.max (cf_reconnect_max config) min) in
  let cap := Z.min (saturating_mul64 min (Z.shiftl 1 (Z.min attempt 16))) max in
  let value := match random with Some l => from_be (reverse l) | None => 0 end in
  value mod (saturating_add64 cap 1).

(** The nonce of a COMMAND that has none, chosen once before the loop. *)
Definition choose_nonce (frame_kind : Z) (options : RequestOptions) (random : io (list Z)) : io RequestOptions :=
  if (frame_kind =? kind.COMMAND) && bool_decide (request_nonce options = None) then
    let? nonce := map_err (λ e, IoError OtherKind (lit "OS CSPRNG failed: " ++ emsg e)) random in
    Ok (with_request_nonce options (if beq nonce (replicate 16 0) then 1 :: replicate 15 0 else nonce))
  else Ok options.

(** [take_current]: only the given generation, when there is one. *)
Definition take_current (generation : option Z) (a : Account) : option nat * Account :=
  if bool_decide (is_Some generation) && negb (bool_decide (option_map fst (ac_current a) = generation))
  then (None, a)
  else (option_map snd (ac_current a), set_current None a).

(** [Client::is_closed] and [Client::close]. *)
Definition client_closed (cl : nat) (a : Account) : bool :=
  match ac_clients a !! cl with Some i => cl_closed i | None => true end.
Definition shut (i : client_info) : client_info := mkClient (cl_credentials i) (cl_generation i) true.
Definition client_close (cl : nat) (a : Account) : Account := set_clients (alter shut cl (ac_clients a)) a.
Definition close_victim (victim : option nat) (a : Account) : Account :=
  match victim with Some cl => client_close cl a | None => a end.

Definition release (t : nat) (a : Account) : Account :=
  if decide (ac_lock a = Some t) then set_lock None a else a.

(** A usable connection, as [connected] looks for it. *)
Definition live_current (a : Account) : option (Z * nat) :=
  match ac_current a with
  | Some (g, cl) => if client_closed cl a then None else Some (g, cl)
  | None => None
  end.

(** The request goes out on connection [cl]. *)
Definition send_on (t : nat) (r : request) (n g : Z) (cl : nat) (a : Account) : Account :=
  add_sent (t, cl, r) (goto t (Sent r n g cl) a).

(** An authentication error ends the request and is announced. *)
Definition reject (t : nat) (e : io_error) (a : Account) : Account :=
  goto t (Returned (Err e)) (send_event (AuthenticationInvalid (emsg e)) a).

(** [connected] failed; its lock guard is dropped. *)
Definition connect_failed (t : nat) (r : request) (n : Z) (e : io_error) (a : Account) : Account :=
  let a := release t a in
  if is_authentication_error e then reject t e a else goto t (Retry r n e) a.

(** ** Steps *)

(** The end of [connected]: the new client becomes current. *)
Definition install (t : nat) (r : request) (n : Z) (cr : Credentials) (a : Account) : Account :=
  let g := as_u32 (ac_generation a + 1) in
  let cl := length (ac_clients a) in
  let a := set_generation g (set_clients (ac_clients a ++ [mkClient cr g false]) a) in
  let a := send_event (Connected g) (set_current (Some (g, cl)) a) in
  send_on t r n g cl (release t a).

(** The accesses to shared state that need no answer from outside. *)
Definition advance (t : nat) (a : Account) : option Account :=
  match ac_tasks a !! t with
  | Some (Top r n) =>
      Some (if ac_closed a
            then goto t (Returned (Err (IoError BrokenPipe (lit "MST5 account is closed")))) a
            else goto t (Peek r n) a)
  | Some (Peek r n) =>
      Some (match live_current a with
            | Some (g, cl) => send_on t r n g cl a
            | None => goto t (WaitLock r n) a
            end)
  | Some (WaitLock r n) =>
      match ac_lock a with
      | None => Some (goto t (Peek2 r n) (set_lock (Some t) a))
      | Some _ => None
      end
  | Some (Peek2 r n) =>
      Some (match live_current a with
            | Some (g, cl) => send_on t r n g cl (release t a)
            | None => goto t (Connecting r n) a
            end)
  | Some (ReadCreds r n) => Some (goto t (Authing r n (ac_credentials a)) a)
  | Some (Install r n cr) => Some (install t r n cr a)
  | Some (Invalidate r n e g _) =>
      let '(victim, a) := take_current (Some g) a in Some (goto t (Dropping r n e victim) a)
  | Some Changed =>
      let '(victim, a) := take_current None a in Some (goto t (ChangedDropping victim) a)
  | Some Closing =>
      let '(victim, a) := take_current None a in
      Some (goto t (ClosingDrop victim) (send_event AccountClosed a))
  | _ => None
  end.

(** [Client::connect_with_options] answers. *)
Definition on_connect (t : nat) (x : io unit) (a : Account) : option Account :=
  match ac_tasks a !! t with
  | Some (Connecting r n) =>
      Some (match x with Ok _ => goto t (ReadCreds r n) a | Err e => connect_failed t r n e a end)
  | _ => None
  end.

(** [authenticate_info_with_client_metadata] answers. *)
Definition on_auth (t : nat) (x : io unit) (a : Account) : option Account :=
  match ac_tasks a !! t with
  | Some (Authing r n cr) =>
      Some (match x with Ok _ => goto t (Install r n cr) a | Err e => connect_failed t r n e a end)
  | _ => None
  end.

(** [request_cbor_with_options] answers. *)
Definition on_response (t : nat) (x : io Response) (a : Account) : option Account :=
  match ac_tasks a !! t with
  | Some (Sent r n g cl) =>
      Some (match x with
            | Ok res =>
                goto t (Returned (Ok res))
                  (if rs_kind res =? kind.EVENT_BATCH then send_event (EventBatch (rs_payload res)) a else a)
            | Err e => if is_authentication_error e then reject t e a else goto t (Invalidate r n e g cl) a
            end)
  | _ => None
  end.

(** [client.close().await] of [invalidate] and [close] answers. *)
Definition on_dropped (t : nat) (x : io unit) (a : Account) : option Account :=
  match ac_tasks a !! t with
  | Some (Dropping r n e v) => Some (goto t (Retry r n e) (close_victim v a))
  | Some (ChangedDropping v) => Some (goto t (SetDone (Ok tt)) (close_victim v a))
  | Some (ClosingDrop v) =>
      Some (goto t (CloseDone (match v with Some _ => x | None => Ok tt end)) (close_victim v a))
  | _ => None
  end.

(** The end of a failed turn; [expired] is [started.elapsed() >= max_elapsed]. *)
Definition on_retry (t : nat) (expired : bool) (random : option (list Z)) (a : Account) : option Account :=
  match ac_tasks a !! t with
  | Some (Retry r n e) =>
      Some (if expired then goto t (Returned (Err e)) a
            else
              let delay := backoff (ac_config a) n random in
              goto t (Sleep r (saturating_add32 n 1) delay) (send_event (Disconnected (emsg e) delay) a))
  | _ => None
  end.

Definition on_wake (t : nat) (a : Account) : option Account :=
  match ac_tasks a !! t with
  | Some (Sleep r n _) => Some (goto t (Top r n) a)
  | _ => None
  end.

(** Calls of the public methods. *)
Definition call_request (t : nat) (k opcode : Z) (payload : list Z) (options : RequestOptions)
    (random : io (list Z)) (a : Account) : option Account :=
  match ac_tasks a !! t with
  | Some _ => None
  | None =>
      Some (match choose_nonce k options random with
            | Err e => goto t (Returned (Err e)) a
            | Ok options => goto t (Top (mkRequest k opcode payload options) 0) a
            end)
  end.

Definition call_set_credentials (t : nat) (token client_name : list Z) (a : Account) : option Account :=
  match ac_tasks a !! t with
  | Some _ => None
  | None =>
      Some (if 64 <? len (chars client_name) then goto t (SetDone (Err client_name_error)) a
            else
              let '(old_token, old_name, model) := ac_credentials a in
              if negb (beq old_token token) || negb (beq old_name (trim client_name))
              then goto t Changed (set_credentials_of (token, trim client_name, model) a)
              else goto t (SetDone (Ok tt)) a)
  end.

Definition call_close (t : nat) (a : Account) : option Account :=
  match ac_tasks a !! t with
  | Some _ => None
  | None => Some (goto t Closing (set_closed a))
  end.

(** The phases in which a task waits, and so can be dropped. *)
Definition at_await (p : phase) : bool :=
  match p with
  | WaitLock _ _ | Connecting _ _ | Authing _ _ _ | Sent _ _ _ _ | Dropping _ _ _ _ | Sleep _ _ _
  | ChangedDropping _ | ClosingDrop _ => true
  | _ => false
  end.

Definition cancel (t : nat) (a : Account) : option Account :=
  match ac_tasks a !! t with
  | Some p => if at_await p then Some (goto t Cancelled (release t a)) else None
  | None => None
  end.

Inductive event :=
| EvRequest (t : nat) (k opcode : Z) (payload : list Z) (options : RequestOptions) (random : io (list Z))
| EvSetCredentials (t : nat) (token client_name : list Z)
| EvClose (t : nat)
| EvStep (t : nat)
| EvConnect (t : nat) (x : io unit)
| EvAuth (t : nat) (x : io unit)
| EvResponse (t : nat) (x : io Response)
| EvDropped (t : nat) (x : io unit)
| EvRetry (t : nat) (expired : bool) (random : option (list Z))
| EvWake (t : nat)
| EvCancel (t : nat)
| EvDies (cl : nat).

Definition step (ev : event) (a : Account) : option Account :=
  match ev with
  | EvRequest t k o p opts random => call_request t k o p opts random a
  | EvSetCredentials t token name => call_set_credentials t token name a
  | EvClose t => call_close t a
  | EvStep t => advance t a
  | EvConnect t x => on_connect t x a
  | EvAuth t x => on_auth t x a
  | EvResponse t x => on_response t x a
  | EvDropped t x => on_dropped t x a
  | EvRetry t expired random => on_retry t expired random a
  | EvWake t => on_wake t a
  | EvCancel t => cancel t a
  | EvDies cl => Some (client_close cl a)
  end.

Fixpoint run (evs : list event) (a : Account) : option Account :=
  match evs with
  | [] => Some a
  | ev :: t => match step ev a with Some a' => run t a' | None => None end
  end.
