(* ===== verification/Messenger.v ===== *)
(** * The messenger core (src/src/messenger.rs)

    The JSON command boundary on top of the account reactor: the choice of the
    endpoint by transport mode, the translation of a JSON command to an MST5 request
    and of the response to JSON, the group envelopes of E2E messages, and the
    persistent session file.  serde_json is the interface [SerdeJson]; the
    [SessionStorage] runs on the file system of [Fs]. *)
From stdpp Require Import sorting.
From S2P Require Import Prelude RustStr Cbor Frame Crypto Fs E2E Media Codec Types Ops Json Account.

(** ** Transport modes *)
Inductive TransportMode := TAuto | TMst5 | TM5oh.

#[export] Instance TransportMode_eq_dec : EqDecision TransportMode.
Proof. solve_decision. Defined.

Definition transport_parse (value : list Z) : TransportMode :=
  let v := to_ascii_lowercase (trim value) in
  if beq v (lit "mst5") then TMst5
  else if beq v (lit "m5oh") || beq v (lit "m5ohs") then TM5oh
  else TAuto.

Definition transport_as_str (m : TransportMode) : list Z :=
  match m with TAuto => lit "auto" | TMst5 => lit "mst5" | TM5oh => lit "m5oh" end.

Definition is_m5oh (value : list Z) : bool :=
  let lower := to_ascii_lowercase value in
  starts_with (lit "http://") lower || starts_with (lit "https://") lower.

(** The non-empty candidates of an endpoint chain. *)
Definition endpoint_candidates (configured : list Z) : list (list Z) :=
  List.filter (λ v, negb (is_empty v)) (map trim (split_on 124 configured)).

Definition selected_endpoints (candidates : list (list Z)) (mode : TransportMode) : list (list Z) :=
  match mode with
  | TAuto => List.filter (λ c, negb (is_m5oh c)) candidates ++ List.filter is_m5oh candidates
  | TMst5 => List.filter (λ c, negb (is_m5oh c)) candidates
  | TM5oh => List.filter is_m5oh candidates
  end.

Definition select_endpoint (configured : list Z) (mode : TransportMode) : io (list Z) :=
  let candidates := endpoint_candidates configured in
  fail_if (is_empty candidates) with invalid_input (lit "MST5 endpoint list is empty");
  let selected := selected_endpoints candidates mode in
  fail_if (is_empty selected) with invalid_input
    (match mode with
     | TAuto => lit "MST5 endpoint list is empty"
     | TMst5 => lit "no MST5 endpoint is configured"
     | TM5oh => lit "no M5oH endpoint is configured"
     end);
  Ok (join [124] selected).

(** ** Configuration *)
Record MessengerConfig := mkMessengerConfig {
  mc_endpoint : list Z;
  mc_pinned_public_key_b64 : list Z;
  mc_device_model : list Z;
  mc_transport_mode : TransportMode;
  mc_client_name : list Z
}.

Definition messenger_config_new (endpoint key model : list Z) (mode : TransportMode) : MessengerConfig :=
  mkMessengerConfig endpoint key model mode (lit "OVE.rs Android").

Record MessengerCore := mkMessengerCore {
  ms_account : Account;
  ms_endpoint : list Z;
  ms_transport_mode : TransportMode
}.

(** [MessengerCore::new]. *)
Definition messenger_new (config : MessengerConfig) : io MessengerCore :=
  let? endpoint := select_endpoint (mc_endpoint config) (mc_transport_mode config) in
  let base := with_device_model
    (account_config_new endpoint (mc_pinned_public_key_b64 config) [] (mc_client_name config))
    (mc_device_model config) in
  let account_config := mkAccountConfig (cf_endpoint base) (cf_pinned_public_key_b64 base) (cf_token base)
    (cf_client_name base) (cf_device_model base)
    (mkClientOptions (connect_timeout (cf_options base)) 120000 30000 (nodelay (cf_options base)))
    (cf_reconnect_min base) (cf_reconnect_max base) in
  let? account := account_new account_config in
  Ok (mkMessengerCore account endpoint (mc_transport_mode config)).

(** ** Operations *)
Definition operation_table : list ((list Z * list Z) * Z) := [
  ((lit "POST", lit "/register"), op.REGISTER);
  ((lit "POST", lit "/login"), op.LOGIN);
  ((lit "POST", lit "/auth/email/start"), op.EMAIL_AUTH_START);
  ((lit "POST", lit "/auth/email/verify"), op.EMAIL_AUTH_VERIFY);
  ((lit "POST", lit "/auth/qr/start"), op.QR_LOGIN_START);
  ((lit "GET", lit "/auth/qr/poll"), op.QR_LOGIN_POLL);
  ((lit "POST", lit "/auth/qr/approve"), op.QR_LOGIN_APPROVE);
  ((lit "GET", lit "/me"), op.ME);
  ((lit "POST", lit "/account/delete"), op.ACCOUNT_DELETE);
  ((lit "GET", lit "/account/inactivity"), op.ACCOUNT_INACTIVITY_GET);
  ((lit "POST", lit "/account/inactivity"), op.ACCOUNT_INACTIVITY_SET);
  ((lit "POST", lit "/username"), op.SET_USERNAME);
  ((lit "POST", lit "/name"), op.SET_NAME);
  ((lit "POST", lit "/privacy"), op.SET_PRIVACY);
  ((lit "GET", lit "/contacts"), op.CONTACTS);
  ((lit "POST", lit "/contacts/add"), op.CONTACT_ADD);
  ((lit "POST", lit "/contacts/delete"), op.CONTACT_DELETE);
  ((lit "POST", lit "/groups"), op.CREATE_GROUP);
  ((lit "POST", lit "/channels"), op.CREATE_CHANNEL);
  ((lit "POST", lit "/chats/title"), op.SET_CHAT_TITLE);
  ((lit "POST", lit "/channels/username"), op.SET_CHANNEL_USERNAME);
  ((lit "POST", lit "/channels/comments/settings"), op.SET_CHANNEL_COMMENTS);
  ((lit "POST", lit "/channels/comments/send"), op.SEND_CHANNEL_COMMENT);
  ((lit "GET", lit "/channels/comments"), op.CHANNEL_COMMENTS);
  ((lit "POST", lit "/chats/members/add"), op.ADD_CHAT_MEMBER);
  ((lit "POST", lit "/chats/members/remove"), op.REMOVE_CHAT_MEMBER);
  ((lit "POST", lit "/cloud-password"), op.SET_CLOUD_PASSWORD);
  ((lit "POST", lit "/cloud-password/reset"), op.RESET_CLOUD_PASSWORD);
  ((lit "GET", lit "/sessions"), op.SESSIONS);
  ((lit "POST", lit "/sessions/revoke"), op.REVOKE_SESSION);
  ((lit "POST", lit "/sessions/revoke-others"), op.REVOKE_OTHER_SESSIONS);
  ((lit "POST", lit "/bots"), op.CREATE_BOT);
  ((lit "POST", lit "/bots/token/reset"), op.RESET_BOT_TOKEN);
  ((lit "GET", lit "/bots/commands"), op.BOT_COMMANDS);
  ((lit "GET", lit "/stickers/packs"), op.STICKER_PACKS);
  ((lit "GET", lit "/stickers/pack"), op.STICKER_PACK);
  ((lit "POST", lit "/stickers/packs"), op.STICKER_CREATE);
  ((lit "POST", lit "/stickers/packs/purchase"), op.STICKER_PURCHASE);
  ((lit "POST", lit "/stickers/send"), op.STICKER_SEND);
  ((lit "POST", lit "/stickers/packs/price"), op.STICKER_PRICE);
  ((lit "POST", lit "/e2e/key"), op.SET_E2E_KEY);
  ((lit "GET", lit "/e2e/key"), op.GET_E2E_KEY);
  ((lit "POST", lit "/e2e/backup"), op.SET_E2E_BACKUP);
  ((lit "GET", lit "/e2e/backup"), op.GET_E2E_BACKUP);
  ((lit "POST", lit "/e2e/reset"), op.RESET_E2E);
  ((lit "GET", lit "/wallet"), op.WALLET);
  ((lit "POST", lit "/wallet/send"), op.WALLET_SEND);
  ((lit "GET", lit "/wallet/history"), op.WALLET_HISTORY);
  ((lit "POST", lit "/call"), op.CALL);
  ((lit "POST", lit "/voice-ticket"), op.VOICE_TICKET);
  ((lit "GET", lit "/voice/participants"), op.VOICE_PARTICIPANTS);
  ((lit "POST", lit "/send"), op.SEND);
  ((lit "POST", lit "/edit"), op.EDIT);
  ((lit "POST", lit "/pin"), op.PIN);
  ((lit "POST", lit "/polls/vote"), op.POLL_VOTE);
  ((lit "GET", lit "/chats/favorites"), op.CHAT_FAVORITES);
  ((lit "POST", lit "/chats/favorite"), op.CHAT_FAVORITE);
  ((lit "POST", lit "/callback"), op.CALLBACK);
  ((lit "POST", lit "/reactions"), op.REACT);
  ((lit "POST", lit "/reactions/paid"), op.REACT_PAID);
  ((lit "POST", lit "/read"), op.READ);
  ((lit "POST", lit "/delete"), op.DELETE);
  ((lit "POST", lit "/favorite"), op.FAVORITE);
  ((lit "GET", lit "/nodes/status"), op.NODES_STATUS);
  ((lit "GET", lit "/chats"), op.CHATS);
  ((lit "POST", lit "/chats/delete"), op.DELETE_CHAT);
  ((lit "POST", lit "/users/ban"), op.BAN_USER);
  ((lit "POST", lit "/users/unban"), op.UNBAN_USER);
  ((lit "GET", lit "/history"), op.HISTORY);
  ((lit "GET", lit "/updates"), op.SYNC);
  ((lit "GET", lit "/oauth/device/request"), op.OAUTH_DEVICE_REQUEST);
  ((lit "POST", lit "/oauth/device/decision"), op.OAUTH_DEVICE_DECISION);
  ((lit "GET", lit "/file/ticket"), op.FILE_TICKET);
  ((lit "POST", lit "/forward"), op.FORWARD);
  ((lit "POST", lit "/media/quote"), op.MEDIA_QUOTE);
  ((lit "POST", lit "/messages/prepare"), op.MESSAGE_PREPARE);
  ((lit "POST", lit "/messages/commit"), op.MESSAGE_COMMIT);
  ((lit "POST", lit "/messages/cancel"), op.MESSAGE_CANCEL);
  ((lit "POST", lit "/avatars/prepare"), op.AVATAR_PREPARE);
  ((lit "POST", lit "/avatars/commit"), op.AVATAR_COMMIT);
  ((lit "POST", lit "/avatars/delete"), op.AVATAR_DELETE);
  ((lit "POST", lit "/profiles/description"), op.SET_PROFILE_DESCRIPTION)
].

Fixpoint find_operation (key : list Z * list Z) (l : list ((list Z * list Z) * Z)) : option Z :=
  match l with
  | [] => None
  | (k, o) :: t => if bool_decide (k = key) then Some o else find_operation key t
  end.

Definition operation (method path : list Z) : io Z :=
  match find_operation (method, path) operation_table with
  | Some o => Ok o
  | None => Err (invalid_input (lit "unsupported MST5 operation " ++ method ++ [32] ++ path))
  end.

Definition split_query (path : list Z) : list Z * option (list Z) :=
  match split_once 63 path with
  | Some (p, q) => (p, Some q)
  | None => (path, None)
  end.

(** ** The JSON library *)
Record SessionDocument := mkSessionDocument { sd_version : Z; sd_values : list (list Z * list Z) }.

(** [serde_json::from_str], [to_string] and [Value::to_string], and the derived
    (de)serialisers of the session file; a failure carries its message. *)
Class SerdeJson `{JsonNumber} := {
  from_str : list Z → result (list Z) JsonValue;
  json_to_string : JsonValue → result (list Z) (list Z);
  json_display : JsonValue → list Z;
  values_from_str : list Z → result (list Z) (list (list Z * list Z));
  document_from_slice : list Z → result (list Z) SessionDocument;
  document_to_vec : SessionDocument → result (list Z) (list Z)
}.

Section Commands.
Context `{J : SerdeJson}.

Definition string_field (object : list (list Z * JsonValue)) (key : list Z) : io (list Z) :=
  match btree_get key object with
  | Some v => ok_or (jas_str v) (invalid_input (lit "messenger JSON command is missing string " ++ key))
  | None => Err (invalid_input (lit "messenger JSON command is missing string " ++ key))
  end.

Definition string_field_or (object : list (list Z * JsonValue)) (key fallback : list Z) : list Z :=
  match btree_get key object with
  | Some v => default fallback (jas_str v)
  | None => fallback
  end.

(** ** [command_json]: the request it makes and the reply it builds *)
Record command := mkCommand {
  cm_token : list Z; cm_kind : Z; cm_opcode : Z; cm_payload : list Z; cm_deadline_ms : Z
}.

(** From the JSON text to the call of [request_cbor]; [now] is the clock. *)
Definition command_request (source : list Z) (now : Z) : io command :=
  let? input := map_err (λ e, invalid_input (lit "invalid messenger JSON command: " ++ e)) (from_str source) in
  let? object := ok_or (jas_object input) (invalid_input (lit "messenger JSON command must be an object")) in
  let? token := string_field object (lit "token") in
  let method := to_ascii_uppercase (string_field_or object (lit "method") (lit "GET")) in
  let raw_path := string_field_or object (lit "path") (lit "/") in
  let timeout_ms := clamp 1 120000
    (match btree_get (lit "timeout_ms") object with Some v => default 10000 (jas_u64 v) | None => 10000 end) in
  let '(path, query) := split_query raw_path in
  let? opcode := operation method path in
  let is_get := beq method (lit "GET") in
  let frame_kind := if is_get then kind.QUERY else kind.COMMAND in
  let payload_json :=
    if is_get then
      match query with
      | Some q => if is_empty q then JObject [] else JObject [(lit "query", JString q)]
      | None => JObject []
      end
    else default (JObject []) (btree_get (lit "body") object) in
  let? value := json_to_cbor payload_json in
  Ok (mkCommand token frame_kind opcode (encode_cbor value) (saturating_add64 now timeout_ms)).

(** From the response to the JSON text. *)
Definition command_reply (r : Response) : io (list Z) :=
  let? body := map_err (λ e, invalid_data (lit "invalid MST5 CBOR response: " ++ emsg e)) (decode_cbor (rs_payload r)) in
  map_err (λ e, IoError OtherKind (lit "cannot encode messenger JSON response: " ++ e))
    (json_to_string (JObject (btree_collect
       [(lit "kind", JNumber (num_from_u64 (rs_kind r)));
        (lit "code", JNumber (num_from_u64 (rs_status r)));
        (lit "body", cbor_to_json body)]))).

(** The events of [MessengerCore::request_cbor] on the account: [t1] sets the
    credentials, then [t2] makes the request. *)
Definition command_calls (t1 t2 : nat) (c : command) (random : io (list Z)) : list event :=
  [EvSetCredentials t1 (cm_token c) (lit "OVE.rs Android");
   EvRequest t2 (cm_kind c) (cm_opcode c) (cm_payload c)
     (with_deadline_ms default_request_options (cm_deadline_ms c)) random].
End Commands.

(** ** Group envelopes *)
Section Groups.
Context `{J : SerdeJson} `{C : Crypto} `{D : Decompressors}.

Definition invalid_group : io_error := invalid_data (lit "invalid group E2E envelope").
Definition invalid_group_media : io_error := invalid_data (lit "invalid group media envelope").

(** [value.get(key).and_then(f)]. *)
Definition jfield {A} (v : JsonValue) (key : list Z) (f : JsonValue → option A) : option A :=
  match jget v key with Some x => f x | None => None end.

(** The envelope of one recipient. *)
Definition group_entry (entry : JsonValue) : io Envelope :=
  let? version := ok_or (jfield entry (lit "version") jas_u64) invalid_group in
  fail_if (negb (version =? 3) && negb (version =? 4)) with invalid_group;
  let? nonce_text := ok_or (jfield entry (lit "nonce") jas_str) invalid_group in
  let? nonce := decode_base64 nonce_text in
  fail_if (negb (len nonce =? 24)) with invalid_group;
  let? ciphertext_text := ok_or (jfield entry (lit "ciphertext") jas_str) invalid_group in
  let? ciphertext := decode_base64 ciphertext_text in
  let? tag :=
    match jfield entry (lit "tag") jas_str with
    | Some tag =>
        if is_empty tag then Ok []
        else let? tag := decode_base64 tag in
             fail_if (negb (len tag =? 16)) with invalid_group; Ok tag
    | None => Ok []
    end in
  Ok (mkEnvelope (as_u8 version) nonce (ciphertext ++ tag)).

Definition open_group_message (identity : Identity) (sender_key sender recipient raw : list Z) : io (list Z) :=
  fail_if ((16 * 1024 * 1024 <? len raw) || is_empty recipient || (64 <? len recipient)) with invalid_group;
  let? value := map_err (λ _, invalid_group) (from_str raw) in
  fail_if (negb (bool_decide (jfield value (lit "version") jas_u64 = Some 5))) with invalid_group;
  let? recipients := ok_or (jfield value (lit "recipients") jas_object) invalid_group in
  fail_if (is_empty recipients || (256 <? len recipients)) with invalid_group;
  let? entry := ok_or (btree_get recipient recipients)
                  (IoError PermissionDenied (lit "group E2E recipient is unavailable")) in
  let? envelope := group_entry entry in
  open_group identity sender_key sender recipient (mkGroupEnvelope 5 {[recipient := envelope]}).

Definition group_media_decryptor (identity : Identity) (sender_key sender recipient raw : list Z) : io MediaDecryptor :=
  fail_if (16 * 1024 * 1024 <? len raw) with invalid_group_media;
  let? value := map_err (λ _, invalid_group_media) (from_str raw) in
  fail_if (negb (bool_decide (jfield value (lit "version") jas_u64 = Some 5))) with invalid_group_media;
  let? media := ok_or (jfield value (lit "media") jas_object) invalid_group_media in
  let? recipients := ok_or (btree_get (lit "key_recipients") media) invalid_group_media in
  let wrapped := json_display (JObject (btree_collect
    [(lit "version", JNumber (num_from_u64 5)); (lit "recipients", recipients)])) in
  let? key := open_group_message identity sender_key sender recipient wrapped in
  fail_if (negb (len key =? 32)) with invalid_group_media;
  let? aad :=
    match btree_get (lit "aad") media with
    | None => Ok []
    | Some value =>
        let? value := ok_or (jas_str value) invalid_group_media in
        if is_empty value then Ok [] else decode_base64 value
    end in
  decryptor_with_key key aad.
End Groups.

(** ** The session file *)
Definition SESSION_FILE : list Z := lit "mst5-messenger-session-v1.json".
Definition SESSION_VERSION : Z := 1.
Definition MAX_SESSION_BYTES : Z := 1024 * 1024.
Definition MAX_SESSION_KEY_CHARS : Z := 256.
Definition MAX_SESSION_VALUE_BYTES : Z := 256 * 1024.

Record SessionStorage := mkSession {
  ss_path : Path; ss_values : list (list Z * list Z); ss_exists : bool
}.

Fixpoint validate_session_values (values : list (list Z * list Z)) : io unit :=
  match values with
  | [] => Ok tt
  | (key, value) :: t =>
      fail_if (is_empty key || (MAX_SESSION_KEY_CHARS <? len (chars key)) || existsb is_control (chars key))
        with invalid_input (lit "invalid messenger session key");
      fail_if ((MAX_SESSION_VALUE_BYTES <? len value) || contains_byte 0 value)
        with invalid_input (lit "invalid messenger session value");
      validate_session_values t
  end.

(** [Path::with_extension]: the part after the last dot is replaced. *)
Definition with_extension (p : Path) (ext : list Z) : Path :=
  match file_name p with
  | Some name =>
      let stem := match rsplit_once 46 name with
                  | Some (s, _) => if is_empty s then name else s
                  | None => name
                  end in
      mkPath (parent p) (Some (stem ++ [46] ++ ext))
  | None => p
  end.

(** [fs::read] and [fs::write]. *)
Definition fs_read_all (p : Path) : fs_io (list Z) := λ s,
  fs_read p (len (default [] (fs_files s !! path_key p))) s.
Definition fs_write (p : Path) (bytes : list Z) : fs_io unit :=
  do? _ := fs_create p in fs_append p bytes.

(** A result without effects. *)
Definition fs_lift {A} (r : io A) : fs_io A := λ s, (r, s).

Section Sessions.
Context `{J : SerdeJson}.

(** [SessionStorage::open]; [root] is the directory. *)
Definition session_open (root : list Z) : fs_io SessionStorage :=
  if is_empty root then fs_err (invalid_input (lit "messenger session storage root is empty"))
  else
    do? _ := fs_touch in
    let path := mkPath (Some root) (Some SESSION_FILE) in
    λ s,
    if negb (fs_exists path s) then (Ok (mkSession path [] false), s)
    else
      (do? raw := fs_read_all path in
       if MAX_SESSION_BYTES <? len raw then fs_err (invalid_data (lit "messenger session file exceeds size limit"))
       else
         do? document := fs_lift (map_err (λ e, invalid_data (lit "invalid messenger session file: " ++ e))
                                    (document_from_slice raw)) in
         if negb (sd_version document =? SESSION_VERSION)
         then fs_err (invalid_data (lit "unsupported messenger session file version"))
         else
           do? _ := fs_lift (validate_session_values (sd_values document)) in
           fs_ret (mkSession path (sd_values document) true)) s.

Definition snapshot_json (st : SessionStorage) : io (list Z) :=
  map_err (λ e, IoError OtherKind (lit "cannot encode session snapshot: " ++ e))
    (json_to_string (JObject (btree_collect
       [(lit "version", JNumber (num_from_u64 SESSION_VERSION));
        (lit "exists", JBool (ss_exists st));
        (lit "values", JObject (map (λ kv, (kv.1, JString kv.2)) (ss_values st)))]))).

(** [SessionStorage::replace_json]: the storage it leaves is returned also when
    it fails. *)
Definition session_temporary (st : SessionStorage) : Path := with_extension (ss_path st) (lit "json.tmp").

(** The checks and the encoding before anything is written. *)
Definition session_encode (raw : list Z) : io (list (list Z * list Z) * list Z) :=
  let? values := map_err (λ e, invalid_input (lit "invalid messenger session JSON: " ++ e)) (values_from_str raw) in
  let? _ := validate_session_values values in
  let? encoded := map_err (λ e, IoError OtherKind (lit "cannot encode messenger session: " ++ e))
                    (document_to_vec (mkSessionDocument SESSION_VERSION values)) in
  fail_if (MAX_SESSION_BYTES <? len encoded) with invalid_input (lit "messenger session exceeds size limit");
  Ok (values, encoded).

Definition replace_json (raw : list Z) (st : SessionStorage) (s : Fs) : io unit * SessionStorage * Fs :=
  match session_encode raw with
  | Err e => (Err e, st, s)
  | Ok (values, encoded) =>
      let '(r, s) := (do? _ := fs_write (session_temporary st) encoded in
                      fs_rename (session_temporary st) (ss_path st)) s in
      match r with
      | Err e => (Err e, st, s)
      | Ok _ => (Ok tt, mkSession (ss_path st) values true, s)
      end
  end.
End Sessions.
