(* ===== verification/MessengerProofs.v ===== *)
(** * The messenger core: correctness

    Transport selection obeys the mode and is stable, the operation table is
    unambiguous, a command becomes the request it describes, a group envelope
    opened through JSON is the one that was sealed, and the session file is
    replaced atomically and read back as written. *)
From stdpp Require Import sorting.
From S2P Require Import Prelude RustStr Cbor Frame Crypto Fs E2E Media Codec Types Ops Json Account Messenger.

(** ** Trimming *)

Lemma char_chunks_drop l x ys : char_chunks l = x :: ys → char_chunks (concat (map snd ys)) = ys.
Proof.
  destruct l as [|b0 t]; [done|]; cbn [char_chunks].
  destruct (b0 <? 128); [intros; simplify_eq; by rewrite char_chunks_concat|].
  destruct t as [|b1 t1]; [intros; by simplify_eq|].
  destruct (b0 <? 224); [intros; simplify_eq; by rewrite char_chunks_concat|].
  destruct t1 as [|b2 t2]; [intros; by simplify_eq|].
  destruct (b0 <? 240); [intros; simplify_eq; by rewrite char_chunks_concat|].
  destruct t2 as [|b3 t3]; intros; simplify_eq; [done|by rewrite char_chunks_concat].
Qed.

Lemma char_chunks_suffix l xs ys : char_chunks l = xs ++ ys → char_chunks (concat (map snd ys)) = ys.
Proof.
  revert l. induction xs as [|x xs IH]; intros l H; cbn in H.
  - rewrite <- H. by rewrite char_chunks_concat.
  - pose proof (char_chunks_drop _ _ _ H) as Hd. by eapply IH.
Qed.

Lemma char_chunks_prefix l xs ys : char_chunks l = xs ++ ys → char_chunks (concat (map snd xs)) = xs.
Proof.
  revert xs ys. remember (length l) as n eqn:Hn. revert l Hn.
  induction n as [n IH] using lt_wf_ind; intros l -> xs ys H.
  destruct xs as [|x xs]; [done|]. cbn in H.
  assert (∀ t, (length t < length l)%nat → char_chunks t = xs ++ ys → char_chunks (concat (map snd xs)) = xs) as IH'.
  { intros t Ht E. by apply (IH (length t) Ht t eq_refl xs ys). }
  clear IH. destruct l as [|b0 t]; [done|]; cbn [char_chunks] in H.
  destruct (b0 <? 128) eqn:E0.
  { injection H as <- H. cbn. rewrite E0. f_equal. apply (IH' t); [simpl; lia|done]. }
  destruct t as [|b1 t1].
  { injection H as <- H. destruct xs; [|done]. cbn. by rewrite E0. }
  destruct (b0 <? 224) eqn:E1.
  { injection H as <- H. cbn. rewrite E0, E1. f_equal. apply (IH' t1); [simpl; lia|done]. }
  destruct t1 as [|b2 t2].
  { injection H as <- H. destruct xs; [|done]. cbn. by rewrite E0, E1. }
  destruct (b0 <? 240) eqn:E2.
  { injection H as <- H. cbn. rewrite E0, E1, E2. f_equal. apply (IH' t2); [simpl; lia|done]. }
  destruct t2 as [|b3 t3]; injection H as <- H.
  - destruct xs; [|done]. cbn. by rewrite E0, E1, E2.
  - cbn. rewrite E0, E1, E2. f_equal. apply (IH' t3); [simpl; lia|done].
Qed.

Lemma drop_while_split {A} (p : A → bool) l :
  ∃ xs, l = xs ++ drop_while p l ∧ (∀ y ys, drop_while p l = y :: ys → p y = false).
Proof.
  induction l as [|a l (xs & E & Hl)]; [by exists []|]. cbn. destruct (p a) eqn:Ea.
  - exists (a :: xs). cbn. split; [by f_equal|done].
  - exists []. split; [done|]. intros. by simplify_eq.
Qed.

Lemma drop_while_stop {A} (p : A → bool) y ys : p y = false → drop_while p (y :: ys) = y :: ys.
Proof. intros H. cbn. by rewrite H. Qed.

(** The characters [trim] keeps: a middle part that starts and ends with none of
    the characters dropped. *)
Lemma trim_middle l :
  ∃ xs ms ys, char_chunks l = xs ++ ms ++ ys ∧ trim l = concat (map snd ms) ∧
    drop_while (λ c, is_whitespace c.1) ms = ms ∧ drop_while_end (λ c, is_whitespace c.1) ms = ms.
Proof.
  set (ws := λ c : Z * list Z, is_whitespace c.1).
  destruct (drop_while_split ws (char_chunks l)) as (xs & E1 & H1).
  set (k := drop_while ws (char_chunks l)) in *.
  destruct (drop_while_split ws (reverse k)) as (ys & E2 & H2).
  set (m := drop_while ws (reverse k)) in *.
  assert (k = reverse m ++ reverse ys) as Ek.
  { rewrite <- reverse_app, <- E2. by rewrite reverse_involutive. }
  exists xs, (reverse m), (reverse ys). split_and!.
  - rewrite E1 at 1. by rewrite Ek.
  - reflexivity.
  - destruct (reverse m) as [|y ys'] eqn:Em; [done|]. apply drop_while_stop.
    apply (H1 y (ys' ++ reverse ys)). by rewrite Ek.
  - unfold drop_while_end. rewrite reverse_involutive.
    f_equal. destruct m as [|y ys'] eqn:Em; [done|]. apply drop_while_stop. by eapply H2.
Qed.

Lemma trim_idempotent l : trim (trim l) = trim l.
Proof.
  destruct (trim_middle l) as (xs & ms & ys & E & Ht & H1 & H2). rewrite Ht.
  assert (char_chunks (concat (map snd ms)) = ms) as Hm.
  { eapply char_chunks_prefix. eapply char_chunks_suffix. exact E. }
  unfold trim. by rewrite Hm, H1, H2.
Qed.

Lemma trim_elem l b : b ∈ trim l → b ∈ l.
Proof.
  destruct (trim_middle l) as (xs & ms & ys & E & Ht & _). rewrite Ht.
  intros Hb. rewrite <- (char_chunks_concat l), E, !map_app, !concat_app. set_solver.
Qed.

(** ** Transport selection *)

(** A candidate of a chain: trimmed, not empty, without separator. *)
Definition is_candidate (c : list Z) : Prop := c ≠ [] ∧ trim c = c ∧ 124 ∉ c.

Lemma candidates_ok configured : Forall is_candidate (endpoint_candidates configured).
Proof.
  unfold endpoint_candidates. apply List.Forall_forall. intros c Hc.
  apply filter_In in Hc as [Hc Hne]. apply in_map_iff in Hc as (p & <- & Hp).
  pose proof (split_on_no_sep 124 configured) as Hs. rewrite List.Forall_forall in Hs. specialize (Hs p Hp).
  split; [by destruct (trim p)|]. split; [apply trim_idempotent|]. intros Hx. by apply Hs, trim_elem.
Qed.

(** A chain of candidates is read back as it was joined. *)
Lemma candidates_join l : l ≠ [] → Forall is_candidate l → endpoint_candidates (join [124] l) = l.
Proof.
  intros Hne Hl. unfold endpoint_candidates. rewrite split_on_join_id; [|done|].
  - clear Hne. induction Hl as [|c l (Hc & Ht & _) Hl IH]; [done|]. cbn. rewrite Ht, IH.
    by destruct c.
  - eapply List.Forall_impl; [|exact Hl]. by intros c (_ & _ & ?).
Qed.

Lemma Forall_List_filter {A} (P : A → Prop) f l : Forall P l → Forall P (List.filter f l).
Proof. induction 1; cbn; [constructor|]. destruct (f x); [by constructor|done]. Qed.

Lemma filter_filter_same {A} (f : A → bool) l : List.filter f (List.filter f l) = List.filter f l.
Proof. induction l as [|a l IH]; cbn; [done|]. destruct (f a) eqn:E; cbn; [by rewrite E, IH|done]. Qed.

Lemma filter_filter_neg {A} (f : A → bool) l :
  List.filter f (List.filter (λ x, negb (f x)) l) = [] ∧ List.filter (λ x, negb (f x)) (List.filter f l) = [].
Proof.
  induction l as [|a l [IH1 IH2]]; cbn; [done|]. destruct (f a) eqn:E; cbn; rewrite ?E; cbn; by rewrite IH1, IH2.
Qed.

Lemma filter_partition {A} (f : A → bool) l : List.filter (λ x, negb (f x)) l ++ List.filter f l ≡ₚ l.
Proof.
  induction l as [|a l IH]; cbn; [done|]. destruct (f a) eqn:E; cbn.
  - rewrite <- Permutation_middle. by rewrite IH.
  - by rewrite IH.
Qed.

Lemma selected_idempotent mode l : selected_endpoints (selected_endpoints l mode) mode = selected_endpoints l mode.
Proof.
  destruct mode; cbn; rewrite ?List.filter_app, ?filter_filter_same; [|done..].
  destruct (filter_filter_neg is_m5oh l) as [E1 E2]. by rewrite E1, E2, app_nil_r.
Qed.

Lemma selected_ok mode l : Forall is_candidate l → Forall is_candidate (selected_endpoints l mode).
Proof. intros H. destruct mode; cbn; [apply Forall_app; split|..]; by apply Forall_List_filter. Qed.

(** The transport policy.  A resolved chain lists exactly the selected
    candidates: in automatic mode all of them, in an order that puts every native
    MST5 endpoint before every M5oH one and otherwise keeps the configuration; in a
    forced mode only endpoints of that protocol.  Resolving it again changes
    nothing, and resolution fails exactly when no candidate qualifies. *)
Theorem select_endpoint_policy configured mode :
  let cs := endpoint_candidates configured in
  match select_endpoint configured mode with
  | Ok out =>
      endpoint_candidates out = selected_endpoints cs mode ∧ select_endpoint out mode = Ok out ∧
      (mode = TAuto → endpoint_candidates out ≡ₚ cs) ∧
      (mode = TMst5 → Forall (λ c, is_m5oh c = false) (endpoint_candidates out)) ∧
      (mode = TM5oh → Forall (λ c, is_m5oh c = true) (endpoint_candidates out))
  | Err e => ekind e = InvalidInput ∧ selected_endpoints cs mode = []
  end.
Proof.
  intros cs. unfold select_endpoint. fold cs. destruct (is_empty cs) eqn:E0.
  { destruct cs; [|done]. split; [done|]. by destruct mode. }
  destruct (is_empty (selected_endpoints cs mode)) eqn:E1.
  { destruct (selected_endpoints cs mode); [|done]. by destruct mode. }
  assert (selected_endpoints cs mode ≠ []) as Hne by (intros E; by rewrite E in E1).
  assert (endpoint_candidates (join [124] (selected_endpoints cs mode)) = selected_endpoints cs mode) as Hj.
  { apply candidates_join; [done|]. apply selected_ok, candidates_ok. }
  rewrite Hj, selected_idempotent, E1. split_and!; [done|done|..].
  - intros ->. apply filter_partition.
  - intros ->. apply List.Forall_forall. intros c Hc. apply filter_In in Hc as [_ Hc]. by apply negb_true_iff.
  - intros ->. apply List.Forall_forall. intros c Hc. by apply filter_In in Hc as [_ Hc].
Qed.

(** ** Operations *)

Lemma find_operation_in key l o : find_operation key l = Some o → (key, o) ∈ l.
Proof.
  induction l as [|[k v] l IH]; cbn; [done|]. case_bool_decide; intros; simplify_eq; set_solver.
Qed.

Lemma NoDup_snd_inj {A B} (l : list (A * B)) a a' b :
  NoDup (map snd l) → (a, b) ∈ l → (a', b) ∈ l → a = a'.
Proof.
  induction l as [|[x y] l IH]; cbn; intros Hnd; [set_solver|].
  apply list.NoDup_cons in Hnd as [Hy Hnd].
  assert (∀ c, (c, y) ∉ l) as Hout. { intros c Hc. apply Hy. apply (list_elem_of_fmap_2 snd) in Hc. exact Hc. }
  rewrite !elem_of_cons. intros [H|H] [H'|H']; simplify_eq; auto; by apply Hout in H || apply Hout in H'.
Qed.

(** The operation table is unambiguous.  Every supported route has the
    method GET or POST, and no opcode is reached by two routes; so an opcode is sent
    either always as a QUERY or always as a COMMAND. *)
Theorem operation_injective method path method' path' o :
  operation method path = Ok o → operation method' path' = Ok o →
  method = method' ∧ path = path' ∧ (method = lit "GET" ∨ method = lit "POST").
Proof.
  unfold operation. destruct (find_operation _ _) as [x|] eqn:E; [|done].
  destruct (find_operation (method', path') _) as [y|] eqn:E'; [|done]. intros; simplify_eq.
  apply find_operation_in in E, E'.
  assert (NoDup (map snd operation_table)) as Hnd by by_vm.
  assert (Forall (λ r, r.1.1 = lit "GET" ∨ r.1.1 = lit "POST") operation_table) as Hm by by_vm.
  pose proof (NoDup_snd_inj _ _ _ _ Hnd E E'). simplify_eq. split_and!; try done.
  rewrite list.Forall_forall in Hm. apply (Hm _ E).
Qed.

Lemma operation_injective_witness :
  lit "GET" = lit "GET" ∧ lit "/me" = lit "/me" ∧ (lit "GET" = lit "GET" ∨ lit "GET" = lit "POST").
Proof. apply (operation_injective (lit "GET") (lit "/me") (lit "GET") (lit "/me") op.ME); vm_compute; reflexivity. Defined.

(** ** Commands *)

(** What the JSON library promises: it parses to well-formed documents, and it
    reads back the session documents it wrote. *)
Class SerdeJsonLaws `{J : SerdeJson} : Prop := {
  serde_numbers :: JsonNumberLaws;
  from_str_wf s v : from_str s = Ok v → wf_json v;
  document_parse d bs : document_to_vec d = Ok bs → document_from_slice bs = Ok d
}.

Section Command_proofs.
Context `{JL : SerdeJsonLaws}.

Lemma wf_json_get l k v : wf_json (JObject l) → btree_get k l = Some v → wf_json v.
Proof.
  intros [_ Hwf] Hc0. apply fold_and_Forall in Hwf. induction Hwf as [|[k' v'] l (_ & _ & Hv) Hl IH]; cbn in Hc0; [done|].
  destruct (beq k k'); simplify_eq; auto.
Qed.

(** The query payload of a GET translates as it stands. *)
Lemma query_payload_crosses q :
  ∃ w, json_to_cbor (JObject [(lit "query", JString q)]) = Ok w ∧
    cbor_to_json w = JObject [(lit "query", JString q)].
Proof. by eexists. Qed.

Lemma split_query_some path p q : split_query path = (p, Some q) → path = p ++ [63] ++ q.
Proof.
  unfold split_query. destruct (split_once 63 path) as [[x y]|] eqn:E; intros; simplify_eq.
  by apply split_once_some in E as [-> _].
Qed.

Lemma clamp_range lo hi x : lo ≤ hi → lo ≤ clamp lo hi x ≤ hi.
Proof. unfold clamp. lia. Qed.

(** A JSON command becomes the request it describes.  When [command_json]
    accepts a command, the request carries its token, the opcode of its method and
    path, QUERY for GET and COMMAND otherwise, a deadline at most two minutes and at
    least a millisecond ahead, and a payload that is the CBOR form of its body (or,
    for GET, of its query string) and translates back to it. *)
Theorem command_request_spec source now c :
  is_u64 now → command_request source now = Ok c →
  ∃ obj method path body value,
    from_str source = Ok (JObject obj) ∧ btree_get (lit "token") obj = Some (JString (cm_token c)) ∧
    operation method path = Ok (cm_opcode c) ∧
    cm_kind c = (if decide (method = lit "GET") then kind.QUERY else kind.COMMAND) ∧
    cm_deadline_ms c ≤ now + 120000 ∧ (now < cm_deadline_ms c ∨ cm_deadline_ms c = u64_max) ∧
    json_to_cbor body = Ok value ∧ cm_payload c = encode_cbor value ∧ cbor_to_json value = body ∧
    (method ≠ lit "GET" → body = default (JObject []) (btree_get (lit "body") obj)) ∧
    (method = lit "GET" → body = JObject [] ∨
       ∃ q, q ≠ [] ∧ body = JObject [(lit "query", JString q)] ∧
            string_field_or obj (lit "path") (lit "/") = path ++ [63] ++ q).
Proof.
  intros Hnow Hc0. unfold command_request in Hc0.
  destruct (from_str source) as [input|] eqn:Es; [|done]. cbn [map_err] in Hc0.
  destruct (jas_object input) as [obj|] eqn:Eo; [|done]. destruct input; cbn in Eo; simplify_eq. cbn [ok_or] in Hc0.
  destruct (string_field obj (lit "token")) as [token|] eqn:Et; [|done].
  destruct (split_query _) as [path query] eqn:Eq.
  set (method := to_ascii_uppercase _) in Hc0. destruct (operation method path) as [o|] eqn:Eop; [|done].
  set (body := if beq method (lit "GET") then _ else _) in Hc0.
  destruct (json_to_cbor body) as [value|] eqn:Ej; [|done]. simplify_eq. cbn.
  assert (btree_get (lit "token") obj = Some (JString token)) as Htok.
  { unfold string_field in Et. destruct (btree_get (lit "token") obj) as [v|]; [|done].
    destruct v; cbn in Et; by simplify_eq. }
  exists obj, method, path, body, value. split; [done|]. split; [done|]. split; [done|].
  split. { unfold beq. case_bool_decide; by case_decide. }
  match goal with |- context [saturating_add64 now (clamp 1 120000 ?x)] =>
    pose proof (clamp_range 1 120000 x ltac:(lia)) as Hcl end.
  unfold saturating_add64. widths. split; [lia|]. split; [lia|]. split; [done|]. split; [done|].
  unfold body, beq in *. case_bool_decide as Hm.
  - split; [|split; [done|intros _]].
    + destruct query as [q|]; [destruct (is_empty q)|]; cbn in Ej; by simplify_eq.
    + destruct query as [q|]; [|by left]. destruct (is_empty q) eqn:Eq'; [by left|]. right. exists q.
      split_and!; [by destruct q|done|]. by apply split_query_some.
  - split; [|split; [done|by intros]].
    assert (wf_json (default (JObject []) (btree_get (lit "body") obj))) as Hwf.
    { destruct (btree_get (lit "body") obj) as [v|] eqn:Eb; cbn; [|by split; constructor].
      eapply wf_json_get; [by eapply from_str_wf|done]. }
    destruct (json_crosses _ Hwf) as (w & Ew & _ & _ & Hw). congruence.
Qed.
End Command_proofs.

(** ** Group envelopes *)
Section Group_proofs.
Context `{JL : SerdeJsonLaws} `{C : Crypto} `{D : Decompressors}.

(** The JSON entry of an envelope whose ciphertext is split after [k] bytes:
    all of it, or all but the tag. *)
Definition entry_json (e : Envelope) (k : nat) : JsonValue :=
  JObject [(lit "ciphertext", JString (base64url_no_pad (take k (env_ciphertext e))));
           (lit "nonce", JString (base64url_no_pad (env_nonce e)));
           (lit "tag", JString (base64url_no_pad (drop k (env_ciphertext e))));
           (lit "version", JNumber (num_from_u64 (env_version e)))].

Record envelope_ok (e : Envelope) (k : nat) : Prop := {
  eo_version : env_version e = 3 ∨ env_version e = 4;
  eo_nonce : is_bytes (env_nonce e) ∧ length (env_nonce e) = 24%nat;
  eo_bytes : is_bytes (env_ciphertext e);
  eo_split : (1 ≤ k)%nat ∧ (k = length (env_ciphertext e) ∨ (k + 16)%nat = length (env_ciphertext e))
}.

Lemma is_empty_encoded bs : bs ≠ [] → is_empty (base64url_no_pad bs) = false.
Proof. destruct bs as [|a [|b [|c t]]]; done. Qed.

Lemma entry_fields e k :
  jfield (entry_json e k) (lit "version") jas_u64 = num_as_u64 (num_from_u64 (env_version e)) ∧
  jfield (entry_json e k) (lit "nonce") jas_str = Some (base64url_no_pad (env_nonce e)) ∧
  jfield (entry_json e k) (lit "ciphertext") jas_str = Some (base64url_no_pad (take k (env_ciphertext e))) ∧
  jfield (entry_json e k) (lit "tag") jas_str = Some (base64url_no_pad (drop k (env_ciphertext e))).
Proof. split_and!; reflexivity. Qed.

Lemma group_entry_json e k : envelope_ok e k → group_entry (entry_json e k) = Ok e.
Proof.
  intros [Hv [Hn Hn24] Hb [Hk Hsplit]]. destruct (entry_fields e k) as (F1 & F2 & F3 & F4).
  unfold group_entry. rewrite F1, F2, F3, F4, from_u64_spec by (widths; lia). cbn [ok_or].
  assert (negb (env_version e =? 3) && negb (env_version e =? 4) = false) as -> by (destruct Hv as [-> | ->]; done).
  assert (env_nonce e ≠ []) by (destruct (env_nonce e); done).
  rewrite (proj1 (base64_decode_encode _ Hn ltac:(done))).
  assert (len (env_nonce e) = 24) as -> by (unfold len; lia). cbn [Z.eqb Pos.eqb negb].
  assert (take k (env_ciphertext e) ≠ []) as Hne.
  { destruct k; [lia|]. destruct (env_ciphertext e); [cbn in *; lia|done]. }
  rewrite (proj1 (base64_decode_encode _ (is_bytes_take k _ Hb) Hne)).
  rewrite as_u8_small by (widths; lia).
  destruct Hsplit as [Hs|Hs].
  - rewrite drop_ge by lia. cbn [base64url_no_pad is_empty]. rewrite take_ge, app_nil_r by lia. by destruct e.
  - assert (length (drop k (env_ciphertext e)) = 16%nat) as H16 by (rewrite length_drop; lia).
    assert (drop k (env_ciphertext e) ≠ []) as Hd by (intros E; by rewrite E in H16).
    rewrite (is_empty_encoded _ Hd), (proj1 (base64_decode_encode _ (is_bytes_drop k _ Hb) Hd)).
    unfold len. rewrite H16. change (negb (Z.of_nat 16 =? 16)) with false. cbn iota. rewrite take_drop. by destruct e.
Qed.

(** The JSON document of a group message. *)
Definition group_json (recipients : list (list Z * JsonValue)) : JsonValue :=
  JObject [(lit "recipients", JObject recipients); (lit "version", JNumber (num_from_u64 5))].

Lemma group_json_fields rs :
  jfield (group_json rs) (lit "version") jas_u64 = Some 5 ∧ jfield (group_json rs) (lit "recipients") jas_object = Some rs.
Proof. split; [|reflexivity]. transitivity (num_as_u64 (num_from_u64 5)); [reflexivity|]. apply from_u64_spec. by_vm. Qed.

Lemma open_group_message_json i sender_key sender id raw rs :
  1 ≤ len id ≤ 64 → len raw ≤ 16 * 1024 * 1024 → 1 ≤ len rs ≤ 256 → from_str raw = Ok (group_json rs) →
  open_group_message i sender_key sender id raw =
  match btree_get id rs with
  | Some entry => let? e := group_entry entry in open i sender_key sender id e
  | None => Err (IoError PermissionDenied (lit "group E2E recipient is unavailable"))
  end.
Proof.
  intros Hid Hraw Hrs Hp. unfold open_group_message. rewrite Hp. cbn [map_err].
  destruct (group_json_fields rs) as [-> ->].
  zbool. assert (is_empty id = false) as -> by (destruct id; [rewrite (@len_nil Z) in Hid; lia|done]).
  cbn [orb map_err ok_or]. rewrite bool_decide_eq_true_2 by done. cbn [negb].
  assert (is_empty rs = false) as -> by (destruct rs; [rewrite (@len_nil (list Z * JsonValue)) in Hrs; lia|done]).
  cbn [orb]. zbool. destruct (btree_get id rs) as [entry|]; [|done]. cbn [ok_or].
  destruct (group_entry entry) as [e|]; [|done]. unfold open_group. cbn. by rewrite lookup_singleton_eq.
Qed.

(** The JSON boundary opens the group message that was sealed.  For every
    group envelope whose entries are written as JSON, with the tag inside the
    ciphertext or beside it, [open_group_message] returns what [open_group] returns
    on the envelope itself; a user who has no entry is refused with
    [PermissionDenied]. *)
Theorem group_json_equivalent i sender_key sender id raw (g : GroupEnvelope) (split : Envelope → nat) rs :
  1 ≤ len id ≤ 64 → len raw ≤ 16 * 1024 * 1024 → 1 ≤ len rs ≤ 256 → from_str raw = Ok (group_json rs) →
  grp_version g = 5 →
  (∀ u, btree_get u rs = option_map (λ e, entry_json e (split e)) (grp_recipients g !! u)) →
  (∀ u e, grp_recipients g !! u = Some e → envelope_ok e (split e)) →
  open_group_message i sender_key sender id raw =
    (if decide (is_Some (grp_recipients g !! id)) then open_group i sender_key sender id g
     else Err (IoError PermissionDenied (lit "group E2E recipient is unavailable"))).
Proof.
  intros Hid Hraw Hrs Hp Hv Hget Hok. rewrite (open_group_message_json _ _ _ _ _ _ Hid Hraw Hrs Hp), Hget.
  unfold open_group. rewrite Hv. destruct (grp_recipients g !! id) as [e|] eqn:E; cbn.
  - rewrite group_entry_json by eauto. by rewrite decide_True by eauto.
  - rewrite decide_False; [done|]. by intros [? ?].
Qed.

(** The media key of a group is unwrapped by the same path.  When the
    wrapped entry of a member opens to a 32-byte key, [group_media_decryptor] starts
    a decryptor with exactly that key and the envelope's associated data. *)
Theorem group_media_key_unwrapped i sender_key sender id raw media rs e k key aad :
  1 ≤ len id ≤ 64 → len raw ≤ 16 * 1024 * 1024 → 1 ≤ len rs ≤ 256 →
  from_str raw = Ok (JObject [(lit "media", JObject media); (lit "version", JNumber (num_from_u64 5))]) →
  btree_get (lit "key_recipients") media = Some (JObject rs) →
  btree_get (lit "aad") media = Some (JString (base64url_no_pad aad)) → is_bytes aad →
  from_str (json_display (group_json rs)) = Ok (group_json rs) →
  len (json_display (group_json rs)) ≤ 16 * 1024 * 1024 →
  btree_get id rs = Some (entry_json e k) → envelope_ok e k →
  open i sender_key sender id e = Ok key → len key = 32 →
  group_media_decryptor i sender_key sender id raw = decryptor_with_key key aad.
Proof.
  intros Hid Hraw Hrs Hp Hm Haad Hab Hd Hdl Hget He Ho Hk. unfold group_media_decryptor. rewrite Hp. zbool.
  cbn [map_err]. set (doc := JObject _).
  assert (jfield doc (lit "version") jas_u64 = Some 5) as ->.
  { transitivity (num_as_u64 (num_from_u64 5)); [reflexivity|]. apply from_u64_spec. by_vm. }
  assert (jfield doc (lit "media") jas_object = Some media) as -> by reflexivity.
  rewrite bool_decide_eq_true_2 by done. cbn [negb ok_or]. rewrite Hm. cbn [ok_or].
  change (btree_collect _) with [(lit "recipients", JObject rs); (lit "version", JNumber (num_from_u64 5))].
  fold (group_json rs). rewrite (open_group_message_json _ _ _ _ _ _ Hid Hdl Hrs Hd), Hget.
  rewrite group_entry_json, Ho, Hk, Haad by done. cbn [Z.eqb Pos.eqb negb jas_str ok_or].
  destruct aad as [|b aad]; [done|]. rewrite is_empty_encoded by done.
  by rewrite (proj1 (base64_decode_encode (b :: aad) Hab ltac:(done))).
Qed.
End Group_proofs.

(** ** The session file *)

Lemma fs_append_result p bs s u s' :
  fs_append p bs s = (Ok u, s') → fs_files s' = <[path_key p := default [] (fs_files s !! path_key p) ++ bs]> (fs_files s).
Proof.
  unfold fs_append. destruct (next_fault s) as [[[]|] s1] eqn:E; intros; simplify_eq.
  cbn. by rewrite (next_fault_files _ _ _ E).
Qed.

Lemma fs_create_result p s u s' : fs_create p s = (Ok u, s') → fs_files s' = <[path_key p := []]> (fs_files s).
Proof.
  unfold fs_create. destruct (next_fault s) as [[[]|] s1] eqn:E; intros; simplify_eq.
  cbn. by rewrite (next_fault_files _ _ _ E).
Qed.

(** [fs::write] that succeeds leaves exactly its bytes; one that fails only
    touches its own file. *)
Lemma fs_write_result p bs s u s' : fs_write p bs s = (Ok u, s') → fs_files s' = <[path_key p := bs]> (fs_files s).
Proof.
  unfold fs_write, fs_bind. destruct (fs_create p s) as [[v|] s1] eqn:E; [|done]. intros Hw.
  apply fs_create_result in E. apply fs_append_result in Hw. rewrite Hw, E, lookup_insert_eq. cbn.
  by rewrite insert_insert_eq.
Qed.

Lemma fs_write_preserves k p bs : path_key p ≠ k → preserves k (fs_write p bs).
Proof. intros. unfold fs_write. apply preserves_bind; auto with mst5. Qed.

Lemma fs_rename_result p q s r s' :
  fs_rename p q s = (r, s') → path_key p ≠ path_key q →
  (r = Ok tt ∧ ∃ bs, fs_files s !! path_key p = Some bs ∧ fs_files s' !! path_key q = Some bs) ∨
  (∃ e, r = Err e) ∧ fs_files s' = fs_files s.
Proof.
  unfold fs_rename. destruct (next_fault s) as [[[e n]|] s1] eqn:E; apply next_fault_files in E.
  - intros; simplify_eq. right. eauto.
  - rewrite <- E. destruct (fs_files s1 !! path_key p) as [bs|] eqn:Ep; intros; simplify_eq; [left|right; eauto].
    split; [done|]. exists bs. split; [done|]. cbn. apply lookup_insert_eq.
Qed.

(** The session file and its temporary are different files. *)
Lemma session_temporary_ne root vs ex :
  path_key (session_temporary (mkSession (mkPath (Some root) (Some SESSION_FILE)) vs ex))
  ≠ path_key (mkPath (Some root) (Some SESSION_FILE)).
Proof. unfold path_key. cbn. intros [= E]. Qed.

Section Session_proofs.
Context `{JL : SerdeJsonLaws}.

Definition session_path (root : list Z) : Path := mkPath (Some root) (Some SESSION_FILE).

Lemma session_encode_ok raw values encoded :
  session_encode raw = Ok (values, encoded) →
  validate_session_values values = Ok tt ∧ len encoded ≤ MAX_SESSION_BYTES ∧
  document_from_slice encoded = Ok (mkSessionDocument SESSION_VERSION values).
Proof.
  unfold session_encode. destruct (values_from_str raw) as [vs|]; [|done]. cbn [map_err].
  destruct (validate_session_values vs) as [[]|] eqn:Ev; [|done].
  destruct (document_to_vec _) as [bs|] eqn:Ed; [|done]. cbn [map_err].
  destruct (Z.ltb_spec MAX_SESSION_BYTES (len bs)); [done|]. intros; simplify_eq.
  split_and!; [done|done|]. by apply document_parse.
Qed.

Lemma replace_json_cases root raw st s r st' s' :
  ss_path st = session_path root → replace_json raw st s = (r, st', s') →
  (∃ e, r = Err e ∧ st' = st ∧
     fs_files s' !! path_key (session_path root) = fs_files s !! path_key (session_path root)) ∨
  (∃ values encoded, r = Ok tt ∧ session_encode raw = Ok (values, encoded) ∧
     st' = mkSession (session_path root) values true ∧
     fs_files s' !! path_key (session_path root) = Some encoded).
Proof.
  intros Hp Hr. assert (path_key (session_temporary st) ≠ path_key (ss_path st)) as Hne.
  { destruct st as [p vs ex]. cbn in Hp. subst p. apply session_temporary_ne. }
  unfold replace_json in Hr. destruct (session_encode raw) as [[values encoded]|e] eqn:Ee; [|simplify_eq; left; eauto].
  unfold fs_bind in Hr. pose proof (fs_write_preserves _ _ encoded Hne s) as Hpres.
  destruct (fs_write (session_temporary st) encoded s) as [[u|e] s1] eqn:Ew; cbn in Hpres.
  - destruct (fs_rename _ _ s1) as [x s2] eqn:Er.
    destruct (fs_rename_result _ _ _ _ _ Er Hne) as [(-> & bs & Hbs & Hbs')|[[e ->] Hsame]]; simplify_eq.
    + right. exists values, encoded. rewrite (fs_write_result _ _ _ _ _ Ew), lookup_insert_eq in Hbs. simplify_eq.
      rewrite <- Hp. by split_and!.
    + left. exists e. rewrite Hsame, <- Hp. by split_and!.
  - simplify_eq. left. exists e. rewrite <- Hp. by split_and!.
Qed.

Lemma session_reopens root encoded values s :
  root ≠ [] → fs_faults s = [] → fs_files s !! path_key (session_path root) = Some encoded →
  validate_session_values values = Ok tt → len encoded ≤ MAX_SESSION_BYTES →
  document_from_slice encoded = Ok (mkSessionDocument SESSION_VERSION values) →
  (session_open root s).1 = Ok (mkSession (session_path root) values true).
Proof.
  intros Hroot Hf He Hv Hl Hd. destruct s as [files faults]. cbn in Hf, He. subst faults.
  unfold session_open. destruct root as [|b root]; [done|]. cbn [is_empty].
  unfold fs_bind at 1, fs_touch, next_fault. cbn [fs_faults]. fold (session_path (b :: root)).
  unfold fs_exists. cbn [fs_files]. rewrite bool_decide_eq_true_2 by eauto. cbn [negb].
  unfold fs_bind, fs_read_all, fs_read, next_fault. cbn [fs_faults fs_files]. rewrite He. cbn [default].
  rewrite take_ge by (unfold len; cbn; rewrite Nat2Z.id; lia). destruct (Z.ltb_spec MAX_SESSION_BYTES (len encoded)); [lia|].
  unfold fs_lift. rewrite Hd. cbn. by rewrite Hv.
Qed.

(** The session file is replaced atomically.  Whatever fails while
    [replace_json] runs, the session file afterwards holds either exactly what it
    held before, and the values in memory are the old ones too, or the complete new
    document; and in that case opening the store again returns the new values. *)
Theorem session_replace_atomic root raw st s r st' s' :
  root ≠ [] → ss_path st = session_path root → replace_json raw st s = (r, st', s') →
  match r with
  | Err _ =>
      st' = st ∧ fs_files s' !! path_key (session_path root) = fs_files s !! path_key (session_path root)
  | Ok _ =>
      (∃ values encoded, session_encode raw = Ok (values, encoded) ∧ ss_values st' = values ∧
         fs_files s' !! path_key (session_path root) = Some encoded) ∧
      (session_open root (mkFs (fs_files s') [])).1 = Ok st'
  end.
Proof.
  intros Hroot Hp Hr. destruct (replace_json_cases _ _ _ _ _ _ _ Hp Hr) as [(e & -> & -> & Hs)|
    (values & encoded & -> & Hse & -> & Hf)]; [done|].
  split; [eauto 10|]. destruct (session_encode_ok _ _ _ Hse) as (Hv & Hl & Hd).
  by apply (session_reopens root encoded values).
Qed.
End Session_proofs.

(** ** A JSON library for evaluation

    It knows a few documents by name, and writes session documents as one
    number. *)
Module Fixture.
Import Plain.
#[local] Existing Instance plain_number.

Definition command_doc : JsonValue :=
  JObject [(lit "body", JObject [(lit "text", JString (lit "hi")); (lit "to", JString (lit "bob"))]);
           (lit "method", JString (lit "post")); (lit "path", JString (lit "/send"));
           (lit "timeout_ms", JNumber (num_from_u64 500000)); (lit "token", JString (lit "t"))].

(** Alice's message to Bob, and a media key for him. *)
Definition message_envelope : Envelope :=
  match @seal Toy.toy_crypto store_compressor alice (id_public bob) (lit "a") (lit "bob") (lit "hello") (Ok (replicate 24 0)) with
  | Ok e => e | Err _ => mkEnvelope 0 [] [] end.
Definition key_envelope : Envelope :=
  match @seal Toy.toy_crypto store_compressor alice (id_public bob) (lit "a") (lit "bob") (replicate 32 9) (Ok (replicate 24 0)) with
  | Ok e => e | Err _ => mkEnvelope 0 [] [] end.
Definition all_of (e : Envelope) : nat := length (env_ciphertext e).
Definition message_entries : list (list Z * JsonValue) := [(lit "bob", entry_json message_envelope (all_of message_envelope))].
Definition key_entries : list (list Z * JsonValue) := [(lit "bob", entry_json key_envelope (all_of key_envelope - 16))].
Definition media_fields : list (list Z * JsonValue) :=
  [(lit "aad", JString (base64url_no_pad [1; 2])); (lit "key_recipients", JObject key_entries)].
Definition media_doc : JsonValue := JObject [(lit "media", JObject media_fields); (lit "version", JNumber (num_from_u64 5))].

#[local] Instance fixture : SerdeJson := {|
  from_str s :=
    if beq s (lit "command") then Ok command_doc
    else if beq s (lit "message") then Ok (group_json message_entries)
    else if beq s (lit "media") then Ok media_doc
    else if beq s (lit "printed") then Ok (group_json key_entries)
    else Err (lit "expected value");
  json_to_string _ := Err (lit "not needed");
  json_display _ := lit "printed";
  values_from_str s := Ok [(lit "token", s)];
  document_from_slice bs :=
    match bs with
    | [Zpos p] => match countable.decode p with Some (v, vs) => Ok (mkSessionDocument v vs) | None => Err [] end
    | _ => Err []
    end;
  document_to_vec d := Ok [Zpos (countable.encode (sd_version d, sd_values d))]
|}.

Lemma fixture_laws : SerdeJsonLaws.
Proof.
  split.
  - apply plain_laws.
  - intros s v. cbn. repeat (case_match; [intros; simplify_eq|]); [..|done];
      (repeat split; try by_vm; repeat constructor; by_vm).
  - intros [v vs] bs [= <-]. cbn. by rewrite countable.decode_encode.
Qed.

Lemma command_request_spec_witness :
  ∃ c, command_request (lit "command") 5 = Ok c ∧ cm_opcode c = op.SEND ∧ cm_kind c = kind.COMMAND ∧
    cm_deadline_ms c ≤ 5 + 120000 ∧ (5 < cm_deadline_ms c ∨ cm_deadline_ms c = u64_max).
Proof.
  eexists. split; [vm_compute; reflexivity|]. split; [reflexivity|]. split; [reflexivity|].
  destruct (@command_request_spec _ _ fixture_laws (lit "command") 5 _ ltac:(by_vm) eq_refl)
    as (? & ? & ? & ? & ? & _ & _ & _ & _ & H1 & H2 & _). exact (conj H1 H2).
Defined.

#[local] Existing Instance Toy.toy_crypto.
#[local] Existing Instance store_decompressor.

Lemma group_json_equivalent_witness :
  open_group_message bob (id_public alice) (lit "a") (lit "bob") (lit "message") = Ok (lit "hello").
Proof.
  rewrite (@group_json_equivalent _ _ fixture_laws _ _ bob (id_public alice) (lit "a") (lit "bob") (lit "message")
    (mkGroupEnvelope 5 {[lit "bob" := message_envelope]}) all_of message_entries).
  - rewrite decide_True by (cbn; rewrite lookup_singleton_eq; eauto). vm_compute. reflexivity.
  - vm_compute. split; congruence.
  - vm_compute. congruence.
  - vm_compute. split; congruence.
  - reflexivity.
  - reflexivity.
  - intros u. cbn. unfold beq. case_bool_decide as E; [subst u; by rewrite lookup_singleton_eq|].
    by rewrite lookup_singleton_ne.
  - intros u e. cbn. intros [<- <-]%lookup_singleton_Some.
    split; [by right; vm_compute|split; by_vm|by_vm|vm_compute; split; [lia|by left]].
Defined.

Lemma group_media_key_unwrapped_witness :
  group_media_decryptor bob (id_public alice) (lit "a") (lit "bob") (lit "media")
  = decryptor_with_key (replicate 32 9) [1; 2].
Proof.
  apply (@group_media_key_unwrapped _ _ fixture_laws _ _ bob (id_public alice) (lit "a") (lit "bob") (lit "media")
    media_fields key_entries key_envelope (all_of key_envelope - 16)%nat (replicate 32 9) [1; 2]).
  - by_vm.
  - by_vm.
  - by_vm.
  - reflexivity.
  - reflexivity.
  - reflexivity.
  - by_vm.
  - reflexivity.
  - by_vm.
  - reflexivity.
  - split; [by right; vm_compute|split; by_vm|by_vm|vm_compute; split; [lia|by right]].
  - vm_compute. reflexivity.
  - reflexivity.
Defined.

Lemma session_replace_atomic_witness :
  let '(r, st, s) := replace_json (lit "saved") (mkSession (session_path (lit "/data")) [] false) (mkFs ∅ []) in
  r = Ok tt ∧ (session_open (lit "/data") (mkFs (fs_files s) [])).1 = Ok st.
Proof.
  destruct (replace_json _ _ _) as [[r st] s] eqn:E.
  pose proof (@session_replace_atomic _ _ fixture_laws (lit "/data") (lit "saved")
    (mkSession (session_path (lit "/data")) [] false) _ _ _ _ ltac:(discriminate) eq_refl E) as Ha.
  assert (r = Ok tt) as -> by (apply (f_equal (λ x, x.1.1)) in E; cbn in E; rewrite <- E; vm_compute; reflexivity).
  split; [reflexivity|]. exact (proj2 Ha).
Defined.
End Fixture.
