(* ===== verification/Program.v ===== *)
(** * Client programs

    The methods of [Client] are sequential code that talks to its environment:
    the connection ([Mst5Connection]), the clock, the random source, the principal
    stored in the client, the source or target of a media transfer.  They are
    written here as values of [prog]: a tree whose nodes are such interactions.
    [exec] runs a program in a [World], which supplies the answers in order and
    records what the program did; a theorem that holds for every world holds for
    every behaviour of the environment.  The CANCEL frame that dropping an
    unfinished request spawns in the background is not an action of the program; it
    is modelled with the connection. *)
From S2P Require Import Prelude RustStr Cbor Frame Types.

(** ** Interactions *)
Inductive effect : Type → Type :=
| ENow : effect Z                                            (** [unix_now_ms] *)
| ERandom : effect (io (list Z))                             (** [getrandom::fill] of 16 bytes *)
| EGetPrincipal : effect (option AuthInfo)
| ESetPrincipal (i : AuthInfo) : effect unit
| ERequest (k code : Z) (nonce : list Z) (deadline : Z) (payload : list Z) (timeout : Z)
  : effect (io Frame)                                        (** [Mst5Connection::request] *)
| EBegin (k code : Z) (nonce : list Z) (deadline : Z) (payload : list Z)
  : effect (io Z)                                            (** [begin], [begin_stream]: the id *)
| ERecv (id timeout : Z) : effect (io Frame)
| ESend (id k code : Z) (payload : list Z) : effect (io unit)
| EAbort (id status : Z) : effect unit
| ERemove (id : Z) : effect unit
| ECloseStream (id : Z) : effect (io unit)                   (** [StreamHandle::close] *)
| ECloseConnection : effect (io unit)                        (** [Mst5Connection::close] *)
| ERead (max : Z) : effect (io (list Z))                     (** [source.read(&mut buffer)] *)
| EWrite (bytes : list Z) : effect (io unit)                 (** [target.write_all] *)
| EFlush : effect (io unit).

Inductive prog (A : Type) : Type :=
| Ret (a : A)
| Vis {X : Type} (e : effect X) (k : X → prog A)
| OutOfFuel.
Arguments Ret {A} a.
Arguments Vis {A X} e k.
Arguments OutOfFuel {A}.

Fixpoint bind {A B} (m : prog A) (k : A → prog B) : prog B :=
  match m with
  | Ret a => k a
  | Vis e c => Vis e (λ x, bind (c x) k)
  | OutOfFuel => OutOfFuel
  end.

Definition perform {X} (e : effect X) : prog X := Vis e Ret.

(** A computation that can fail, and the [?] operator on it. *)
Abbreviation tprog A := (prog (io A)).

Definition try_bind {A B} (m : tprog A) (k : A → tprog B) : tprog B :=
  bind m (λ r, match r with Ok a => k a | Err e => Ret (Err e) end).

Notation "'do!' x := m 'in' k" := (try_bind m (λ x, k))
  (at level 10, x pattern, k at level 200) : rust_scope.
Notation "'let!' x := m 'in' k" := (bind m (λ x, k))
  (at level 10, x pattern, k at level 200) : rust_scope.
Notation "'throw_if' c 'with' e ; k" := (if c then Ret (Err e) else k)
  (at level 10, c at level 100, e at level 100, k at level 200) : rust_scope.

(** A pure result inside a program. *)
Definition lift {A} (r : io A) : tprog A := Ret r.

(** ** Worlds *)

(** What a program did to the outside, as recorded. *)
Inductive action :=
| ARequest (k code : Z) (nonce : list Z) (deadline : Z) (payload : list Z)
| ABegin (k code : Z) (nonce : list Z) (deadline : Z) (payload : list Z)
| ASend (id k code : Z) (payload : list Z)
| AAbort (id status : Z)
| ARemove (id : Z)
| ACloseStream (id : Z)
| ACloseConnection
| AFlush.

Record World := mkWorld {
  w_clock : list Z;                 (** readings of the clock; the last one stays *)
  w_random : list (io (list Z));
  w_principal : option AuthInfo;
  w_begins : list (io Z);           (** what [begin] answers *)
  w_frames : list (io Frame);       (** what [request] and [recv] answer *)
  w_sends : list (io unit);         (** what [send] and [close] answer; then success *)
  w_reads : list (io (list Z));     (** pieces the source delivers; then its end *)
  w_writes : list (result (io_error * nat) unit); (** what the target answers, with the bytes a failing
                                        write had taken; then success *)
  w_target : list Z;                (** bytes written *)
  w_log : list action               (** what was done, oldest first *)
}.

Definition set_random x w := mkWorld (w_clock w) x (w_principal w) (w_begins w) (w_frames w) (w_sends w) (w_reads w) (w_writes w) (w_target w) (w_log w).
Definition set_clock x w := mkWorld x (w_random w) (w_principal w) (w_begins w) (w_frames w) (w_sends w) (w_reads w) (w_writes w) (w_target w) (w_log w).
Definition set_principal_of x w := mkWorld (w_clock w) (w_random w) x (w_begins w) (w_frames w) (w_sends w) (w_reads w) (w_writes w) (w_target w) (w_log w).
Definition set_begins x w := mkWorld (w_clock w) (w_random w) (w_principal w) x (w_frames w) (w_sends w) (w_reads w) (w_writes w) (w_target w) (w_log w).
Definition set_frames x w := mkWorld (w_clock w) (w_random w) (w_principal w) (w_begins w) x (w_sends w) (w_reads w) (w_writes w) (w_target w) (w_log w).
Definition set_sends x w := mkWorld (w_clock w) (w_random w) (w_principal w) (w_begins w) (w_frames w) x (w_reads w) (w_writes w) (w_target w) (w_log w).
Definition set_reads x w := mkWorld (w_clock w) (w_random w) (w_principal w) (w_begins w) (w_frames w) (w_sends w) x (w_writes w) (w_target w) (w_log w).
Definition set_writes x t w := mkWorld (w_clock w) (w_random w) (w_principal w) (w_begins w) (w_frames w) (w_sends w) (w_reads w) x t (w_log w).
Definition log a w := mkWorld (w_clock w) (w_random w) (w_principal w) (w_begins w) (w_frames w) (w_sends w) (w_reads w) (w_writes w) (w_target w) (w_log w ++ [a]).

Definition no_answer : io_error := IoError TimedOut (lit "MST5 response timed out").

(** The next answer of a list, or a default. *)
Definition pop {A} (d : A) (l : list A) : A * list A :=
  match l with x :: t => (x, t) | [] => (d, []) end.

Definition next_frame (w : World) : io Frame * World :=
  let '(f, t) := pop (Err no_answer) (w_frames w) in (f, set_frames t w).

Definition next_send (w : World) : io unit * World :=
  let '(r, t) := pop (Ok tt) (w_sends w) in (r, set_sends t w).

(** The source delivers at most [max] bytes of its next piece and keeps the
    rest. *)
Definition next_read (max : Z) (w : World) : io (list Z) * World :=
  match w_reads w with
  | [] => (Ok [], w)
  | Err e :: t => (Err e, set_reads t w)
  | Ok bs :: t =>
      let rest := drop (Z.to_nat max) bs in
      (Ok (take (Z.to_nat max) bs), set_reads (if is_empty rest then t else Ok rest :: t) w)
  end.

(** [write_all]: a failing one may leave a part of the bytes. *)
Definition next_write (bs : list Z) (w : World) : io unit * World :=
  let '(r, t) := pop (Ok tt) (w_writes w) in
  (map_err fst r, set_writes t (w_target w ++ match r with Ok _ => bs | Err (_, n) => take n bs end) w).

Definition handle {X} (e : effect X) (w : World) : X * World :=
  match e in effect X return X * World with
  | ENow => match w_clock w with
            | n :: (_ :: _) as t => (n, set_clock (tail t) w)
            | [n] => (n, w)
            | [] => (0, w)
            end
  | ERandom => let '(r, t) := pop (Err (IoError OtherKind (lit "no entropy"))) (w_random w) in (r, set_random t w)
  | EGetPrincipal => (w_principal w, w)
  | ESetPrincipal i => (tt, set_principal_of (Some i) w)
  | ERequest k code nonce deadline payload _ => next_frame (log (ARequest k code nonce deadline payload) w)
  | EBegin k code nonce deadline payload =>
      let '(r, t) := pop (Err (IoError BrokenPipe (lit "MST5 connection is closed"))) (w_begins w) in
      (r, log (ABegin k code nonce deadline payload) (set_begins t w))
  | ERecv _ _ => next_frame w
  | ESend id k code payload => next_send (log (ASend id k code payload) w)
  | EAbort id status => (tt, log (AAbort id status) w)
  | ERemove id => (tt, log (ARemove id) w)
  | ECloseStream id => next_send (log (ACloseStream id) w)
  | ECloseConnection => next_send (log ACloseConnection w)
  | ERead max => next_read max w
  | EWrite bs => next_write bs w
  | EFlush => next_write [] (log AFlush w)
  end.

Fixpoint exec {A} (p : prog A) (w : World) : option (A * World) :=
  match p with
  | Ret a => Some (a, w)
  | Vis e k => let '(x, w') := handle e w in exec (k x) w'
  | OutOfFuel => None
  end.

(** ** Lemmas *)

Lemma exec_bind {A B} (m : prog A) (k : A → prog B) w :
  exec (bind m k) w = match exec m w with Some (a, w') => exec (k a) w' | None => None end.
Proof.
  revert w. induction m as [a|X e c IH|]; intros w; cbn; [done| |done].
  destruct (handle e w) as [x w']. apply IH.
Qed.

Lemma exec_try {A B} (m : tprog A) (k : A → tprog B) w :
  exec (try_bind m k) w =
  match exec m w with
  | Some (Ok a, w') => exec (k a) w'
  | Some (Err e, w') => Some (Err e, w')
  | None => None
  end.
Proof. unfold try_bind. rewrite exec_bind. by destruct (exec m w) as [[[a|e] w']|]. Qed.

Lemma exec_perform {X} (e : effect X) w : exec (perform e) w = Some (handle e w).
Proof. unfold perform. cbn. by destruct (handle e w). Qed.

Create Rewrite HintDb exec.
#[export] Hint Rewrite @exec_bind @exec_try @exec_perform : exec.

(** [p] never runs out of fuel. *)
Definition total {A} (p : prog A) : Prop := ∀ w, is_Some (exec p w).

Lemma total_ret {A} (a : A) : total (Ret a).
Proof. intros w. cbn. eauto. Qed.

Lemma total_vis {A X} (e : effect X) (k : X → prog A) : (∀ x, total (k x)) → total (Vis e k).
Proof. intros Hk w. cbn. destruct (handle e w) as [x w']. apply Hk. Qed.

Lemma total_bind {A B} (m : prog A) (k : A → prog B) : total m → (∀ a, total (k a)) → total (bind m k).
Proof. intros Hm Hk w. rewrite exec_bind. destruct (Hm w) as [[a w'] ->]. apply Hk. Qed.

Lemma total_try {A B} (m : tprog A) (k : A → tprog B) : total m → (∀ a, total (k a)) → total (try_bind m k).
Proof. intros Hm Hk. apply total_bind; [done|]. intros [a|e]; [apply Hk|apply total_ret]. Qed.

Lemma total_perform {X} (e : effect X) : total (perform e).
Proof. apply total_vis, total_ret. Qed.
#[export] Hint Resolve total_ret total_vis total_bind total_try total_perform : mst5.
