(* ===== verification/Client.v ===== *)
(** * The client (src/src/lib.rs, [impl Client])

    Requests, authentication and the session principal, as client programs
    ([Program]); the negotiation of capabilities; the order in which endpoints and
    pinned keys are tried; voice streams.  [Client] here is what does not change
    after the connection is made. *)
From S2P Require Import Prelude RustStr Cbor Frame Codec Types Connection Ops Account Program.

(** ** Capabilities *)
Definition TRANSPORT_MAJOR : Z := 5.
Definition RPC_MAJOR : Z := 1.
Definition RPC_MINOR : Z := 2.
Definition FEATURE_MULTIPLEX : Z := Z.shiftl 1 0.
Definition FEATURE_STRUCTURED_ERRORS : Z := Z.shiftl 1 1.
Definition FEATURE_CBOR_QUERY : Z := Z.shiftl 1 2.
Definition FEATURE_IDEMPOTENCY : Z := Z.shiftl 1 3.
Definition FEATURE_DEADLINE : Z := Z.shiftl 1 4.
Definition FEATURE_CANCEL : Z := Z.shiftl 1 5.
Definition FEATURE_MEDIA_STREAMS : Z := Z.shiftl 1 6.
Definition FEATURE_VOICE_STREAMS : Z := Z.shiftl 1 7.
Definition FEATURE_ZSTD : Z := Z.shiftl 1 8.
Definition CLIENT_FEATURES : Z :=
  fold_left Z.lor [FEATURE_STRUCTURED_ERRORS; FEATURE_CBOR_QUERY; FEATURE_IDEMPOTENCY; FEATURE_DEADLINE;
                   FEATURE_CANCEL; FEATURE_MEDIA_STREAMS; FEATURE_VOICE_STREAMS; FEATURE_ZSTD] FEATURE_MULTIPLEX.
Definition REQUIRED_FEATURES : Z :=
  fold_left Z.lor [FEATURE_STRUCTURED_ERRORS; FEATURE_CBOR_QUERY; FEATURE_IDEMPOTENCY; FEATURE_DEADLINE;
                   FEATURE_CANCEL] FEATURE_MULTIPLEX.

(** [value.get(key).and_then(Value::as_u64)]. *)
Definition get_u64 (v : Value) (key : list Z) : option Z :=
  match get v key with Some x => as_u64_v x | None => None end.
Definition get_str (v : Value) (key : list Z) : option (list Z) :=
  match get v key with Some x => as_str x | None => None end.

(** The HELLO the client sends. *)
Definition hello_payload : Value :=
  value_map [(lit "transport_major", VUnsigned TRANSPORT_MAJOR); (lit "rpc_major", VUnsigned RPC_MAJOR);
             (lit "rpc_minor", VUnsigned RPC_MINOR); (lit "features", VUnsigned CLIENT_FEATURES);
             (lit "required_features", VUnsigned REQUIRED_FEATURES);
             (lit "max_frame", VUnsigned MST5_MAX_PLAIN_PAYLOAD)].

Definition hello_frame : io Frame := frame_new kind.HELLO 0 0 (encode_cbor hello_payload).

(** What [negotiate_stream] does with the decoded answer. *)
Definition accept_hello (response : Frame) : io ServerHello :=
  fail_if (negb (fr_kind response =? kind.HELLO) || negb (fr_code response =? 200) || negb (fr_id response =? 0))
    with invalid_data (lit "MST5.1 HELLO negotiation failed");
  let? hello := decode_cbor (fr_payload response) in
  fail_if (negb (bool_decide (get_u64 hello (lit "transport_major") = Some TRANSPORT_MAJOR))
           || negb (bool_decide (get_u64 hello (lit "rpc_major") = Some RPC_MAJOR)))
    with invalid_data (lit "invalid MST5.1 SERVER_HELLO");
  let features := default 0 (get_u64 hello (lit "features")) in
  fail_if (negb (Z.land features REQUIRED_FEATURES =? REQUIRED_FEATURES)
           || negb (bool_decide (get_u64 hello (lit "max_frame") = Some MST5_MAX_PLAIN_PAYLOAD)))
    with invalid_data (lit "MST5.1 server omitted required capabilities");
  Ok (mkServerHello TRANSPORT_MAJOR RPC_MAJOR (default 0 (get_u64 hello (lit "rpc_minor"))) features
        (default 0 (get_u64 hello (lit "max_frame"))) (get_str hello (lit "connection_id"))).

(** ** Connecting *)

(** A loop over candidates that returns the first success, else the last error,
    else [empty]. *)
Fixpoint first_success {A B} (connect : A → io B) (last : option io_error) (empty : io_error) (l : list A) : io B :=
  match l with
  | [] => Err (default empty last)
  | c :: t =>
      match connect c with
      | Ok b => Ok b
      | Err e => first_success connect (Some e) empty t
      end
  end.

Section Connect.
(** [connect_one_with_key_and_options]: one endpoint, one key. *)
Context {B : Type} (connect_one : list Z → list Z → ClientOptions → io B).

Definition connect_with_key_and_options (endpoint key : list Z) (options : ClientOptions) : io B :=
  if contains_byte 124 endpoint then
    first_success (λ c, connect_one c key options) None (invalid_input (lit "MST5 endpoint list is empty"))
      (List.filter (λ v, negb (is_empty v)) (map trim (split_on 124 endpoint)))
  else connect_one endpoint key options.

Definition connect_with_options (endpoint key_b64 : list Z) (options : ClientOptions) : io B :=
  let? decoded := decode_base64 (trim key_b64) in
  fail_if (negb (len decoded =? 32)) with invalid_input (lit "MST5 server public key must decode to 32 bytes");
  connect_with_key_and_options endpoint decoded options.

Definition connect (endpoint key_b64 : list Z) : io B := connect_with_options endpoint key_b64 default_client_options.
Definition connect_compiled (compiled : io (list Z)) (endpoint : list Z) : io B :=
  let? key := compiled in connect endpoint key.
Definition connect_with_key (endpoint key : list Z) : io B :=
  connect_with_key_and_options endpoint key default_client_options.

Definition connect_with_public_keys (endpoint : list Z) (keys_b64 : list (list Z)) (options : ClientOptions) : io B :=
  fail_if (is_empty keys_b64) with invalid_input (lit "at least one MST5 pinned public key is required");
  first_success (λ k, connect_with_options endpoint k options) None (invalid_data (lit "MST5 key rotation failed")) keys_b64.

Definition connect_with_keys (endpoint : list Z) (keys : list (list Z)) (options : ClientOptions) : io B :=
  fail_if (is_empty keys) with invalid_input (lit "at least one MST5 pinned public key is required");
  first_success (λ k, connect_with_key_and_options endpoint k options) None
    (invalid_data (lit "MST5 key rotation failed")) keys.
End Connect.

(** ** The client *)
Record Client := mkClient { cl_features : Z; cl_server_hello : ServerHello; cl_read_timeout : Z }.

(** [duration_ms]. *)
Definition duration_ms (d : Z) : Z := Z.min d u64_max.

Definition has_principal : prog bool :=
  let! p := perform EGetPrincipal in Ret (bool_decide (is_Some p)).
Definition set_principal (i : AuthInfo) : tprog unit :=
  let! _ := perform (ESetPrincipal i) in Ret (Ok tt).
Definition auth_info : prog (option AuthInfo) := perform EGetPrincipal.

Definition is_authenticated : prog bool :=
  let! p := auth_info in
  Ret (match p with
       | Some i => negb (beq (ai_principal_type i) (lit "anonymous")
                         || beq (ai_principal_type i) (lit "unauthenticated"))
       | None => false
       end).
Definition is_anonymous : prog bool :=
  let! p := auth_info in
  Ret (match p with Some i => beq (ai_principal_type i) (lit "anonymous") | None => false end).

Definition zero_nonce16 : list Z := replicate 16 0.

(** [Mst5Connection::request] and [Response::from_frame]. *)
Definition request_frame (k code : Z) (nonce : list Z) (deadline : Z) (payload : list Z) (timeout : Z) : tprog Response :=
  do! f := perform (ERequest k code nonce deadline payload timeout) in Ret (Ok (from_frame f)).

Section Requests.
Variable c : Client.

(** The nonce of a request. *)
Definition request_nonce_of (frame_kind : Z) (options : RequestOptions) : tprog (list Z) :=
  if frame_kind =? kind.COMMAND then
    match request_nonce options with
    | Some value =>
        throw_if (beq value zero_nonce16) with invalid_input (lit "COMMAND request nonce must be non-zero");
        Ret (Ok value)
    | None =>
        let! r := perform ERandom in
        match r with
        | Ok value => Ret (Ok (if beq value zero_nonce16 then 1 :: replicate 15 0 else value))
        | Err e => Ret (Err (invalid_data (lit "OS CSPRNG failed: " ++ emsg e)))
        end
    end
  else
    throw_if (bool_decide (is_Some (request_nonce options)))
      with invalid_input (lit "request nonce is only valid for COMMAND");
    Ret (Ok zero_nonce16).

Definition request_cbor_with_options (frame_kind opcode : Z) (payload : list Z) (options : RequestOptions)
  : tprog Response :=
  let! ready := has_principal in
  throw_if (negb ready) with IoError PermissionDenied
    (lit "authenticate() must be called before MST5 queries or commands");
  throw_if (negb ((frame_kind =? kind.QUERY) || (frame_kind =? kind.COMMAND)))
    with invalid_input (lit "request kind must be QUERY or COMMAND");
  do! nonce := request_nonce_of frame_kind options in
  let! deadline :=
    match deadline_ms options with
    | Some d => Ret d
    | None => let! now := perform ENow in Ret (saturating_add64 now (duration_ms (cl_read_timeout c)))
    end in
  let! now := perform ENow in
  do! timeout := lift (deadline_timeout deadline now (cl_read_timeout c)) in
  request_frame frame_kind opcode nonce deadline payload timeout.

Definition request_cbor (frame_kind opcode : Z) (payload : list Z) : tprog Response :=
  request_cbor_with_options frame_kind opcode payload default_request_options.

Definition query_value (opcode : Z) (payload : Value) : tprog Response :=
  request_cbor kind.QUERY opcode (encode_cbor payload).
Definition query (opcode : Z) (q : list Z) : tprog Response :=
  query_value opcode (if is_empty q then VMap [] else value_map [(lit "query", VText q)]).
Definition command (opcode : Z) (payload : Value) : tprog Response :=
  request_cbor kind.COMMAND opcode (encode_cbor payload).

Definition query_result (opcode : Z) (q : list Z) : tprog Value :=
  do! r := query opcode q in lift (into_result r).
Definition command_result (opcode : Z) (payload : Value) : tprog Value :=
  do! r := command opcode payload in lift (into_result r).

Definition ping : tprog unit :=
  do! f := perform (ERequest kind.PING 0 zero_nonce16 0 [] (cl_read_timeout c)) in
  if fr_kind f =? kind.PONG then Ret (Ok tt)
  else Ret (Err (invalid_data (lit "unexpected MST5 response to PING"))).

Definition client_close : tprog unit := perform ECloseConnection.

(** ** Authentication *)
Definition authenticate_info_with_client_metadata (token client_name device_model : list Z) : tprog AuthInfo :=
  throw_if (64 <? len (chars client_name)) with client_name_error;
  throw_if ((128 <? len (chars device_model)) || existsb is_control (chars device_model))
    with invalid_input (lit "device_model must contain at most 128 printable characters");
  let payload := encode_cbor (value_map
    [(lit "token", VText token); (lit "client_name", VText (trim client_name));
     (lit "device_model", VText (trim device_model))]) in
  do! response := request_frame kind.AUTH 0 zero_nonce16 0 payload (cl_read_timeout c) in
  do! value := lift (into_result response) in
  do! info := lift (auth_info_from_value value) in
  do! _ := set_principal info in
  Ret (Ok info).

Definition authenticate_info_with_client_name (token client_name : list Z) : tprog AuthInfo :=
  authenticate_info_with_client_metadata token client_name [].
Definition authenticate_info (token : list Z) : tprog AuthInfo := authenticate_info_with_client_name token [].
Definition authenticate (token : list Z) : tprog unit :=
  do! _ := authenticate_info token in Ret (Ok tt).

Definition ensure_transport_authenticated : tprog unit :=
  let! ready := has_principal in if ready then Ret (Ok tt) else authenticate [].

(** The principal after a login: a bot or a user, in the same session. *)
Definition promote_auth_result (result : AuthResult) : tprog unit :=
  let! info := auth_info in
  let session_id := match info with Some i => ai_session_id i | None => None end in
  let '(principal_type, scopes) :=
    if us_bot (ar_user result)
    then (lit "bot", [lit "messages.send"; lit "updates.read"; lit "updates.ack"])
    else (lit "user", [lit "messenger.rpc"; lit "oauth.decide"]) in
  set_principal (mkAuthInfo principal_type (Some (us_id (ar_user result))) scopes session_id None (VMap [])).

(** The authentication of a media, voice or node connection; [failed] wraps the
    error of the server. *)
Definition ticket_auth (feature : Z) (missing : io_error) (fields : list (list Z * Value))
    (failed : io_error → io_error) (principal_type scope : list Z) : tprog unit :=
  throw_if (Z.land (cl_features c) feature =? 0) with missing;
  do! response := request_frame kind.AUTH 0 zero_nonce16 0 (encode_cbor (value_map fields)) (cl_read_timeout c) in
  do! raw := lift (map_err failed (into_result response)) in
  set_principal (mkAuthInfo principal_type None [scope] None None raw).

Definition media_auth (ticket : list Z) : tprog unit :=
  ticket_auth FEATURE_MEDIA_STREAMS (invalid_data (lit "media node omitted MEDIA_STREAMS"))
    [(lit "mechanism", VText (lit "media_ticket")); (lit "ticket", VText ticket)]
    (λ e, IoError PermissionDenied (lit "media authentication failed: " ++ emsg e))
    (lit "media_ticket") (lit "media.transfer").

Definition media_internal_auth (node_secret : list Z) : tprog unit :=
  ticket_auth FEATURE_MEDIA_STREAMS (invalid_data (lit "media node omitted MEDIA_STREAMS"))
    [(lit "mechanism", VText (lit "node_secret")); (lit "secret", VText node_secret)] id
    (lit "node") (lit "media.internal").

(** [connect_media] after the connection is made: the guard closes the
    connection when the authentication fails. *)
Definition connect_media (ticket : list Z) : tprog unit :=
  let! r := media_auth ticket in
  match r with
  | Ok _ => Ret (Ok tt)
  | Err e => let! _ := perform ECloseConnection in Ret (Err e)
  end.

(** ** Voice *)

(** [connect_voice] after the connection is made: the id of the voice stream. *)
Definition connect_voice (ticket : list Z) : tprog Z :=
  do! _ := ticket_auth FEATURE_VOICE_STREAMS (invalid_data (lit "server omitted VOICE_STREAMS"))
    [(lit "mechanism", VText (lit "voice_ticket")); (lit "ticket", VText ticket)]
    (λ e, IoError PermissionDenied (lit "voice authentication failed: " ++ emsg e))
    (lit "voice_ticket") (lit "voice.stream") in
  let! now := perform ENow in
  let deadline := saturating_add64 now (duration_ms (cl_read_timeout c)) in
  do! id := perform (EBegin kind.STREAM_OPEN voice_op.JOIN zero_nonce16 deadline []) in
  do! accepted := perform (ERecv id (cl_read_timeout c)) in
  if negb (fr_kind accepted =? kind.ACK) || negb (fr_code accepted =? 100) || negb (fr_id accepted =? id) then
    do! _ := perform (ECloseStream id) in
    Ret (Err (IoError PermissionDenied (lit "voice stream rejected")))
  else Ret (Ok id).
End Requests.

(** [connect_authenticated], [connect_authenticated_with_options] and
    [connect_authenticated_compiled], given what the connection attempt returned. *)
Definition connect_authenticated (connected : io Client) (token : list Z) : tprog Client :=
  do! client := lift connected in
  do! _ := authenticate client token in
  Ret (Ok client).

(** [EventReceiver::recv], given what the broadcast channel answered. *)
Inductive broadcast_answer := BEvent (r : Response) | BLagged (skipped : Z) | BClosed.
Definition event_recv (a : broadcast_answer) : io Response :=
  match a with
  | BEvent r => Ok r
  | BLagged skipped => Err (IoError OtherKind (lit "MST5 event receiver lagged by " ++ dec skipped ++ lit " batches"))
  | BClosed => Err (IoError BrokenPipe (lit "MST5 event channel closed"))
  end.

(** [VoiceStream::send], [recv] and [close]; the read timeout is two minutes. *)
Definition voice_send (id : Z) (pcm : list Z) : tprog unit :=
  throw_if (is_empty pcm || (64 * 1024 <? len pcm)) with invalid_input (lit "voice frame must contain 1..65536 bytes");
  perform (ESend id kind.STREAM_DATA 0 pcm).

Definition voice_recv (id : Z) : tprog (list Z) :=
  do! f := perform (ERecv id 120000) in
  lift (if (fr_kind f =? kind.STREAM_DATA) && (fr_id f =? id) && negb (is_empty (fr_payload f))
        then Ok (fr_payload f)
        else if (fr_kind f =? kind.STREAM_END) || (fr_kind f =? kind.STREAM_ABORT)
        then Err (IoError UnexpectedEof (lit "voice stream closed"))
        else if fr_kind f =? kind.ERROR
        then let? v := decode_cbor (fr_payload f) in Err (api_response_error (fr_code f) v)
        else Err (invalid_data (lit "unexpected voice stream frame"))).

Definition voice_close (id : Z) : tprog unit :=
  let! stream_result := perform (ECloseStream id) in
  let! client_result := perform ECloseConnection in
  Ret (match stream_result with Ok _ => client_result | Err e => Err e end).
