(* ===== verification/Api.v ===== *)
(** * The messenger API (src/src/lib.rs, second [impl Client])

    Every typed method as a client program: the payload it builds, the opcode it
    uses, and the result it reads.  Arguments of type [T: ToString] and [&str] are
    strings, [Option<T>] is [option]. *)
From S2P Require Import Prelude RustStr Cbor Frame Codec Types Ops Program Client.

(** [if let Some(x) = x { entries.push((key, f(x))) }]. *)
Definition push_some {A} (key : list Z) (f : A → Value) (o : option A) : list (list Z * Value) :=
  match o with Some a => [(key, f a)] | None => [] end.

(** [if let Some(x) = x { query.push_..(key, x) }]. *)
Definition query_some {A} (push : list Z → list Z → A → list Z) (key : list Z) (o : option A) (q : list Z) : list Z :=
  match o with Some a => push q key a | None => q end.

Section Api.
Variable c : Client.

(** A command whose result is a message, a user or a new token. *)
Definition command_message (opcode : Z) (payload : Value) (context : list Z) : tprog Message :=
  do! value := command_result c opcode payload in lift (message_from_result value context).
Definition command_user (opcode : Z) (payload : Value) (context : list Z) : tprog User :=
  do! value := command_result c opcode payload in
  lift (let? u := required_field value (lit "user") context in user_from_value u).
Definition command_auth (opcode : Z) (payload : Value) (context : list Z) : tprog AuthResult :=
  do! value := command_result c opcode payload in lift (auth_result_from_value value context).

(** A command that logs in: on success the principal changes. *)
Definition command_login (opcode : Z) (payload : Value) (context : list Z) : tprog AuthResult :=
  do! _ := ensure_transport_authenticated c in
  do! result := command_auth opcode payload context in
  do! _ := promote_auth_result result in
  Ret (Ok result).

Definition get_me : tprog Me :=
  do! value := query_result c op.ME [] in lift (me_from_value value).

Definition send (to text : list Z) : tprog Message :=
  throw_if (is_empty (trim to)) with invalid_input (lit "message recipient must not be empty");
  throw_if (is_empty (trim text)) with invalid_input (lit "message text must not be empty");
  command_message op.SEND (value_map [(lit "to", VText to); (lit "text", VText text)]) (lit "send response").

Definition register (username password : list Z) (email : option (list Z)) : tprog AuthResult :=
  command_login op.REGISTER
    (VMap ([(lit "username", VText username); (lit "password", VText password)] ++ push_some (lit "email") VText email))
    (lit "register response").
Definition login (username password : list Z) : tprog AuthResult :=
  command_login op.LOGIN (value_map [(lit "username", VText username); (lit "password", VText password)])
    (lit "login response").
Definition login_email (email password : list Z) : tprog AuthResult :=
  command_login op.LOGIN (value_map [(lit "email", VText email); (lit "password", VText password)])
    (lit "login response").
Definition start_email_auth (email : list Z) : tprog Value :=
  do! _ := ensure_transport_authenticated c in
  command_result c op.EMAIL_AUTH_START (value_map [(lit "email", VText email)]).
Definition verify_email_auth (email code : list Z) (cloud_password : option (list Z)) : tprog AuthResult :=
  command_login op.EMAIL_AUTH_VERIFY
    (VMap ([(lit "email", VText email); (lit "code", VText code)] ++ push_some (lit "cloud_password") VText cloud_password))
    (lit "email auth response").

Definition delete_account (code : list Z) : tprog Value :=
  command_result c op.ACCOUNT_DELETE (value_map [(lit "code", VText code)]).
Definition set_username (username : list Z) : tprog User :=
  command_user op.SET_USERNAME (value_map [(lit "username", VText username)]) (lit "set_username response").
Definition set_name (name : list Z) : tprog User :=
  command_user op.SET_NAME (value_map [(lit "name", VText name)]) (lit "set_name response").
Definition set_profile_description (profile : option (list Z)) (description : list Z) : tprog Value :=
  command_result c op.SET_PROFILE_DESCRIPTION
    (VMap ([(lit "description", VText description)] ++ push_some (lit "profile") VText profile)).
Definition set_description (description : list Z) : tprog Value := set_profile_description None description.
Definition set_privacy (message_privacy call_privacy invite_privacy : list Z) : tprog Value :=
  command_result c op.SET_PRIVACY
    (value_map [(lit "message_privacy", VText message_privacy); (lit "call_privacy", VText call_privacy);
                (lit "invite_privacy", VText invite_privacy)]).

Definition contacts : tprog Value := query_result c op.CONTACTS [].
Definition add_contact (user : list Z) : tprog Value :=
  command_result c op.CONTACT_ADD (value_map [(lit "user", VText user)]).
Definition delete_contact (user : list Z) : tprog Value :=
  command_result c op.CONTACT_DELETE (value_map [(lit "user", VText user)]).

Definition create_group (title : list Z) (members : list (list Z)) : tprog Value :=
  command_result c op.CREATE_GROUP (value_map [(lit "title", VText title); (lit "members", string_array members)]).
Definition create_channel (title : list Z) (username : option (list Z)) (members : list (list Z)) : tprog Value :=
  command_result c op.CREATE_CHANNEL
    (VMap ([(lit "title", VText title); (lit "members", string_array members)] ++ push_some (lit "username") VText username)).
Definition set_chat_title (chat title : list Z) : tprog Value :=
  command_result c op.SET_CHAT_TITLE (value_map [(lit "chat", VText chat); (lit "title", VText title)]).
Definition set_channel_username (chat username : list Z) : tprog Value :=
  command_result c op.SET_CHANNEL_USERNAME (value_map [(lit "chat", VText chat); (lit "username", VText username)]).
Definition set_channel_comments (chat : list Z) (enabled : bool) : tprog Value :=
  command_result c op.SET_CHANNEL_COMMENTS (value_map [(lit "chat", VText chat); (lit "enabled", VBool enabled)]).
Definition send_channel_comment (chat : list Z) (post_id : Z) (text : list Z) (reply_to_message_id : option Z)
    (client_message_id : option (list Z)) : tprog Message :=
  command_message op.SEND_CHANNEL_COMMENT
    (VMap ([(lit "chat", VText chat); (lit "post_id", VInteger post_id); (lit "text", VText text)]
           ++ push_some (lit "reply_to_message_id") VInteger reply_to_message_id
           ++ push_some (lit "client_message_id") VText client_message_id))
    (lit "send_channel_comment response").
Definition channel_comments (chat : list Z) (post_id : Z) (before : option Z) (limit : option Z) : tprog Value :=
  let q := query_push [] (lit "chat") chat in
  let q := query_push_i64 q (lit "post_id") post_id in
  let q := query_some query_push_i64 (lit "before") before q in
  let q := query_some query_push_usize (lit "limit") limit q in
  query_result c op.CHANNEL_COMMENTS q.
Definition add_chat_member (chat user : list Z) : tprog Value :=
  command_result c op.ADD_CHAT_MEMBER (value_map [(lit "chat", VText chat); (lit "user", VText user)]).
Definition remove_chat_member (chat user : list Z) : tprog Value :=
  command_result c op.REMOVE_CHAT_MEMBER (value_map [(lit "chat", VText chat); (lit "user", VText user)]).

Definition set_cloud_password (password : list Z) (e2e_backup : option Value) : tprog Value :=
  command_result c op.SET_CLOUD_PASSWORD
    (VMap ([(lit "password", VText password)] ++ push_some (lit "e2e_backup") id e2e_backup)).
Definition reset_cloud_password (email : option (list Z)) (code : list Z) : tprog Value :=
  do! _ := ensure_transport_authenticated c in
  command_result c op.RESET_CLOUD_PASSWORD (VMap ([(lit "code", VText code)] ++ push_some (lit "email") VText email)).
Definition sessions : tprog Value := query_result c op.SESSIONS [].
Definition revoke_session (id : list Z) : tprog Value :=
  command_result c op.REVOKE_SESSION (value_map [(lit "id", VText id)]).
Definition revoke_other_sessions : tprog Value := command_result c op.REVOKE_OTHER_SESSIONS (VMap []).

Definition create_bot (username : list Z) : tprog AuthResult :=
  command_auth op.CREATE_BOT (value_map [(lit "username", VText username)]) (lit "create_bot response").
Definition reset_bot_token (username : list Z) : tprog AuthResult :=
  command_auth op.RESET_BOT_TOKEN (value_map [(lit "username", VText username)]) (lit "reset_bot_token response").
Definition bot_commands (bot : list Z) : tprog Value := query_result c op.BOT_COMMANDS (query_push [] (lit "bot") bot).

Definition sticker_packs : tprog Value := query_result c op.STICKER_PACKS [].
Definition sticker_pack (id : list Z) : tprog Value := query_result c op.STICKER_PACK (query_push [] (lit "id") id).
Definition create_sticker_pack (body : Value) : tprog Value := command_result c op.STICKER_CREATE body.
Definition purchase_sticker_pack (id : list Z) : tprog Value :=
  command_result c op.STICKER_PURCHASE (value_map [(lit "id", VText id)]).
Definition send_sticker (to pack_id file_id client_message_id : list Z) : tprog Value :=
  command_result c op.STICKER_SEND
    (value_map [(lit "to", VText to); (lit "pack_id", VText pack_id); (lit "file_id", VText file_id);
                (lit "client_message_id", VText client_message_id)]).
Definition set_sticker_pack_price (id : list Z) (price_dsr : Z) : tprog Value :=
  command_result c op.STICKER_PRICE (value_map [(lit "id", VText id); (lit "price_dsr", VInteger price_dsr)]).

Definition set_e2e_key (public_key_b64 : list Z) : tprog Value :=
  command_result c op.SET_E2E_KEY (value_map [(lit "version", VInteger 3); (lit "public_key", VText public_key_b64)]).
Definition set_chat_e2e_key (chat_id public_key_b64 : list Z) : tprog Value :=
  command_result c op.SET_E2E_KEY
    (value_map [(lit "version", VInteger 3); (lit "public_key", VText public_key_b64); (lit "chat_id", VText chat_id)]).
Definition get_e2e_key (user : list Z) : tprog Value := query_result c op.GET_E2E_KEY (query_push [] (lit "user") user).
Definition get_chat_e2e_key (user chat_id : list Z) : tprog Value :=
  query_result c op.GET_E2E_KEY (query_push (query_push [] (lit "user") user) (lit "chat_id") chat_id).
Definition set_e2e_backup (backup : Value) : tprog Value := command_result c op.SET_E2E_BACKUP backup.
Definition get_e2e_backup : tprog Value := query_result c op.GET_E2E_BACKUP [].
Definition reset_e2e : tprog Value :=
  command_result c op.RESET_E2E (value_map [(lit "confirm", VText (lit "reset_e2e"))]).

Definition wallet : tprog Value := query_result c op.WALLET [].
Definition wallet_send (to : list Z) (amount : Z) (comment idempotency_key : option (list Z)) : tprog Value :=
  command_result c op.WALLET_SEND
    (VMap ([(lit "to", VText to); (lit "amount", VInteger amount)] ++ push_some (lit "comment") VText comment
           ++ push_some (lit "idempotency_key") VText idempotency_key)).
Definition wallet_history (limit : option Z) : tprog Value :=
  query_result c op.WALLET_HISTORY (query_some query_push_usize (lit "limit") limit []).

Definition call (to action : list Z) : tprog Value :=
  command_result c op.CALL (value_map [(lit "to", VText to); (lit "action", VText action)]).
Definition create_voice_ticket (peer : list Z) : tprog Value :=
  command_result c op.VOICE_TICKET (value_map [(lit "peer", VText peer)]).
Definition voice_participants (peer : list Z) : tprog Value :=
  query_result c op.VOICE_PARTICIPANTS (query_push [] (lit "peer") peer).

Definition send_advanced (request : Value) : tprog Message := command_message op.SEND request (lit "send response").
Definition edit_message (id : Z) (text : list Z) : tprog Message :=
  command_message op.EDIT (value_map [(lit "id", VInteger id); (lit "text", VText text)]) (lit "edit_message response").
Definition edit_message_advanced (request : Value) : tprog Message :=
  command_message op.EDIT request (lit "edit_message response").
Definition pin_message (id : Z) (pinned : bool) : tprog Message :=
  command_message op.PIN (value_map [(lit "id", VInteger id); (lit "pinned", VBool pinned)]) (lit "pin_message response").
Definition vote_poll (message_id option : Z) : tprog Message :=
  command_message op.POLL_VOTE (value_map [(lit "message_id", VInteger message_id); (lit "option", VInteger option)])
    (lit "vote_poll response").
Definition callback (to : list Z) (message_id : Z) (callback : list Z) : tprog Value :=
  command_result c op.CALLBACK
    (value_map [(lit "to", VText to); (lit "message_id", VInteger message_id); (lit "callback", VText callback)]).
Definition react (message_id : Z) (emoji : list Z) : tprog Value :=
  command_result c op.REACT (value_map [(lit "message_id", VInteger message_id); (lit "emoji", VText emoji)]).
Definition react_paid (message_id amount : Z) (idempotency_key : option (list Z)) : tprog Value :=
  command_result c op.REACT_PAID
    (VMap ([(lit "message_id", VInteger message_id); (lit "amount", VInteger amount)]
           ++ push_some (lit "idempotency_key") VText idempotency_key)).
Definition read_messages (peer : list Z) : tprog Value :=
  command_result c op.READ (value_map [(lit "peer", VText peer)]).
Definition delete_message (id : Z) : tprog Value := command_result c op.DELETE (value_map [(lit "id", VInteger id)]).
Definition favorite_message (id : Z) : tprog Message :=
  command_message op.FAVORITE (value_map [(lit "id", VInteger id)]) (lit "favorite_message response").

Definition nodes_status : tprog Value := query_result c op.NODES_STATUS [].
Definition chats : tprog Value := query_result c op.CHATS [].
Definition delete_chat (peer : list Z) : tprog Value :=
  command_result c op.DELETE_CHAT (value_map [(lit "peer", VText peer)]).
Definition ban_user (username : list Z) : tprog Value :=
  command_result c op.BAN_USER (value_map [(lit "username", VText username)]).
Definition unban_user (username : list Z) : tprog Value :=
  command_result c op.UNBAN_USER (value_map [(lit "username", VText username)]).
Definition history (peer : list Z) (after before limit : option Z) : tprog Value :=
  let q := query_push [] (lit "peer") peer in
  let q := query_some query_push_i64 (lit "after") after q in
  let q := query_some query_push_i64 (lit "before") before q in
  let q := query_some query_push_usize (lit "limit") limit q in
  query_result c op.HISTORY q.
Definition updates (after timeout_secs : option Z) : tprog Value :=
  let q := query_some query_push_i64 (lit "after") after [] in
  let q := query_some query_push_u64 (lit "timeout") timeout_secs q in
  query_result c op.SYNC q.
Definition ack_updates (ids : list Z) : tprog Value :=
  command_result c op.BOT_ACK (value_map [(lit "ids", VArray (map VInteger ids))]).

Definition register_node (request : Value) : tprog Value := command_result c op.NODE_REGISTER request.
Definition list_nodes : tprog Value := query_result c op.NODE_LIST [].
Definition oauth_device_request (user_code : list Z) : tprog Value :=
  query_result c op.OAUTH_DEVICE_REQUEST (query_push [] (lit "user_code") user_code).
Definition oauth_device_decision (user_code decision : list Z) : tprog Value :=
  command_result c op.OAUTH_DEVICE_DECISION
    (value_map [(lit "user_code", VText user_code); (lit "decision", VText decision)]).
Definition botfather_execute (event_id user_id : Z) (text : list Z) : tprog Value :=
  command_result c op.BOTFATHER_EXECUTE
    (value_map [(lit "event_id", VInteger event_id); (lit "user_id", VInteger user_id); (lit "text", VText text)]).
Definition dastars_credit (user_id amount : Z) (txid : list Z) : tprog Value :=
  command_result c op.DASTARS_CREDIT
    (value_map [(lit "user_id", VInteger user_id); (lit "amount", VInteger amount); (lit "txid", VText txid)]).
Definition file_ticket (id : list Z) : tprog Value := query_result c op.FILE_TICKET (query_push [] (lit "id") id).
Definition forward_message (message_id : Z) (to : list Z) (client_message_id : option (list Z)) : tprog Message :=
  command_message op.FORWARD
    (VMap ([(lit "message_id", VInteger message_id); (lit "to", VText to)]
           ++ push_some (lit "client_message_id") VText client_message_id))
    (lit "forward_message response").
Definition media_quote (request : Value) : tprog Value := command_result c op.MEDIA_QUOTE request.
Definition prepare_message_media (request : Value) : tprog Value := command_result c op.MESSAGE_PREPARE request.
Definition commit_message_media (operation_id : list Z) : tprog Value :=
  command_result c op.MESSAGE_COMMIT (value_map [(lit "operation_id", VText operation_id)]).
Definition cancel_message_media (operation_id client_message_id : option (list Z)) : tprog Value :=
  command_result c op.MESSAGE_CANCEL
    (VMap (push_some (lit "operation_id") VText operation_id ++ push_some (lit "client_message_id") VText client_message_id)).

(** The media node's own requests. *)
Definition media_stat (file_id : list Z) : tprog Z :=
  do! r := query_value c media_op.STAT (value_map [(lit "file_id", VText file_id)]) in
  lift (let? v := into_result r in
        ok_or (get_u64 v (lit "size")) (invalid_data (lit "media node returned invalid stat metadata"))).
Definition media_delete (file_id : list Z) : tprog unit :=
  do! r := command c media_op.DELETE (value_map [(lit "file_id", VText file_id)]) in
  lift (let? _ := into_result r in Ok tt).
Definition media_health : tprog unit :=
  do! r := query_value c media_op.HEALTH (VMap []) in
  lift (let? _ := into_result r in Ok tt).
End Api.
