(* ===== verification/ClientProofs.v ===== *)
(** * The client: correctness of requests, negotiation and failover

    What a client program may send ([sends_only]), the discipline of every
    request, the capabilities an accepted HELLO guarantees, the effect of a login,
    and the order in which endpoints are tried. *)
From S2P Require Import Prelude RustStr Cbor Frame Codec Types Connection Ops Account Program Client Messenger MessengerProofs Api.

(** ** What a program sends *)

(** Every action of [p] satisfies [Q]. *)
Definition sends_only {A} (Q : action → Prop) (p : prog A) : Prop :=
  ∀ w r w', exec p w = Some (r, w') → ∃ l, w_log w' = w_log w ++ l ∧ Forall Q l.

Lemma sends_ret {A} Q (a : A) : sends_only Q (Ret a).
Proof. intros w r w' H. cbn in H. simplify_eq. exists []. by rewrite app_nil_r. Qed.

Lemma sends_bind {A B} Q (m : prog A) (k : A → prog B) :
  sends_only Q m → (∀ a, sends_only Q (k a)) → sends_only Q (bind m k).
Proof.
  intros Hm Hk w r w' H. rewrite exec_bind in H. destruct (exec m w) as [[a w1]|] eqn:E; [|done].
  destruct (Hm _ _ _ E) as (l1 & E1 & H1). destruct (Hk _ _ _ _ H) as (l2 & E2 & H2).
  exists (l1 ++ l2). rewrite E2, E1, app_assoc. split; [done|]. by apply Forall_app.
Qed.

Lemma sends_try {A B} Q (m : tprog A) (k : A → tprog B) :
  sends_only Q m → (∀ a, sends_only Q (k a)) → sends_only Q (try_bind m k).
Proof. intros. apply sends_bind; [done|]. intros [a|e]; [done|apply sends_ret]. Qed.

(** The action an interaction records. *)
Definition action_of {X} (e : effect X) : option action :=
  match e with
  | ERequest k code nonce deadline payload _ => Some (ARequest k code nonce deadline payload)
  | EBegin k code nonce deadline payload => Some (ABegin k code nonce deadline payload)
  | ESend id k code payload => Some (ASend id k code payload)
  | EAbort id status => Some (AAbort id status)
  | ERemove id => Some (ARemove id)
  | ECloseStream id => Some (ACloseStream id)
  | ECloseConnection => Some ACloseConnection
  | EFlush => Some AFlush
  | _ => None
  end.

Lemma handle_log {X} (e : effect X) w :
  w_log (handle e w).2 = w_log w ++ match action_of e with Some a => [a] | None => [] end.
Proof.
  destruct e; cbn; unfold next_frame, next_send, next_read, next_write, pop; cbn; rewrite ?app_nil_r;
    repeat case_match; cbn; done.
Qed.

Lemma sends_perform {X} Q (e : effect X) :
  match action_of e with Some a => Q a | None => True end → sends_only Q (perform e).
Proof.
  intros HQ w r w' H. rewrite exec_perform in H. apply Some_inj' in H.
  pose proof (handle_log e w) as Hl. rewrite H in Hl. cbn in Hl. eexists. split; [exact Hl|].
  destruct (action_of e); repeat constructor; done.
Qed.

Lemma sends_if {A} Q (b : bool) (p q : prog A) : sends_only Q p → sends_only Q q → sends_only Q (if b then p else q).
Proof. by destruct b. Qed.

Lemma sends_impl {A} (P Q : action → Prop) (p : prog A) : (∀ a, P a → Q a) → sends_only P p → sends_only Q p.
Proof.
  intros HPQ Hp w r w' H. destruct (Hp _ _ _ H) as (l & E & Hl). exists l. split; [done|].
  by eapply List.Forall_impl.
Qed.

Create HintDb sends.
#[export] Hint Resolve sends_ret sends_bind sends_try sends_if : sends.
#[export] Hint Extern 2 (sends_only _ (perform _)) => apply sends_perform; cbn : sends.
#[export] Hint Extern 2 (sends_only _ (lift _)) => apply sends_ret : sends.

(** ** Requests *)

(** The nonce of a request: zero for a QUERY, which may not be given one; for a COMMAND
    the one the caller gave, or else the one drawn from the random source (a one
    followed by zeros when that is zero), sixteen bytes that are not all zero. *)
Definition nonce_rule (k : Z) (options : RequestOptions) (w : World) (nonce : list Z) : Prop :=
  (k = kind.QUERY ∧ request_nonce options = None ∧ nonce = zero_nonce16) ∨
  (k = kind.COMMAND ∧ length nonce = 16%nat ∧ nonce ≠ zero_nonce16 ∧
   (request_nonce options = Some nonce ∨
    request_nonce options = None ∧
    ∃ drawn, hd_error (w_random w) = Some (Ok drawn) ∧
      nonce = if decide (drawn = zero_nonce16) then 1 :: replicate 15 0 else drawn)).

(** The deadline of a request: the caller's, or the read timeout from now. *)
Definition deadline_rule (c : Client) (options : RequestOptions) (w : World) (deadline : Z) : Prop :=
  deadline = match deadline_ms options with
             | Some d => d
             | None => saturating_add64 (hd 0 (w_clock w)) (duration_ms (cl_read_timeout c))
             end.

(** Why a request may be refused before anything is sent. *)
Inductive refusal (c : Client) (k : Z) (options : RequestOptions) (w : World) : Prop :=
| no_principal : w_principal w = None → refusal c k options w
| wrong_kind : k ≠ kind.QUERY → k ≠ kind.COMMAND → refusal c k options w
| query_nonce n : k = kind.QUERY → request_nonce options = Some n → refusal c k options w
| zero_given : k = kind.COMMAND → request_nonce options = Some zero_nonce16 → refusal c k options w
| no_random : k = kind.COMMAND → request_nonce options = None → (∀ v, hd_error (w_random w) ≠ Some (Ok v)) →
    refusal c k options w
| expired d now e : deadline_rule c options w d → deadline_timeout d now (cl_read_timeout c) = Err e →
    refusal c k options w.

(** The random source fills its buffer. *)
Definition random_fills (w : World) : Prop := Forall (λ r, ∀ l, r = Ok l → length l = 16%nat) (w_random w).

Lemma request_nonce_ok c k options w r w' :
  random_fills w → (∀ n, request_nonce options = Some n → length n = 16%nat) →
  k = kind.QUERY ∨ k = kind.COMMAND →
  exec (request_nonce_of k options) w = Some (r, w') →
  w_log w' = w_log w ∧ w_clock w' = w_clock w ∧
  match r with Ok nonce => nonce_rule k options w nonce | Err _ => refusal c k options w end.
Proof.
  intros Hf Hopt Hk H. unfold request_nonce_of in H. destruct (Z.eqb_spec k kind.COMMAND) as [->|Hne].
  - destruct (request_nonce options) as [v|] eqn:Eo.
    + unfold beq in H. case_bool_decide as Ez; cbn in H; simplify_eq; (split_and!; [done..|]); [by apply zero_given|].
      right. split_and!; [done|by apply Hopt|done|by left].
    + rewrite exec_bind, exec_perform in H. cbn [handle] in H. unfold random_fills, pop in *.
      destruct (w_random w) as [|[v|e] t] eqn:Er; cbn in H; simplify_eq; (split_and!; [done..|]);
        [by apply no_random; rewrite ?Er| |by apply no_random; rewrite ?Er].
      apply Forall_cons_1 in Hf as [Hx _]. right. split_and!; [done|..].
      * unfold beq. case_bool_decide; [done|by apply Hx].
      * unfold beq. by case_bool_decide.
      * right. split; [done|]. exists v. rewrite Er. split; [done|]. unfold beq. case_bool_decide as Hz; [by rewrite decide_True|by rewrite decide_False].
  - destruct Hk as [->|]; [|done]. destruct (request_nonce options) as [n|] eqn:Eo; cbn in H; simplify_eq; (split_and!; [done..|]).
    + by eapply query_nonce.
    + by left.
Qed.

(** A program without actions leaves the log. *)
Lemma silent_log {A} (p : prog A) w r w' : sends_only (λ _, False) p → exec p w = Some (r, w') → w_log w' = w_log w.
Proof. intros Hs H. destruct (Hs _ _ _ H) as ([|a l] & -> & Hl); [by rewrite app_nil_r|by inversion Hl]. Qed.

Lemma silent_nonce k options : sends_only (λ _, False) (request_nonce_of k options).
Proof.
  unfold request_nonce_of. apply sends_if; [destruct (request_nonce options)|]; auto with sends.
  apply sends_bind; [by apply sends_perform|]. intros []; apply sends_ret.
Qed.

(** From the deadline on: a fresh deadline or the given one, then the frame. *)
Lemma request_tail c k opcode payload nonce options w r w' :
  exec (let! deadline :=
          match deadline_ms options with
          | Some d => Ret d
          | None => let! now := perform ENow in Ret (saturating_add64 now (duration_ms (cl_read_timeout c)))
          end in
        let! now := perform ENow in
        do! timeout := lift (deadline_timeout deadline now (cl_read_timeout c)) in
        request_frame k opcode nonce deadline payload timeout) w = Some (r, w') →
  (w_log w' = w_log w ∧ (∃ e, r = Err e) ∧
   ∃ d now e, deadline_rule c options w d ∧ deadline_timeout d now (cl_read_timeout c) = Err e) ∨
  ∃ deadline, w_log w' = w_log w ++ [ARequest k opcode nonce deadline payload] ∧ deadline_rule c options w deadline.
Proof.
  rewrite exec_bind. match goal with |- context [exec ?p w] => destruct (exec p w) as [[d w1]|] eqn:Ed; [|done] end.
  assert (w_log w1 = w_log w ∧ deadline_rule c options w d) as [El Hd].
  { unfold deadline_rule. destruct (deadline_ms options); cbn [exec] in Ed; [by simplify_eq|].
    rewrite exec_bind, exec_perform in Ed. cbn [handle] in Ed.
    destruct (w_clock w) as [|n [|n' l]]; cbn in Ed; by simplify_eq. }
  rewrite exec_bind, exec_perform. destruct (handle ENow w1) as [now w2] eqn:En.
  pose proof (handle_log ENow w1) as Hl. rewrite En in Hl. cbn in Hl. rewrite app_nil_r in Hl.
  rewrite exec_try. unfold lift. cbn [exec]. destruct (deadline_timeout _ _ _) as [t|e] eqn:Et.
  2:{ intros; simplify_eq. left. rewrite Hl, El. split_and!; [done|by eauto|by eauto 10]. }
  unfold request_frame. rewrite exec_try, exec_perform. destruct (handle _ w2) as [f w3] eqn:Ef.
  pose proof (handle_log (ERequest k opcode nonce d payload t) w2) as Hl3. rewrite Ef in Hl3. cbn in Hl3.
  intros H. right. exists d. split; [|done]. destruct f; cbn in H; simplify_eq; by rewrite Hl3, Hl, El.
Qed.

Lemma deadline_rule_clock c options w w1 d :
  w_clock w1 = w_clock w → deadline_rule c options w1 d → deadline_rule c options w d.
Proof. unfold deadline_rule. by intros ->. Qed.

(** What [request_cbor_with_options] sends. *)
Lemma request_discipline_core c k opcode payload options w r w' :
  random_fills w → (∀ n, request_nonce options = Some n → length n = 16%nat) →
  exec (request_cbor_with_options c k opcode payload options) w = Some (r, w') →
  (w_log w' = w_log w ∧ (∃ e, r = Err e) ∧ refusal c k options w) ∨
  (is_Some (w_principal w) ∧
   ∃ nonce deadline, w_log w' = w_log w ++ [ARequest k opcode nonce deadline payload] ∧
     nonce_rule k options w nonce ∧ deadline_rule c options w deadline).
Proof.
  intros Hf Hopt H. unfold request_cbor_with_options, has_principal in H.
  rewrite !exec_bind, exec_perform in H. cbn [handle exec] in H.
  case_bool_decide as Hp; cbn [negb] in H.
  2:{ cbn in H; simplify_eq. left. split_and!; [done|eauto|]. apply no_principal. by apply eq_None_not_Some. }
  destruct ((k =? kind.QUERY) || (k =? kind.COMMAND)) eqn:Ek; cbn [negb] in H.
  2:{ cbn in H; simplify_eq. left. split_and!; [done|eauto|]. apply orb_false_iff in Ek as [E1 E2].
      apply Z.eqb_neq in E1, E2. by apply wrong_kind. }
  rewrite exec_try in H. destruct (exec (request_nonce_of k options) w) as [[x w1]|] eqn:En; [|done].
  apply (request_nonce_ok c) in En as (Hlog & Hclock & Hrule); [|done|done|].
  2:{ apply orb_prop in Ek as [E|E]; apply Z.eqb_eq in E; auto. }
  destruct x as [nonce|e]; [|simplify_eq; left; eauto].
  apply request_tail in H as [(-> & He & d & now & e & Hd & Ht)|(d & -> & Hd)]; rewrite Hlog.
  - left. split_and!; [done..|]. eapply expired; [by eapply deadline_rule_clock|done].
  - right. split; [done|]. exists nonce, d. split_and!; [done..|by eapply deadline_rule_clock].
Qed.


(** ** Negotiation *)

(** The server's HELLO as a value. *)
Definition server_hello_value (features rpc_minor : Z) (connection_id : list Z) : Value :=
  value_map [(lit "transport_major", VUnsigned TRANSPORT_MAJOR); (lit "rpc_major", VUnsigned RPC_MAJOR);
             (lit "rpc_minor", VUnsigned rpc_minor); (lit "features", VUnsigned features);
             (lit "max_frame", VUnsigned MST5_MAX_PLAIN_PAYLOAD); (lit "connection_id", VText connection_id)].

Lemma server_hello_fields features minor cid :
  let v := server_hello_value features minor cid in
  get_u64 v (lit "transport_major") = Some TRANSPORT_MAJOR ∧ get_u64 v (lit "rpc_major") = Some RPC_MAJOR ∧
  get_u64 v (lit "features") = Some features ∧ get_u64 v (lit "max_frame") = Some MST5_MAX_PLAIN_PAYLOAD ∧
  get_u64 v (lit "rpc_minor") = Some minor ∧ get_str v (lit "connection_id") = Some cid.
Proof. split_and!; reflexivity. Qed.

Lemma encode_head_length m n : len (encode_cbor_head m n) ≤ 9.
Proof. unfold encode_cbor_head. repeat case_match; autorewrite with len; lia. Qed.

(** Bounds the length of an encoding whose shape is known. *)
Ltac bound_encoding :=
  autorewrite with len; repeat match goal with |- context [len (encode_cbor_head ?m ?n)] =>
    let E := fresh in pose proof (encode_head_length m n) as E; revert E; generalize (len (encode_cbor_head m n)); intros end;
  repeat match goal with |- context [len (lit ?s)] => let x := eval vm_compute in (len (lit s)) in change (len (lit s)) with x end.

Lemma server_hello_length features minor cid : len (encode_cbor (server_hello_value features minor cid)) ≤ 300 + len cid.
Proof.
  unfold encode_cbor, server_hello_value, value_map. cbn [encode_cbor_value map concat fst snd].
  bound_encoding. lia.
Qed.

Lemma server_hello_wf features minor cid :
  is_u64 features → is_u64 minor → is_bytes cid → utf8_valid cid = true → wf_value (server_hello_value features minor cid).
Proof.
  intros. unfold server_hello_value, value_map. cbn [wf_value fold_right fst snd].
  split_and!; first [exact I|assumption|apply lit_is_bytes|reflexivity|by_vm].
Qed.

Lemma hello_accepted features minor cid flags nonce deadline :
  is_u64 features → is_u64 minor → is_bytes cid → utf8_valid cid = true → len cid ≤ 1024 →
  Z.land features REQUIRED_FEATURES = REQUIRED_FEATURES →
  accept_hello (mkFrame kind.HELLO flags 200 0 nonce deadline (encode_cbor (server_hello_value features minor cid)))
  = Ok (mkServerHello TRANSPORT_MAJOR RPC_MAJOR minor features MST5_MAX_PLAIN_PAYLOAD (Some cid)).
Proof.
  intros Hf Hm Hc Hu Hl Hreq. unfold accept_hello. cbn [fr_kind fr_code fr_id fr_payload].
  rewrite cbor_decode_encode.
  - set (v := normalise _). assert (v = server_hello_value features minor cid) as -> by reflexivity.
    destruct (server_hello_fields features minor cid) as (-> & -> & -> & -> & -> & ->).
    assert (∀ z : Z, bool_decide (Some z = Some z) = true) as Hb by (intros; by apply bool_decide_eq_true_2).
    rewrite !Hb. cbn [default from_option id]. rewrite Hreq, !Z.eqb_refl. reflexivity.
  - by apply server_hello_wf.
  - unfold server_hello_value, value_map. cbn [small_containers fold_right snd]. split_and!; first [exact I|by_vm].
  - reflexivity || (vm_compute; congruence).
  - pose proof (server_hello_length features minor cid). widths. lia.
Qed.

(** Negotiation.  Every accepted HELLO is for this transport and RPC
    version, offers every capability the client requires and the client's own frame
    limit; and every server HELLO that does is accepted, with its features and
    connection id kept as sent. *)
Theorem negotiation_exact :
  (∀ f h, accept_hello f = Ok h →
     fr_kind f = kind.HELLO ∧ fr_code f = 200 ∧ fr_id f = 0 ∧
     sh_transport_major h = TRANSPORT_MAJOR ∧ sh_rpc_major h = RPC_MAJOR ∧
     Z.land (sh_features h) REQUIRED_FEATURES = REQUIRED_FEATURES ∧ sh_max_frame h = MST5_MAX_PLAIN_PAYLOAD) ∧
  (∀ features minor cid flags nonce deadline,
     is_u64 features → is_u64 minor → is_bytes cid → utf8_valid cid = true → len cid ≤ 1024 →
     Z.land features REQUIRED_FEATURES = REQUIRED_FEATURES →
     accept_hello (mkFrame kind.HELLO flags 200 0 nonce deadline (encode_cbor (server_hello_value features minor cid)))
     = Ok (mkServerHello TRANSPORT_MAJOR RPC_MAJOR minor features MST5_MAX_PLAIN_PAYLOAD (Some cid))).
Proof.
  split.
  - intros f h H. unfold accept_hello in H.
    destruct (_ || _ || _) eqn:E1 in H; [done|]. to_prop.
    destruct (decode_cbor _) as [v|]; [|done]. destruct (_ || _) eqn:E2 in H; [done|].
    destruct (_ || _) eqn:E3 in H; [done|]. to_prop. simplify_eq. cbn.
    repeat match goal with E : (_ =? _) = true |- _ => apply Z.eqb_eq in E end.
    split_and!; try done. by match goal with E : get_u64 v (lit "max_frame") = _ |- _ => rewrite E end.
  - intros. by apply hello_accepted.
Qed.

(** ** The principal *)

Definition keeps_principal {A} (p : prog A) : Prop :=
  ∀ w r w', exec p w = Some (r, w') → w_principal w' = w_principal w.

Lemma keeps_ret {A} (a : A) : keeps_principal (Ret a).
Proof. intros w r w' H. cbn in H. by simplify_eq. Qed.

Lemma keeps_bind {A B} (m : prog A) (k : A → prog B) :
  keeps_principal m → (∀ a, keeps_principal (k a)) → keeps_principal (bind m k).
Proof.
  intros Hm Hk w r w' H. rewrite exec_bind in H. destruct (exec m w) as [[a w1]|] eqn:E; [|done].
  rewrite (Hk _ _ _ _ H). by eapply Hm.
Qed.

Lemma keeps_try {A B} (m : tprog A) (k : A → tprog B) :
  keeps_principal m → (∀ a, keeps_principal (k a)) → keeps_principal (try_bind m k).
Proof. intros. apply keeps_bind; [done|]. intros [a|e]; [done|apply keeps_ret]. Qed.

Definition sets_principal {X} (e : effect X) : bool := match e with ESetPrincipal _ => true | _ => false end.

Lemma keeps_perform {X} (e : effect X) : sets_principal e = false → keeps_principal (perform e).
Proof.
  intros He w r w' H. rewrite exec_perform in H. apply Some_inj' in H. apply (f_equal snd) in H. cbn in H. subst w'.
  destruct e; try discriminate He; cbn; unfold next_frame, next_send, next_read, next_write, pop; cbn;
    repeat case_match; done.
Qed.

Lemma keeps_if {A} (b : bool) (p q : prog A) : keeps_principal p → keeps_principal q → keeps_principal (if b then p else q).
Proof. by destruct b. Qed.

Create HintDb keeps.
#[export] Hint Resolve keeps_ret keeps_bind keeps_try keeps_if : keeps.
#[export] Hint Extern 2 (keeps_principal (perform _)) => apply keeps_perform; reflexivity : keeps.
#[export] Hint Extern 2 (keeps_principal (lift _)) => apply keeps_ret : keeps.

Section Principal.
Variable c : Client.

Lemma keeps_request k o p opts : keeps_principal (request_cbor_with_options c k o p opts).
Proof.
  unfold request_cbor_with_options, has_principal, request_nonce_of, request_frame.
  destruct (request_nonce opts), (deadline_ms opts); auto 12 with keeps.
  all: repeat first [apply keeps_bind; [by auto 8 with keeps|intros ?]|apply keeps_if; [by auto with keeps|]
    |apply keeps_try; [|intros ?]|by auto 8 with keeps|case_match].
Qed.

Lemma keeps_command_result o p : keeps_principal (command_result c o p).
Proof. apply keeps_try; [apply keeps_request|intros; apply keeps_ret]. Qed.

Lemma keeps_request_frame k o n d p t : keeps_principal (request_frame k o n d p t).
Proof. unfold request_frame. auto with keeps. Qed.

(** Authentication changes the principal only when it succeeds. *)
Lemma authenticate_info_err token name model w e w' :
  exec (authenticate_info_with_client_metadata c token name model) w = Some (Err e, w') → w_principal w' = w_principal w.
Proof.
  unfold authenticate_info_with_client_metadata. destruct (64 <? _); [cbn; intros; by simplify_eq|].
  destruct (_ || _); [cbn; intros; by simplify_eq|]. rewrite exec_try.
  destruct (exec (request_frame _ _ _ _ _ _) w) as [[[r|e'] w1]|] eqn:Er; [| |done];
    apply keeps_request_frame in Er; [|intros; by simplify_eq].
  rewrite exec_try. unfold lift. cbn [exec]. destruct (into_result r) as [v|]; [|intros; by simplify_eq].
  rewrite exec_try. cbn [exec]. destruct (auth_info_from_value v) as [i|]; [|intros; by simplify_eq].
  intros H. cbn in H. by simplify_eq.
Qed.

Lemma ensure_err w e w' :
  exec (ensure_transport_authenticated c) w = Some (Err e, w') → w_principal w' = w_principal w.
Proof.
  unfold ensure_transport_authenticated, has_principal. rewrite !exec_bind, exec_perform. cbn [handle exec].
  case_bool_decide; [cbn; intros; by simplify_eq|].
  unfold authenticate, authenticate_info, authenticate_info_with_client_name. rewrite exec_try.
  destruct (exec (authenticate_info_with_client_metadata _ _ _ _) w) as [[[i|e'] w1]|] eqn:E; [| |done]; cbn; intros; simplify_eq.
  by eapply authenticate_info_err.
Qed.

Lemma ensure_ok w u w' :
  exec (ensure_transport_authenticated c) w = Some (Ok u, w') →
  is_Some (w_principal w') ∧ (is_Some (w_principal w) → w_principal w' = w_principal w ∧ w_log w' = w_log w).
Proof.
  unfold ensure_transport_authenticated, has_principal. rewrite !exec_bind, exec_perform. cbn [handle exec].
  case_bool_decide as Hp; [cbn; intros; by simplify_eq|].
  unfold authenticate, authenticate_info, authenticate_info_with_client_name. rewrite exec_try.
  destruct (exec (authenticate_info_with_client_metadata _ _ _ _) w) as [[[i|e'] w1]|] eqn:E; [| |done]; cbn; intros; simplify_eq.
  split; [|done]. revert E. unfold authenticate_info_with_client_metadata.
  destruct (64 <? _); [done|]. destruct (_ || _); [done|]. rewrite exec_try.
  destruct (exec (request_frame _ _ _ _ _ _) w) as [[[r|e'] w2]|]; [|done..].
  rewrite exec_try. unfold lift. cbn [exec]. destruct (into_result r) as [v|]; [|done].
  rewrite exec_try. cbn [exec]. destruct (auth_info_from_value v) as [j|]; [|done].
  intros H'. cbn in H'. simplify_eq. cbn. eauto.
Qed.

(** The principal a login establishes. *)
Definition promoted (session : option (list Z)) (r : AuthResult) : AuthInfo :=
  if us_bot (ar_user r)
  then mkAuthInfo (lit "bot") (Some (us_id (ar_user r))) [lit "messages.send"; lit "updates.read"; lit "updates.ack"] session None (VMap [])
  else mkAuthInfo (lit "user") (Some (us_id (ar_user r))) [lit "messenger.rpc"; lit "oauth.decide"] session None (VMap []).

Lemma promote_exec r w :
  exec (promote_auth_result r) w =
  Some (Ok tt, set_principal_of (Some (promoted (match w_principal w with Some i => ai_session_id i | None => None end) r)) w).
Proof. unfold promote_auth_result, promoted, auth_info, set_principal. cbn. by destruct (us_bot _). Qed.

(** Logging in.  The programs behind [register], [login], [login_email] and
    [verify_email_auth] return a token exactly together with the promotion of the
    client's principal to the user (or bot) of that result, within the session
    established before; when they fail, a principal that was there before is left as
    it was. *)
Theorem login_promotes opcode payload context w r w' :
  exec (command_login c opcode payload context) w = Some (r, w') →
  match r with
  | Ok result => ∃ session, w_principal w' = Some (promoted session result) ∧
      (∀ i, w_principal w = Some i → session = ai_session_id i)
  | Err _ => ∀ i, w_principal w = Some i → w_principal w' = Some i
  end.
Proof.
  unfold command_login. rewrite exec_try.
  destruct (exec (ensure_transport_authenticated c) w) as [[[u|e] w1]|] eqn:E1; [| |done].
  2:{ intros; simplify_eq. intros i Hi. apply ensure_err in E1. congruence. }
  apply ensure_ok in E1 as [[i1 Hi1] Hsame]. rewrite exec_try.
  destruct (exec (command_auth c opcode payload context) w1) as [[[result|e] w2]|] eqn:E2; [| |done].
  - assert (w_principal w2 = w_principal w1) as Hk.
    { eapply (keeps_try (command_result c opcode payload)); [apply keeps_command_result| |exact E2].
      intros; apply keeps_ret. }
    rewrite exec_try, promote_exec. cbn [exec]. intros; simplify_eq. cbn. eexists. split; [done|].
    intros i Hi. rewrite Hk. destruct (Hsame ltac:(eauto)) as [-> _]. by rewrite Hi.
  - assert (w_principal w2 = w_principal w1) as Hk.
    { eapply (keeps_try (command_result c opcode payload)); [apply keeps_command_result| |exact E2].
      intros; apply keeps_ret. }
    intros; simplify_eq. intros i Hi. rewrite Hk. destruct (Hsame ltac:(eauto)) as [-> _]. done.
Qed.
End Principal.

(** ** Failover *)

Lemma first_success_ok {A B} (f : A → io B) last empty l b :
  first_success f last empty l = Ok b →
  ∃ l1 x l2, l = l1 ++ x :: l2 ∧ f x = Ok b ∧ Forall (λ y, is_ok (f y) = false) l1.
Proof.
  revert last. induction l as [|y l IH]; intros last; cbn; [done|].
  destruct (f y) as [b'|e] eqn:E; intros H; simplify_eq.
  - exists [], y, l. done.
  - destruct (IH _ H) as (l1 & x & l2 & -> & Hx & Hl). exists (y :: l1), x, l2.
    split_and!; [done|done|]. constructor; [by rewrite E|done].
Qed.

(** A chain with a separator has its candidates tried in order; without one it
    is the candidate. *)
Lemma connect_chain {B} (connect_one : list Z → list Z → ClientOptions → io B) l key options b :
  l ≠ [] → Forall is_candidate l →
  connect_with_key_and_options connect_one (join [124] l) key options = Ok b →
  ∃ l1 x l2, l = l1 ++ x :: l2 ∧ connect_one x key options = Ok b ∧
    Forall (λ y, is_ok (connect_one y key options) = false) l1.
Proof.
  intros Hne Hl. unfold connect_with_key_and_options.
  change (List.filter (λ v, negb (is_empty v)) (map trim (split_on 124 (join [124] l))))
    with (endpoint_candidates (join [124] l)).
  rewrite candidates_join by done. destruct (contains_byte 124 (join [124] l)) eqn:Ec; [apply first_success_ok|].
  destruct l as [|x [|y l]]; [done| |].
  - intros H. by exists [], x, [].
  - exfalso. apply not_true_iff_false in Ec. apply Ec. unfold contains_byte. apply existsb_exists.
    exists 124. split; [|done]. cbn [join]. apply in_app_iff. right. by left.
Qed.

(** In automatic mode the connection is native whenever a native endpoint
    answers.  A client that connects through the chain [select_endpoint] resolves
    gets its connection from a configured candidate; if that one is M5oH, every
    native candidate has failed first. *)
Theorem auto_prefers_native {B} (connect_one : list Z → list Z → ClientOptions → io B) configured out key options b :
  select_endpoint configured TAuto = Ok out →
  connect_with_key_and_options connect_one out key options = Ok b →
  ∃ x, x ∈ endpoint_candidates configured ∧ connect_one x key options = Ok b ∧
    (is_m5oh x = true → ∀ y, y ∈ endpoint_candidates configured → is_m5oh y = false →
       is_ok (connect_one y key options) = false).
Proof.
  set (cs := endpoint_candidates configured). intros Hs Hc.
  assert (out = join [124] (selected_endpoints cs TAuto) ∧ selected_endpoints cs TAuto ≠ []) as [-> Hne].
  { unfold select_endpoint in Hs. fold cs in Hs. destruct (is_empty cs); [done|].
    destruct (is_empty (selected_endpoints cs TAuto)) eqn:E; [done|]. simplify_eq. split; [done|].
    intros E'. by rewrite E' in E. }
  apply connect_chain in Hc as (l1 & x & l2 & El & Hx & Hl1); [|done|apply selected_ok, candidates_ok].
  assert (∀ z, z ∈ selected_endpoints cs TAuto ↔ z ∈ cs) as Hmem.
  { intros z. cbn. by rewrite (filter_partition is_m5oh cs). }
  exists x. split_and!; [apply Hmem; rewrite El; set_solver|done|].
  intros Hm y Hy Hny. rewrite list.Forall_forall in Hl1. apply Hl1.
  cbn in El. apply app_eq_app in El as (k & [[E1 E2]|[E1 E2]]).
  - assert (x ∈ List.filter (λ c, negb (is_m5oh c)) cs ∨ k = []) as [Hx'| ->].
    { destruct k as [|z k]; [by right|left]. cbn in E2. simplify_eq. rewrite E1. set_solver. }
    + apply list_elem_of_In, filter_In in Hx' as [_ Hx']. by rewrite Hm in Hx'.
    + rewrite app_nil_r in E1. rewrite <- E1. apply list_elem_of_In, filter_In. rewrite Hny. split; [by apply list_elem_of_In|done].
  - rewrite E1. apply elem_of_app. left. apply list_elem_of_In, filter_In. rewrite Hny. split; [by apply list_elem_of_In|done].
Qed.

Definition mixed_chain : list Z := lit "http://cdn.example/10.0.0.1:80|mst5://central.example:8067/main".

Lemma auto_prefers_native_witness :
  ∃ x, x ∈ endpoint_candidates mixed_chain ∧ Ok x = @Ok io_error _ (lit "mst5://central.example:8067/main").
Proof.
  destruct (auto_prefers_native (λ e _ _, Ok e) mixed_chain
    (lit "mst5://central.example:8067/main|http://cdn.example/10.0.0.1:80") [] default_client_options
    (lit "mst5://central.example:8067/main")) as (x & H1 & H2 & _); [vm_compute; reflexivity..|].
  exists x. split; [exact H1|exact H2].
Defined.

(** Without [select_endpoint] the configured order decides.
    [connect_with_key_and_options] tries the candidates as they are listed: given a
    chain that names an HTTP endpoint before a native one, and both reachable, it
    connects over HTTP. *)
Theorem connect_keeps_configured_order key options :
  is_m5oh (lit "http://cdn.example/10.0.0.1:80") = true ∧
  is_m5oh (lit "mst5://central.example:8067/main") = false ∧
  connect_with_key_and_options (λ e _ _, Ok e) mixed_chain key options = Ok (lit "http://cdn.example/10.0.0.1:80").
Proof. split_and!; vm_compute; reflexivity. Qed.

(** ** The theorems at concrete inputs *)
Module ClientFixture.
Definition client : Client :=
  mkClient CLIENT_FEATURES (mkServerHello 5 1 2 CLIENT_FEATURES MST5_MAX_PLAIN_PAYLOAD None) 30000.
Definition anonymous : AuthInfo := mkAuthInfo (lit "anonymous") None [] (Some (lit "s1")) None (VMap []).
Definition login_answer : Value :=
  value_map [(lit "token", VText (lit "t")); (lit "user", value_map [(lit "id", VText (lit "u1"))])].
Definition world : World :=
  mkWorld [1000] [Ok (replicate 16 5); Ok (replicate 16 6)] (Some anonymous) []
    [Ok (mkFrame kind.RESULT 0 200 1 zero_nonce16 0 (encode_cbor login_answer))] [] [] [] [] [].
Definition after {A} (p : prog A) : World := match exec p world with Some (_, w') => w' | None => world end.
Definition result_of {A} (p : tprog A) : io A := match exec p world with Some (r, _) => r | None => Err no_answer end.

Definition sample_command : tprog Response :=
  request_cbor_with_options client kind.COMMAND op.LOGIN (lit "x") default_request_options.


Definition sample_login : tprog AuthResult := command_login client op.LOGIN (VMap []) (lit "login").

Lemma login_promotes_witness :
  ∃ result session, result_of sample_login = Ok result ∧
    w_principal (after sample_login) = Some (promoted session result) ∧
    (∀ i, w_principal world = Some i → session = ai_session_id i).
Proof.
  pose proof (login_promotes client op.LOGIN (VMap []) (lit "login") world (result_of sample_login) (after sample_login)
    ltac:(vm_compute; reflexivity)) as H.
  destruct (result_of sample_login) as [result|e] eqn:E; [|vm_compute in E; discriminate E].
  destruct H as (session & H). exists result, session. split; [reflexivity|exact H].
Defined.

Lemma negotiation_exact_witness :
  accept_hello (mkFrame kind.HELLO 0 200 0 zero_nonce16 0 (encode_cbor (server_hello_value CLIENT_FEATURES 2 (lit "c1"))))
  = Ok (mkServerHello TRANSPORT_MAJOR RPC_MAJOR 2 CLIENT_FEATURES MST5_MAX_PLAIN_PAYLOAD (Some (lit "c1"))).
Proof. apply (proj2 negotiation_exact); by_vm. Defined.
End ClientFixture.
