(* ===== verification/AccountProofs.v ===== *)
(** * The account reactor: invariants of every interleaving

    The theorems about [Account]: one connection attempt at a time, a failing
    request never drops a connection other than the one it used, every attempt of
    a request carries the same nonce, a closed account stops sending, no task can
    block another for ever, and the two races the code leaves open. *)
From S2P Require Import Prelude RustStr Cbor Frame Types Program Client ClientProofs Account.

(** ** Runs *)

Lemma run_app evs1 evs2 a :
  run (evs1 ++ evs2) a = match run evs1 a with Some a' => run evs2 a' | None => None end.
Proof.
  revert a. induction evs1 as [|ev evs1 IH]; intros a; cbn; [done|].
  destruct (step ev a); [apply IH|done].
Qed.

(** An invariant of every step is an invariant of every run. *)
Lemma run_invariant (P : Account → Prop) (Q : event → Prop) :
  (∀ ev a a', Q ev → P a → step ev a = Some a' → P a') →
  ∀ evs a a', Forall Q evs → P a → run evs a = Some a' → P a'.
Proof.
  intros Hstep evs. induction evs as [|ev evs IH]; intros a a' HQ HP H; cbn in H; [by simplify_eq|].
  apply Forall_cons_1 in HQ as [Hev HQ]. destruct (step ev a) as [b|] eqn:E; [|done]. eauto.
Qed.

(** The states that [account_new] and then any events lead to. *)
Definition reachable (a : Account) : Prop :=
  ∃ config a0 evs, account_new config = Ok a0 ∧ run evs a0 = Some a.

Lemma account_new_empty config a :
  account_new config = Ok a →
  a = mkAccount config (cf_token config, cf_client_name config, trim (cf_device_model config))
        None None 0 false [] [] [] ∅.
Proof. unfold account_new. intros H. by inv_ok H. Qed.

Lemma reachable_invariant (P : Account → Prop) :
  (∀ config a, account_new config = Ok a → P a) →
  (∀ ev a a', P a → step ev a = Some a' → P a') →
  ∀ a, reachable a → P a.
Proof.
  intros Hinit Hstep a (config & a0 & evs & H0 & Hr).
  eapply (run_invariant P (λ _, True)); [by eauto|by apply Forall_true|by eauto|done].
Qed.

(** Expose the single effect of a step: the phase it starts from, and the state
    it leaves as updates of the old one. *)
Ltac step_cases H :=
  match type of H with step ?ev ?a = Some _ =>
    destruct ev; cbn [step] in H;
    unfold call_request, call_set_credentials, call_close, advance, on_connect, on_auth,
      on_response, on_dropped, on_retry, on_wake, cancel in H
  end;
  repeat match type of H with
  | (match ac_tasks ?a !! ?t with _ => _ end) = _ =>
      let E := fresh "Et" in destruct (ac_tasks a !! t) as [p|] eqn:E; [try destruct p|]
  end; try discriminate H.

(** Split the remaining case distinctions of a step and name the new state. *)
Ltac settle H :=
  repeat match type of H with
  | Some (match ?x with _ => _ end) = Some _ => destruct x eqn:?
  | (match ?x with _ => _ end) = Some _ => destruct x eqn:?
  end; try discriminate H; apply Some_inj' in H; subst.

(** Unfold the compound updates of a step to record updates. *)
Ltac unfold_updates :=
  unfold connect_failed, reject, send_on, install, release, close_victim, client_close in *;
  repeat match goal with
  | |- context [if decide ?c then _ else _] => destruct (decide c)
  | |- context [match ?v with Some _ => _ | None => _ end] => is_var v; destruct v
  | |- context [if is_authentication_error ?e then _ else _] => destruct (is_authentication_error e)
  | |- context [if ?x =? ?y then _ else _] => destruct (x =? y)
  end; cbn.

(** ** Well-formed accounts *)

(** The phases inside the critical section of [connected]. *)
Definition holds_lock (p : phase) : bool :=
  match p with
  | Peek2 _ _ | Connecting _ _ | ReadCreds _ _ | Authing _ _ _ | Install _ _ _ => true
  | _ => false
  end.

(** The connection a phase refers to. *)
Definition uses (p : phase) : option (Z * nat) :=
  match p with
  | Sent _ _ g cl | Invalidate _ _ _ g cl => Some (g, cl)
  | _ => None
  end.

(** Generation [g] is that of connection [cl]. *)
Definition generation_of (a : Account) (g : Z) (cl : nat) : Prop :=
  (cl < length (ac_clients a))%nat ∧ g = as_u32 (Z.of_nat cl + 1).

Record account_ok (a : Account) : Prop := {
  ok_lock t p : ac_tasks a !! t = Some p → holds_lock p = true → ac_lock a = Some t;
  ok_held t : ac_lock a = Some t → ∃ p, ac_tasks a !! t = Some p ∧ holds_lock p = true;
  ok_count : ac_generation a = as_u32 (len (ac_clients a));
  ok_current g cl : ac_current a = Some (g, cl) → generation_of a g cl;
  ok_uses t p g cl : ac_tasks a !! t = Some p → uses p = Some (g, cl) → generation_of a g cl
}.

Lemma generation_of_mono a a' g cl :
  (length (ac_clients a) ≤ length (ac_clients a'))%nat → generation_of a g cl → generation_of a' g cl.
Proof. intros Hl [? ?]. split; [lia|done]. Qed.

(** Moving one task, with the other fields changed along the way. *)
Lemma account_ok_goto t p a b :
  account_ok a →
  ac_tasks b = <[t := p]> (ac_tasks a) →
  (ac_lock b = if holds_lock p then Some t else if decide (ac_lock a = Some t) then None else ac_lock a) →
  (holds_lock p = true → ac_lock a = None ∨ ac_lock a = Some t) →
  (length (ac_clients a) ≤ length (ac_clients b))%nat →
  ac_generation b = as_u32 (len (ac_clients b)) →
  (∀ g cl, ac_current b = Some (g, cl) → generation_of b g cl) →
  (∀ g cl, uses p = Some (g, cl) → generation_of b g cl) →
  account_ok b.
Proof.
  intros [Hlk Hheld Hc Hcur Huse] Ht Hl Hp Hcl Hg Hcb Hub. split; [| |done|done|].
  - intros u q. rewrite Ht, Hl. destruct (decide (u = t)) as [->|Hne].
    + rewrite lookup_insert_eq. intros [= <-] Hq. by rewrite Hq.
    + rewrite lookup_insert_ne by done. intros Hu Hq. specialize (Hlk u q Hu Hq). rewrite Hlk.
      destruct (holds_lock p) eqn:Ep; [destruct (Hp eq_refl); congruence|].
      rewrite decide_False; congruence.
  - intros u. rewrite Ht, Hl. destruct (holds_lock p) eqn:Ep.
    + intros [= <-]. rewrite lookup_insert_eq. eauto.
    + destruct (decide (ac_lock a = Some t)) as [E|E]; [done|]. intros Hu.
      destruct (Hheld u Hu) as (q & Hq & Hq'). exists q. rewrite lookup_insert_ne by congruence. done.
  - intros u q g cl. rewrite Ht. destruct (decide (u = t)) as [->|Hne].
    + rewrite lookup_insert_eq. intros [= <-]. apply Hub.
    + rewrite lookup_insert_ne by done. intros Hu Hq. eapply generation_of_mono; eauto.
Qed.

Lemma release_lock t a : ac_lock (release t a) = if decide (ac_lock a = Some t) then None else ac_lock a.
Proof. unfold release. by destruct (decide _). Qed.

Lemma live_current_some a g cl :
  live_current a = Some (g, cl) → ac_current a = Some (g, cl) ∧ client_closed cl a = false.
Proof.
  unfold live_current. destruct (ac_current a) as [[g' cl']|]; [|done].
  destruct (client_closed cl' a) eqn:E; intros; by simplify_eq.
Qed.

Lemma take_current_spec g a v a' :
  take_current g a = (v, a') →
  (v = None ∧ a' = a) ∨ (v = option_map snd (ac_current a) ∧ a' = set_current None a).
Proof. unfold take_current. destruct (_ && _); intros; simplify_eq; auto. Qed.



Lemma as_u32_succ n : as_u32 (as_u32 n + 1) = as_u32 (n + 1).
Proof. unfold as_u32. by rewrite Zplus_mod_idemp_l. Qed.

Lemma len_alter {A} (f : A → A) i l : len (alter f i l) = len l.
Proof. unfold len. by rewrite length_alter. Qed.

Lemma generation_of_clients a b g cl :
  length (ac_clients a) = length (ac_clients b) → generation_of a g cl → generation_of b g cl.
Proof. intros E. apply generation_of_mono. lia. Qed.

Lemma account_ok_die cl a : account_ok a → account_ok (client_close cl a).
Proof.
  intros [Hlk Hheld Hc Hcur Huse].
  assert (∀ g n, generation_of a g n → generation_of (client_close cl a) g n).
  { intros. eapply generation_of_clients; [|done]. cbn. by rewrite length_alter. }
  split; cbn; [done|done|by rewrite len_alter|eauto|eauto].
Qed.

Lemma account_ok_step ev a a' : account_ok a → step ev a = Some a' → account_ok a'.
Proof.
  intros Hok H. pose proof Hok as [Hlk Hheld Hc Hcur Huse]. step_cases H; settle H.
  all: try (pose proof (Hlk _ _ Et) as Hl; cbn in Hl; try specialize (Hl eq_refl)).
  all: try (assert (ac_lock a ≠ Some t) as Hnl by
    (intros E; destruct (Hheld _ E) as (q & Eq & Hq); rewrite Et in Eq; simplify_eq; discriminate)).
  all: try (match goal with E : take_current _ _ = _ |- _ => apply take_current_spec in E as [[-> ->]|[-> ->]] end).
  all: try (match goal with E : live_current _ = Some _ |- _ => apply live_current_some in E as [E _] end).
  all: try by apply account_ok_die.
  all: unfold_updates; cbn in *; try (exfalso; congruence); eapply (account_ok_goto t _ a); [exact Hok|reflexivity|..]; cbn;
    rewrite ?length_app, ?len_alter, ?length_alter; cbn; try congruence; try lia; try (intros; simplify_eq; by eauto);
    try (by rewrite ?decide_True, ?decide_False by congruence); auto.
  all: try (intros g0 cl0 Hg; eapply (generation_of_clients a); [cbn; by rewrite length_alter|by eauto]).
  - rewrite Hc, as_u32_succ. f_equal. len_lia.
  - intros g cl E. simplify_eq. split; cbn; [rewrite length_app; cbn; lia|]. by rewrite Hc, as_u32_succ.
  - intros g cl E. simplify_eq. split; cbn; [rewrite length_app; cbn; lia|]. by rewrite Hc, as_u32_succ.
Qed.

Lemma reachable_ok a : reachable a → account_ok a.
Proof.
  apply reachable_invariant; [|apply account_ok_step].
  intros config b ->%account_new_empty. split; cbn; try done; intros; by simplify_map_eq.
Qed.

(** C11: one connection attempt at a time.  In every interleaving at most one
    task is between taking [connect_lock] and installing its connection, and
    exactly when one is, it holds the lock. *)
Theorem connect_exclusive a t u p q :
  reachable a →
  ac_tasks a !! t = Some p → holds_lock p = true →
  ac_tasks a !! u = Some q → holds_lock q = true →
  t = u ∧ ac_lock a = Some t.
Proof.
  intros Hr Ht Hp Hu Hq. apply reachable_ok in Hr.
  pose proof (ok_lock _ Hr t p Ht Hp). pose proof (ok_lock _ Hr u q Hu Hq). split; congruence.
Qed.

(** A failing request drops at most its own connection.  When a request
    that used connection [cl] fails, its [invalidate] removes the current
    connection only if that still is [cl]; a connection another task has
    installed meanwhile stays.  (Generations are distinct for the first
    2{^32} connections.) *)
Theorem invalidate_own_connection a a' t r n e g cl :
  reachable a → len (ac_clients a) ≤ u32_max →
  ac_tasks a !! t = Some (Invalidate r n e g cl) → advance t a = Some a' →
  (ac_tasks a' !! t = Some (Dropping r n e None) ∧ ac_current a' = ac_current a) ∨
  (ac_tasks a' !! t = Some (Dropping r n e (Some cl)) ∧ ac_current a = Some (g, cl) ∧ ac_current a' = None).
Proof.
  intros Hr Hlen Ht H. apply reachable_ok in Hr. pose proof Hr as [_ _ _ Hcur Huse].
  specialize (Huse t _ g cl Ht eq_refl) as [Hcl Hg]. unfold advance, take_current in H. rewrite Ht in H.
  rewrite bool_decide_eq_true_2 in H by eauto. cbn [andb] in H.
  destruct (bool_decide_reflect (option_map fst (ac_current a) = Some g)) as [E|E]; cbn in H; simplify_eq.
  - destruct (ac_current a) as [[g' cl']|] eqn:Ec; cbn in E; simplify_eq.
    destruct (Hcur _ _ eq_refl) as [Hcl' Hg']. right. cbn. rewrite lookup_insert_eq.
    assert (cl' = cl) as ->; [|done]. unfold as_u32, len in *. widths.
    rewrite !Z.mod_small in Hg' by lia. lia.
  - left. cbn. by rewrite lookup_insert_eq.
Qed.


(** ** What the attempts of a request carry *)

Definition request_of (p : phase) : option request :=
  match p with
  | Top r _ | Peek r _ | WaitLock r _ | Peek2 r _ | Connecting r _ | ReadCreds r _ | Authing r _ _
  | Install r _ _ | Sent r _ _ _ | Invalidate r _ _ _ _ | Dropping r _ _ _ | Retry r _ _ | Sleep r _ _ => Some r
  | _ => None
  end.

Definition valid_nonce (n : list Z) : Prop := length n = 16%nat ∧ n ≠ replicate 16 0.

(** What [Client::request_cbor_with_options] asks of a COMMAND; a nonce that is given is
    usable. *)
Definition nonce_ready (r : request) : Prop :=
  (rq_kind r = kind.COMMAND → ∃ n, request_nonce (rq_options r) = Some n ∧ valid_nonce n) ∧
  (∀ n, request_nonce (rq_options r) = Some n → valid_nonce n).

(** A caller passes a usable nonce or none, and the random source fills its
    buffer. *)
Definition proper_call (ev : event) : Prop :=
  match ev with
  | EvRequest _ _ _ _ options random =>
      (∀ n, request_nonce options = Some n → valid_nonce n) ∧ (∀ l, random = Ok l → length l = 16%nat)
  | _ => True
  end.

Lemma choose_nonce_ready k o p options random options' :
  (∀ n, request_nonce options = Some n → valid_nonce n) → (∀ l, random = Ok l → length l = 16%nat) →
  choose_nonce k options random = Ok options' → nonce_ready (mkRequest k o p options').
Proof.
  intros Hn Hr H. unfold choose_nonce in H. unfold nonce_ready. cbn.
  destruct (Z.eqb_spec k kind.COMMAND) as [->|Hk]; cbn [andb] in H; [|by simplify_eq].
  destruct (request_nonce options) as [n|] eqn:E; cbn in H.
  - simplify_eq. rewrite E. split; [eauto|]. intros ? [= <-]. by apply Hn.
  - destruct random as [l|]; cbn in H; [|done]. simplify_eq. cbn.
    assert (valid_nonce (if beq l (replicate 16 0) then 1 :: replicate 15 0 else l)) as Hv.
    { unfold beq. case_bool_decide as Hz; split; auto. }
    split; [eauto|]. by intros ? [= <-].
Qed.

Record sent_ok (a : Account) : Prop := {
  so_task t cl r : (t, cl, r) ∈ ac_sent a → is_Some (ac_tasks a !! t);
  so_same t cl r p r' : (t, cl, r) ∈ ac_sent a → ac_tasks a !! t = Some p → request_of p = Some r' → r = r';
  so_unique t cl r cl' r' : (t, cl, r) ∈ ac_sent a → (t, cl', r') ∈ ac_sent a → r = r';
  so_ready t cl r : (t, cl, r) ∈ ac_sent a → nonce_ready r;
  so_pending t p r : ac_tasks a !! t = Some p → request_of p = Some r → nonce_ready r
}.

(** Moving one task, which keeps its request or is new. *)
Lemma sent_ok_goto t p a b :
  sent_ok a →
  ac_tasks b = <[t := p]> (ac_tasks a) →
  (∀ r, request_of p = Some r →
     (∃ q, ac_tasks a !! t = Some q ∧ request_of q = Some r) ∨ (ac_tasks a !! t = None ∧ nonce_ready r)) →
  (ac_sent b = ac_sent a ∨
   ∃ q r cl, ac_tasks a !! t = Some q ∧ request_of q = Some r ∧ request_of p = Some r ∧
     ac_sent b = ac_sent a ++ [(t, cl, r)]) →
  sent_ok b.
Proof.
  intros [Htask Hsame Huniq Hready Hpend] Ht Hp Hs.
  assert (∀ u cl r, (u, cl, r) ∈ ac_sent b → (u, cl, r) ∈ ac_sent a ∨
    (u = t ∧ ∃ q, ac_tasks a !! t = Some q ∧ request_of q = Some r ∧ request_of p = Some r)) as Hb.
  { intros u cl r Hx. destruct Hs as [E|(q & r' & cl' & Hq & Hr & Hr' & E)]; rewrite E in Hx; [auto|].
    apply elem_of_app in Hx as [Hx|Hx%list_elem_of_singleton]; [auto|]. simplify_eq. right. eauto. }
  split.
  - intros u cl r Hx. rewrite Ht. destruct (decide (u = t)) as [->|]; [rewrite lookup_insert_eq; eauto|].
    rewrite lookup_insert_ne by done. destruct (Hb _ _ _ Hx) as [?|[-> _]]; [eauto|done].
  - intros u cl r q r' Hx. rewrite Ht. destruct (decide (u = t)) as [->|].
    + rewrite lookup_insert_eq. intros [= <-] Hr'. destruct (Hb _ _ _ Hx) as [Hx'|(_ & q' & _ & _ & Hr)]; [|congruence].
      destruct (Hp _ Hr') as [(q' & Hq' & Hr)|[Hn _]]; [by eauto|].
      destruct (Htask _ _ _ Hx'). congruence.
    + rewrite lookup_insert_ne by done. destruct (Hb _ _ _ Hx) as [?|[-> _]]; [eauto|done].
  - intros u cl r cl' r' Hx Hy.
    destruct (Hb _ _ _ Hx) as [Hx'|(-> & q & Hq & Hr & _)], (Hb _ _ _ Hy) as [Hy'|(? & q' & Hq' & Hr' & _)];
      subst; [by eauto| |symmetry|congruence]; eauto.
  - intros u cl r Hx. destruct (Hb _ _ _ Hx) as [Hx'|(_ & q & Hq & Hr & _)]; eauto.
  - intros u q r. rewrite Ht. destruct (decide (u = t)) as [->|]; [|rewrite lookup_insert_ne by done; eauto].
    rewrite lookup_insert_eq. intros [= <-] Hr. destruct (Hp _ Hr) as [(q' & ? & ?)|[_ ?]]; eauto.
Qed.

Lemma sent_ok_step ev a a' : proper_call ev → sent_ok a → step ev a = Some a' → sent_ok a'.
Proof.
  intros Hev Hok H. step_cases H; settle H.
  all: try (match goal with E : take_current _ _ = _ |- _ => apply take_current_spec in E as [[-> ->]|[-> ->]] end).
  all: try (destruct Hok; by split).
  all: unfold_updates; (eapply (sent_ok_goto t _ a); [exact Hok|reflexivity|..]); cbn; try done;
    try (intros; simplify_eq; left; by eauto); try (by left); try (right; do 3 eexists; by eauto).
  all: intros r0 E; simplify_eq; right; split; [done|]; destruct Hev; by eapply choose_nonce_ready.
Qed.

Lemma reachable_sent config a0 evs a :
  account_new config = Ok a0 → Forall proper_call evs → run evs a0 = Some a → sent_ok a.
Proof.
  intros H0 Hev Hr. eapply (run_invariant sent_ok proper_call); [apply sent_ok_step|done| |done].
  apply account_new_empty in H0 as ->.
  split; cbn; intros; simplify_map_eq; by match goal with H : _ ∈ [] |- _ => apply not_elem_of_nil in H end.
Qed.

(** One attempt, on a client and in a world of its own: what it adds to the log. *)
Definition attempt_sends (r : request) (c : Client) (w : World) (x : action) : Prop :=
  random_fills w ∧ ∃ res w',
    exec (request_cbor_with_options c (rq_kind r) (rq_opcode r) (rq_payload r) (rq_options r)) w = Some (res, w') ∧
    w_log w' = w_log w ++ [x].

Lemma attempt_frame r c w x :
  nonce_ready r → attempt_sends r c w x →
  ∃ deadline, x = ARequest (rq_kind r) (rq_opcode r) (default zero_nonce16 (request_nonce (rq_options r))) deadline (rq_payload r) ∧
    (∀ d, deadline_ms (rq_options r) = Some d → deadline = d).
Proof.
  intros [Hn1 Hn2] (Hw & res & w' & He & Hl). apply request_discipline_core in He; [|done|by intros n Hn; apply Hn2].
  destruct He as [(E & _)|(_ & nonce & d & E & Hrule & Hd)]; rewrite E in Hl.
  { apply (f_equal length) in Hl. rewrite length_app in Hl. cbn in Hl. lia. }
  apply app_inv_head in Hl. simplify_eq. exists d. split; [f_equal|].
  - destruct Hrule as [(_ & -> & ->)|(Hk & _ & _ & [->|[Hnone _]])]; [done|done|].
    destruct (Hn1 Hk) as (n & Hs & _). congruence.
  - intros d' Hd'. unfold deadline_rule in Hd. by rewrite Hd' in Hd.
Qed.

(** C15: retries repeat the request.  Across reconnects, every attempt of one
    [request_cbor] call passes the same kind, opcode, payload and options to
    [request_cbor_with_options]; a COMMAND always carries a sixteen-byte nonce that is not
    zero.  So, whatever client and world two attempts run in, the requests they send agree
    in kind, opcode, nonce and payload, and in the deadline when the caller gave one; the
    frame id, and a deadline the caller did not give, are those of each attempt. *)
Theorem attempts_identical config a0 evs a t cl r cl' r' :
  account_new config = Ok a0 → Forall proper_call evs → run evs a0 = Some a →
  (t, cl, r) ∈ ac_sent a → (t, cl', r') ∈ ac_sent a →
  r = r' ∧ (rq_kind r = kind.COMMAND → ∃ n, request_nonce (rq_options r) = Some n ∧ valid_nonce n) ∧
  ∀ c w x c' w' x', attempt_sends r c w x → attempt_sends r' c' w' x' →
    ∃ nonce d d', x = ARequest (rq_kind r) (rq_opcode r) nonce d (rq_payload r) ∧
      x' = ARequest (rq_kind r) (rq_opcode r) nonce d' (rq_payload r) ∧
      (is_Some (deadline_ms (rq_options r)) → d = d').
Proof.
  intros H0 Hev Hr Hx Hy. destruct (reachable_sent _ _ _ _ H0 Hev Hr) as [_ _ Hu Hready _].
  specialize (Hready _ _ _ Hx). assert (r = r') as <- by (by eapply Hu). split_and!; [done|by apply Hready|].
  intros c w x c' w' x' H1 H2. destruct (attempt_frame _ _ _ _ Hready H1) as (d & -> & Hd).
  destruct (attempt_frame _ _ _ _ Hready H2) as (d' & -> & Hd'). do 3 eexists. split_and!; [done..|].
  intros [e He]. rewrite (Hd e He). by rewrite (Hd' e He).
Qed.

(** ** Closing *)

Definition sends (t : nat) (a : Account) : nat := length (filter (λ x, x.1.1 = t) (ac_sent a)).

(** Between the check of [closed] and the request of the same turn. *)
Definition in_turn (p : phase) : bool :=
  match p with
  | Peek _ _ | WaitLock _ _ | Peek2 _ _ | Connecting _ _ | ReadCreds _ _ | Authing _ _ _ | Install _ _ _ => true
  | _ => false
  end.

Definition allowance (t : nat) (a : Account) : nat :=
  match ac_tasks a !! t with Some p => if in_turn p then 1 else 0 | None => 0 end.

#[global] Arguments sends : simpl never.
#[global] Arguments allowance : simpl never.

Lemma quiesce_goto t p a b u :
  ac_tasks b = <[t := p]> (ac_tasks a) →
  ((ac_sent b = ac_sent a ∧ (in_turn p = true → ∃ q, ac_tasks a !! t = Some q ∧ in_turn q = true)) ∨
   (∃ q cl r, ac_tasks a !! t = Some q ∧ in_turn q = true ∧ in_turn p = false ∧ ac_sent b = ac_sent a ++ [(t, cl, r)])) →
  (sends u b + allowance u b ≤ sends u a + allowance u a)%nat.
Proof.
  intros Ht Hs. unfold allowance, sends. rewrite Ht. destruct Hs as [[-> Hp]|(q & cl & r & Hq & Hq' & Hp & ->)].
  - destruct (decide (u = t)) as [->|]; [rewrite lookup_insert_eq|by rewrite lookup_insert_ne].
    destruct (in_turn p); [|lia]. destruct (Hp eq_refl) as (q & -> & ->). lia.
  - rewrite list.filter_app, length_app. destruct (decide (u = t)) as [->|].
    + rewrite lookup_insert_eq, Hq, Hq', Hp, filter_cons_True by done. cbn. lia.
    + rewrite lookup_insert_ne, filter_cons_False by (cbn; congruence). cbn. lia.
Qed.

Lemma closed_step ev a a' :
  ac_closed a = true → step ev a = Some a' →
  ac_closed a' = true ∧ ∀ u, (sends u a' + allowance u a' ≤ sends u a + allowance u a)%nat.
Proof.
  intros Hc H. step_cases H; settle H; try congruence.
  all: try (match goal with E : take_current _ _ = _ |- _ => apply take_current_spec in E as [[-> ->]|[-> ->]] end).
  all: unfold_updates; (split; [done|intros u]); try (apply Nat.le_refl).
  all: eapply (quiesce_goto t _ a); [reflexivity|]; cbn.
  all: try (left; split; [done|intros; try discriminate; by eauto]); right; do 3 eexists; by eauto.
Qed.

(** The error of a closed account. *)
Definition account_closed_error : io_error := IoError BrokenPipe (lit "MST5 account is closed").

Lemma closed_top t a r n :
  ac_closed a = true → ac_tasks a !! t = Some (Top r n) →
  ∃ a', step (EvStep t) a = Some a' ∧ ac_tasks a' !! t = Some (Returned (Err account_closed_error)) ∧
    ac_sent a' = ac_sent a.
Proof.
  intros Hc Ht. cbn. unfold advance. rewrite Ht, Hc. eexists. split; [done|]. cbn. by rewrite lookup_insert_eq.
Qed.

(** A request on a closed account ends at its check or before it: from the head of its
    loop no other step of it exists. *)
Lemma top_steps ev t a a' r n :
  ac_tasks a !! t = Some (Top r n) → step ev a = Some a' → ac_tasks a' !! t ≠ Some (Top r n) → ev = EvStep t.
Proof.
  intros Ht H Hne. step_cases H; settle H.
  all: try (match goal with E : take_current _ _ = _ |- _ => apply take_current_spec in E as [[-> ->]|[-> ->]] end).
  all: try (destruct (decide (t0 = t)) as [->|Hd]; [try congruence; done|]).
  all: exfalso; apply Hne; revert Ht; unfold_updates; rewrite ?lookup_insert_ne by done; done.
Qed.

(** C14: a closed account falls silent.  Once [close] has set the flag it stays set.  A
    request in progress sends at most the attempt it is already preparing, and a request
    made afterwards, like one that has not passed its check, sends nothing.  A request at
    the head of its loop, where it starts and where it comes back to before each further
    attempt, can only return the error that the account is closed, without sending. *)
Theorem closed_account_quiesces a evs a' t :
  ac_closed a = true → run evs a = Some a' →
  ac_closed a' = true ∧ (sends t a' ≤ sends t a + allowance t a)%nat ∧
  (ac_tasks a !! t = None → (sends t a' ≤ sends t a)%nat) ∧
  (∀ r n, ac_tasks a' !! t = Some (Top r n) →
     (∃ a2, step (EvStep t) a' = Some a2 ∧ ac_tasks a2 !! t = Some (Returned (Err account_closed_error)) ∧
        ac_sent a2 = ac_sent a') ∧
     ∀ ev a2, step ev a' = Some a2 → ac_tasks a2 !! t ≠ Some (Top r n) → ev = EvStep t).
Proof.
  intros Hc Hr.
  assert (ac_closed a' = true ∧ (sends t a' + allowance t a' ≤ sends t a + allowance t a)%nat) as [Hc' Hs].
  { eapply (run_invariant (λ b, ac_closed b = true ∧
      (sends t b + allowance t b ≤ sends t a + allowance t a)%nat) (λ _, True)); [|by apply Forall_true|by auto|done].
    intros ev b b' _ [Hb Hle] Hst. destruct (closed_step _ _ _ Hb Hst) as [? Hle'].
    split; [done|]. specialize (Hle' t). lia. }
  split_and!; [done|lia| |].
  - intros Hn. unfold allowance in Hs at 2. rewrite Hn in Hs. lia.
  - intros r n Ht. split; [by eapply closed_top|]. intros ev a2. by apply top_steps.
Qed.

(** ** Progress *)

Definition finished (p : phase) : bool :=
  match p with Returned _ | SetDone _ | CloseDone _ | Cancelled => true | _ => false end.

Definition not_cancel (ev : event) : Prop := match ev with EvCancel _ => False | _ => True end.

(** Task [t] can come to its end without anybody giving up. *)
Definition can_finish (t : nat) (a : Account) : Prop :=
  ∃ evs a' p, Forall not_cancel evs ∧ run evs a = Some a' ∧ ac_tasks a' !! t = Some p ∧ finished p = true.

Lemma can_finish_run evs t a a' :
  Forall not_cancel evs → run evs a = Some a' → can_finish t a' → can_finish t a.
Proof.
  intros Hn Hr (evs' & b & p & Hn' & Hr' & Hp). exists (evs ++ evs'), b, p.
  split; [by apply Forall_app|]. by rewrite run_app, Hr.
Qed.

(** A connection failure that is not an authentication error. *)
Definition refused : io_error := IoError ConnectionReset (lit "connection refused").

(** Let [t] do its next step. *)
Ltac drive ev Ht :=
  eapply (can_finish_run [ev]);
  [by repeat constructor
  |cbn; unfold advance, on_connect, on_auth, on_response, on_dropped, on_retry, on_wake; rewrite Ht; reflexivity|].

Section Progress.
Variable t : nat.

Lemma finish_done a p : ac_tasks a !! t = Some p → finished p = true → can_finish t a.
Proof. intros Ht Hp. by exists [], a, p. Qed.

Lemma finish_retry a r n e : ac_tasks a !! t = Some (Retry r n e) → can_finish t a.
Proof. intros Ht. drive (EvRetry t true None) Ht. eapply finish_done; [cbn; apply lookup_insert_eq|done]. Qed.

Lemma finish_dropping a r n e v : ac_tasks a !! t = Some (Dropping r n e v) → can_finish t a.
Proof. intros Ht. drive (EvDropped t (Ok tt)) Ht. eapply finish_retry. cbn. apply lookup_insert_eq. Qed.

Lemma finish_invalidate a r n e g cl : ac_tasks a !! t = Some (Invalidate r n e g cl) → can_finish t a.
Proof.
  intros Ht. destruct (take_current (Some g) a) as [v b] eqn:E.
  eapply (can_finish_run [EvStep t]); [by repeat constructor|cbn; unfold advance; rewrite Ht, E; reflexivity|].
  eapply finish_dropping. cbn. apply lookup_insert_eq.
Qed.

Lemma finish_sent a r n g cl : ac_tasks a !! t = Some (Sent r n g cl) → can_finish t a.
Proof. intros Ht. drive (EvResponse t (Err refused)) Ht. eapply finish_invalidate. cbn. apply lookup_insert_eq. Qed.

Lemma finish_connecting a r n : ac_tasks a !! t = Some (Connecting r n) → can_finish t a.
Proof. intros Ht. drive (EvConnect t (Err refused)) Ht. eapply finish_retry. cbn. apply lookup_insert_eq. Qed.

Lemma finish_authing a r n cr : ac_tasks a !! t = Some (Authing r n cr) → can_finish t a.
Proof. intros Ht. drive (EvAuth t (Err refused)) Ht. eapply finish_retry. cbn. apply lookup_insert_eq. Qed.

Lemma finish_peek2 a r n : ac_tasks a !! t = Some (Peek2 r n) → can_finish t a.
Proof.
  intros Ht. drive (EvStep t) Ht. destruct (live_current a) as [[g cl]|].
  - eapply finish_sent. cbn. apply lookup_insert_eq.
  - eapply finish_connecting. cbn. apply lookup_insert_eq.
Qed.

(** The holder of the lock can be made to release it; nobody else moves. *)
Lemma unlock a :
  account_ok a → ∃ evs a', Forall not_cancel evs ∧ run evs a = Some a' ∧ ac_lock a' = None ∧
    ∀ u p, ac_tasks a !! u = Some p → holds_lock p = false → ac_tasks a' !! u = Some p.
Proof.
  intros Hok. destruct (ac_lock a) as [u|] eqn:El; [|by exists [], a].
  destruct (ok_held _ Hok u El) as (p & Hu & Hp).
  assert (∀ evs a', Forall not_cancel evs → run evs a = Some a' → ac_lock a' = None →
    (∃ q, ac_tasks a' = <[u := q]> (ac_tasks a)) →
    ∃ evs a', Forall not_cancel evs ∧ run evs a = Some a' ∧ ac_lock a' = None ∧
    ∀ v p, ac_tasks a !! v = Some p → holds_lock p = false → ac_tasks a' !! v = Some p) as Hgo.
  { intros evs a' Hn Hr Hl [q Hq]. exists evs, a'. split_and!; try done. intros v p' Hv Hp'.
    rewrite Hq, lookup_insert_ne; [done|]. intros ->. congruence. }
  assert (is_authentication_error refused = false) as Hauth by (vm_compute; reflexivity).
  destruct p; try discriminate Hp.
  - destruct (live_current a) as [[g cl]|] eqn:Ec.
    + eapply (Hgo [EvStep u]); [by repeat constructor|cbn; unfold advance; rewrite Hu, Ec; reflexivity|..];
        unfold send_on, release; rewrite decide_True by done; cbn; eauto.
    + eapply (Hgo [EvStep u; EvConnect u (Err refused)]); [by repeat constructor|..].
      { cbn. unfold advance, on_connect. rewrite Hu, Ec. cbn. rewrite lookup_insert_eq. reflexivity. }
      all: unfold connect_failed; rewrite Hauth; unfold release; rewrite decide_True by done; cbn;
        rewrite ?insert_insert_eq; eauto.
  - eapply (Hgo [EvConnect u (Err refused)]); [by repeat constructor|cbn; unfold on_connect; rewrite Hu; reflexivity|..];
      unfold connect_failed; rewrite Hauth; unfold release; rewrite decide_True by done; cbn; eauto.
  - eapply (Hgo [EvStep u; EvAuth u (Err refused)]); [by repeat constructor|..].
    { cbn. unfold advance, on_auth. rewrite Hu. cbn. rewrite lookup_insert_eq. reflexivity. }
    all: unfold connect_failed; rewrite Hauth; unfold release; rewrite decide_True by done; cbn;
      rewrite ?insert_insert_eq; eauto.
  - eapply (Hgo [EvAuth u (Err refused)]); [by repeat constructor|cbn; unfold on_auth; rewrite Hu; reflexivity|..];
      unfold connect_failed; rewrite Hauth; unfold release; rewrite decide_True by done; cbn; eauto.
  - eapply (Hgo [EvStep u]); [by repeat constructor|cbn; unfold advance; rewrite Hu; reflexivity|..];
      unfold install, send_on, release; rewrite decide_True by done; cbn; eauto.
Qed.

Lemma finish_wait a r n : account_ok a → ac_tasks a !! t = Some (WaitLock r n) → can_finish t a.
Proof.
  intros Hok Ht. destruct (unlock a Hok) as (evs & b & Hn & Hr & Hl & Hkeep).
  eapply (can_finish_run evs); [done..|]. specialize (Hkeep t _ Ht eq_refl).
  eapply (can_finish_run [EvStep t]); [by repeat constructor|cbn; unfold advance; rewrite Hkeep, Hl; reflexivity|].
  eapply finish_peek2. cbn. apply lookup_insert_eq.
Qed.

Lemma finish_peek a r n : account_ok a → ac_tasks a !! t = Some (Peek r n) → can_finish t a.
Proof.
  intros Hok Ht. destruct (live_current a) as [[g cl]|] eqn:E.
  - drive (EvStep t) Ht. rewrite E. eapply finish_sent. cbn. apply lookup_insert_eq.
  - assert (step (EvStep t) a = Some (goto t (WaitLock r n) a)) as Hs by (cbn; unfold advance; by rewrite Ht, E).
    eapply (can_finish_run [EvStep t]); [by repeat constructor|cbn [run]; by rewrite Hs|].
    eapply finish_wait; [by eapply account_ok_step|]. cbn. apply lookup_insert_eq.
Qed.

Lemma finish_top a r n : account_ok a → ac_tasks a !! t = Some (Top r n) → can_finish t a.
Proof.
  intros Hok Ht. destruct (ac_closed a) eqn:E.
  - drive (EvStep t) Ht. rewrite E. eapply finish_done; [cbn; apply lookup_insert_eq|done].
  - assert (step (EvStep t) a = Some (goto t (Peek r n) a)) as Hs by (cbn; unfold advance; by rewrite Ht, E).
    eapply (can_finish_run [EvStep t]); [by repeat constructor|cbn [run]; by rewrite Hs|].
    eapply finish_peek; [by eapply account_ok_step|]. cbn. apply lookup_insert_eq.
Qed.

Lemma finish_dropping_done a p v :
  p = ChangedDropping v ∨ p = ClosingDrop v → ac_tasks a !! t = Some p → can_finish t a.
Proof.
  intros [-> | ->] Ht; drive (EvDropped t (Ok tt)) Ht; (eapply finish_done; [cbn; apply lookup_insert_eq|done]).
Qed.
End Progress.

(** C12: no call can be blocked for ever.  From every reachable state each
    pending call, be it a request, a change of credentials or a close, can be
    brought to its end by some continuation in which nobody is cancelled: the
    connect lock is always released by its holder, and every awaited answer leads
    on. *)
Theorem account_no_deadlock a t p :
  reachable a → ac_tasks a !! t = Some p → can_finish t a.
Proof.
  intros Hr Ht. apply reachable_ok in Hr. destruct p.
  - by eapply finish_top.
  - by eapply finish_peek.
  - by eapply finish_wait.
  - by eapply finish_peek2.
  - by eapply finish_connecting.
  - drive (EvStep t) Ht. eapply finish_authing. cbn. apply lookup_insert_eq.
  - by eapply finish_authing.
  - drive (EvStep t) Ht. eapply finish_sent. cbn. apply lookup_insert_eq.
  - by eapply finish_sent.
  - by eapply finish_invalidate.
  - by eapply finish_dropping.
  - by eapply finish_retry.
  - assert (step (EvWake t) a = Some (goto t (Top r attempt) a)) as Hs by (cbn; unfold on_wake; by rewrite Ht).
    eapply (can_finish_run [EvWake t]); [by repeat constructor|cbn [run]; by rewrite Hs|].
    eapply finish_top; [by eapply account_ok_step|]. cbn. apply lookup_insert_eq.
  - by eapply finish_done.
  - drive (EvStep t) Ht. eapply finish_dropping_done; [left; done|]. cbn. apply lookup_insert_eq.
  - eapply finish_dropping_done; [left; done|done].
  - by eapply finish_done.
  - drive (EvStep t) Ht. eapply finish_dropping_done; [right; done|]. cbn. apply lookup_insert_eq.
  - eapply finish_dropping_done; [right; done|done].
  - by eapply finish_done.
  - by eapply finish_done.
Qed.

(** ** Delays *)

(** The jittered delay before a retry is never negative, never above the
    larger of the configured bounds (with a floor of one millisecond), and never
    above the minimum doubled once per attempt, at most sixteen times. *)
Theorem backoff_bounded config attempt random :
  0 ≤ cf_reconnect_min config ≤ u64_max → 0 ≤ cf_reconnect_max config ≤ u64_max → 0 ≤ attempt →
  0 ≤ backoff config attempt random ≤ Z.max (cf_reconnect_max config) (Z.max (cf_reconnect_min config) 1) ∧
  backoff config attempt random ≤ Z.max (cf_reconnect_min config) 1 * 2 ^ Z.min attempt 16.
Proof.
  intros Hmin Hmax Hn. unfold backoff. widths.
  rewrite (as_u64_small (Z.max (cf_reconnect_min config) 1)) by (widths; lia).
  rewrite as_u64_small by (widths; lia).
  rewrite Z.shiftl_1_l. set (p := 2 ^ Z.min attempt 16).
  assert (1 ≤ p) by (subst p; pose proof (Z.pow_pos_nonneg 2 (Z.min attempt 16)); lia).
  unfold saturating_mul64, saturating_add64. widths.
  set (m := Z.max (cf_reconnect_min config) 1). assert (1 ≤ m) by lia. assert (m ≤ m * p) by nia.
  set (cap := Z.min (Z.min (m * p) 18446744073709551615) (Z.max (cf_reconnect_max config) m)).
  set (v := match random with Some l => _ | None => _ end).
  pose proof (Z.mod_pos_bound v (Z.min (cap + 1) 18446744073709551615)). lia.
Qed.

Lemma backoff_bounded_witness :
  0 ≤ backoff (account_config_new (lit "h:1") [] [] []) 3 (Some (replicate 8 255)) ≤ 60000 ∧
  backoff (account_config_new (lit "h:1") [] [] []) 3 (Some (replicate 8 255)) ≤ 4000.
Proof.
  apply (backoff_bounded (account_config_new (lit "h:1") [] [] []) 3 (Some (replicate 8 255)));
    vm_compute; intuition congruence.
Defined.

(** ** Concrete runs *)

Definition sample_config : AccountConfig :=
  account_config_new (lit "host:1") (lit "pin") (lit "old-token") (lit "app").
Definition sample_account : Account :=
  mkAccount sample_config (lit "old-token", lit "app", []) None None 0 false [] [] [] ∅.
Definition sample_nonce : list Z := replicate 16 7.
Definition sample_request : request :=
  mkRequest kind.COMMAND 40 [] (with_request_nonce default_request_options sample_nonce).
Definition sample_response : Response := mkResponse kind.RESULT 0 200 1 (replicate 16 0) 0 [].

(** A call that reaches the authentication of its new connection. *)
Definition call_to_auth (t : nat) : list event :=
  [EvRequest t kind.COMMAND 40 [] default_request_options (Ok sample_nonce); EvStep t; EvStep t; EvStep t; EvStep t;
   EvConnect t (Ok tt); EvStep t].

(** The state after a run, for evaluation. *)
Definition after (evs : list event) : Account := default sample_account (run evs sample_account).

Lemma sample_reachable evs : is_Some (run evs sample_account) → reachable (after evs).
Proof.
  intros [a Ha]. exists sample_config, sample_account, evs. split; [by vm_compute|].
  unfold after. by rewrite Ha.
Qed.

Lemma connect_exclusive_witness :
  0%nat = 0%nat ∧ ac_lock (after (call_to_auth 0)) = Some 0%nat.
Proof.
  eapply (connect_exclusive (after (call_to_auth 0)) 0%nat 0%nat);
    [apply sample_reachable; vm_compute; eauto|vm_compute; reflexivity..].
Defined.

Definition failing_call : list event :=
  call_to_auth 0 ++ [EvAuth 0 (Ok tt); EvStep 0; EvResponse 0 (Err refused)].

Lemma invalidate_own_connection_witness :
  (ac_tasks (after (failing_call ++ [EvStep 0])) !! 0%nat = Some (Dropping sample_request 0 refused None) ∧
   ac_current (after (failing_call ++ [EvStep 0])) = ac_current (after failing_call)) ∨
  (ac_tasks (after (failing_call ++ [EvStep 0])) !! 0%nat = Some (Dropping sample_request 0 refused (Some 0%nat)) ∧
   ac_current (after failing_call) = Some (1, 0%nat) ∧
   ac_current (after (failing_call ++ [EvStep 0])) = None).
Proof.
  apply (invalidate_own_connection (after failing_call) (after (failing_call ++ [EvStep 0]))
           0%nat sample_request 0 refused 1 0%nat);
    [apply sample_reachable; vm_compute; eauto|vm_compute; congruence|vm_compute; reflexivity..].
Defined.

Definition retried_call : list event :=
  failing_call ++ [EvStep 0; EvDropped 0 (Ok tt); EvRetry 0 false None; EvWake 0; EvStep 0; EvStep 0; EvStep 0;
    EvStep 0; EvConnect 0 (Ok tt); EvStep 0; EvAuth 0 (Ok tt); EvStep 0].

(** The two attempts, on a client and in a world of their own. *)
Definition first_world : World :=
  mkWorld [1000] [] (Some ClientFixture.anonymous) [] [] [] [] [] [] [].
Definition second_world : World :=
  mkWorld [9000] [] (Some ClientFixture.anonymous) [] [] [] [] [] [] [].

Lemma sample_attempt n (w : World) :
  w = mkWorld [n] [] (Some ClientFixture.anonymous) [] [] [] [] [] [] [] → n = 1000 ∨ n = 9000 →
  attempt_sends sample_request ClientFixture.client w (ARequest kind.COMMAND 40 sample_nonce (n + 30000) []).
Proof.
  intros -> Hn. split; [constructor|]. destruct Hn as [-> | ->]; do 2 eexists; (split; [vm_compute; reflexivity|vm_compute; reflexivity]).
Qed.

Lemma attempts_identical_witness :
  ac_sent (after retried_call) = [(0%nat, 0%nat, sample_request); (0%nat, 1%nat, sample_request)] ∧
  (∃ n, request_nonce (rq_options sample_request) = Some n ∧ valid_nonce n) ∧
  ∃ nonce d d', ARequest kind.COMMAND 40 sample_nonce 31000 [] = ARequest kind.COMMAND 40 nonce d [] ∧
    ARequest kind.COMMAND 40 sample_nonce 39000 [] = ARequest kind.COMMAND 40 nonce d' [] ∧
    (is_Some (deadline_ms (rq_options sample_request)) → d = d').
Proof.
  split; [vm_compute; reflexivity|].
  assert (ac_sent (after retried_call) = [(0%nat, 0%nat, sample_request); (0%nat, 1%nat, sample_request)]) as E
    by (vm_compute; reflexivity).
  refine (_ (attempts_identical sample_config sample_account retried_call (after retried_call)
           0%nat 0%nat sample_request 1%nat sample_request _ _ _ _ _)).
  - intros (_ & H1 & H2). split; [apply H1; reflexivity|].
    exact (H2 ClientFixture.client first_world _ ClientFixture.client second_world _
      (sample_attempt 1000 _ eq_refl (or_introl eq_refl)) (sample_attempt 9000 _ eq_refl (or_intror eq_refl))).
  - vm_compute. reflexivity.
  - clear E. repeat constructor; cbn; intros; simplify_eq; reflexivity.
  - vm_compute. reflexivity.
  - rewrite E. apply elem_of_cons. left. reflexivity.
  - rewrite E. apply elem_of_cons. right. apply elem_of_cons. left. reflexivity.
Defined.

(** The call of task 0 has passed its check when task 1 closes the account. *)
Definition closed_call : list event := call_to_auth 0 ++ [EvClose 1].
Definition closed_call_end : list event :=
  [EvStep 1; EvDropped 1 (Ok tt); EvAuth 0 (Ok tt); EvStep 0; EvResponse 0 (Err refused); EvStep 0;
   EvDropped 0 (Ok tt); EvRetry 0 false None; EvWake 0; EvStep 0].

(** The same run up to the head of the loop of task 0. *)
Definition closed_call_top : Account := after (closed_call ++ take 9 closed_call_end).

Lemma closed_account_quiesces_witness :
  ac_closed (after (closed_call ++ closed_call_end)) = true ∧
  (sends 0 (after (closed_call ++ closed_call_end)) ≤ 0 + 1)%nat ∧
  (sends 2 (after (closed_call ++ closed_call_end)) ≤ 0)%nat ∧
  ∃ a2, step (EvStep 0) closed_call_top = Some a2 ∧
    ac_tasks a2 !! 0%nat = Some (Returned (Err account_closed_error)).
Proof.
  assert (run closed_call_end (after closed_call) = Some (after (closed_call ++ closed_call_end))) as Hr
    by (vm_compute; reflexivity).
  assert (run (take 9 closed_call_end) (after closed_call) = Some closed_call_top) as Hr9 by (vm_compute; reflexivity).
  destruct (closed_account_quiesces (after closed_call) closed_call_end _ 0%nat eq_refl Hr) as (H1 & H2 & _).
  destruct (closed_account_quiesces (after closed_call) closed_call_end _ 2%nat eq_refl Hr) as (_ & _ & H3 & _).
  destruct (closed_account_quiesces (after closed_call) (take 9 closed_call_end) _ 0%nat eq_refl Hr9) as (_ & _ & _ & H4).
  split_and!; [exact H1|exact H2| |].
  - apply H3. vm_compute. reflexivity.
  - destruct (H4 sample_request 1) as [(a2 & E1 & E2 & _) _]; [vm_compute; reflexivity|]. exists a2. split; [exact E1|exact E2].
Defined.

Lemma account_no_deadlock_witness : can_finish 1 (after (call_to_auth 0 ++ take 3 (call_to_auth 1))).
Proof.
  eapply account_no_deadlock; [apply sample_reachable; vm_compute; eauto|vm_compute; reflexivity].
Defined.

(** ** Two races *)

(** The credentials change while a connection is being authenticated. *)
Definition stale_prefix : list event :=
  call_to_auth 0 ++ [EvSetCredentials 1 (lit "new-token") (lit "app"); EvStep 1; EvDropped 1 (Ok tt);
    EvAuth 0 (Ok tt); EvStep 0; EvResponse 0 (Ok sample_response)].
Definition stale_call : list event := take 3 (call_to_auth 2).

(** New credentials can be ignored.  [connected] reads the credentials,
    then awaits the authentication, then installs the connection;
    [set_credentials] in between finds no connection to drop.  There is a run in
    which [set_credentials] has returned and every call has finished, and a request
    made after that is sent on a live connection authenticated with the old
    token. *)
Theorem stale_credentials_used :
  ∃ a b, run stale_prefix sample_account = Some a ∧ run stale_call a = Some b ∧
    ac_tasks a !! 1%nat = Some (SetDone (Ok tt)) ∧ ac_tasks a !! 2%nat = None ∧
    (ac_credentials b).1.1 = lit "new-token" ∧
    list.last (ac_sent b) = Some (2%nat, 0%nat, sample_request) ∧
    ac_clients b !! 0%nat = Some (mkClient (lit "old-token", lit "app", []) 1 false).
Proof. do 2 eexists. split; [vm_compute; reflexivity|]. split; vm_compute; auto 10. Qed.

(** A closed account can keep a connection open.  [close] takes the current
    connection while another call is still authenticating one; that call then
    installs it.  There is a run in which [close] has returned, every call has
    finished and the account is closed, but its current connection is live and
    nothing is left that would close it. *)
Theorem close_leaves_connection :
  ∃ a, run (closed_call ++ [EvStep 1; EvDropped 1 (Ok tt); EvAuth 0 (Ok tt); EvStep 0;
              EvResponse 0 (Ok sample_response)]) sample_account = Some a ∧
    ac_closed a = true ∧ ac_tasks a !! 1%nat = Some (CloseDone (Ok tt)) ∧
    (∀ t p, ac_tasks a !! t = Some p → finished p = true) ∧
    ac_current a = Some (1, 0%nat) ∧ client_closed 0 a = false.
Proof.
  eexists. split; [vm_compute; reflexivity|]. split_and!; try (vm_compute; reflexivity).
  intros t p H. apply elem_of_map_to_list in H. vm_compute in H.
  repeat (apply elem_of_cons in H as [H|H]; [by simplify_eq|]). by apply not_elem_of_nil in H.
Qed.
