(* ===== verification/Connect.v ===== *)
(** * Establishing a connection (src/src/lib.rs, [connect_one_with_key_and_options])

    From an endpoint string to a negotiated client: the endpoint is parsed, the
    stream is opened, the router preface is written, the handshake runs, and the
    capabilities are negotiated over the encrypted session.  Opening the stream
    ([TcpStream::connect], or the loopback bridge of M5oH) is a parameter; timeouts
    are faults of the stream. *)
From S2P Require Import Prelude RustStr Cbor Frame Crypto Record Codec Types Endpoint Connection Ops Account Program Client ClientProofs.

Section Connect.
Context `{C : Crypto} `{D : Decompressors}.

Definition negotiate_stream (session : Session) (stream : Stream) : io (ServerHello * Session * Stream) :=
  let? frame := hello_frame in
  let? encoded := encode frame in
  let? (session, stream) := session_write_frame session stream encoded in
  let? (response, session, stream) := session_read_frame session stream in
  let? response := ok_or response (IoError UnexpectedEof (lit "MST5 closed during HELLO")) in
  let? response := decode response in
  let? hello := accept_hello response in
  Ok (hello, session, stream).

(** [client_private] is the ephemeral secret of the handshake, [open] what opens
    the stream.  [set_nodelay] does not change the bytes. *)
Definition connect_one_with_key_and_options (open : ParsedEndpoint → io Stream) (client_private : list Z)
    (endpoint pinned_public_key : list Z) (options : ClientOptions) : io (Client * Session * Stream) :=
  let? endpoint := parse_endpoint endpoint in
  let? stream := open endpoint in
  let? stream :=
    match pa_m5oh endpoint, pa_route endpoint with
    | None, Some route => write_router_preface stream route
    | _, _ => Ok stream
    end in
  let? (session, stream) := client_handshake client_private pinned_public_key stream in
  let? (hello, session, stream) := negotiate_stream session stream in
  Ok (mkClient (sh_features hello) hello (read_timeout options), session, stream).
End Connect.

Section Connect_proofs.
Context `{CL : CryptoLaws} `{D : Decompressors}.

(** A payload written by one end of a session is read by the other. *)
Lemma session_frame_roundtrip a b payload :
  cipher_ok (se_seal a) → se_seal a = se_open b → se_handshake_hash a = se_handshake_hash b →
  is_bytes (se_handshake_hash a) → cs_generation (se_seal a) < u64_max →
  is_bytes payload → len payload ≤ MAX_TRANSPORT_PAYLOAD →
  ∃ wire c', cipher_ok c' ∧
    (∀ i o, session_write_frame a (mkStream i o []) payload =
      Ok (mkSession c' (se_open a) (se_handshake_hash a), mkStream i (o ++ wire) [])) ∧
    (∀ rest o', session_read_frame b (mkStream (wire ++ rest) o' []) =
      Ok (Some payload, mkSession (se_seal b) c' (se_handshake_hash b), mkStream rest o' [])).
Proof.
  intros Hc Hab Hh Hhb Hg Hb Hl.
  assert (wf_record 0 payload) as Hw by (constructor; auto).
  destruct (seal_open_step (se_seal a) (se_handshake_hash a) 0 payload Hc Hw Hg Hhb)
    as (r & c' & Hs & Ho & Hc' & Hrb & Hrl & _).
  pose proof (padded_len_max (len payload) (conj (len_nonneg payload) Hl)) as Hmax.
  pose proof (padded_len_bound (len payload) (len_nonneg payload)) as [Hpb _]. pose proof (len_nonneg payload).
  assert (max_record_len = 20971672) as Hm by reflexivity.
  exists (be_bytes 4 (as_u32 (len r)) ++ r), c'. split; [done|]. split.
  - intros i o. unfold session_write_frame, seal_record. rewrite Hs. reflexivity.
  - intros rest o'. unfold session_read_frame, open_record. rewrite <- app_assoc, read_exact_app by apply len_be_bytes.
    rewrite as_u32_small by (widths; unfold TAG_LEN in *; lia). rewrite be_bytes_roundtrip by (unfold TAG_LEN in *; simpl; lia).
    assert ((len r <? 8 + TAG_LEN) || (max_record_len <? len r) = false) as -> by (unfold TAG_LEN in *; by zbool).
    rewrite read_exact_app by done. rewrite <- Hab, <- Hh, Ho. reflexivity.
Qed.

Lemma parsed_route_valid s p r :
  parse_endpoint s = Ok p → pa_m5oh p = None → pa_route p = Some r → validate_route_id r = Ok tt.
Proof.
  unfold parse_endpoint. intros H Hm Hr.
  destruct (strip_prefix (lit "https://") _); [destruct (parse_m5oh_endpoint _ _ _) as [[]|]; by simplify_eq|].
  destruct (strip_prefix (lit "http://") _); [destruct (parse_m5oh_endpoint _ _ _) as [[]|]; by simplify_eq|].
  destruct (starts_with _ _); [done|]. destruct (strip_prefix (lit "mst5://") _) as [routed|].
  - destruct (split_once 47 routed) as [[address route]|]; [|done]. destruct (validate_route_id route) as [[]|] eqn:Ev; [|done].
    destruct (endpoint_socket_address address 8067); simplify_eq. cbn in Hr. by simplify_eq.
  - destruct (_ || _); [done|]. destruct (endpoint_socket_address _ 8080); by simplify_eq.
Qed.

(** What precedes the handshake on the wire. *)
Definition preface_of (p : ParsedEndpoint) : list Z :=
  match pa_m5oh p, pa_route p with None, Some route => router_preface route | _, _ => [] end.

Lemma preface_written s p i :
  parse_endpoint s = Ok p →
  match pa_m5oh p, pa_route p with
  | None, Some route => write_router_preface (mkStream i [] []) route
  | _, _ => Ok (mkStream i [] [])
  end = Ok (mkStream i (preface_of p) []).
Proof.
  intros H. unfold preface_of. destruct (pa_m5oh p) eqn:Em; [done|]. destruct (pa_route p) as [r|] eqn:Er; [|done].
  unfold write_router_preface. by rewrite (parsed_route_valid s p r).
Qed.

(** The HELLO of the client, encoded. *)
Lemma hello_encoded : ∃ f bs, hello_frame = Ok f ∧ encode f = Ok bs ∧ is_bytes bs ∧ len bs ≤ MAX_TRANSPORT_PAYLOAD.
Proof. do 2 eexists. split; [vm_compute; reflexivity|]. split; [vm_compute; reflexivity|]. split; by_vm. Qed.

(** The answer of a server that accepts. *)
Definition server_hello_frame (features minor : Z) (cid : list Z) : Frame :=
  mkFrame kind.HELLO 0 200 0 zero_nonce 0 (encode_cbor (server_hello_value features minor cid)).

Lemma server_hello_encoded features minor cid :
  is_u64 features → is_u64 minor → is_bytes cid → utf8_valid cid = true → len cid ≤ 1024 →
  ∃ bs, encode (server_hello_frame features minor cid) = Ok bs ∧
    decode_with_zstd bs = Ok (server_hello_frame features minor cid) ∧ is_bytes bs ∧ len bs ≤ MAX_TRANSPORT_PAYLOAD.
Proof.
  intros Hf Hm Hc Hu Hl. pose proof (server_hello_length features minor cid) as Hlen.
  assert (wf_frame (server_hello_frame features minor cid)) as Hw.
  { constructor; cbn [fr_kind fr_flags fr_code fr_id fr_request_nonce fr_deadline_ms fr_payload server_hello_frame];
      try done; try (split; by_vm).
    - by apply encode_cbor_bytes, server_hello_wf.
    - change MST5_MAX_PLAIN_PAYLOAD with 4194304. lia. }
  destruct (encode_decode _ Hw) as (bs & He & Hbl & Hd). exists bs. split; [done|]. split; [done|].
  destruct (encode_wf_record _ _ Hw He). done.
Qed.

(** C5: a connection is established end to end.  Let the endpoint parse, the
    stream open, and at its other end be a Noise NK responder with the pinned key
    that answers the client's HELLO with one offering the required capabilities.
    Then [connect_one_with_key_and_options] succeeds: it has written the router
    preface of the endpoint (and nothing else) before the handshake, its HELLO is
    what the server decrypts, its features and connection id are those the server
    sent, it has consumed exactly the server's bytes, and the two ends hold the same
    cipher states, crosswise, which satisfy the invariant of the record layer. *)
Theorem connection_established endpoint p options client static ephemeral features minor cid rest :
  zstd_new_ok = true → parse_endpoint endpoint = Ok p →
  forallb (Z.eqb 0) (x25519 client (x25519_public static)) = false →
  forallb (Z.eqb 0) (x25519 client (x25519_public ephemeral)) = false →
  is_u64 features → is_u64 minor → is_bytes cid → utf8_valid cid = true → len cid ≤ 1024 →
  Z.land features REQUIRED_FEATURES = REQUIRED_FEATURES →
  ∃ f client_hello server_hello hello answer request reply session srv0 srv1 srv,
    hello_frame = Ok f ∧ encode f = Ok client_hello ∧
    encode (server_hello_frame features minor cid) = Ok server_hello ∧
    respond static ephemeral hello = Ok (answer, srv0) ∧
    session_read_frame srv0 (mkStream request [] []) = Ok (Some client_hello, srv1, mkStream [] [] []) ∧
    session_write_frame srv1 (mkStream [] [] []) server_hello = Ok (srv, mkStream [] reply []) ∧
    connect_one_with_key_and_options (λ _, Ok (mkStream (answer ++ reply ++ rest) [] [])) client endpoint
        (x25519_public static) options =
      Ok (mkClient features (mkServerHello TRANSPORT_MAJOR RPC_MAJOR minor features MST5_MAX_PLAIN_PAYLOAD (Some cid))
            (read_timeout options), session, mkStream rest (preface_of p ++ hello ++ request) []) ∧
    se_seal session = se_open srv ∧ se_open session = se_seal srv ∧
    se_handshake_hash session = se_handshake_hash srv ∧ cipher_ok (se_seal session) ∧ cipher_ok (se_open session).
Proof.
  intros Hz Hp Hes Hee Hf Hm Hc Hu Hl Hreq.
  destruct hello_encoded as (f & ch & Hhf & Hche & Hchb & Hchl).
  destruct (server_hello_encoded features minor cid) as (sh & Hshe & Hshd & Hshb & Hshl); [done..|].
  destruct (handshake_agrees client static ephemeral Hes Hee)
    as (hello & answer & cl & srv0 & Hresp & Hcl & Hh & Hso & Hos & Hok1 & Hok2 & Hhb & Hg1 & Hg2).
  destruct (session_frame_roundtrip cl srv0 ch) as (request & c1 & Hc1 & Hw1 & Hr1); try done; [rewrite Hg1; by_vm|].
  set (srv1 := mkSession (se_seal srv0) c1 (se_handshake_hash srv0)). set (cl1 := mkSession c1 (se_open cl) (se_handshake_hash cl)).
  destruct (session_frame_roundtrip srv1 cl1 sh) as (reply & c2 & Hc2 & Hw2 & Hr2); cbn; try done; try congruence;
    [rewrite <- Hos, Hg2; by_vm|].
  exists f, ch, sh, hello, answer, request, reply, (mkSession c1 c2 (se_handshake_hash cl)), srv0, srv1,
    (mkSession c2 c1 (se_handshake_hash srv0)).
  split_and!; try done.
  - rewrite <- (app_nil_r request). apply Hr1.
  - unfold connect_one_with_key_and_options. rewrite Hp, (preface_written _ _ _ Hp), Hcl.
    unfold negotiate_stream. rewrite Hhf, Hche, Hw1, Hr2. cbn [ok_or]. unfold decode. rewrite Hz, Hshd. cbn [negb].
    unfold server_hello_frame. rewrite hello_accepted by done. cbn. by rewrite <- app_assoc.
Qed.
End Connect_proofs.

(** ** A concrete connection *)
Lemma connection_established_witness :
  ∃ f client_hello server_hello hello answer request reply session srv0 srv1 srv,
    hello_frame = Ok f ∧ encode f = Ok client_hello ∧
    encode (server_hello_frame CLIENT_FEATURES 2 (lit "c1")) = Ok server_hello ∧
    @respond Toy.toy_crypto (replicate 32 4) (replicate 32 5) hello = Ok (answer, srv0) ∧
    @session_read_frame Toy.toy_crypto srv0 (mkStream request [] []) = Ok (Some client_hello, srv1, mkStream [] [] []) ∧
    @session_write_frame Toy.toy_crypto srv1 (mkStream [] [] []) server_hello = Ok (srv, mkStream [] reply []) ∧
    @connect_one_with_key_and_options Toy.toy_crypto no_decompressors
        (λ _, Ok (mkStream (answer ++ reply ++ []) [] [])) (replicate 32 3)
        (lit "mst5://central.example:8067/main") (@x25519_public Toy.toy_crypto (replicate 32 4)) default_client_options =
      Ok (mkClient CLIENT_FEATURES
            (mkServerHello TRANSPORT_MAJOR RPC_MAJOR 2 CLIENT_FEATURES MST5_MAX_PLAIN_PAYLOAD (Some (lit "c1"))) 40000, session,
          mkStream [] (router_preface (lit "main") ++ hello ++ request) []) ∧
    se_seal session = se_open srv ∧ se_open session = se_seal srv ∧
    se_handshake_hash session = se_handshake_hash srv ∧ cipher_ok (se_seal session) ∧ cipher_ok (se_open session).
Proof.
  apply (@connection_established Toy.toy_crypto Toy.toy_laws no_decompressors (lit "mst5://central.example:8067/main")
    (mkParsed (lit "central.example:8067") (Some (lit "main")) None) default_client_options (replicate 32 3) (replicate 32 4)
    (replicate 32 5) CLIENT_FEATURES 2 (lit "c1") []).
  all: first [vm_compute; reflexivity|by_vm].
Defined.
