(* ===== verification/ApiProofs.v ===== *)
(** * The messenger API: every method keeps the protocol

    [api_method] lists the methods of [Api]; the theorems hold for each of them. *)
From S2P Require Import Prelude RustStr Cbor Frame Codec Types Connection Ops Account Program Client Messenger MessengerProofs Api ClientProofs.

Section Api_proofs.
Variable c : Client.

(** The methods, each with arbitrary arguments. *)
Inductive api_method : ∀ {A}, tprog A → Prop :=
| M_get_me : api_method (get_me c)
| M_send (to text : list Z) : api_method (send c to text)
| M_register (username password : list Z) (email : option (list Z)) : api_method (register c username password email)
| M_login (username password : list Z) : api_method (login c username password)
| M_login_email (email password : list Z) : api_method (login_email c email password)
| M_start_email_auth (email : list Z) : api_method (start_email_auth c email)
| M_verify_email_auth (email code : list Z) (cloud_password : option (list Z)) : api_method (verify_email_auth c email code cloud_password)
| M_delete_account (code : list Z) : api_method (delete_account c code)
| M_set_username (username : list Z) : api_method (set_username c username)
| M_set_name (name : list Z) : api_method (set_name c name)
| M_set_profile_description (profile : option (list Z)) (description : list Z) : api_method (set_profile_description c profile description)
| M_set_description (description : list Z) : api_method (set_description c description)
| M_set_privacy (message_privacy call_privacy invite_privacy : list Z) : api_method (set_privacy c message_privacy call_privacy invite_privacy)
| M_contacts : api_method (contacts c)
| M_add_contact (user : list Z) : api_method (add_contact c user)
| M_delete_contact (user : list Z) : api_method (delete_contact c user)
| M_create_group (title : list Z) (members : list (list Z)) : api_method (create_group c title members)
| M_create_channel (title : list Z) (username : option (list Z)) (members : list (list Z)) : api_method (create_channel c title username members)
| M_set_chat_title (chat title : list Z) : api_method (set_chat_title c chat title)
| M_set_channel_username (chat username : list Z) : api_method (set_channel_username c chat username)
| M_set_channel_comments (chat : list Z) (enabled : bool) : api_method (set_channel_comments c chat enabled)
| M_send_channel_comment (chat : list Z) (post_id : Z) (text : list Z) (reply_to_message_id : option Z) (client_message_id : option (list Z)) : api_method (send_channel_comment c chat post_id text reply_to_message_id client_message_id)
| M_channel_comments (chat : list Z) (post_id : Z) (before : option Z) (limit : option Z) : api_method (channel_comments c chat post_id before limit)
| M_add_chat_member (chat user : list Z) : api_method (add_chat_member c chat user)
| M_remove_chat_member (chat user : list Z) : api_method (remove_chat_member c chat user)
| M_set_cloud_password (password : list Z) (e2e_backup : option Value) : api_method (set_cloud_password c password e2e_backup)
| M_reset_cloud_password (email : option (list Z)) (code : list Z) : api_method (reset_cloud_password c email code)
| M_sessions : api_method (sessions c)
| M_revoke_session (id : list Z) : api_method (revoke_session c id)
| M_revoke_other_sessions : api_method (revoke_other_sessions c)
| M_create_bot (username : list Z) : api_method (create_bot c username)
| M_reset_bot_token (username : list Z) : api_method (reset_bot_token c username)
| M_bot_commands (bot : list Z) : api_method (bot_commands c bot)
| M_sticker_packs : api_method (sticker_packs c)
| M_sticker_pack (id : list Z) : api_method (sticker_pack c id)
| M_create_sticker_pack (body : Value) : api_method (create_sticker_pack c body)
| M_purchase_sticker_pack (id : list Z) : api_method (purchase_sticker_pack c id)
| M_send_sticker (to pack_id file_id client_message_id : list Z) : api_method (send_sticker c to pack_id file_id client_message_id)
| M_set_sticker_pack_price (id : list Z) (price_dsr : Z) : api_method (set_sticker_pack_price c id price_dsr)
| M_set_e2e_key (public_key_b64 : list Z) : api_method (set_e2e_key c public_key_b64)
| M_set_chat_e2e_key (chat_id public_key_b64 : list Z) : api_method (set_chat_e2e_key c chat_id public_key_b64)
| M_get_e2e_key (user : list Z) : api_method (get_e2e_key c user)
| M_get_chat_e2e_key (user chat_id : list Z) : api_method (get_chat_e2e_key c user chat_id)
| M_set_e2e_backup (backup : Value) : api_method (set_e2e_backup c backup)
| M_get_e2e_backup : api_method (get_e2e_backup c)
| M_reset_e2e : api_method (reset_e2e c)
| M_wallet : api_method (wallet c)
| M_wallet_send (to : list Z) (amount : Z) (comment idempotency_key : option (list Z)) : api_method (wallet_send c to amount comment idempotency_key)
| M_wallet_history (limit : option Z) : api_method (wallet_history c limit)
| M_call (to action : list Z) : api_method (call c to action)
| M_create_voice_ticket (peer : list Z) : api_method (create_voice_ticket c peer)
| M_voice_participants (peer : list Z) : api_method (voice_participants c peer)
| M_send_advanced (request : Value) : api_method (send_advanced c request)
| M_edit_message (id : Z) (text : list Z) : api_method (edit_message c id text)
| M_edit_message_advanced (request : Value) : api_method (edit_message_advanced c request)
| M_pin_message (id : Z) (pinned : bool) : api_method (pin_message c id pinned)
| M_vote_poll (message_id option : Z) : api_method (vote_poll c message_id option)
| M_callback (to : list Z) (message_id : Z) (data : list Z) : api_method (callback c to message_id data)
| M_react (message_id : Z) (emoji : list Z) : api_method (react c message_id emoji)
| M_react_paid (message_id amount : Z) (idempotency_key : option (list Z)) : api_method (react_paid c message_id amount idempotency_key)
| M_read_messages (peer : list Z) : api_method (read_messages c peer)
| M_delete_message (id : Z) : api_method (delete_message c id)
| M_favorite_message (id : Z) : api_method (favorite_message c id)
| M_nodes_status : api_method (nodes_status c)
| M_chats : api_method (chats c)
| M_delete_chat (peer : list Z) : api_method (delete_chat c peer)
| M_ban_user (username : list Z) : api_method (ban_user c username)
| M_unban_user (username : list Z) : api_method (unban_user c username)
| M_history (peer : list Z) (after before limit : option Z) : api_method (history c peer after before limit)
| M_updates (after timeout_secs : option Z) : api_method (updates c after timeout_secs)
| M_ack_updates (ids : list Z) : api_method (ack_updates c ids)
| M_register_node (request : Value) : api_method (register_node c request)
| M_list_nodes : api_method (list_nodes c)
| M_oauth_device_request (user_code : list Z) : api_method (oauth_device_request c user_code)
| M_oauth_device_decision (user_code decision : list Z) : api_method (oauth_device_decision c user_code decision)
| M_botfather_execute (event_id user_id : Z) (text : list Z) : api_method (botfather_execute c event_id user_id text)
| M_dastars_credit (user_id amount : Z) (txid : list Z) : api_method (dastars_credit c user_id amount txid)
| M_file_ticket (id : list Z) : api_method (file_ticket c id)
| M_forward_message (message_id : Z) (to : list Z) (client_message_id : option (list Z)) : api_method (forward_message c message_id to client_message_id)
| M_media_quote (request : Value) : api_method (media_quote c request)
| M_prepare_message_media (request : Value) : api_method (prepare_message_media c request)
| M_commit_message_media (operation_id : list Z) : api_method (commit_message_media c operation_id)
| M_cancel_message_media (operation_id client_message_id : option (list Z)) : api_method (cancel_message_media c operation_id client_message_id).

(** The method the operation table gives an opcode is GET, or is not GET. *)
Definition only_method (get : bool) (opcode : Z) : bool :=
  forallb (λ r, negb (r.2 =? opcode) || Bool.eqb (beq r.1.1 (lit "GET")) get) operation_table.

Lemma only_method_spec get opcode method path :
  only_method get opcode = true → operation method path = Ok opcode → beq method (lit "GET") = get.
Proof.
  unfold only_method, operation. intros Ho. destruct (find_operation _ _) as [o|] eqn:E; [|done].
  intros; simplify_eq. apply find_operation_in, list_elem_of_In in E.
  rewrite forallb_forall in Ho. specialize (Ho _ E). cbn in Ho. rewrite Z.eqb_refl in Ho. cbn in Ho.
  by apply Bool.eqb_prop.
Qed.

(** A request of the API: the anonymous AUTH, a QUERY on a route that is GET in
    the operation table, or a COMMAND on one that is not. *)
Definition route_ok (a : action) : Prop :=
  match a with
  | ARequest k opcode _ _ _ =>
      (k = kind.AUTH ∧ opcode = 0) ∨
      (k = kind.QUERY ∧ ∀ method path, operation method path = Ok opcode → method = lit "GET") ∨
      (k = kind.COMMAND ∧ ∀ method path, operation method path = Ok opcode → method ≠ lit "GET")
  | _ => False
  end.

Lemma sends_request (Q : action → Prop) k o p opts :
  (∀ nonce deadline, Q (ARequest k o nonce deadline p)) → sends_only Q (request_cbor_with_options c k o p opts).
Proof.
  intros HQ. unfold request_cbor_with_options, has_principal, request_frame.
  apply sends_bind; [auto with sends|intros ready]. apply sends_if; [apply sends_ret|].
  apply sends_if; [apply sends_ret|]. apply sends_try; [|intros nonce].
  { eapply sends_impl; [|apply silent_nonce]. by intros. }
  apply sends_bind; [destruct (deadline_ms opts); auto with sends|intros deadline].
  apply sends_bind; [auto with sends|intros now]. apply sends_try; [auto with sends|intros timeout].
  apply sends_try; [|intros; apply sends_ret]. apply sends_perform. apply HQ.
Qed.

Lemma sends_query o q : only_method true o = true → sends_only route_ok (query_result c o q).
Proof.
  intros Ho. apply sends_try; [|intros; apply sends_ret]. apply sends_request. intros. right. left.
  split; [done|]. intros m p Hm. pose proof (only_method_spec _ _ _ _ Ho Hm) as E. unfold beq in E. by case_bool_decide.
Qed.

Lemma sends_command o p : only_method false o = true → sends_only route_ok (command_result c o p).
Proof.
  intros Ho. apply sends_try; [|intros; apply sends_ret]. apply sends_request. intros. right. right.
  split; [done|]. intros m q Hm. pose proof (only_method_spec _ _ _ _ Ho Hm) as E. unfold beq in E. by case_bool_decide.
Qed.

Lemma sends_ensure : sends_only route_ok (ensure_transport_authenticated c).
Proof.
  unfold ensure_transport_authenticated, has_principal, authenticate, authenticate_info,
    authenticate_info_with_client_name, authenticate_info_with_client_metadata, request_frame, set_principal.
  apply sends_bind; [auto with sends|intros ready]. apply sends_if; [apply sends_ret|].
  apply sends_try; [|intros; apply sends_ret]. apply sends_if; [apply sends_ret|]. apply sends_if; [apply sends_ret|].
  apply sends_try; [|intros r; auto 10 with sends].
  apply sends_try; [apply sends_perform; left; done|intros; apply sends_ret].
Qed.

Lemma sends_login o p ctx : only_method false o = true → sends_only route_ok (command_login c o p ctx).
Proof.
  intros Ho. unfold command_login, command_auth, promote_auth_result, auth_info, set_principal.
  apply sends_try; [apply sends_ensure|intros _].
  apply sends_try; [apply sends_try; [by apply sends_command|intros; apply sends_ret]|intros r].
  apply sends_try; [|intros; apply sends_ret]. apply sends_bind; [auto with sends|intros i].
  destruct (us_bot _); auto with sends.
Qed.

(** Follow a method to its requests, by the head of the program. *)
Ltac head_of t := match t with ?f _ => head_of f | _ => t end.
Ltac route :=
  repeat match goal with
  | |- sends_only _ (if _ then _ else _) => apply sends_if
  | |- sends_only _ ?p =>
      let h := head_of p in
      match h with
      | @query_result => apply sends_query; vm_compute; reflexivity
      | @command_result => apply sends_command; vm_compute; reflexivity
      | @command_login => apply sends_login; vm_compute; reflexivity
      | @ensure_transport_authenticated => apply sends_ensure
      | @try_bind => apply sends_try; [|intros ?]
      | @lift => apply sends_ret
      | @Ret => apply sends_ret
      | _ => unfold h; cbv zeta
      end
  end.

(** The typed API and the JSON operation table agree.  Every request any
    method sends, whatever its arguments and whatever the environment answers, is
    the anonymous AUTH, a QUERY whose opcode the table reaches only by GET, or a
    COMMAND whose opcode the table never reaches by GET; and nothing but requests is
    sent. *)
Theorem api_routes_agree {A} (p : tprog A) : api_method p → sends_only route_ok p.
Proof. destruct 1; route. Qed.

End Api_proofs.

Lemma api_routes_agree_witness :
  sends_only route_ok (history (mkClient 0 (mkServerHello 5 1 2 0 0 None) 40000) (lit "bob") None None (Some 20)).
Proof. apply (api_routes_agree (mkClient 0 (mkServerHello 5 1 2 0 0 None) 40000)). apply M_history. Defined.
