(* ===== verification/Transfer.v ===== *)
(** * Media transfers (src/src/lib.rs, [impl Client])

    Uploads and downloads over a media connection, plain, resumable and
    end-to-end encrypted, as client programs.  A hasher is the list of the bytes it
    was fed.  The loops have fuel: a turn of an upload moves at least one byte
    towards the declared size, a turn of a download one byte towards the announced
    size, so the sizes bound the number of turns; the theorems show that the fuel
    given is enough for every behaviour of the environment.  [usize_bits] is the
    pointer width ([MediaDecryptor::push] depends on it). *)
From S2P Require Import Prelude RustStr Cbor Frame Crypto E2E Media Codec Types Ops Json Messenger Account Program Client.

(** [MEDIA_CHUNK_SIZE] of lib.rs, not the one of e2e.rs. *)
Definition TRANSFER_CHUNK_SIZE : Z := 256 * 1024.

Section Transfer.
Context `{C : Crypto}.
Variable c : Client.

Definition not_media_client : io_error := IoError PermissionDenied (lit "media client is not authenticated").

(** The guard every transfer starts with. *)
Definition media_ready : tprog unit :=
  let! ok := is_authenticated in
  throw_if (negb ok || (Z.land (cl_features c) FEATURE_MEDIA_STREAMS =? 0)) with not_media_client;
  Ret (Ok tt).

(** STREAM_OPEN and the server's answer: the id and the accepting frame. *)
Definition media_open (opcode : Z) (open : Value) (rejected : io_error) : tprog (Z * Frame) :=
  let! now := perform ENow in
  let deadline := saturating_add64 now (duration_ms (cl_read_timeout c)) in
  do! id := perform (EBegin kind.STREAM_OPEN opcode zero_nonce16 deadline (encode_cbor open)) in
  do! accepted := perform (ERecv id (cl_read_timeout c)) in
  if negb (fr_id accepted =? id) || negb (fr_kind accepted =? kind.ACK) || negb (fr_code accepted =? 100) then
    let! _ := perform (ERemove id) in Ret (Err rejected)
  else Ret (Ok (id, accepted)).

Definition upload_rejected : io_error := IoError PermissionDenied (lit "media upload rejected").
Definition download_rejected : io_error := IoError NotFound (lit "media download rejected").

(** An error after STREAM_ABORT. *)
Definition abort_with {A} (id status : Z) (e : io_error) : tprog A :=
  let! _ := perform (EAbort id status) in Ret (Err e).

(** [pending.send(STREAM_DATA)], aborting the transfer when it fails. *)
Definition send_data (id : Z) (bytes : list Z) : tprog unit :=
  let! r := perform (ESend id kind.STREAM_DATA 0 bytes) in
  match r with Ok _ => Ret (Ok tt) | Err e => abort_with id 500 e end.

(** The loop of [upload_media] and [upload_media_resumable]: how much was sent,
    and what was hashed. *)
Fixpoint upload_loop (fuel : nat) (id size sent : Z) (hashed : list Z) : tprog (Z * list Z) :=
  match fuel with
  | O => OutOfFuel
  | S fuel =>
      let! r := perform (ERead TRANSFER_CHUNK_SIZE) in
      match r with
      | Err e => abort_with id 500 e
      | Ok bytes =>
          if is_empty bytes then Ret (Ok (sent, hashed))
          else
            let sent := saturating_add64 sent (len bytes) in
            if size <? sent then abort_with id 400 (invalid_data (lit "media source exceeds declared size"))
            else
              do! _ := send_data id bytes in
              upload_loop fuel id size sent (hashed ++ bytes)
      end
  end.

Definition upload_fuel (size sent : Z) : nat := S (S (Z.to_nat (size - sent))).

(** The payload of STREAM_END. *)
Definition end_value (size : Z) (sha256 : list Z) : Value :=
  value_map [(lit "size", VUnsigned size); (lit "sha256", VText sha256)].

(** STREAM_END and the final result. *)
Definition upload_finish (id : Z) (payload : Value) : tprog unit :=
  do! _ := perform (ESend id kind.STREAM_END 200 (encode_cbor payload)) in
  do! f := perform (ERecv id (cl_read_timeout c)) in
  let response := from_frame f in
  if negb (rs_kind response =? kind.RESULT) || negb (rs_status response =? 200)
  then lift (let? _ := into_result response in Ok tt)
  else Ret (Ok tt).

Definition short_source : io_error := IoError UnexpectedEof (lit "media source is shorter than declared size").

Definition upload_media (file_id : list Z) (size : Z) : tprog unit :=
  do! _ := media_ready in
  do! (id, _) := media_open media_op.UPLOAD
    (value_map [(lit "file_id", VText file_id); (lit "size", VUnsigned size)]) upload_rejected in
  do! (sent, hashed) := upload_loop (upload_fuel size 0) id size 0 [] in
  if negb (sent =? size) then abort_with id 400 short_source
  else upload_finish id (end_value sent (media_hex (sha256_digest hashed))).

Definition upload_media_resumable (file_id : list Z) (size offset : Z) (sha256 : list Z) : tprog unit :=
  throw_if ((size <? offset) || negb (len sha256 =? 64) || negb (forallb is_ascii_hexdigit sha256))
    with invalid_data (lit "invalid resumable upload checkpoint");
  do! _ := media_ready in
  do! (id, accepted) := media_open media_op.UPLOAD
    (value_map [(lit "file_id", VText file_id); (lit "size", VUnsigned size); (lit "offset", VUnsigned offset)])
    upload_rejected in
  do! ack := lift (decode_cbor (fr_payload accepted)) in
  let accepted_offset := default offset (get_u64 ack (lit "offset")) in
  if negb (accepted_offset =? offset) then
    let! _ := perform (ERemove id) in Ret (Err (invalid_data (lit "media node checkpoint mismatch")))
  else
    do! (sent, _) := upload_loop (upload_fuel size offset) id size offset [] in
    if negb (sent =? size) then abort_with id 400 short_source
    else upload_finish id (end_value size sha256).

(** ** Encrypted uploads *)
Definition size_overflow : io_error := invalid_data (lit "E2E media upload size overflow").

(** [sent.checked_add(n).ok_or(..)]. *)
Definition add_sent (sent n : Z) : io Z := ok_or (checked_add64 sent n) size_overflow.

Fixpoint upload_e2e_loop (fuel : nat) (id sent : Z) (hashed : list Z) (e : MediaEncryptor)
  : tprog (Z * list Z * MediaEncryptor) :=
  match fuel with
  | O => OutOfFuel
  | S fuel =>
      let! r := perform (ERead MEDIA_CHUNK_SIZE) in
      match r with
      | Err x => abort_with id 500 x
      | Ok bytes =>
          if is_empty bytes then Ret (Ok (sent, hashed, e))
          else
            match seal_chunk e bytes with
            | (Err x, _) => Ret (Err x)
            | (Ok encrypted, e) =>
                do! sent := lift (add_sent sent (len encrypted)) in
                do! _ := send_data id encrypted in
                upload_e2e_loop fuel id sent (hashed ++ encrypted) e
            end
      end
  end.

Definition upload_media_e2e_with_encryptor (file_id : list Z) (plaintext_size : Z) (e : MediaEncryptor) : tprog unit :=
  do! encrypted_size := lift (encrypted_media_size plaintext_size) in
  do! _ := media_ready in
  do! (id, _) := media_open media_op.UPLOAD
    (value_map [(lit "file_id", VText file_id); (lit "size", VUnsigned encrypted_size)]) upload_rejected in
  let header := encryptor_header e in
  do! sent := lift (add_sent 0 (len header)) in
  do! _ := send_data id header in
  do! (sent, hashed, e) := upload_e2e_loop (upload_fuel plaintext_size (en_written e)) id sent header e in
  match encryptor_finish e with
  | Err x => abort_with id 400 x
  | Ok _ =>
      if negb (sent =? encrypted_size) then abort_with id 500 (invalid_data (lit "E2E media ciphertext size mismatch"))
      else upload_finish id (end_value sent (media_hex (sha256_digest hashed)))
  end.

(** [random] is the nonce prefix of the container. *)
Definition upload_media_e2e (file_id : list Z) (plaintext_size : Z) (identity : Identity)
    (peer_public from_id to_id : list Z) (random : io (list Z)) : tprog unit :=
  do! e := lift (media_encryptor identity peer_public from_id to_id file_id plaintext_size random) in
  upload_media_e2e_with_encryptor file_id plaintext_size e.

Definition upload_media_e2e_with_key (file_id : list Z) (plaintext_size : Z) (media_key file_aad : list Z)
    (random : io (list Z)) : tprog unit :=
  do! e := lift (encryptor_with_key media_key file_aad plaintext_size random) in
  upload_media_e2e_with_encryptor file_id plaintext_size e.

(** ** Downloads *)

(** The size the node announces, which must be the expected one. *)
Definition download_open (file_id : list Z) (expected_size : Z) : tprog (Z * Z) :=
  do! _ := media_ready in
  do! (id, accepted) := media_open media_op.DOWNLOAD (value_map [(lit "file_id", VText file_id)]) download_rejected in
  do! metadata := lift (decode_cbor (fr_payload accepted)) in
  do! announced := lift (ok_or (get_u64 metadata (lit "size")) (invalid_data (lit "media node omitted size"))) in
  if negb (announced =? expected_size) then abort_with id 409 (invalid_data (lit "media size changed"))
  else Ret (Ok (id, announced)).

(** The END frame must confirm the size and the hash of what was received. *)
Definition end_matches (payload : list Z) (received announced : Z) (hashed : list Z) : io unit :=
  let? v := decode_cbor payload in
  fail_if (negb (received =? announced) || negb (bool_decide (get_u64 v (lit "size") = Some received))
           || negb (bool_decide (get_str v (lit "sha256") = Some (media_hex (sha256_digest hashed)))))
    with invalid_data (lit "media download checksum mismatch");
  Ok tt.

Definition data_error (payload : list Z) : bool := is_empty payload || (TRANSFER_CHUNK_SIZE <? len payload).

(** The error a frame of another kind ends the download with. *)
Definition stray_frame (f : Frame) : io_error :=
  if fr_kind f =? kind.ERROR then
    match decode_cbor (fr_payload f) with Ok v => api_response_error (fr_code f) v | Err e => e end
  else invalid_data (lit "unexpected media download frame").

Fixpoint download_loop (fuel : nat) (id announced received : Z) (hashed : list Z) : tprog Z :=
  match fuel with
  | O => OutOfFuel
  | S fuel =>
      do! f := perform (ERecv id (cl_read_timeout c)) in
      throw_if (negb (fr_id f =? id)) with invalid_data (lit "media stream id mismatch");
      if fr_kind f =? kind.STREAM_DATA then
        throw_if (data_error (fr_payload f)) with invalid_data (lit "invalid media chunk");
        let! w := perform (EWrite (fr_payload f)) in
        match w with
        | Err e => abort_with id 500 e
        | Ok _ =>
            let received := as_u64 (received + len (fr_payload f)) in
            throw_if (announced <? received) with invalid_data (lit "media exceeds announced size");
            download_loop fuel id announced received (hashed ++ fr_payload f)
        end
      else if fr_kind f =? kind.STREAM_END then
        do! _ := lift (end_matches (fr_payload f) received announced hashed) in
        let! w := perform EFlush in
        match w with
        | Err e => abort_with id 500 e
        | Ok _ => Ret (Ok received)
        end
      else Ret (Err (stray_frame f))
  end.

Definition download_media (file_id : list Z) (expected_size : Z) : tprog Z :=
  do! (id, announced) := download_open file_id expected_size in
  download_loop (upload_fuel announced 0) id announced 0 [].

(** Decrypted chunks are written as they come. *)
Fixpoint write_chunks (chunks : list (list Z)) (plaintext : Z) : tprog Z :=
  match chunks with
  | [] => Ret (Ok plaintext)
  | b :: t =>
      do! _ := perform (EWrite b) in
      write_chunks t (plaintext + len b)
  end.

Fixpoint download_e2e_loop (usize_bits : Z) (fuel : nat) (id announced received plaintext : Z) (hashed : list Z)
    (d : MediaDecryptor) : tprog Z :=
  match fuel with
  | O => OutOfFuel
  | S fuel =>
      do! f := perform (ERecv id (cl_read_timeout c)) in
      throw_if (negb (fr_id f =? id)) with invalid_data (lit "media stream id mismatch");
      if fr_kind f =? kind.STREAM_DATA then
        throw_if (data_error (fr_payload f)) with invalid_data (lit "invalid media chunk");
        do! received := lift (ok_or (checked_add64 received (len (fr_payload f))) (invalid_data (lit "media size overflow"))) in
        throw_if (announced <? received) with invalid_data (lit "media exceeds announced size");
        match push usize_bits d (fr_payload f) with
        | (Err e, _) => Ret (Err e)
        | (Ok chunks, d) =>
            do! plaintext := write_chunks chunks plaintext in
            download_e2e_loop usize_bits fuel id announced received plaintext (hashed ++ fr_payload f) d
        end
      else if fr_kind f =? kind.STREAM_END then
        do! _ := lift (end_matches (fr_payload f) received announced hashed) in
        do! final_size := lift (decryptor_finish d) in
        throw_if (negb (final_size =? plaintext)) with invalid_data (lit "E2E media plaintext size mismatch");
        do! _ := perform EFlush in
        Ret (Ok plaintext)
      else Ret (Err (stray_frame f))
  end.

Definition download_media_e2e_with_decryptor (usize_bits : Z) (file_id : list Z) (expected_encrypted_size : Z)
    (d : MediaDecryptor) : tprog Z :=
  do! (id, announced) := download_open file_id expected_encrypted_size in
  download_e2e_loop usize_bits (upload_fuel announced 0) id announced 0 0 [] d.

Definition download_media_e2e (usize_bits : Z) (file_id : list Z) (expected_encrypted_size : Z) (identity : Identity)
    (peer_public from_id to_id : list Z) : tprog Z :=
  do! d := lift (media_decryptor identity peer_public from_id to_id file_id) in
  download_media_e2e_with_decryptor usize_bits file_id expected_encrypted_size d.

Definition download_media_e2e_with_key (usize_bits : Z) (file_id : list Z) (expected_encrypted_size : Z)
    (media_key file_aad : list Z) : tprog Z :=
  do! d := lift (decryptor_with_key media_key file_aad) in
  download_media_e2e_with_decryptor usize_bits file_id expected_encrypted_size d.

Definition download_group_media `{J : SerdeJson} `{D : Decompressors} (usize_bits : Z) (file_id : list Z)
    (expected_encrypted_size : Z) (identity : Identity) (sender_key sender recipient envelope_json : list Z) : tprog Z :=
  do! d := lift (group_media_decryptor identity sender_key sender recipient envelope_json) in
  download_media_e2e_with_decryptor usize_bits file_id expected_encrypted_size d.
End Transfer.
