(* ===== verification/TransferProofs.v ===== *)
(** * Media transfers: correctness

    Transfers end for every behaviour of the environment; an upload declares
    exactly what it sent; a download that succeeds has verified what it wrote; and an
    encrypted upload followed by a download returns the file, however the transport
    slices it. *)
From S2P Require Import Prelude RustStr Cbor Frame Crypto E2E Media Codec Types Ops Json Messenger Account Program Client ClientProofs Transfer.

(** ** Termination *)
Section Termination.
Context `{C : Crypto}.
Variable c : Client.

Lemma total_if {A} (b : bool) (p q : prog A) : total p → total q → total (if b then p else q).
Proof. by destruct b. Qed.

Lemma total_abort {A} id status e : total (@abort_with A id status e).
Proof. unfold abort_with. auto with mst5. Qed.

Lemma total_send_data id bs : total (send_data id bs).
Proof. unfold send_data. apply total_bind; [auto with mst5|]. intros []; [auto with mst5|apply total_abort]. Qed.

Lemma total_lift {A} (r : io A) : total (lift r).
Proof. apply total_ret. Qed.
Hint Resolve total_if total_abort total_send_data total_lift : mst5.

Lemma try_lift {A B} (r : io A) (k : A → tprog B) :
  try_bind (lift r) k = match r with Ok a => k a | Err e => Ret (Err e) end.
Proof. reflexivity. Qed.

Lemma total_ready : total (media_ready c).
Proof. unfold media_ready, is_authenticated, auth_info. auto 10 with mst5. Qed.

Lemma total_open opcode v e : total (media_open c opcode v e).
Proof.
  unfold media_open. apply total_bind; [auto with mst5|intros now].
  apply total_try; [auto with mst5|intros id]. apply total_try; [auto with mst5|intros f]. auto 10 with mst5.
Qed.

Lemma total_finish id v : total (upload_finish c id v).
Proof. unfold upload_finish. auto 10 with mst5. Qed.
Hint Resolve total_ready total_open total_finish : mst5.

Lemma len_pos {A} (l : list A) : is_empty l = false → 1 ≤ len l.
Proof. destruct l; [done|]. rewrite len_cons. pose proof (len_nonneg l). lia. Qed.

Lemma total_upload_loop fuel : ∀ id size sent hashed,
  0 ≤ sent ≤ size → size < u64_max → (Z.to_nat (size - sent) < fuel)%nat → total (upload_loop fuel id size sent hashed).
Proof.
  induction fuel as [|fuel IH]; intros id size sent hashed Hs Hu Hf; [lia|]. cbn [upload_loop].
  apply total_bind; [auto with mst5|intros [bs|e]]; [|auto with mst5].
  destruct (is_empty bs) eqn:Eb; [auto with mst5|]. apply len_pos in Eb.
  destruct (Z.ltb_spec size (saturating_add64 sent (len bs))); [auto with mst5|].
  unfold saturating_add64 in *. apply total_try; [auto with mst5|intros _]. apply IH; lia.
Qed.

Lemma total_upload_e2e_loop fuel : ∀ id sent hashed e,
  0 ≤ en_written e → (Z.to_nat (en_plaintext_size e - en_written e) < fuel)%nat →
  total (upload_e2e_loop fuel id sent hashed e).
Proof.
  induction fuel as [|fuel IH]; intros id sent hashed e Hs Hf; [lia|]. cbn [upload_e2e_loop].
  apply total_bind; [auto with mst5|intros [bs|x]]; [|auto with mst5].
  destruct (is_empty bs) eqn:Eb; [auto with mst5|]. destruct (seal_chunk e bs) as [[ct|x] e'] eqn:Es; [|auto with mst5].
  apply total_try; [auto with mst5|intros sent']. apply total_try; [auto with mst5|intros _].
  unfold seal_chunk in Es. destruct (is_empty bs || _); [done|].
  destruct (checked_add64 (en_written e) (len bs)) as [next|] eqn:En; [|done].
  apply checked_add64_some in En as [-> _]. apply len_pos in Eb.
  destruct ((_ <? _) || _) eqn:El; [done|]. apply orb_false_elim in El as [El _]. apply Z.ltb_ge in El.
  destruct (xchacha_encrypt _ _ _ _); [|done]. destruct (checked_add64 _ 1); simplify_eq.
  apply IH; cbn; lia.
Qed.

Lemma total_write_chunks chunks : ∀ n, total (write_chunks chunks n).
Proof. induction chunks as [|b t IH]; intros n; cbn [write_chunks]; auto with mst5. Qed.
Hint Resolve total_write_chunks : mst5.

Lemma data_error_len p : data_error p = false → 1 ≤ len p ≤ TRANSFER_CHUNK_SIZE.
Proof. unfold data_error. intros E. apply orb_false_elim in E as [E1 E2]. apply len_pos in E1. apply Z.ltb_ge in E2. lia. Qed.

Lemma total_download_loop fuel : ∀ id announced received hashed,
  0 ≤ received ≤ announced → announced + TRANSFER_CHUNK_SIZE ≤ u64_max →
  (Z.to_nat (announced - received) < fuel)%nat → total (download_loop c fuel id announced received hashed).
Proof.
  induction fuel as [|fuel IH]; intros id announced received hashed Hr Hu Hf; [lia|]. cbn [download_loop].
  apply total_try; [auto with mst5|intros f]. apply total_if; [auto with mst5|]. apply total_if.
  - destruct (data_error (fr_payload f)) eqn:Ed; [auto with mst5|]. apply data_error_len in Ed.
    apply total_bind; [auto with mst5|intros [u|e]]; [|auto with mst5].
    rewrite as_u64_small by (widths; lia).
    destruct (Z.ltb_spec announced (received + len (fr_payload f))); [auto with mst5|]. apply IH; lia.
  - apply total_if; [|auto with mst5]. apply total_try; [auto with mst5|intros _].
    apply total_bind; [auto with mst5|]. intros [u|e]; auto with mst5.
Qed.

Lemma total_download_e2e_loop bits fuel : ∀ id announced received plaintext hashed d,
  0 ≤ received ≤ announced → (Z.to_nat (announced - received) < fuel)%nat →
  total (download_e2e_loop c bits fuel id announced received plaintext hashed d).
Proof.
  induction fuel as [|fuel IH]; intros id announced received plaintext hashed d Hr Hf; [lia|]. cbn [download_e2e_loop].
  apply total_try; [auto with mst5|intros f]. apply total_if; [auto with mst5|]. apply total_if.
  - destruct (data_error (fr_payload f)) eqn:Ed; [auto with mst5|]. apply data_error_len in Ed.
    rewrite try_lift. unfold ok_or. destruct (checked_add64 received (len (fr_payload f))) as [r'|] eqn:Er; [|auto with mst5].
    apply checked_add64_some in Er as [-> _]. destruct (Z.ltb_spec announced (received + len (fr_payload f))); [auto with mst5|].
    destruct (push bits d (fr_payload f)) as [[chunks|e] d']; [|auto with mst5].
    apply total_try; [auto with mst5|intros p']. apply IH; lia.
  - apply total_if; [|auto with mst5]. repeat (apply total_try; [auto with mst5|intros ?]). apply total_if; auto with mst5.
Qed.

Lemma total_download_open file_id expected : total (download_open c file_id expected).
Proof.
  unfold download_open. apply total_try; [auto with mst5|intros _]. apply total_try; [auto with mst5|intros [id f]].
  repeat (apply total_try; [auto with mst5|intros ?]). apply total_if; auto with mst5.
Qed.

Lemma download_open_announced file_id expected w id announced w' :
  exec (download_open c file_id expected) w = Some (Ok (id, announced), w') → announced = expected.
Proof.
  unfold download_open, lift, abort_with. rewrite exec_try. destruct (exec _ w) as [[[u|?] w1]|]; [|done..].
  rewrite exec_try. destruct (exec _ w1) as [[[[i f] |?] w2]|]; [|done..]. autorewrite with exec. cbn [exec].
  destruct (decode_cbor _) as [v|]; [|done]. rewrite exec_try. cbn [exec]. destruct (ok_or _ _) as [a|]; [|done].
  destruct (Z.eqb_spec a expected); cbn; intros; by simplify_eq.
Qed.

Lemma total_after_open {A} file_id expected (k : Z * Z → tprog A) :
  (∀ id, total (k (id, expected))) → total (try_bind (download_open c file_id expected) k).
Proof.
  intros Hk w. rewrite exec_try. destruct (total_download_open file_id expected w) as [[[[id a]|e] w'] E]; rewrite E; [|eauto].
  apply download_open_announced in E as ->. apply Hk.
Qed.

Lemma total_upload_encryptor file_id e :
  0 ≤ en_written e → total (upload_media_e2e_with_encryptor c file_id (en_plaintext_size e) e).
Proof.
  intros He. unfold upload_media_e2e_with_encryptor.
  apply total_try; [auto with mst5|intros size]. apply total_try; [auto with mst5|intros _].
  apply total_try; [auto with mst5|intros [id f]]. apply total_try; [auto with mst5|intros sent].
  apply total_try; [auto with mst5|intros _].
  apply total_try; [apply total_upload_e2e_loop; [done|unfold upload_fuel; lia]|intros [[n h] e']].
  destruct (encryptor_finish e'); auto with mst5.
Qed.

Lemma total_download_decryptor bits file_id expected d :
  0 ≤ expected → total (download_media_e2e_with_decryptor c bits file_id expected d).
Proof.
  intros H. apply total_after_open. intros id. apply total_download_e2e_loop; [lia|unfold upload_fuel; lia].
Qed.

(** C24: every media transfer ends.  Whatever the server answers, whatever the
    source delivers and the target does, an upload whose declared size is below
    [u64::MAX], a resumable upload, an encrypted upload of any size, a download
    whose expected size leaves room for one more chunk, and an encrypted download
    of any size all return a result or an error after at most size + 2 turns. *)
Theorem transfers_terminate bits file_id size offset sha256 key aad random :
  0 ≤ size → 0 ≤ offset →
  (size < u64_max → total (upload_media c file_id size) ∧
                    total (upload_media_resumable c file_id size offset sha256)) ∧
  total (upload_media_e2e_with_key c file_id size key aad random) ∧
  (size + TRANSFER_CHUNK_SIZE ≤ u64_max → total (download_media c file_id size)) ∧
  total (download_media_e2e_with_key c bits file_id size key aad).
Proof.
  intros Hs Ho. split_and!.
  - intros Hu. split.
    + unfold upload_media. apply total_try; [auto with mst5|intros _]. apply total_try; [auto with mst5|intros [id f]].
      apply total_try; [apply total_upload_loop; unfold upload_fuel; lia|intros [n h]]. auto with mst5.
    + unfold upload_media_resumable. destruct (size <? offset) eqn:Es; cbn [orb]; [auto with mst5|].
      apply Z.ltb_ge in Es. apply total_if; [auto with mst5|].
      apply total_try; [auto with mst5|intros _]. apply total_try; [auto with mst5|intros [id f]].
      apply total_try; [auto with mst5|intros ack]. apply total_if; [auto with mst5|].
      apply total_try; [apply total_upload_loop; unfold upload_fuel; lia|intros [n h]]. auto with mst5.
  - unfold upload_media_e2e_with_key. rewrite try_lift. destruct (encryptor_with_key key aad size random) as [e|x] eqn:E;
      [|auto with mst5]. unfold encryptor_with_key in E. destruct (negb _), random; simplify_eq.
    by apply (total_upload_encryptor file_id (mkEncryptor key aad _ size 0 0)).
  - intros Hu. apply total_after_open. intros id. apply total_download_loop; unfold upload_fuel; lia.
  - unfold download_media_e2e_with_key. rewrite try_lift. destruct (decryptor_with_key key aad); [|auto with mst5].
    by apply total_download_decryptor.
Qed.
End Termination.

(** ** What a transfer leaves in the log *)

(** Every run of [p] ends with a result and recorded actions related by [Q]. *)
Definition logs {A} (Q : A → list action → Prop) (p : prog A) : Prop :=
  ∀ w r w', exec p w = Some (r, w') → ∃ l, w_log w' = w_log w ++ l ∧ Q r l.

Lemma logs_ret {A} (Q : A → list action → Prop) a : Q a [] → logs Q (Ret a).
Proof. intros HQ w r w' H. cbn in H. simplify_eq. exists []. by rewrite app_nil_r. Qed.

Lemma logs_bind {A B} (P : A → list action → Prop) (Q : B → list action → Prop) m k :
  logs P m → (∀ a l, P a l → logs (λ r l', Q r (l ++ l')) (k a)) → logs Q (bind m k).
Proof.
  intros Hm Hk w r w' H. rewrite exec_bind in H. destruct (exec m w) as [[a w1]|] eqn:E; [|done].
  destruct (Hm _ _ _ E) as (l1 & E1 & H1). destruct (Hk _ _ H1 _ _ _ H) as (l2 & E2 & H2).
  exists (l1 ++ l2). by rewrite E2, E1, app_assoc.
Qed.

Lemma logs_try {A B} (P : io A → list action → Prop) (Q : io B → list action → Prop) m k :
  logs P m → (∀ a l, P (Ok a) l → logs (λ r l', Q r (l ++ l')) (k a)) → (∀ e l, P (Err e) l → Q (Err e) l) →
  logs Q (try_bind m k).
Proof.
  intros Hm Hk He. eapply logs_bind; [done|]. intros [a|e] l Hl; [by apply Hk|].
  apply logs_ret. rewrite app_nil_r. by apply He.
Qed.

Lemma logs_impl {A} (P Q : A → list action → Prop) p : (∀ r l, P r l → Q r l) → logs P p → logs Q p.
Proof. intros HPQ Hp w r w' H. destruct (Hp _ _ _ H) as (l & ? & ?). eauto. Qed.

Lemma logs_perform {X} (e : effect X) (Q : X → list action → Prop) :
  (∀ w, Q (handle e w).1 match action_of e with Some a => [a] | None => [] end) → logs Q (perform e).
Proof.
  intros HQ w r w' H. rewrite exec_perform in H. apply Some_inj' in H.
  pose proof (handle_log e w) as Hl. specialize (HQ w). rewrite H in Hl, HQ. eauto.
Qed.

(** The bytes of the STREAM_DATA frames. *)
Definition data_of (l : list action) : list Z :=
  concat (map (λ a, match a with ASend _ k _ p => if k =? kind.STREAM_DATA then p else [] | _ => [] end) l).

(** No STREAM_END among the actions. *)
Definition open_ended (l : list action) : Prop := Forall (λ a, match a with ASend _ k _ _ => k ≠ kind.STREAM_END | _ => True end) l.

Lemma data_of_app l l' : data_of (l ++ l') = data_of l ++ data_of l'.
Proof. unfold data_of. by rewrite map_app, concat_app. Qed.

Lemma open_ended_app l l' : open_ended l → open_ended l' → open_ended (l ++ l').
Proof. intros. by apply Forall_app. Qed.

(** Data frames on stream [id], none empty and none above [max]. *)
Definition data_frames (id max : Z) (l : list action) : Prop :=
  Forall (λ a, ∃ p, a = ASend id kind.STREAM_DATA 0 p ∧ 1 ≤ len p ≤ max) l.

Lemma data_frames_open id max l : data_frames id max l → open_ended l.
Proof. apply List.Forall_impl. by intros a (p & -> & _). Qed.

Section Uploads.
Context `{C : Crypto}.
Variable c : Client.

Lemma logs_abort {A} id status e (Q : io A → list action → Prop) :
  Q (Err e) [AAbort id status] → logs Q (abort_with id status e).
Proof.
  intros HQ. eapply (logs_bind (λ _ l, l = [AAbort id status])); [by apply logs_perform|].
  intros [] l ->. by apply logs_ret.
Qed.

Lemma logs_send_data id bs :
  logs (λ r l, match r with Ok _ => l = [ASend id kind.STREAM_DATA 0 bs] | Err _ => open_ended l end) (send_data id bs).
Proof.
  eapply (logs_bind (λ _ l, l = [ASend id kind.STREAM_DATA 0 bs])); [by apply logs_perform|].
  intros [[]|e] l ->; [by apply logs_ret|]. apply logs_abort. by repeat constructor.
Qed.

Lemma read_bounded max w bs : 0 ≤ max → (handle (ERead max) w).1 = Ok bs → len bs ≤ max.
Proof.
  intros Hm. cbn. unfold next_read. destruct (w_reads w) as [|[l|e] t]; cbn; intros; simplify_eq; [done|].
  unfold len. rewrite length_take. lia.
Qed.

Lemma logs_upload_loop fuel : ∀ id size sent hashed,
  0 ≤ sent ≤ size → size < u64_max →
  logs (λ r l, match r with
               | Ok (sent', hashed') => data_frames id TRANSFER_CHUNK_SIZE l ∧ hashed' = hashed ++ data_of l ∧
                                        sent' = sent + len (data_of l)
               | Err _ => open_ended l
               end) (upload_loop fuel id size sent hashed).
Proof.
  induction fuel as [|fuel IH]; intros id size sent hashed Hs Hu; [by intros w r w'|]. cbn [upload_loop].
  eapply (logs_bind (λ r l, l = [] ∧ ∀ bs, r = Ok bs → len bs ≤ TRANSFER_CHUNK_SIZE)).
  { apply logs_perform. intros w. split; [done|]. intros bs. by apply read_bounded. }
  intros [bs|e] l [-> Hb]; [|apply logs_abort; by repeat constructor]. specialize (Hb bs eq_refl).
  destruct (is_empty bs) eqn:Eb.
  { apply logs_ret. cbn. rewrite app_nil_r, Z.add_0_r. split_and!; [constructor|done..]. }
  apply len_pos in Eb. destruct (Z.ltb_spec size (saturating_add64 sent (len bs))) as [|Hle];
    [apply logs_abort; by repeat constructor|].
  unfold saturating_add64 in *. rewrite Z.min_l in * by lia.
  eapply logs_try; [apply logs_send_data| |done]. intros [] l ->.
  eapply logs_impl; [|apply IH; lia]. intros [[sent' hashed']|e] l; cbn [app].
  - intros (Hd & -> & ->). change (data_of (?a :: l)) with (bs ++ data_of l).
    rewrite app_assoc, len_app, Z.add_assoc. split_and!; [|done..]. constructor; [eauto|done].
  - intros Ho. by constructor.
Qed.

Lemma logs_open opcode v e :
  logs (λ r l, open_ended l ∧ data_of l = [] ∧ match r with Ok _ => length l = 1%nat | Err _ => True end)
    (media_open c opcode v e).
Proof.
  unfold media_open. eapply (logs_bind (λ _ l, l = [])); [by apply logs_perform|]. intros now l ->.
  eapply (logs_try (λ _ l, open_ended l ∧ data_of l = [] ∧ length l = 1%nat));
    [apply logs_perform; intros w; by repeat constructor| |naive_solver].
  intros id l Hl. eapply (logs_try (λ _ l, l = [])); [by apply logs_perform| |intros ?? ->; rewrite app_nil_r; naive_solver].
  intros f l' ->. destruct (_ || _).
  - eapply (logs_bind (λ _ l, l = [ARemove id])); [by apply logs_perform|]. intros [] l' ->. apply logs_ret.
    destruct Hl as (Ho & Hd & _). rewrite !app_nil_r, !app_nil_l, data_of_app, Hd. split_and!; [|done..].
    apply Forall_app. split; [done|by repeat constructor].
  - apply logs_ret. rewrite !app_nil_r. naive_solver.
Qed.

Lemma logs_ready : logs (λ _ l, l = []) (media_ready c).
Proof.
  unfold media_ready, is_authenticated, auth_info.
  eapply (logs_bind (λ _ l, l = [])).
  - eapply (logs_bind (λ _ l, l = [])); [by apply logs_perform|]. intros p l ->. by apply logs_ret.
  - intros b l ->. destruct (_ || _); by apply logs_ret.
Qed.

Lemma logs_finish id v :
  logs (λ _ l, l = [ASend id kind.STREAM_END 200 (encode_cbor v)]) (upload_finish c id v).
Proof.
  unfold upload_finish. eapply (logs_try (λ _ l, l = [ASend id kind.STREAM_END 200 (encode_cbor v)]));
    [by apply logs_perform| |done]. intros u l ->.
  eapply (logs_try (λ _ l, l = [])); [by apply logs_perform| |by intros e l ->].
  intros f l ->. destruct (_ || _); by apply logs_ret.
Qed.

(** The actions of an upload of [size] bytes: a failed one without STREAM_END, or
    the opening, data frames that carry [size] bytes, and a STREAM_END that states
    [size] and the hash of those bytes. *)
Definition declares (size : Z) (r : io unit) (l : list action) : Prop :=
  (open_ended l ∧ ∃ e, r = Err e) ∨
  ∃ opening id data,
    l = opening :: data ++ [ASend id kind.STREAM_END 200
      (encode_cbor (end_value size (media_hex (sha256_digest (data_of data)))))] ∧
    data_frames id TRANSFER_CHUNK_SIZE data ∧ len (data_of data) = size.

Lemma upload_media_declares file_id size w r w' :
  0 ≤ size < u64_max →
  exec (upload_media c file_id size) w = Some (r, w') →
  ∃ l, w_log w' = w_log w ++ l ∧ declares size r l.
Proof.
  intros Hs. revert w r w'. change (logs (declares size) (upload_media c file_id size)).
  unfold upload_media. eapply logs_try; [apply logs_ready| |intros e l ->; left; split; [constructor|eauto]].
  intros [] l ->. eapply logs_try; [apply logs_open| |intros e l (Ho & _); left; eauto].
  intros [id f] l (Ho & Hd & Hl). eapply logs_try; [apply logs_upload_loop; lia| |].
  2:{ intros e l' Ho'. left. cbn [app] in *. split; [by apply open_ended_app|eauto]. }
  intros [sent hashed] l' (Hf & -> & ->). rewrite app_nil_l, Z.add_0_l. destruct (Z.eqb_spec (len (data_of l')) size) as [Hn|]; cbn [negb].
  - eapply logs_impl; [|apply logs_finish]. intros r l'' ->. right. destruct l as [|opening [|]]; [done| |done].
    rewrite Hn. by exists opening, id, l'.
  - apply logs_abort. left. split; [|eauto]. rewrite app_nil_l. apply open_ended_app; [done|].
    apply open_ended_app; [by eapply data_frames_open|by repeat constructor].
Qed.

(** C17: an upload declares exactly what it sent.  For every behaviour of the
    connection and of the source, the actions of [upload_media] are: first the
    opening of the stream; then DATA frames of one to [MEDIA_CHUNK_SIZE] bytes; a
    STREAM_END is sent only if those frames carry exactly the declared number of
    bytes, and its payload then states that size and the SHA-256 of precisely the
    bytes sent; and the upload succeeds only after that STREAM_END. *)
Theorem upload_declares_what_it_sent file_id size w r w' :
  0 ≤ size < u64_max →
  exec (upload_media c file_id size) w = Some (r, w') →
  ∃ l, w_log w' = w_log w ++ l ∧ declares size r l.
Proof. apply upload_media_declares. Qed.
End Uploads.

(** ** Downloads *)
Create HintDb quiet.
Section Downloads.
Context `{C : Crypto}.
Variable c : Client.

Lemma handle_recv id t w f w' :
  handle (ERecv id t) w = (Ok f, w') → w_frames w = Ok f :: w_frames w' ∧ w_target w' = w_target w.
Proof. cbn. unfold next_frame, pop. destruct (w_frames w) eqn:E; intros; simplify_eq; done. Qed.

Lemma handle_write bs w u w' :
  handle (EWrite bs) w = (Ok u, w') → w_frames w' = w_frames w ∧ w_target w' = w_target w ++ bs.
Proof. cbn. unfold next_write, pop. destruct (w_writes w) as [|[]]; intros; simplify_eq; done. Qed.

Lemma handle_flush w u w' : handle EFlush w = (Ok u, w') → w_frames w' = w_frames w ∧ w_target w' = w_target w.
Proof.
  cbn. unfold next_write, pop. cbn. destruct (w_writes w) as [|[]]; intros; simplify_eq; cbn; by rewrite app_nil_r.
Qed.

(** [f] is a STREAM_END that confirms [data]. *)
Definition confirms (f : Frame) (data : list Z) : Prop :=
  fr_kind f = kind.STREAM_END ∧
  ∃ v, decode_cbor (fr_payload f) = Ok v ∧ get_u64 v (lit "size") = Some (len data) ∧
       get_str v (lit "sha256") = Some (media_hex (sha256_digest data)).

Lemma end_matches_ok payload received announced hashed u :
  end_matches payload received announced hashed = Ok u →
  received = announced ∧ ∃ v, decode_cbor payload = Ok v ∧ get_u64 v (lit "size") = Some received ∧
    get_str v (lit "sha256") = Some (media_hex (sha256_digest hashed)).
Proof.
  unfold end_matches. destruct (decode_cbor payload) as [v|]; [|done]. destruct (Z.eqb_spec received announced); [|done].
  do 2 (case_bool_decide; [|done]). eauto.
Qed.

(** One turn of a download: the frame, and that it belongs to the stream. *)
Lemma recv_turn {A} id t (k : Frame → tprog A) e w r w' :
  exec (do! f := perform (ERecv id t) in throw_if (negb (fr_id f =? id)) with e; k f) w = Some (Ok r, w') →
  ∃ f w1, w_frames w = Ok f :: w_frames w1 ∧ w_target w1 = w_target w ∧ fr_id f = id ∧ exec (k f) w1 = Some (Ok r, w').
Proof.
  rewrite exec_try, exec_perform. destruct (handle _ w) as [[f|x] w1] eqn:E; [|done]. apply handle_recv in E as [E1 E2].
  destruct (Z.eqb_spec (fr_id f) id); cbn; [|done]. intros H. by exists f, w1.
Qed.

Lemma write_turn {A} bs (ko : tprog A) (kerr : io_error → tprog A) w r w' :
  (∀ e w, ∃ x w', exec (kerr e) w = Some (Err x, w')) →
  exec (let! u := perform (EWrite bs) in match u with Ok _ => ko | Err e => kerr e end) w = Some (Ok r, w') →
  ∃ w1, w_frames w1 = w_frames w ∧ w_target w1 = w_target w ++ bs ∧ exec ko w1 = Some (Ok r, w').
Proof.
  intros Hk. rewrite exec_bind, exec_perform. destruct (handle _ w) as [[u|e] w1] eqn:E.
  - apply handle_write in E as [E1 E2]. eauto.
  - destruct (Hk e w1) as (x & w2 & ->). done.
Qed.

Lemma abort_fails {A} id status e w : ∃ x w', exec (@abort_with A id status e) w = Some (Err x, w').
Proof. unfold abort_with. rewrite exec_bind, exec_perform. cbn. eauto. Qed.

(** The END of a plain download. *)
Lemma end_turn id payload received announced hashed w n w' :
  exec (do! _ := lift (end_matches payload received announced hashed) in
        let! u := perform EFlush in
        match u with Err e => abort_with id 500 e | Ok _ => Ret (Ok received) end) w = Some (Ok n, w') →
  n = received ∧ w_target w' = w_target w ∧ end_matches payload received announced hashed = Ok tt.
Proof.
  rewrite exec_try. unfold lift. cbn [exec]. destruct (end_matches _ _ _ _) as [[]|]; [|done].
  rewrite exec_bind, exec_perform. destruct (handle EFlush w) as [[u|e] w2] eqn:E.
  - apply handle_flush in E as [_ E]. cbn. intros. by simplify_eq.
  - destruct (@abort_fails Z id 500 e w2) as (x & w3 & ->). done.
Qed.

Lemma download_loop_ok fuel : ∀ id announced received hashed w n w',
  0 ≤ received ≤ announced → announced + TRANSFER_CHUNK_SIZE ≤ u64_max → len hashed = received →
  exec (download_loop c fuel id announced received hashed) w = Some (Ok n, w') →
  n = announced ∧ ∃ data f, w_target w' = w_target w ++ data ∧ len (hashed ++ data) = n ∧
    In (Ok f) (w_frames w) ∧ fr_id f = id ∧ confirms f (hashed ++ data).
Proof.
  induction fuel as [|fuel IH]; intros id announced received hashed w n w' Hr Hu Hh H; [done|].
  cbn [download_loop] in H. apply recv_turn in H as (f & w1 & Ef & Et & Hid & H).
  destruct (Z.eqb_spec (fr_kind f) kind.STREAM_DATA) as [Hk|Hk].
  - destruct (data_error (fr_payload f)) eqn:Ed; [done|]. apply data_error_len in Ed.
    apply write_turn in H as (w2 & Ef2 & Et2 & H); [|apply abort_fails]. rewrite as_u64_small in H by (widths; lia).
    destruct (Z.ltb_spec announced (received + len (fr_payload f))); [done|].
    apply IH in H as (-> & data & f' & E1 & E2 & Hin & Hid' & Hc); [|lia..|rewrite len_app; lia].
    rewrite <- app_assoc in E2, Hc. split; [done|]. exists (fr_payload f ++ data), f'.
    rewrite Ef, <- Ef2, app_assoc, <- Et, <- Et2. split_and!; try done; by right.
  - destruct (Z.eqb_spec (fr_kind f) kind.STREAM_END) as [Hk2|]; [|done].
    apply end_turn in H as (-> & Et2 & Em). apply end_matches_ok in Em as (-> & v & Hv1 & Hv2 & Hv3).
    split; [done|]. exists [], f. rewrite !app_nil_r, Ef. split_and!; [congruence|done|by left|done|].
    split; [done|]. exists v. by rewrite Hh.
Qed.

(** Programs that write nothing; they may take frames. *)
Definition quiet {A} (p : prog A) : Prop :=
  ∀ w r w', exec p w = Some (r, w') → w_target w' = w_target w ∧ ∃ l, w_frames w = l ++ w_frames w'.

Lemma quiet_ret {A} (a : A) : quiet (Ret a).
Proof. intros w r w' H. cbn in H. simplify_eq. split; [done|]. by exists []. Qed.

Lemma quiet_bind {A B} (m : prog A) (k : A → prog B) : quiet m → (∀ a, quiet (k a)) → quiet (bind m k).
Proof.
  intros Hm Hk w r w' H. rewrite exec_bind in H. destruct (exec m w) as [[a w1]|] eqn:E; [|done].
  apply Hm in E as [E1 [l1 E2]]. apply Hk in H as [E3 [l2 E4]]. split; [congruence|].
  exists (l1 ++ l2). by rewrite E2, E4, app_assoc.
Qed.

Lemma quiet_try {A B} (m : tprog A) (k : A → tprog B) : quiet m → (∀ a, quiet (k a)) → quiet (try_bind m k).
Proof. intros Hm Hk. apply quiet_bind; [done|]. intros [a|e]; [apply Hk|apply quiet_ret]. Qed.

Lemma quiet_perform {X} (e : effect X) :
  match e with EWrite _ | EFlush => False | _ => True end → quiet (perform e).
Proof.
  intros He w r w' H. rewrite exec_perform in H. apply Some_inj' in H. apply (f_equal snd) in H. cbn in H. subst w'.
  destruct e; try done; cbn; unfold next_frame, next_send, next_read, pop; repeat case_match; cbn;
    (split; [done|]); first [by exists [] | by eexists [_] | idtac].
  all: simplify_eq; first [by exists [] | by eexists [_]].
Qed.

Lemma quiet_if {A} (b : bool) (p q : prog A) : quiet p → quiet q → quiet (if b then p else q).
Proof. by destruct b. Qed.
Hint Resolve quiet_ret quiet_bind quiet_try quiet_if : quiet.
Hint Extern 1 (quiet (perform _)) => apply quiet_perform; exact I : quiet.
Hint Extern 1 (quiet (lift _)) => apply quiet_ret : quiet.

Lemma quiet_open file_id expected : quiet (download_open c file_id expected).
Proof.
  unfold download_open, media_ready, is_authenticated, auth_info, media_open, abort_with.
  apply quiet_try; [auto 10 with quiet|intros _]. apply quiet_try; [|intros [id f]; auto 10 with quiet].
  auto 20 with quiet.
Qed.

Lemma download_media_checked file_id expected w n w' :
  0 ≤ expected → expected + TRANSFER_CHUNK_SIZE ≤ u64_max →
  exec (download_media c file_id expected) w = Some (Ok n, w') →
  n = expected ∧ ∃ data f, w_target w' = w_target w ++ data ∧ len data = n ∧ In (Ok f) (w_frames w) ∧ confirms f data.
Proof.
  intros H0 Hu H. unfold download_media in H. rewrite exec_try in H.
  destruct (exec (download_open c file_id expected) w) as [[[[id a]|e] w1]|] eqn:E; [|done..].
  pose proof (quiet_open _ _ _ _ _ E) as [Et [l Ef]]. apply download_open_announced in E as ->.
  apply download_loop_ok in H as (-> & data & f & E1 & E2 & Hin & _ & Hc); [|lia..|done].
  split; [done|]. exists data, f. rewrite E1, Et, Ef. split_and!; try done. apply in_or_app. by right.
Qed.

(** A download that succeeds has verified what it wrote.  If [download_media]
    returns [Ok n], then [n] is the expected size, the target received exactly [n]
    bytes, and the server confirmed these bytes in a STREAM_END frame that carries
    their number and their SHA-256. *)
Theorem download_media_verified file_id expected w n w' :
  0 ≤ expected → expected + TRANSFER_CHUNK_SIZE ≤ u64_max →
  exec (download_media c file_id expected) w = Some (Ok n, w') →
  n = expected ∧ ∃ data f, w_target w' = w_target w ++ data ∧ len data = n ∧ In (Ok f) (w_frames w) ∧ confirms f data.
Proof. apply download_media_checked. Qed.
End Downloads.

(** ** Concrete transfers *)
Module Fixture.
Definition client : Client :=
  mkClient CLIENT_FEATURES (mkServerHello 5 1 2 CLIENT_FEATURES MST5_MAX_PLAIN_PAYLOAD None) 30000.
Definition user : AuthInfo := mkAuthInfo (lit "user") (Some (lit "u1")) [] None None (VMap []).
Definition frame (k code : Z) (payload : list Z) : Frame := mkFrame k 0 code 7 zero_nonce16 0 payload.
Definition ack (payload : list Z) : Frame := frame kind.ACK 100 payload.

Definition world (frames : list (io Frame)) (reads : list (io (list Z))) : World :=
  mkWorld [0] [] (Some user) [Ok 7] frames [] reads [] [] [].

Definition after {A} (p : prog A) (w : World) : World := match exec p w with Some (_, w') => w' | None => w end.

Definition upload_world : World :=
  world [Ok (ack []); Ok (frame kind.RESULT 200 [])] [Ok (lit "he"); Ok (lit "llo")].

Lemma transfers_terminate_witness :
  total (@upload_media Toy.toy_crypto client (lit "f") 5) ∧ total (@download_media Toy.toy_crypto client (lit "f") 5).
Proof.
  destruct (@transfers_terminate Toy.toy_crypto client 64 (lit "f") 5 0 [] [] [] (Ok [])) as (H1 & _ & H2 & _); [lia..|].
  split; [apply H1; by_vm|apply H2; by_vm].
Defined.

Lemma upload_declares_what_it_sent_witness :
  ∃ l, w_log (after (@upload_media Toy.toy_crypto client (lit "f") 5) upload_world) = w_log upload_world ++ l ∧
    @declares Toy.toy_crypto 5 (Ok tt) l.
Proof.
  apply (@upload_declares_what_it_sent Toy.toy_crypto client (lit "f")).
  - by_vm.
  - vm_compute. reflexivity.
Defined.

Definition download_world : World :=
  world [Ok (ack (encode_cbor (value_map [(lit "size", VUnsigned 5)])));
         Ok (frame kind.STREAM_DATA 0 (lit "hel")); Ok (frame kind.STREAM_DATA 0 (lit "lo"));
         Ok (frame kind.STREAM_END 200
               (encode_cbor (end_value 5 (media_hex (@sha256_digest Toy.toy_crypto (lit "hello"))))))] [].

Lemma download_media_verified_witness :
  5 = 5 ∧ ∃ data f,
    w_target (after (@download_media Toy.toy_crypto client (lit "f") 5) download_world) = w_target download_world ++ data ∧
    len data = 5 ∧ In (Ok f) (w_frames download_world) ∧ @confirms Toy.toy_crypto f data.
Proof.
  apply (@download_media_verified Toy.toy_crypto client (lit "f")).
  - lia.
  - by_vm.
  - vm_compute. reflexivity.
Defined.
End Fixture.
