(* ===== verification/TransferRoundtrip.v ===== *)
(** * Encrypted transfers: a file arrives

    [upload_media_e2e_with_key] followed by [download_media_e2e_with_key], through
    a node that stores the bytes and may cut them into other frames.  Also, what a
    source with short reads does to an encrypted upload. *)
From S2P Require Import Prelude RustStr Cbor Frame Crypto E2E Media Codec Types Ops Json Messenger Account Program Client ClientProofs Transfer TransferProofs.

(** ** The STREAM_END payload *)
Lemma hex02_ascii b : is_u8 b → Forall (λ x, 0 ≤ x < 128) (hex02 b).
Proof.
  intros Hb. unfold hex02, hex_digit. assert (0 ≤ Z.shiftr b 4 < 16 ∧ 0 ≤ Z.land b 15 < 16) as [H1 H2].
  { rewrite Z.shiftr_div_pow2 by lia. change 15 with (Z.ones 4). rewrite Z.land_ones by lia.
    pose proof (Z.mod_pos_bound b (2 ^ 4) ltac:(lia)). unfold is_u8, u8_max in Hb.
    split; [|lia]. split; [apply Z.div_pos; lia|apply Z.div_lt_upper_bound; lia]. }
  repeat constructor; repeat case_match; lia.
Qed.

Lemma media_hex_ascii l : is_bytes l → Forall (λ x, 0 ≤ x < 128) (media_hex l).
Proof.
  intros H. unfold media_hex. induction H as [|b t Hb Ht IH]; [constructor|]. cbn.
  apply (Forall_app _ (hex02 b)). split; [by apply hex02_ascii|done].
Qed.

Lemma media_hex_length l : len (media_hex l) = 2 * len l.
Proof. unfold media_hex. induction l as [|b t IH]; [done|]. cbn [map concat]. rewrite len_app, len_cons, IH. change (len (hex02 b)) with 2. lia. Qed.

Lemma end_value_decodes n hash :
  is_u64 n → is_bytes hash → len hash = 32 →
  decode_cbor (encode_cbor (end_value n (media_hex hash))) = Ok (end_value n (media_hex hash)).
Proof.
  intros Hn Hh Hl. pose proof (media_hex_ascii _ Hh) as Ha. pose proof (media_hex_length hash).
  rewrite cbor_decode_encode; [done|..].
  - cbn [end_value value_map wf_value fold_right fst snd]. split_and!; try done; try apply lit_is_bytes.
    + eapply List.Forall_impl; [|done]. intros x Hx. unfold is_u8, u8_max. cbn in Hx. lia.
    + by apply utf8_valid_ascii.
  - cbn [end_value value_map small_containers fold_right fst snd]. by split_and!.
  - cbn. lia.
  - unfold encode_cbor, end_value, value_map. cbn [encode_cbor_value map concat fst snd]. bound_encoding. widths; lia.
Qed.

(** ** The uploading side *)
Section Upload.
Context `{CL : CryptoLaws}.

(** The source still has [data], in one piece. *)
Definition source_at (data : list Z) (w : World) : Prop :=
  w_reads w = [Ok data] ∨ w_reads w = [] ∧ data = [].

Lemma read_source max data w :
  source_at data w →
  ∃ w', handle (ERead max) w = (Ok (take (Z.to_nat max) data), w') ∧ source_at (drop (Z.to_nat max) data) w' ∧
    w_log w' = w_log w ∧ w_frames w' = w_frames w ∧ w_sends w' = w_sends w.
Proof.
  cbn. unfold next_read. intros [E|[E ->]]; rewrite E.
  - eexists. split; [reflexivity|]. split; [|done]. unfold source_at. destruct (drop _ data) eqn:Ed; cbn; [by right|by left].
  - exists w. rewrite take_nil, drop_nil. split_and!; try done. by right.
Qed.

Lemma send_ok id bs w :
  w_sends w = [] →
  ∃ w', exec (send_data id bs) w = Some (Ok tt, w') ∧ w_log w' = w_log w ++ [ASend id kind.STREAM_DATA 0 bs] ∧
    w_frames w' = w_frames w ∧ w_sends w' = [] ∧ w_reads w' = w_reads w.
Proof.
  intros E. unfold send_data. rewrite exec_bind, exec_perform. cbn. unfold next_send, pop. cbn. rewrite E. cbn. by eexists.
Qed.

Lemma seal_chunk_size e bs out e' :
  seal_chunk e bs = (Ok out, e') → is_bytes bs → is_bytes out ∧ 1 ≤ len out ≤ TRANSFER_CHUNK_SIZE.
Proof.
  unfold seal_chunk, MEDIA_CHUNK_SIZE, TRANSFER_CHUNK_SIZE. intros H Hb.
  destruct (is_empty bs); cbn [orb] in H; [done|]. destruct (Z.ltb_spec (64 * 1024) (len bs)); [done|].
  destruct (checked_add64 _ _); [|done]. destruct (_ || _); [done|].
  destruct (xchacha_encrypt _ _ _ bs) as [ct|] eqn:Ec; [|done].
  destruct (checked_add64 (en_index e) 1); [|done]. assert (out = be_bytes 4 (as_u32 (len ct)) ++ ct) as -> by congruence. apply xchacha_ct in Ec as [H1 H2]; [|done].
  split; [apply is_bytes_app; split; [apply be_bytes_is_bytes|done]|]. rewrite len_app, H2.
  assert (len (be_bytes 4 (as_u32 (len bs + 16))) = 4) as -> by done. pose proof (len_nonneg bs). lia.
Qed.

Lemma chunk_positive : (0 < Z.to_nat MEDIA_CHUNK_SIZE)%nat.
Proof. unfold MEDIA_CHUNK_SIZE. lia. Qed.

Lemma is_bytes_take_drop n l : is_bytes l → is_bytes (take n l) ∧ is_bytes (drop n l).
Proof. intros H. rewrite <- (take_drop n l) in H. by apply is_bytes_app. Qed.

#[local] Opaque Z.to_nat.
Lemma upload_sealed n : ∀ fuel id sent hashed e data body e' w,
  is_bytes data → (length data ≤ n)%nat → (n < fuel)%nat →
  seal_chunks e (chunks_of n data) = (Ok body, e') → sent + len body ≤ u64_max → 0 ≤ sent →
  source_at data w → w_sends w = [] →
  ∃ l w', exec (upload_e2e_loop fuel id sent hashed e) w = Some (Ok (sent + len body, hashed ++ body, e'), w') ∧
    w_log w' = w_log w ++ l ∧ data_frames id TRANSFER_CHUNK_SIZE l ∧ data_of l = body ∧ is_bytes body ∧
    w_frames w' = w_frames w ∧ w_sends w' = [].
Proof.
  induction n as [|n IH]; intros fuel id sent hashed e data body e' w Hb Hn Hf Hs Hm Hp Hr Hw;
    (destruct fuel as [|fuel]; [lia|]); cbn [upload_e2e_loop]; rewrite exec_bind, exec_perform;
    destruct (read_source MEDIA_CHUNK_SIZE data w Hr) as (w1 & -> & Hr1 & El & Efr & Esn);
    destruct data as [|b t]; try (cbn in Hn; lia).
  1,2: rewrite take_nil; cbn in Hs; simplify_eq; exists [], w1; cbn [is_empty exec]; rewrite !app_nil_r, Z.add_0_r;
    split_and!; [done..|constructor|done|constructor|done|congruence].
  cbn [chunks_of seal_chunks] in Hs. pose proof chunk_positive as HK.
  generalize dependent (Z.to_nat MEDIA_CHUNK_SIZE). intros K Hr1 Hs HK.
  destruct (seal_chunk e (take K (b :: t))) as [[out|] e1] eqn:Es; [|done].
  destruct (seal_chunks e1 (chunks_of n (drop K (b :: t)))) as [[outs|] e2] eqn:Ess; [|done]. simplify_eq.
  apply is_bytes_take_drop with (n := K) in Hb as [Hb1 Hb2].
  pose proof (seal_chunk_size _ _ _ _ Es Hb1) as [Hob Hol]. rewrite len_app in Hm. pose proof (len_nonneg outs).
  assert (is_empty (take K (b :: t)) = false) as -> by (destruct K; [lia|done]).
  unfold add_sent. rewrite try_lift, (proj2 (checked_add64_some _ _ _)) by (split; [done|lia]). cbn [ok_or].
  destruct (send_ok id out w1) as (w2 & Ex & El2 & Ef2 & Es2 & Er2); [congruence|]. rewrite exec_try, Ex.
  destruct (IH fuel id (sent + len out) (hashed ++ out) e1 (drop K (b :: t)) outs e' w2)
    as (l & w' & -> & El' & Hd & Hdo & Hbo & Ef' & Es'); try done; try lia.
  { rewrite length_drop. cbn [length] in *. lia. }
  { unfold source_at. by rewrite Er2. }
  exists (ASend id kind.STREAM_DATA 0 out :: l), w'.
  rewrite <- app_assoc, len_app, Z.add_assoc, El', El2, El, <- app_assoc. split_and!; try done; try congruence.
  - constructor; [eauto|done].
  - change (data_of (_ :: l)) with (out ++ data_of l). by rewrite Hdo.
  - by apply is_bytes_app.
Qed.

Variable c : Client.

(** An authenticated client on a connection with media streams. *)
Definition media_session (w : World) : Prop :=
  (∃ i, w_principal w = Some i ∧ ai_principal_type i ≠ lit "anonymous" ∧ ai_principal_type i ≠ lit "unauthenticated") ∧
  Z.land (cl_features c) FEATURE_MEDIA_STREAMS ≠ 0.

Lemma ready_ok w : media_session w → exec (media_ready c) w = Some (Ok tt, w).
Proof.
  intros [(i & Ei & H1 & H2) Hf]. unfold media_ready, is_authenticated, auth_info. autorewrite with exec. cbn. rewrite Ei.
  unfold beq. rewrite !bool_decide_eq_false_2 by done. cbn. by zbool.
Qed.

(** The node grants stream [id] and accepts: [ack], then [later]. *)
Definition grants (id : Z) (later : list (io Frame)) (ack : Frame) (w : World) : Prop :=
  (∃ rest, w_begins w = Ok id :: rest) ∧ w_frames w = Ok ack :: later ∧
  fr_id ack = id ∧ fr_kind ack = kind.ACK ∧ fr_code ack = 100.

Lemma open_ok opcode v e id later ack w :
  grants id later ack w →
  ∃ w' opening, exec (media_open c opcode v e) w = Some (Ok (id, ack), w') ∧ w_log w' = w_log w ++ [opening] ∧
    (open_ended [opening] ∧ data_of [opening] = []) ∧ w_frames w' = later ∧ w_sends w' = w_sends w ∧ w_reads w' = w_reads w ∧ w_writes w' = w_writes w ∧ w_target w' = w_target w.
Proof.
  intros ([rest Eb] & Ef & E1 & E2 & E3). unfold media_open. rewrite exec_bind, exec_perform.
  destruct (handle ENow w) as [now w1] eqn:En. 
  assert (w_begins w1 = w_begins w ∧ w_frames w1 = w_frames w ∧ w_log w1 = w_log w ∧ w_sends w1 = w_sends w ∧
    w_reads w1 = w_reads w ∧ w_writes w1 = w_writes w ∧ w_target w1 = w_target w) as (Eb1 & Ef1 & El1 & Es1 & Er1 & Ew1 & Et1).
  { cbn in En. destruct (w_clock w) as [|? [|]]; by simplify_eq. }
  rewrite exec_try, exec_perform. cbn. rewrite Eb1, Eb. cbn. unfold next_frame, pop. cbn. rewrite Ef1, Ef. cbn.
  rewrite E1, E2, E3, Z.eqb_refl. cbn. do 2 eexists. split; [done|]. cbn. rewrite El1. by repeat constructor.
Qed.

Lemma finish_ok id v result later w :
  w_sends w = [] → w_frames w = Ok result :: later → fr_kind result = kind.RESULT → fr_code result = 200 →
  ∃ w', exec (upload_finish c id v) w = Some (Ok tt, w') ∧ w_log w' = w_log w ++ [ASend id kind.STREAM_END 200 (encode_cbor v)].
Proof.
  intros Es Ef E1 E2. unfold upload_finish. rewrite exec_try, exec_perform. cbn. unfold next_send, pop. cbn. rewrite Es. cbn.
  unfold next_frame, pop. cbn. rewrite Ef. cbn. rewrite E1, E2. cbn. by eexists.
Qed.

Lemma upload_ok file_id data e e' body id ack result w :
  is_bytes data → seal_chunks e (file_chunks data) = (Ok body, e') → encryptor_finish e' = Ok tt →
  en_written e = 0 → length (en_nonce_prefix e) = 16%nat →
  encrypted_media_size (len data) = Ok (len (encryptor_header e ++ body)) → len (encryptor_header e ++ body) ≤ u64_max →
  media_session w → grants id [Ok result] ack w → fr_kind result = kind.RESULT → fr_code result = 200 →
  w_sends w = [] → w_reads w = [Ok data] →
  ∃ w' opening l, exec (upload_media_e2e_with_encryptor c file_id (len data) e) w = Some (Ok tt, w') ∧
    w_log w' = w_log w ++ opening :: l ++ [ASend id kind.STREAM_END 200
      (encode_cbor (end_value (len (data_of l)) (media_hex (sha256_digest (data_of l)))))] ∧
    (open_ended [opening] ∧ data_of [opening] = []) ∧
    data_frames id TRANSFER_CHUNK_SIZE l ∧ data_of l = encryptor_header e ++ body ∧ is_bytes body.
Proof.
  intros Hb Hs Hfin Hw0 Hnp Hsize Hmax Hm Hg Hk Hc Hsn Hr. unfold upload_media_e2e_with_encryptor.
  rewrite try_lift, Hsize, exec_try, (ready_ok w Hm), exec_try.
  destruct (open_ok media_op.UPLOAD (value_map [(lit "file_id", VText file_id);
    (lit "size", VUnsigned (len (encryptor_header e ++ body)))]) upload_rejected _ _ _ _ Hg)
    as (w1 & opening & -> & El1 & Hop & Ef1 & Es1 & Er1 & _).
  assert (len (encryptor_header e) = 32) as Hh by (unfold encryptor_header, media_header; autorewrite with len; unfold len; by rewrite Hnp).
  unfold add_sent. rewrite try_lift, Hh. change (checked_add64 0 32) with (Some 32). cbn [ok_or].
  destruct (send_ok id (encryptor_header e) w1) as (w2 & Ex & El2 & Ef2 & Es2 & Er2); [congruence|]. rewrite exec_try, Ex.
  rewrite len_app, Hh in Hmax. rewrite len_app, Hh in Hsize. 
  destruct (upload_sealed (length data) (upload_fuel (len data) (en_written e)) id 32 (encryptor_header e) e data body e' w2)
    as (l & w3 & Ex3 & El3 & Hd & Hdo & Hbo & Ef3 & Es3); try done.
  { unfold upload_fuel, len. rewrite Hw0. lia. }
  { left. congruence. }
  rewrite exec_try, Ex3, Hfin, len_app, Hh, Z.eqb_refl. cbn [negb].
  destruct (finish_ok id (end_value (32 + len body) (media_hex (sha256_digest (encryptor_header e ++ body)))) result [] w3)
    as (w4 & Ex4 & El4); [done|congruence|done..|].
  exists w4, opening, (ASend id kind.STREAM_DATA 0 (encryptor_header e) :: l).
  change (data_of (_ :: l)) with (encryptor_header e ++ data_of l). rewrite Hdo, len_app, Hh.
  split; [done|]. split; [|split; [done|split; [|done]]].
  - by rewrite El4, El3, El2, El1, <- !app_assoc.
  - constructor; [|done]. eexists. split; [done|]. rewrite Hh. unfold TRANSFER_CHUNK_SIZE. lia.
Qed.
End Upload.

(** ** The downloading side *)
Section Download.
Context `{CL : CryptoLaws}.
Variable c : Client.

Lemma write_chunks_ok chunks : ∀ n w,
  w_writes w = [] →
  ∃ w', exec (write_chunks chunks n) w = Some (Ok (n + len (concat chunks)), w') ∧
    w_target w' = w_target w ++ concat chunks ∧ w_writes w' = [] ∧ w_frames w' = w_frames w.
Proof.
  induction chunks as [|b t IH]; intros n w Hw; cbn [write_chunks concat].
  - exists w. cbn. by rewrite app_nil_r, Z.add_0_r.
  - rewrite exec_try, exec_perform. cbn [handle]. unfold next_write, pop. rewrite Hw.
    destruct (IH (n + len b) (set_writes [] (w_target w ++ b) w)) as (w' & -> & Et & Ew & Ef); [done|].
    exists w'. rewrite len_app, Z.add_assoc, Et, app_assoc. done.
Qed.

(** The frames [fs] are data frames on [id] with payloads [parts]. *)
Definition carries (id : Z) (parts : list (list Z)) (fs : list (io Frame)) : Prop :=
  Forall2 (λ p x, ∃ f, x = Ok f ∧ fr_id f = id ∧ fr_kind f = kind.STREAM_DATA ∧ fr_payload f = p) parts fs.

Lemma data_turn bits fuel f rest announced received plaintext hashed d chunks d1 w :
  w_frames w = Ok f :: rest → w_writes w = [] → fr_kind f = kind.STREAM_DATA →
  1 ≤ len (fr_payload f) ≤ TRANSFER_CHUNK_SIZE → 0 ≤ received → received + len (fr_payload f) ≤ announced → announced ≤ u64_max →
  push bits d (fr_payload f) = (Ok chunks, d1) →
  ∃ w', exec (download_e2e_loop c bits (S fuel) (fr_id f) announced received plaintext hashed d) w =
        exec (download_e2e_loop c bits fuel (fr_id f) announced (received + len (fr_payload f))
                (plaintext + len (concat chunks)) (hashed ++ fr_payload f) d1) w' ∧
    w_target w' = w_target w ++ concat chunks ∧ w_writes w' = [] ∧ w_frames w' = rest.
Proof.
  intros Ef Hw Hk Hl Hr Ha Hm Hpush. cbn [download_e2e_loop]. rewrite exec_try, exec_perform. cbn [handle].
  unfold next_frame, pop. rewrite Ef, Z.eqb_refl, Hk. cbn [negb]. change (kind.STREAM_DATA =? kind.STREAM_DATA) with true.
  assert (data_error (fr_payload f) = false) as ->.
  { unfold data_error. destruct (fr_payload f) eqn:E; [rewrite (@len_nil Z) in Hl; lia|]. by zbool. }
  rewrite try_lift, (proj2 (checked_add64_some _ _ _)) by (split; [done|lia]). cbn [ok_or]. zbool. rewrite Hpush, exec_try.
  destruct (write_chunks_ok chunks plaintext (set_frames rest w)) as (w' & -> & Et & Ew & Ef'); [done|]. by exists w'.
Qed.

Lemma end_turn_ok bits fuel f announced plaintext hashed d w :
  w_frames w = [Ok f] → w_writes w = [] → fr_kind f = kind.STREAM_END →
  end_matches (fr_payload f) announced announced hashed = Ok tt → decryptor_finish d = Ok plaintext →
  ∃ w', exec (download_e2e_loop c bits (S fuel) (fr_id f) announced announced plaintext hashed d) w = Some (Ok plaintext, w') ∧
    w_target w' = w_target w.
Proof.
  intros Ef Hw Hk Hend Hfin. cbn [download_e2e_loop]. rewrite exec_try, exec_perform. cbn [handle].
  unfold next_frame, pop. rewrite Ef, Z.eqb_refl, Hk. cbn [negb].
  change (kind.STREAM_END =? kind.STREAM_DATA) with false. change (kind.STREAM_END =? kind.STREAM_END) with true. cbv iota.
  rewrite try_lift, Hend, try_lift, Hfin, Z.eqb_refl. cbn [negb]. rewrite exec_try, exec_perform. cbn. unfold next_write, pop.
  cbn. rewrite Hw. eexists. split; [done|]. cbn. by rewrite app_nil_r.
Qed.

Lemma download_pushed bits parts : ∀ fuel announced received plaintext hashed d chunks d' fs endf w,
  Forall (λ p, 1 ≤ len p ≤ TRANSFER_CHUNK_SIZE) parts → carries (fr_id endf) parts fs →
  w_frames w = fs ++ [Ok endf] → w_writes w = [] → (length parts < fuel)%nat →
  push_all bits d parts = (Ok chunks, d') → decryptor_finish d' = Ok (plaintext + len (concat chunks)) →
  0 ≤ received → received + len (concat parts) = announced → announced ≤ u64_max → fr_kind endf = kind.STREAM_END →
  end_matches (fr_payload endf) announced announced (hashed ++ concat parts) = Ok tt →
  ∃ w', exec (download_e2e_loop c bits fuel (fr_id endf) announced received plaintext hashed d) w
        = Some (Ok (plaintext + len (concat chunks)), w') ∧ w_target w' = w_target w ++ concat chunks.
Proof.
  induction parts as [|p t IH]; intros fuel announced received plaintext hashed d chunks d' fs endf w
    Hp Hc Ef Hw Hf Hpush Hfin Hr Ha Hm Ek Hend; (destruct fuel as [|fuel]; [cbn in Hf; lia|]).
  - apply Forall2_nil_inv_l in Hc as ->. cbn in Hpush. simplify_eq. cbn [concat app] in *. change (len []) with 0 in *.
    rewrite app_nil_r in Hend |- *. rewrite Z.add_0_r in *. rewrite Z.add_0_r. by apply end_turn_ok.
  - apply Forall2_cons_inv_l in Hc as (x & fs' & (f & -> & Ei & Hk & <-) & Hc & ->). apply Forall_cons_1 in Hp as [Hp Hpt].
    cbn [push_all concat] in *. rewrite len_app in Ha. pose proof (len_nonneg (concat t)).
    destruct (push bits d (fr_payload f)) as [[out|] d1] eqn:E1; [|done].
    destruct (push_all bits d1 t) as [[outs|] d2] eqn:E2; [|done]. simplify_eq.
    rewrite concat_app, len_app, (Z.add_assoc plaintext) in Hfin |- *. rewrite <- Ei.
    destruct (data_turn bits fuel f (fs' ++ [Ok endf]) (received + (len (fr_payload f) + len (concat t))) received plaintext
      hashed d out d1 w) as (w1 & -> & Et & Ew & Ef1); try done; try lia.
    rewrite Ei. destruct (IH fuel (received + (len (fr_payload f) + len (concat t))) (received + len (fr_payload f))
      (plaintext + len (concat out)) (hashed ++ fr_payload f) d1 outs d' fs' endf w1) as (w' & -> & Et'); try done; try lia.
    { cbn in Hf. lia. }
    { by rewrite <- app_assoc. }
    exists w'. by rewrite Et', Et, app_assoc.
Qed.

Lemma parts_count (parts : list (list Z)) : Forall (λ p, 1 ≤ len p ≤ TRANSFER_CHUNK_SIZE) parts → len parts ≤ len (concat parts).
Proof. induction 1; [done|]. cbn [concat]. rewrite len_app, len_cons. lia. Qed.

(** The node announces [size] bytes and serves [parts], then [endf]. *)
Definition serves (id size : Z) (parts : list (list Z)) (endf : Frame) (w : World) : Prop :=
  ∃ ack fs meta, grants id (fs ++ [Ok endf]) ack w ∧ decode_cbor (fr_payload ack) = Ok meta ∧
    get_u64 meta (lit "size") = Some size ∧ carries id parts fs ∧
    fr_id endf = id ∧ fr_kind endf = kind.STREAM_END.

Lemma download_ok bits file_id parts d chunks d' n id endf w :
  Forall (λ p, 1 ≤ len p ≤ TRANSFER_CHUNK_SIZE) parts → push_all bits d parts = (Ok chunks, d') →
  decryptor_finish d' = Ok n → len (concat chunks) = n → len (concat parts) ≤ u64_max →
  media_session c w → serves id (len (concat parts)) parts endf w → w_writes w = [] →
  end_matches (fr_payload endf) (len (concat parts)) (len (concat parts)) (concat parts) = Ok tt →
  ∃ w', exec (download_media_e2e_with_decryptor c bits file_id (len (concat parts)) d) w = Some (Ok n, w') ∧
    w_target w' = w_target w ++ concat chunks.
Proof.
  intros Hp Hpush Hfin Hn Hm Hs (ack & fs & meta & Hg & Hmeta & Hsize & Hc & <- & Ek) Hw Hend.
  unfold download_media_e2e_with_decryptor, download_open. rewrite exec_try, exec_try, (ready_ok c w Hs), exec_try.
  destruct (open_ok c media_op.DOWNLOAD (value_map [(lit "file_id", VText file_id)]) download_rejected _ _ _ _ Hg)
    as (w1 & opening & -> & _ & _ & Ef1 & _ & _ & Ew1 & Et1).
  rewrite try_lift, Hmeta, try_lift, Hsize. cbn [ok_or]. rewrite Z.eqb_refl. cbn [negb exec].
  destruct (download_pushed bits parts (upload_fuel (len (concat parts)) 0) (len (concat parts)) 0 0 [] d chunks d' fs endf w1)
    as (w' & -> & Et); try done; try congruence.
  - pose proof (parts_count _ Hp). unfold upload_fuel. unfold len in *. lia.
  - by rewrite Hn.
  - exists w'. rewrite Hn, Et, Et1. done.
Qed.
End Download.

(** ** The round trip *)
Section Roundtrip.
Context `{CL : CryptoLaws}.

Lemma encrypted_size_fits n m : encrypted_media_size n = Ok m → m ≤ u64_max.
Proof.
  unfold encrypted_media_size, ok_or. intros H. destruct (match checked_mul64 _ _ with Some _ => _ | None => _ end) as [o|]; [|done].
  destruct (checked_add64 n o) as [x|] eqn:E; [|done]. apply checked_add64_some in E. simplify_eq. lia.
Qed.

(** The only STREAM_END of an upload. *)
Lemma end_unique opening l id id' id'' max code p code' p' :
  open_ended [opening] → data_frames id max l →
  In (ASend id' kind.STREAM_END code p) (opening :: l ++ [ASend id'' kind.STREAM_END code' p']) → p = p'.
Proof.
  intros Ho Hd [->|[H|[H|[]]]%in_app_or]; [by inversion Ho| |by simplify_eq].
  apply data_frames_open in Hd. unfold open_ended in Hd. rewrite List.Forall_forall in Hd. by apply Hd in H.
Qed.

(** C2: an encrypted file arrives.  When the node grants the stream and confirms,
    [upload_media_e2e_with_key] of a file read in full chunks succeeds; and whoever
    later downloads the bytes it sent, cut into any frames of one to
    [MEDIA_CHUNK_SIZE] bytes and closed with the uploader's STREAM_END, with the
    same key and associated data, succeeds, is told the size of the file, and has
    exactly the file appended to the target. *)
Theorem e2e_transfer_roundtrip c bits file_id key aad np data id ack result w :
  key32 key → length np = 16%nat → is_bytes np → is_bytes data → len data < 2 ^ bits → len data < 2 ^ 63 →
  media_session c w → grants id [Ok result] ack w → fr_kind result = kind.RESULT → fr_code result = 200 →
  w_sends w = [] → w_reads w = [Ok data] →
  ∃ w' l, exec (upload_media_e2e_with_key c file_id (len data) key aad (Ok np)) w = Some (Ok tt, w') ∧
    w_log w' = w_log w ++ l ∧
    ∀ c' id' parts endf v,
      concat parts = data_of l → Forall (λ p, 1 ≤ len p ≤ TRANSFER_CHUNK_SIZE) parts →
      In (ASend id kind.STREAM_END 200 (fr_payload endf)) l →
      media_session c' v → serves id' (len (data_of l)) parts endf v → w_writes v = [] →
      ∃ v', exec (download_media_e2e_with_key c' bits file_id (len (data_of l)) key aad) v = Some (Ok (len data), v') ∧
        w_target v' = w_target v ++ data.
Proof.
  intros Hk Hn Hnb Hb Hbits Hmax Hm Hg Hrk Hrc Hsn Hr.
  pose proof (λ parts, media_roundtrip_core bits key aad np data parts Hk Hn Hnb Hb Hbits Hmax) as Hcore.
  destruct (Hcore []) as (e & d & e' & body & He & Hd & Hs & Hf & Hsize & _).
  assert (en_written e = 0 ∧ length (en_nonce_prefix e) = 16%nat ∧ is_bytes (encryptor_header e)) as (Hw0 & Hnp & Hhb).
  { unfold encryptor_with_key in He. destruct (negb _); [done|]. simplify_eq. split_and!; [done..|by apply media_header_bytes]. }
  pose proof (encrypted_size_fits _ _ Hsize) as Hfit.
  destruct (upload_ok c file_id data e e' body id ack result w) as (w' & opening & l & Hex & Hl & [Ho Hod] & Hdf & Hdl & Hbb); try done.
  unfold upload_media_e2e_with_key. rewrite try_lift, He. exists w', (opening :: l ++ [ASend id kind.STREAM_END 200
      (encode_cbor (end_value (len (data_of l)) (media_hex (sha256_digest (data_of l)))))]). split_and!; [done..|].
  assert (data_of (opening :: l ++ [ASend id kind.STREAM_END 200
      (encode_cbor (end_value (len (data_of l)) (media_hex (sha256_digest (data_of l)))))]) = data_of l) as ->.
  { change (opening :: ?x) with ([opening] ++ x). rewrite !data_of_app, Hod. cbn. by rewrite app_nil_r. }
  intros c' id' parts endf v Hp Hps Hin Hm' Hsv Hwv. apply (end_unique _ _ id _ _ TRANSFER_CHUNK_SIZE) in Hin; [|done..].
  destruct (Hcore parts) as (e0 & d0 & e0' & body0 & He0 & Hd0 & Hs0 & _ & _ & Hpush).
  rewrite He in He0. rewrite Hd in Hd0. simplify_eq.
  destruct Hpush as (d' & Hpush & Hfin & Hcat); [congruence|].
  unfold download_media_e2e_with_key. rewrite try_lift, Hd. rewrite <- Hp in Hsv, Hin |- *.
  destruct (download_ok c' bits file_id parts d0 (file_chunks data) d' (len data) id' endf v) as (v' & -> & Et); try done.
  { by rewrite Hcat. } { rewrite Hp, Hdl. done. }
  { unfold end_matches. rewrite Hin.
    assert (is_bytes (concat parts)) as Hcb by (rewrite Hp, Hdl; by apply is_bytes_app).
    destruct (sha256_key32 _ Hcb) as [Hsb Hsl].
    rewrite end_value_decodes; [|split; [apply len_nonneg|rewrite Hp, Hdl; done]|done|unfold len; by rewrite Hsl].
    rewrite Z.eqb_refl. cbn. by rewrite !bool_decide_eq_true_2. }
  exists v'. by rewrite Et, Hcat.
Qed.

Lemma short_take (a : list Z) : len a < MEDIA_CHUNK_SIZE → take (Z.to_nat MEDIA_CHUNK_SIZE) a = a.
Proof. intros H. apply take_ge. unfold len in H. lia. Qed.

(** A chunk that is short and not the last is refused. *)
Lemma short_seal e a :
  a ≠ [] → 0 ≤ en_written e → len a < MEDIA_CHUNK_SIZE → en_written e + len a < en_plaintext_size e →
  en_written e + len a ≤ u64_max →
  seal_chunk e a = (Err (invalid (lit "E2E media chunks do not match declared size")), e).
Proof.
  intros Ha H0 Hl Hs Hu. unfold seal_chunk. destruct a as [|x a]; [done|]. cbn [is_empty orb].
  rewrite (proj2 (checked_add64_some _ _ _)) by (split; [done|lia]). by zbool.
Qed.

(** An encrypted upload depends on how the source splits its reads.  If the
    first [read] returns fewer bytes than a chunk although the file goes on, which
    [AsyncRead] allows and the plain upload accepts, the upload of a file whose
    size was declared correctly fails, after the header was already sent. *)
Theorem e2e_upload_short_read c file_id key aad np a b size id ack result w :
  key32 key → length np = 16%nat → a ≠ [] → b ≠ [] → len a < MEDIA_CHUNK_SIZE → encrypted_media_size (len (a ++ b)) = Ok size →
  media_session c w → grants id [Ok result] ack w → w_sends w = [] → w_reads w = [Ok a; Ok b] →
  ∃ w' opening, exec (upload_media_e2e_with_key c file_id (len (a ++ b)) key aad (Ok np)) w =
      Some (Err (invalid (lit "E2E media chunks do not match declared size")), w') ∧
    w_log w' = w_log w ++ [opening; ASend id kind.STREAM_DATA 0 (media_header (len (a ++ b)) np)].
Proof.
  intros [_ Hk] Hn Ha Hb Hl Hsize Hm Hg Hsn Hr. unfold upload_media_e2e_with_key, encryptor_with_key.
  assert (len key =? 32 = true) as -> by (unfold len; by rewrite Hk). cbn [negb]. rewrite try_lift.
  unfold upload_media_e2e_with_encryptor. rewrite try_lift, Hsize, exec_try, (ready_ok c w Hm), exec_try.
  destruct (open_ok c media_op.UPLOAD (value_map [(lit "file_id", VText file_id); (lit "size", VUnsigned size)])
    upload_rejected _ _ _ _ Hg) as (w1 & opening & -> & El1 & _ & _ & Es1 & Er1 & _).
  set (e := mkEncryptor key aad np (len (a ++ b)) 0 0).
  assert (len (encryptor_header e) = 32) as Hh by (unfold encryptor_header, media_header; autorewrite with len; unfold len; cbn; by rewrite Hn).
  unfold add_sent. rewrite try_lift, Hh. change (checked_add64 0 32) with (Some 32). cbn [ok_or].
  destruct (send_ok id (encryptor_header e) w1) as (w2 & Ex & El2 & _ & _ & Er2); [congruence|]. rewrite exec_try, Ex.
  unfold upload_fuel. cbn [upload_e2e_loop]. rewrite exec_try, exec_bind, exec_perform. cbn [handle]. unfold next_read.
  rewrite Er2, Er1, Hr, short_take by done. destruct a as [|x a]; [done|]. cbn [is_empty].
  assert (1 ≤ len b) as Hb1 by (destruct b; [done|]; rewrite len_cons; pose proof (len_nonneg b); lia).
  rewrite (short_seal e (x :: a)); [|done|done|done|cbn [e en_written en_plaintext_size]; rewrite len_app; lia|unfold MEDIA_CHUNK_SIZE in Hl; cbn [e en_written]; widths; lia].
  cbn. eexists _, opening. split; [done|]. cbn. by rewrite El2, El1, <- app_assoc.
Qed.
End Roundtrip.

(** ** A concrete transfer *)
Module TransferFixture.
Import TransferProofs.Fixture.

Definition source_world (reads : list (io (list Z))) : World :=
  world [Ok (ack []); Ok (frame kind.RESULT 200 [])] reads.

Definition upload : tprog unit :=
  @upload_media_e2e_with_key Toy.toy_crypto client (lit "f") 5 sample_key [] (Ok sample_prefix).

Definition sent : list action := w_log (after upload (source_world [Ok (lit "hello")])).

Definition end_frame : Frame :=
  frame kind.STREAM_END 200 match list.last sent with Some (ASend _ _ _ p) => p | _ => [] end.

Definition stored_world : World :=
  world (Ok (ack (encode_cbor (value_map [(lit "size", VUnsigned (len sample_container))])))
         :: map (λ p, Ok (frame kind.STREAM_DATA 0 p)) sample_parts ++ [Ok end_frame]) [].

Lemma session reads frames : media_session client (world frames reads).
Proof. split; [|by_vm]. exists user. split; [reflexivity|split; by_vm]. Qed.

Lemma granted frames reads a later : frames = Ok a :: later → fr_id a = 7 → fr_kind a = kind.ACK → fr_code a = 100 →
  grants 7 later a (world frames reads).
Proof. intros -> ???. split_and!; try done. by exists []. Qed.

Lemma e2e_transfer_roundtrip_witness :
  ∃ v', exec (@download_media_e2e_with_key Toy.toy_crypto client 64 (lit "f") (len (data_of sent)) sample_key []) stored_world
        = Some (Ok 5, v') ∧ w_target v' = w_target stored_world ++ lit "hello".
Proof.
  destruct (@e2e_transfer_roundtrip Toy.toy_crypto Toy.toy_laws client 64 (lit "f") sample_key [] sample_prefix (lit "hello") 7
    (ack []) (frame kind.RESULT 200 []) (source_world [Ok (lit "hello")])) as (w' & l & Hex & Hlog & Hdown).
  all: try reflexivity.
  - by_vm.
  - by_vm.
  - by_vm.
  - apply session.
  - by apply granted.
  - assert (l = sent) as ->.
    { change l with (w_log (source_world [Ok (lit "hello")]) ++ l). rewrite <- Hlog. unfold sent, after, upload.
      change 5 with (len (lit "hello")). by rewrite Hex. }
    apply (Hdown client 7 sample_parts end_frame stored_world).
    + vm_compute. reflexivity.
    + repeat (apply list.Forall_cons; split; [split; vm_compute; congruence|]). constructor.
    + right. right. right. left. vm_compute. reflexivity.
    + apply session.
    + exists (ack (encode_cbor (value_map [(lit "size", VUnsigned (len sample_container))]))),
        (map (λ p, Ok (frame kind.STREAM_DATA 0 p)) sample_parts), (value_map [(lit "size", VUnsigned (len sample_container))]).
      split_and!; [by apply granted|vm_compute; reflexivity|vm_compute; reflexivity| |reflexivity|reflexivity].
      unfold carries, sample_parts. cbn [map]. do 3 (constructor; [by eexists|]). constructor.
    + reflexivity.
Defined.

Lemma e2e_upload_short_read_witness :
  ∃ w' opening, exec upload (source_world [Ok (lit "he"); Ok (lit "llo")]) =
      Some (Err (invalid (lit "E2E media chunks do not match declared size")), w') ∧
    w_log w' = [] ++ [opening; ASend 7 kind.STREAM_DATA 0 (media_header 5 sample_prefix)].
Proof.
  apply (@e2e_upload_short_read Toy.toy_crypto client (lit "f") sample_key [] sample_prefix (lit "he") (lit "llo") 57 7
    (ack []) (frame kind.RESULT 200 []) (source_world [Ok (lit "he"); Ok (lit "llo")])).
  all: try reflexivity.
  - by_vm.
  - done.
  - done.
  - apply session.
  - by apply granted.
Defined.
End TransferFixture.
