(* ===== verification/M5oh.v ===== *)
(** * MST5 over HTTP (src/src/m5oh.rs)

    The HTTP/1.1 client of the M5oH transport: the head of a request, the parser of
    responses, the lookup of the default node, and the two loops of the bridge.  A
    connection is a [Stream] of the record layer (TCP or TLS, whatever
    [HttpStream] holds); [connect] is the list of connections the environment will
    grant.  The tasks of the bridge are step functions, one step per turn of their
    loops, under an arbitrary schedule; they share nothing but the moment one of
    them returns.  [ht_attempts] is a history, read by theorems only. *)
From S2P Require Import Prelude RustStr Codec Record Endpoint.

Definition MAX_HTTP_HEAD : Z := 64 * 1024.
Definition MAX_HTTP_BODY : Z := 8 * 1024 * 1024.
Definition crlf : list Z := [13; 10].

Definition http_error (message : list Z) : io_error := IoError InvalidData message.

(** ** Responses *)
Record HttpResponse := mkResponse_ {
  hr_status : Z;
  hr_headers : gmap (list Z) (list Z);
  hr_body : list Z
}.

(** [read_until(b'\n')]: the bytes up to and with the first newline. *)
Fixpoint until_newline (l : list Z) : list Z * list Z :=
  match l with
  | [] => ([], [])
  | b :: t => if b =? 10 then ([b], t) else let '(x, y) := until_newline t in (b :: x, y)
  end.

Definition ends_with_crlf (bytes : list Z) : bool :=
  (2 <=? length bytes)%nat && beq (drop (length bytes - 2) bytes) crlf.

Definition read_line (reader : Stream) : io (option (list Z) * Stream) :=
  let? s := io_call reader in
  let '(bytes, rest) := until_newline (s_in s) in
  let reader := mkStream rest (s_out s) (s_faults s) in
  if is_empty bytes then Ok (None, reader)
  else
    fail_if ((MAX_HTTP_HEAD <? len bytes) || negb (ends_with_crlf bytes))
      with http_error (lit "invalid M5oH HTTP line");
    let line := take (length bytes - 2) bytes in
    fail_if (negb (utf8_valid line)) with http_error (lit "M5oH HTTP header is not UTF-8");
    Ok (Some line, reader).

(** The loop over the header lines.  A line has at least two bytes, so the
    stream bounds the number of turns. *)
Fixpoint read_headers (fuel : nat) (total : Z) (headers : gmap (list Z) (list Z)) (reader : Stream)
  : io (gmap (list Z) (list Z) * Stream) :=
  match fuel with
  | O => Err (IoError UnexpectedEof (lit "M5oH HTTP headers truncated"))
  | S fuel =>
      let? (line, reader) := read_line reader in
      let? line := ok_or line (IoError UnexpectedEof (lit "M5oH HTTP headers truncated")) in
      let total := total + len line in
      fail_if (MAX_HTTP_HEAD <? total) with http_error (lit "M5oH HTTP headers too large");
      if is_empty line then Ok (headers, reader)
      else
        let? (name, value) := ok_or (split_once 58 line) (http_error (lit "invalid M5oH HTTP header")) in
        read_headers fuel total (<[to_ascii_lowercase (trim name) := trim value]> headers) reader
  end.

(** [status_line.splitn(3, ' ')], first and second part. *)
Definition status_parts (line : list Z) : list Z * list Z :=
  match split_once 32 line with
  | None => (line, [])
  | Some (version, rest) => (version, match split_once 32 rest with Some (status, _) => status | None => rest end)
  end.

(** [usize_max] is the largest [usize] of the target. *)
Definition read_response (usize_max : Z) (reader : Stream) : io (HttpResponse * Stream) :=
  let? (status_line, reader) := read_line reader in
  let? status_line := ok_or status_line (IoError UnexpectedEof (lit "M5oH HTTP peer closed")) in
  let '(version, status) := status_parts status_line in
  fail_if (negb (beq version (lit "HTTP/1.1"))) with http_error (lit "M5oH requires HTTP/1.1");
  let? status := ok_or (parse_u16 status) (http_error (lit "invalid M5oH HTTP status")) in
  let? (headers, reader) := read_headers (S (length (s_in reader))) 0 ∅ reader in
  fail_if (bool_decide (is_Some (headers !! lit "transfer-encoding")))
    with http_error (lit "chunked M5oH responses are unsupported");
  let? length_ :=
    match headers !! lit "content-length" with
    | Some value => ok_or (parse_uint usize_max value) (http_error (lit "invalid M5oH content length"))
    | None => Ok 0
    end in
  fail_if (MAX_HTTP_BODY <? length_) with http_error (lit "M5oH response too large");
  if length_ =? 0 then Ok (mkResponse_ status headers [], reader)
  else
    let? (body, reader) := read_exact length_ reader in
    Ok (mkResponse_ status headers body, reader).

(** [String::from_utf8_lossy]: every maximal malformed part becomes U+FFFD. *)
Definition replacement : list Z := [239; 191; 189].
Fixpoint utf8_lossy (l : list Z) : list Z :=
  match l with
  | [] => []
  | b0 :: t =>
      if in_range 0 127 b0 then b0 :: utf8_lossy t
      else if in_range 194 223 b0 then
        match t with
        | b1 :: t1 => if is_cont b1 then b0 :: b1 :: utf8_lossy t1 else replacement ++ utf8_lossy t
        | [] => replacement
        end
      else if in_range 224 239 b0 then
        match t with
        | b1 :: t1 =>
            if in_range (if b0 =? 224 then 160 else 128) (if b0 =? 237 then 159 else 191) b1 then
              match t1 with
              | b2 :: t2 => if is_cont b2 then b0 :: b1 :: b2 :: utf8_lossy t2 else replacement ++ utf8_lossy t1
              | [] => replacement
              end
            else replacement ++ utf8_lossy t
        | [] => replacement
        end
      else if in_range 240 244 b0 then
        match t with
        | b1 :: t1 =>
            if in_range (if b0 =? 240 then 144 else 128) (if b0 =? 244 then 143 else 191) b1 then
              match t1 with
              | b2 :: t2 =>
                  if is_cont b2 then
                    match t2 with
                    | b3 :: t3 =>
                        if is_cont b3 then b0 :: b1 :: b2 :: b3 :: utf8_lossy t3 else replacement ++ utf8_lossy t2
                    | [] => replacement
                    end
                  else replacement ++ utf8_lossy t1
              | [] => replacement
              end
            else replacement ++ utf8_lossy t
        | [] => replacement
        end
      else replacement ++ utf8_lossy t
  end.

(** ** Requests *)
Inductive channel := Up | Down.

Definition channel_name (c : channel) : list Z := match c with Up => lit "up" | Down => lit "down" end.

Definition request_head (e : Endpoint) (session_id : list Z) (c : channel) (sequence : Z) (payload : list Z) (eof : bool)
  : list Z :=
  lit "GET " ++ get_target (ep_packet_destination e) payload ++ lit " HTTP/1.1" ++ crlf
  ++ lit "Host: " ++ host_header e ++ crlf
  ++ lit "X-MST5-Session: " ++ session_id ++ crlf
  ++ lit "X-MST5-Channel: " ++ channel_name c ++ crlf
  ++ lit "X-MST5-Seq: " ++ dec sequence ++ crlf
  ++ lit "Accept: application/octet-stream" ++ crlf
  ++ lit "User-Agent: OVE-MST5-M5oH/1" ++ crlf
  ++ lit "Cache-Control: no-store" ++ crlf
  ++ lit "Connection: keep-alive" ++ crlf
  ++ (match c with Down => lit "X-MST5-Max-Response: 8388608" ++ crlf | Up => [] end)
  ++ (if eof then lit "X-MST5-EOF: 1" ++ crlf else [])
  ++ crlf.

Definition request_on (usize_max : Z) (stream : Stream) (e : Endpoint) (session_id : list Z) (c : channel) (sequence : Z)
    (payload : list Z) (eof : bool) : io (HttpResponse * Stream) :=
  let? stream := write_all (request_head e session_id c sequence payload eof) stream in
  let? stream := flush stream in
  let? (response, stream) := read_response usize_max stream in
  fail_if (negb (hr_status response =? 200)) with IoError ConnectionAborted
    (lit "M5oH server returned HTTP " ++ dec (hr_status response) ++ lit ": " ++ utf8_lossy (hr_body response));
  Ok (response, stream).

(** ** The node directory *)
Record NodeDirectoryEntry := mkNode { nd_id : list Z; nd_destination : list Z; nd_default : bool }.
Record NodeDirectory := mkDirectory { nd_version : Z; nd_nodes : list NodeDirectoryEntry }.

Definition directory_head (e : Endpoint) : list Z :=
  lit "GET / HTTP/1.1" ++ crlf ++ lit "Host: " ++ host_header e ++ crlf
  ++ lit "Accept: application/vnd.mst5.nodes+json" ++ crlf ++ lit "User-Agent: OVE-MST5-M5oH/1" ++ crlf
  ++ lit "Cache-Control: no-store" ++ crlf ++ lit "Connection: close" ++ crlf ++ crlf.

(** The default node of a directory. *)
Definition default_node (directory : NodeDirectory) : io SocketAddrV4 :=
  fail_if (negb (nd_version directory =? 1)) with http_error (lit "unsupported M5oH node directory version");
  let? node := ok_or (List.find nd_default (nd_nodes directory))
                 (IoError NotFound (lit "M5oH node directory has no default node")) in
  let? destination := ok_or (parse_socket_v4 (nd_destination node))
                        (http_error (lit "invalid M5oH node destination for " ++ nd_id node)) in
  fail_if (sa_port destination =? 0) with http_error (lit "M5oH node directory has zero port");
  Ok destination.

(** [directory_from_slice] is [serde_json::from_slice::<NodeDirectory>],
    [connection] the answer of [connect]. *)
Definition discover_default_node (directory_from_slice : list Z → option NodeDirectory) (usize_max : Z)
    (connection : io Stream) (e : Endpoint) : io Endpoint :=
  if bool_decide (is_Some (ep_packet_destination e)) || bool_decide (is_Some (ep_route e)) then Ok e
  else
    let? stream := connection in
    let? stream := write_all (directory_head e) stream in
    let? stream := flush stream in
    let? (response, _) := read_response usize_max stream in
    fail_if (negb (hr_status response =? 200)) with IoError ConnectionAborted
      (lit "M5oH node directory returned HTTP " ++ dec (hr_status response));
    let? directory := ok_or (directory_from_slice (hr_body response)) (http_error (lit "M5oH node directory is invalid")) in
    let? destination := default_node directory in
    Ok (mkEndpoint (ep_host e) (ep_port e) (ep_tls e) (ep_route e) (Some destination)).

(** [random_session_id]. *)
Definition random_session_id (random : io (list Z)) : io (list Z) :=
  let? bytes := map_err (λ e, IoError OtherKind (lit "M5oH random session failed: " ++ emsg e)) random in
  Ok (concat (map hex02 bytes)).

(** ** The bridge *)

(** What a read of the local socket answers: bytes (none at its end), an error,
    or nothing within [UPLOAD_COALESCE]. *)
Inductive piece := Data (bytes : list Z) | Fail (e : io_error) | Pause.

(** [reader.read] without a timeout, into a buffer of [max] bytes; [None] while
    nothing comes. *)
Fixpoint first_read (max : Z) (reads : list piece) : option (io (list Z) * list piece) :=
  match reads with
  | [] => None
  | Pause :: t => first_read max t
  | Fail e :: t => Some (Err e, t)
  | Data bytes :: t =>
      let rest := drop (Z.to_nat max) bytes in
      Some (Ok (take (Z.to_nat max) bytes), if is_empty rest then t else Data rest :: t)
  end.

(** The coalescing loop: more bytes behind the [acc] read already, until the
    buffer is full, the source pauses or ends. *)
Fixpoint coalesce (max : Z) (acc : list Z) (reads : list piece) : io (list Z * bool) * list piece :=
  if max <=? len acc then (Ok (acc, false), reads)
  else
    match reads with
    | [] => (Ok (acc, false), [])
    | Pause :: t => (Ok (acc, false), t)
    | Fail e :: t => (Err e, t)
    | Data [] :: t => (Ok (acc, true), t)
    | Data bytes :: t =>
        let room := Z.to_nat (max - len acc) in
        let rest := drop room bytes in
        if is_empty rest then coalesce max (acc ++ bytes) t
        else (Ok (acc ++ take room bytes, false), Data rest :: t)
    end.

(** One chunk of an upload and whether the source ended. *)
Definition next_chunk (reads : list piece) : option (io (list Z * bool) * list piece) :=
  match first_read UPLOAD_CHUNK reads with
  | None => None
  | Some (Err e, reads) => Some (Err e, reads)
  | Some (Ok bytes, reads) =>
      Some (if is_empty bytes then (Ok ([], true), reads) else coalesce UPLOAD_CHUNK bytes reads)
  end.

(** One call of [request_on]: its arguments and its answer. *)
Record attempt := mkAttempt {
  at_sequence : Z; at_payload : list Z; at_eof : bool; at_answer : option HttpResponse
}.

(** The HTTP side of a task: connections to come, the current one, the history. *)
Record Http := mkHttp { ht_connects : list (io Stream); ht_stream : Stream; ht_attempts : list attempt }.

(** Where a task stands after a step: returned, waiting for its source, or on its
    way to the next turn. *)
Inductive outcome := Ended (r : io unit) | Waiting | Running.

Definition header_is (key value : list Z) (r : HttpResponse) : bool :=
  bool_decide (hr_headers r !! key = Some value).

(** [Connection: close] of a response, in any case. *)
Definition wants_close (r : HttpResponse) : bool :=
  match hr_headers r !! lit "connection" with
  | Some v => beq (to_ascii_lowercase v) (lit "close")
  | None => false
  end.

(** The local writer: the outcome of its next calls and what was written.  A
    failing [write_all] may have written a part. *)
Inductive write_answer := Wrote | Broke (part : nat) (e : io_error).
Record Writer := mkWriter { wr_answers : list write_answer; wr_written : list Z }.

Definition writer_call (bytes : list Z) (w : Writer) : io unit * Writer :=
  match wr_answers w with
  | Broke part e :: t => (Err e, mkWriter t (wr_written w ++ take part bytes))
  | Wrote :: t => (Ok tt, mkWriter t (wr_written w ++ bytes))
  | [] => (Ok tt, mkWriter [] (wr_written w ++ bytes))
  end.

(** [write_all] and [flush] of a non-empty body. *)
Definition write_body (body : list Z) (w : Writer) : io unit * Writer :=
  if is_empty body then (Ok tt, w)
  else
    match writer_call body w with
    | (Err e, w) => (Err e, w)
    | (Ok _, w) => writer_call [] w
    end.

(** The two tasks.  [*_looping] is false until the first [connect]. *)
Record Upload := mkUpload { up_looping : bool; up_sequence : Z; up_reads : list piece; up_http : Http }.
Record Download := mkDownload { dn_looping : bool; dn_sequence : Z; dn_writer : Writer; dn_http : Http }.
Record Bridge := mkBridge { b_upload : Upload; b_download : Download }.

Section Bridge.
Context (usize_max : Z) (endpoint : Endpoint) (session_id : list Z).

(** [connect(&endpoint, connect_timeout)]. *)
Definition reconnect (h : Http) : io unit * Http :=
  match ht_connects h with
  | Ok s :: t => (Ok tt, mkHttp t s (ht_attempts h))
  | Err e :: t => (Err e, mkHttp t (ht_stream h) (ht_attempts h))
  | [] => (Err (IoError TimedOut (lit "M5oH HTTP connect timed out")), h)
  end.

(** [request_on] on the current connection, recorded. *)
Definition try_request (c : channel) (sequence : Z) (payload : list Z) (eof : bool) (h : Http) : io HttpResponse * Http :=
  match request_on usize_max (ht_stream h) endpoint session_id c sequence payload eof with
  | Ok (r, s) => (Ok r, mkHttp (ht_connects h) s (ht_attempts h ++ [mkAttempt sequence payload eof (Some r)]))
  | Err e => (Err e, mkHttp (ht_connects h) (ht_stream h) (ht_attempts h ++ [mkAttempt sequence payload eof None]))
  end.

(** [request]: a connection of its own and one request. *)
Definition request (c : channel) (sequence : Z) (payload : list Z) (eof : bool) (h : Http) : io HttpResponse * Http :=
  match reconnect h with
  | (Err e, h) => (Err e, h)
  | (Ok _, h) => try_request c sequence payload eof h
  end.

(** A request on the open connection with one retry on a new one. *)
Definition request_retry (c : channel) (sequence : Z) (payload : list Z) (eof : bool) (h : Http) : io HttpResponse * Http :=
  match try_request c sequence payload eof h with
  | (Ok r, h) => (Ok r, h)
  | (Err _, h) => request c sequence payload eof h
  end.

(** A connection the server closes is replaced. *)
Definition after_response (r : HttpResponse) (h : Http) : io unit * Http :=
  if wants_close r then reconnect h else (Ok tt, h).

(** One turn of the loop of [upload_loop]. *)
Definition upload_turn (sequence : Z) (reads : list piece) (h : Http) : outcome * Upload :=
  match next_chunk reads with
  | None => (Waiting, mkUpload true sequence reads h)
  | Some (Err e, reads) => (Ended (Err e), mkUpload true sequence reads h)
  | Some (Ok (payload, eof), reads) =>
      match request_retry Up sequence payload eof h with
      | (Err e, h) => (Ended (Err e), mkUpload true sequence reads h)
      | (Ok r, h) =>
          match after_response r h with
          | (Err e, h) => (Ended (Err e), mkUpload true sequence reads h)
          | (Ok _, h) =>
              match checked_add64 sequence 1 with
              | None => (Ended (Err (IoError OtherKind (lit "M5oH upload sequence exhausted"))), mkUpload true sequence reads h)
              | Some sequence => (if eof then Ended (Ok tt) else Running, mkUpload true sequence reads h)
              end
          end
      end
  end.

(** A step of [upload_loop]: the first connection, then a turn. *)
Definition upload_loop (u : Upload) : outcome * Upload :=
  if up_looping u then upload_turn (up_sequence u) (up_reads u) (up_http u)
  else
    match reconnect (up_http u) with
    | (Err e, h) => (Ended (Err e), mkUpload false (up_sequence u) (up_reads u) h)
    | (Ok _, h) => (Running, mkUpload true (up_sequence u) (up_reads u) h)
    end.

(** One turn of the loop of [download_loop]. *)
Definition download_turn (sequence : Z) (w : Writer) (h : Http) : outcome * Download :=
  match request_retry Down sequence [] false h with
  | (Err e, h) => (Ended (Err e), mkDownload true sequence w h)
  | (Ok r, h) =>
      match write_body (hr_body r) w with
      | (Err e, w) => (Ended (Err e), mkDownload true sequence w h)
      | (Ok _, w) =>
          match checked_add64 sequence 1 with
          | None => (Ended (Err (IoError OtherKind (lit "M5oH download sequence exhausted"))), mkDownload true sequence w h)
          | Some sequence =>
              if header_is (lit "x-mst5-eof") (lit "1") r then
                let '(x, w) := writer_call [] w in (Ended x, mkDownload true sequence w h)
              else
                match after_response r h with
                | (Err e, h) => (Ended (Err e), mkDownload true sequence w h)
                | (Ok _, h) => (Running, mkDownload true sequence w h)
                end
          end
      end
  end.

Definition download_loop (d : Download) : outcome * Download :=
  if dn_looping d then download_turn (dn_sequence d) (dn_writer d) (dn_http d)
  else
    match reconnect (dn_http d) with
    | (Err e, h) => (Ended (Err e), mkDownload false (dn_sequence d) (dn_writer d) h)
    | (Ok _, h) => (Running, mkDownload true (dn_sequence d) (dn_writer d) h)
    end.

(** The tasks under a scheduler, which lists whose step comes next, and the
    [select!] of [bridge]: the first task that returns decides, the other is
    aborted.  It is aborted between two of its turns: what a turn that is cut short may
    still have written, a part of a request or of a piece of the download, is left out. *)
Fixpoint bridge_run (schedule : list channel) (b : Bridge) : outcome * Bridge :=
  match schedule with
  | [] => (Running, b)
  | Up :: t =>
      match upload_loop (b_upload b) with
      | (Ended r, u) => (Ended r, mkBridge u (b_download b))
      | (_, u) => bridge_run t (mkBridge u (b_download b))
      end
  | Down :: t =>
      match download_loop (b_download b) with
      | (Ended r, d) => (Ended r, mkBridge (b_upload b) d)
      | (_, d) => bridge_run t (mkBridge (b_upload b) d)
      end
  end.
End Bridge.

(** The environment of a bridge. *)
Record BridgeEnv := mkBridgeEnv {
  be_nodelay : io unit;                (** [set_nodelay] *)
  be_random : io (list Z);             (** [getrandom::fill] *)
  be_open : Http;                      (** the connection of the first request *)
  be_reads : list piece; be_up : Http; (** the local reader and the connections of the upload *)
  be_writer : Writer; be_down : Http   (** the local writer and the connections of the download *)
}.

(** [bridge]: the request with sequence 0 first, then the two tasks. *)
Definition bridge (usize_max : Z) (env : BridgeEnv) (endpoint : Endpoint) (schedule : list channel)
  : outcome * Http * Bridge :=
  let idle := mkBridge (mkUpload false 1 (be_reads env) (be_up env)) (mkDownload false 0 (be_writer env) (be_down env)) in
  match be_nodelay env with
  | Err e => (Ended (Err e), be_open env, idle)
  | Ok _ =>
      match random_session_id (be_random env) with
      | Err e => (Ended (Err e), be_open env, idle)
      | Ok session_id =>
          match request usize_max endpoint session_id Up 0 [] false (be_open env) with
          | (Err e, h) => (Ended (Err e), h, idle)
          | (Ok _, h) =>
              let '(o, b) := bridge_run usize_max endpoint session_id schedule idle in (o, h, b)
          end
      end
  end.

(** [open_loopback_bridge]: the local stream and the endpoint of the bridge it
    starts.  [bind] is the listener with its address, [dial] the local
    connection, [None] when it times out. *)
Definition open_loopback_bridge {A T} (directory_from_slice : list Z → option NodeDirectory) (usize_max : Z)
    (connection : io Stream) (bind : io (io A)) (dial : A → option (io T)) (e : Endpoint) : io (T * Endpoint) :=
  let? e := discover_default_node directory_from_slice usize_max connection e in
  let? local_addr := bind in
  let? address := local_addr in
  match dial address with
  | Some r => let? stream := r in Ok (stream, e)
  | None => Err (IoError TimedOut (lit "M5oH local bridge timed out"))
  end.
