(* ===== verification/M5ohProofs.v ===== *)
(** * Properties of M5oH

    - what the bridge moves: the remote end of an upload, which takes every
      sequence number once, gets the bytes of the local reader once and in order
      despite retries; the local writer gets the bodies of the answered polls once
      and in order;
    - the parser of responses reads back what a server renders and leaves the rest
      of the connection for the next response. *)
From S2P Require Import Prelude RustStr Codec Record Endpoint M5oh.

(** ** Uploads *)

(** The bytes a local reader still gives before it ends or fails. *)
Fixpoint source_data (reads : list piece) : list Z :=
  match reads with
  | [] => []
  | Pause :: t => source_data t
  | Fail _ :: _ => []
  | Data [] :: _ => []
  | Data bytes :: t => bytes ++ source_data t
  end.

(** The requests that reach the server: an answered one always does, the others
    may or may not. *)
Inductive arrived : list attempt → list attempt → Prop :=
| arrived_nil : arrived [] []
| arrived_keep a l k : arrived l k → arrived (a :: l) (a :: k)
| arrived_lost a l k : at_answer a = None → arrived l k → arrived (a :: l) k.

(** A receiver that accepts the sequence number it expects and takes every other
    request for a repeat. *)
Record Receiver := mkReceiver { rc_expected : Z; rc_data : list Z; rc_closed : bool }.
Definition accept (s : Receiver) (a : attempt) : Receiver :=
  if at_sequence a =? rc_expected s then mkReceiver (rc_expected s + 1) (rc_data s ++ at_payload a) (at_eof a) else s.
Definition receive : list attempt → Receiver → Receiver := flip (foldl accept).

Lemma arrived_app l1 l2 k :
  arrived (l1 ++ l2) k → ∃ k1 k2, k = k1 ++ k2 ∧ arrived l1 k1 ∧ arrived l2 k2.
Proof.
  revert k. induction l1 as [|a l1 IH]; intros k H; simpl in H.
  - exists [], k. eauto using arrived.
  - inversion H as [|? ? k' H'|? ? ? Ha H']; subst; destruct (IH _ H') as (k1 & k2 & -> & ? & ?).
    + exists (a :: k1), k2. eauto using arrived.
    + exists k1, k2. eauto using arrived.
Qed.

Lemma receive_app l k s : receive (l ++ k) s = receive k (receive l s).
Proof. apply foldl_app. Qed.

Lemma source_data_cons b t reads : source_data (Data (b :: t) :: reads) = b :: t ++ source_data reads.
Proof. done. Qed.

Lemma is_empty_spec {A} (l : list A) : is_empty l = true ↔ l = [].
Proof. by destruct l. Qed.

Lemma coalesce_spec max acc reads p eof rest :
  coalesce max acc reads = (Ok (p, eof), rest) → len acc ≤ max →
  acc ++ source_data reads = p ++ (if eof then [] else source_data rest) ∧ len p ≤ max.
Proof.
  revert acc. induction reads as [|x reads IH]; intros acc H Ha; cbn [coalesce] in H.
  { case_match; simplify_eq; by rewrite ?app_nil_r. }
  destruct (Z.leb_spec max (len acc)); [by simplify_eq|].
  destruct x as [[|b bytes]|e|]; cbn [source_data] in *; [by simplify_eq; rewrite app_nil_r| |done|by simplify_eq].
  set (n := Z.to_nat (max - len acc)) in *. set (l := b :: bytes) in *.
  destruct (is_empty (drop n l)) eqn:Ed.
  - apply is_empty_spec in Ed. apply IH in H; [by rewrite <-app_assoc in H|].
    apply (f_equal length) in Ed. rewrite length_drop in Ed. rewrite len_app. unfold n, len in *. change (length (@nil Z)) with 0%nat in Ed. lia.
  - simplify_eq. split.
    + rewrite <-(take_drop n l) at 1. rewrite <-!app_assoc. by destruct (drop n l).
    + rewrite len_app. unfold n, len in *. rewrite length_take. lia.
Qed.

Lemma first_read_spec max reads p rest :
  0 < max → first_read max reads = Some (Ok p, rest) →
  source_data reads = (if is_empty p then [] else p ++ source_data rest) ∧ len p ≤ max.
Proof.
  intros Hm. induction reads as [|[bytes|e|] reads IH]; intros H; cbn in H; [done| |done|by apply IH].
  destruct bytes as [|b bytes]; [rewrite take_nil in H; simplify_eq; rewrite len_nil; split; [done|lia]|].
  set (n := Z.to_nat max) in *. set (l := b :: bytes) in *. simplify_eq. split.
  - assert (is_empty (take n l) = false) as -> by (unfold n, l; destruct (Z.to_nat max) eqn:?; [lia|done]).
    destruct (drop n l) as [|c rest] eqn:Ed; cbn [is_empty].
    + change (source_data (Data l :: reads)) with (l ++ source_data reads).
      rewrite <-(take_drop n l) at 1. by rewrite Ed, app_nil_r.
    + change (source_data (Data l :: reads)) with (l ++ source_data reads). rewrite source_data_cons.
      change (c :: rest ++ source_data reads) with ((c :: rest) ++ source_data reads).
      by rewrite <-Ed, app_assoc, take_drop.
  - unfold n, len. rewrite length_take. lia.
Qed.

Lemma next_chunk_spec reads p eof rest :
  next_chunk reads = Some (Ok (p, eof), rest) →
  source_data reads = p ++ (if eof then [] else source_data rest) ∧ len p ≤ UPLOAD_CHUNK.
Proof.
  unfold next_chunk. intros H. destruct (first_read UPLOAD_CHUNK reads) as [[[bytes|?] reads']|] eqn:E; [|done|done].
  apply first_read_spec in E as [-> El]; [|done].
  destruct (is_empty bytes) eqn:Eb; [by simplify_eq|]. apply coalesce_spec; [congruence|done].
Qed.

(** [k] failed attempts of a request and the answer of the last one. *)
Definition tries (sequence : Z) (payload : list Z) (eof : bool) (k : nat) (answer : io HttpResponse) : list attempt :=
  replicate k (mkAttempt sequence payload eof None)
  ++ match answer with Ok r => [mkAttempt sequence payload eof (Some r)] | Err _ => [] end.

Lemma reconnect_attempts h x h' : reconnect h = (x, h') → ht_attempts h' = ht_attempts h.
Proof. unfold reconnect. intros. by repeat case_match; simplify_eq. Qed.

Lemma after_response_attempts r h x h' : after_response r h = (x, h') → ht_attempts h' = ht_attempts h.
Proof. unfold after_response. intros. case_match; [by eapply reconnect_attempts|by simplify_eq]. Qed.

Section Tasks.
Context (usize_max : Z) (endpoint : Endpoint) (session_id : list Z).

Lemma try_request_attempts c s p eof h x h' :
  try_request usize_max endpoint session_id c s p eof h = (x, h') →
  ∃ k, (k ≤ 1)%nat ∧ ht_attempts h' = ht_attempts h ++ tries s p eof k x.
Proof.
  unfold try_request, tries. intros. repeat case_match; simplify_eq; cbn; [by exists 0%nat; auto|by exists 1%nat; auto].
Qed.

Lemma request_attempts c s p eof h x h' :
  request usize_max endpoint session_id c s p eof h = (x, h') →
  ∃ k, (k ≤ 1)%nat ∧ ht_attempts h' = ht_attempts h ++ tries s p eof k x.
Proof.
  unfold request. intros H. destruct (reconnect h) as [[?|e] h1] eqn:E; apply reconnect_attempts in E as <-.
  - by eapply try_request_attempts.
  - simplify_eq. exists 0%nat. by rewrite app_nil_r; auto.
Qed.

Lemma request_retry_attempts c s p eof h x h' :
  request_retry usize_max endpoint session_id c s p eof h = (x, h') →
  ∃ k, ht_attempts h' = ht_attempts h ++ tries s p eof k x.
Proof.
  unfold request_retry. intros H.
  destruct (try_request usize_max endpoint session_id c s p eof h) as [[r|e] h1] eqn:E;
    apply try_request_attempts in E as (k & _ & E); [simplify_eq; eauto|].
  apply request_attempts in H as (j & _ & ->). exists (k + j)%nat. rewrite E. unfold tries.
  by rewrite replicate_add, app_nil_r, <-!app_assoc.
Qed.
End Tasks.

(** Repeats of one request change the receiver once. *)
Lemma receive_repeats q p e arr s :
  Forall (λ a, at_sequence a = q ∧ at_payload a = p ∧ at_eof a = e) arr → rc_expected s = q →
  receive arr s = if is_empty arr then s else mkReceiver (q + 1) (rc_data s ++ p) e.
Proof.
  intros Ha Hs. destruct Ha as [|a arr (<- & <- & <-) Ha]; [done|]. cbn.
  unfold accept at 2. rewrite Hs, Z.eqb_refl. clear Hs.
  induction Ha as [|b arr (Hq & _) Ha IH]; cbn; [done|].
  unfold accept at 2. cbn. rewrite Hq. by zbool.
Qed.

Lemma arrived_sub l k (P : attempt → Prop) : arrived l k → Forall P l → Forall P k.
Proof. induction 1; inversion 1; subst; auto. Qed.

Lemma arrived_answered a l k : arrived l k → is_Some (at_answer a) → a ∈ l → a ∈ k.
Proof. intros H [r Hr] Hin. induction H; set_solver. Qed.

Lemma tries_same s p e k x :
  Forall (λ a, at_sequence a = s ∧ at_payload a = p ∧ at_eof a = e) (tries s p e k x).
Proof. apply Forall_app. split; [by apply Forall_replicate|by destruct x; repeat constructor]. Qed.

Lemma receive_tries s p e k x arr st :
  arrived (tries s p e k x) arr → rc_expected st = s →
  (receive arr st = st ∧ ∃ err, x = Err err) ∨ receive arr st = mkReceiver (s + 1) (rc_data st ++ p) e.
Proof.
  intros Ha Hs. pose proof (arrived_sub _ _ _ Ha (tries_same s p e k x)) as Hf.
  rewrite (receive_repeats _ _ _ _ _ Hf Hs). destruct (is_empty arr) eqn:E; [|by right].
  apply is_empty_spec in E as ->. left. split; [done|]. destruct x as [r|err]; [|eauto].
  assert (mkAttempt s p e (Some r) ∈ @nil attempt) as Hin; [|set_solver].
  eapply arrived_answered; [exact Ha|by eexists|]. apply elem_of_app. right. by apply list_elem_of_singleton.
Qed.

Definition fresh_receiver : Receiver := mkReceiver 1 [] false.

(** Between two turns the receiver has what was read, whatever was lost. *)
Record upload_inv (data : list Z) (u : Upload) : Prop := {
  ui_received arr : arrived (ht_attempts (up_http u)) arr → ∃ consumed,
    receive arr fresh_receiver = mkReceiver (up_sequence u) consumed false ∧ data = consumed ++ source_data (up_reads u);
  ui_chunks : Forall (λ a, len (at_payload a) ≤ UPLOAD_CHUNK) (ht_attempts (up_http u))
}.

(** At any time it has a part; once the task has succeeded, it has everything. *)
Record upload_done (data : list Z) (o : outcome) (u : Upload) : Prop := {
  ud_received arr : arrived (ht_attempts (up_http u)) arr →
    rc_data (receive arr fresh_receiver) `prefix_of` data ∧
    (o = Ended (Ok tt) → rc_data (receive arr fresh_receiver) = data ∧ rc_closed (receive arr fresh_receiver) = true);
  ud_chunks : Forall (λ a, len (at_payload a) ≤ UPLOAD_CHUNK) (ht_attempts (up_http u))
}.

Definition upload_step_ok (data : list Z) (o : outcome) (u : Upload) : Prop :=
  match o with Ended _ => upload_done data o u | _ => upload_inv data u end.

Lemma upload_inv_done data o u : upload_inv data u → o ≠ Ended (Ok tt) → upload_done data o u.
Proof.
  intros [Hr Hc] Ho. split; [|done]. intros arr Ha. destruct (Hr _ Ha) as (x & -> & ->).
  split; [by apply prefix_app_r|done].
Qed.

Lemma upload_inv_http data l s reads h l' h' :
  ht_attempts h' = ht_attempts h → upload_inv data (mkUpload l s reads h) → upload_inv data (mkUpload l' s reads h').
Proof. intros E [Hr Hc]. split; cbn in *; by rewrite E. Qed.

Section UploadSteps.
Context (usize_max : Z) (endpoint : Endpoint) (session_id : list Z).

(** The requests of a turn, answered or not. *)
Lemma upload_request_sound data l s reads h payload eof reads' x h1 h2 :
  upload_inv data (mkUpload l s reads h) →
  next_chunk reads = Some (Ok (payload, eof), reads') →
  request_retry usize_max endpoint session_id Up s payload eof h = (x, h1) → ht_attempts h2 = ht_attempts h1 →
  Forall (λ a, len (at_payload a) ≤ UPLOAD_CHUNK) (ht_attempts h2) ∧
  ∀ arr, arrived (ht_attempts h2) arr →
    ∃ consumed, data = consumed ++ payload ++ (if eof then [] else source_data reads') ∧
    ((receive arr fresh_receiver = mkReceiver s consumed false ∧ ∃ err, x = Err err)
     ∨ receive arr fresh_receiver = mkReceiver (s + 1) (consumed ++ payload) eof).
Proof.
  intros [Hr Hc] En Eq E2. cbn in *. apply next_chunk_spec in En as [Es El].
  apply request_retry_attempts in Eq as [k Ek]. rewrite E2, Ek. split.
  - apply Forall_app. split; [done|]. eapply Forall_impl; [|apply tries_same]. by intros a (_ & -> & _).
  - intros arr Ha. apply arrived_app in Ha as (a1 & a2 & -> & H1 & H2).
    destruct (Hr _ H1) as (consumed & E & ->). exists consumed. rewrite Es. split; [done|].
    rewrite receive_app, E. by destruct (receive_tries _ _ _ _ _ _ (mkReceiver s consumed false) H2 eq_refl); auto.
Qed.

Lemma upload_turn_sound data l s reads h o u :
  upload_inv data (mkUpload l s reads h) →
  upload_turn usize_max endpoint session_id s reads h = (o, u) → upload_step_ok data o u.
Proof.
  intros Hi H. unfold upload_turn in H.
  destruct (next_chunk reads) as [[[[payload eof]|e] reads']|] eqn:En.
  2:{ simplify_eq. apply (upload_inv_done data (Ended (Err e)) (mkUpload l s reads h)) in Hi; [|done].
      destruct Hi as [Hr Hc]. by split. }
  2:{ simplify_eq. by eapply upload_inv_http. }
  destruct (request_retry usize_max endpoint session_id Up s payload eof h) as [x h1] eqn:Eq.
  assert (∀ h2 err s', ht_attempts h2 = ht_attempts h1 → upload_done data (Ended (Err err)) (mkUpload true s' reads' h2)) as Hfail.
  { intros h2 err s' E2. destruct (upload_request_sound _ _ _ _ _ _ _ _ _ _ _ Hi En Eq E2) as [Hc Hr].
    split; [|done]. intros arr Ha. destruct (Hr _ Ha) as (consumed & -> & [[-> _]| ->]); split; try done; cbn.
    - by apply prefix_app_r.
    - rewrite app_assoc. by apply prefix_app_r. }
  destruct x as [r|err]; [|simplify_eq; by apply Hfail].
  destruct (after_response r h1) as [[?|err] h2] eqn:Ea; apply after_response_attempts in Ea;
    [|simplify_eq; by apply Hfail].
  destruct (checked_add64 s 1) as [s'|] eqn:Ec; [|simplify_eq; by apply Hfail].
  apply checked_add64_some in Ec as [-> _].
  destruct (upload_request_sound _ _ _ _ _ _ _ _ _ _ _ Hi En Eq Ea) as [Hc Hr].
  destruct eof; simplify_eq; (split; [|done]); intros arr Ha;
    destruct (Hr _ Ha) as (consumed & -> & [[_ [? ?]]| ->]); try done; cbn.
  - by rewrite app_nil_r.
  - eexists. rewrite <-app_assoc. done.
Qed.

Lemma upload_loop_sound data u o u' :
  upload_inv data u → upload_loop usize_max endpoint session_id u = (o, u') → upload_step_ok data o u'.
Proof.
  destruct u as [l s reads h]. unfold upload_loop. cbn. intros Hi H. destruct l; [by eapply upload_turn_sound|].
  destruct (reconnect h) as [[?|e] h1] eqn:E; apply reconnect_attempts in E; simplify_eq.
  - by eapply upload_inv_http.
  - apply upload_inv_done; [by eapply upload_inv_http|done].
Qed.
End UploadSteps.

(** ** Downloads *)

(** The answered polls with their sequence numbers. *)
Definition answered (l : list attempt) : list (Z * HttpResponse) := omap (λ a, (at_sequence a,.) <$> at_answer a) l.
Definition bodies (l : list attempt) : list Z := concat (map (λ x, hr_body x.2) (answered l)).
Definition ended_by_server (l : list attempt) : Prop :=
  ∃ k x, answered l = k ++ [x] ∧ header_is (lit "x-mst5-eof") (lit "1") x.2 = true.

Record download_inv (d : Download) : Prop := {
  di_range : 0 ≤ dn_sequence d;
  di_sequences : map fst (answered (ht_attempts (dn_http d))) = seqZ 0 (dn_sequence d);
  di_written : wr_written (dn_writer d) = bodies (ht_attempts (dn_http d))
}.

Record download_done (o : outcome) (d : Download) : Prop := {
  dd_sequences : ∃ n, 0 ≤ n ∧ map fst (answered (ht_attempts (dn_http d))) = seqZ 0 n;
  dd_written : wr_written (dn_writer d) `prefix_of` bodies (ht_attempts (dn_http d));
  dd_all : o = Ended (Ok tt) →
    wr_written (dn_writer d) = bodies (ht_attempts (dn_http d)) ∧ ended_by_server (ht_attempts (dn_http d))
}.

Definition download_step_ok (o : outcome) (d : Download) : Prop :=
  match o with Ended _ => download_done o d | _ => download_inv d end.

Lemma download_inv_done o d : download_inv d → o ≠ Ended (Ok tt) → download_done o d.
Proof. intros [Hr Hs Hw] Ho. split; [by eauto|by rewrite Hw|done]. Qed.

Lemma answered_tries l s p e k x :
  answered (l ++ tries s p e k x) = answered l ++ match x with Ok r => [(s, r)] | Err _ => [] end.
Proof.
  unfold answered, tries. rewrite !omap_app. f_equal.
  assert (omap (λ a, (at_sequence a,.) <$> at_answer a) (replicate k (mkAttempt s p e None)) = []) as ->
    by (induction k; done).
  by destruct x.
Qed.

Lemma bodies_tries l s p e k x :
  bodies (l ++ tries s p e k x) = bodies l ++ match x with Ok r => hr_body r | Err _ => [] end.
Proof. unfold bodies. rewrite answered_tries, map_app, concat_app. destruct x; cbn; by rewrite ?app_nil_r. Qed.

Lemma writer_call_written bytes w x w' :
  writer_call bytes w = (x, w') → ∃ k, wr_written w' = wr_written w ++ take k bytes ∧ (x = Ok tt → take k bytes = bytes).
Proof.
  unfold writer_call. intros. repeat case_match; simplify_eq; cbn; 
    try (exists (length bytes); by rewrite firstn_all).
  by eexists.
Qed.

Lemma write_body_written body w x w' :
  write_body body w = (x, w') → ∃ k, wr_written w' = wr_written w ++ take k body ∧ (x = Ok tt → take k body = body).
Proof.
  unfold write_body. intros H. destruct body as [|b body]; [cbn in H; simplify_eq; exists 0%nat; by rewrite app_nil_r|].
  cbn [is_empty] in H. destruct (writer_call (b :: body) w) as [[[]|e] w1] eqn:E;
    apply writer_call_written in E as (k & Ek & Hk); [|simplify_eq; eauto].
  apply writer_call_written in H as (j & Ej & _). exists k. rewrite Ej, Ek, take_nil, app_nil_r. auto.
Qed.

Lemma seqZ_snoc n : 0 ≤ n → seqZ 0 n ++ [n] = seqZ 0 (n + 1).
Proof. intros. by rewrite seqZ_app, Z.add_0_l by lia. Qed.

Section DownloadSteps.
Context (usize_max : Z) (endpoint : Endpoint) (session_id : list Z).

Lemma download_turn_sound l s w h o d :
  download_inv (mkDownload l s w h) →
  download_turn usize_max endpoint session_id s w h = (o, d) → download_step_ok o d.
Proof.
  intros [Hr Hs Hw] H. cbn in *. unfold download_turn in H.
  destruct (request_retry usize_max endpoint session_id Down s [] false h) as [x h1] eqn:Eq.
  apply request_retry_attempts in Eq as [k Ek].
  destruct x as [r|err].
  2:{ simplify_eq. cbn [download_step_ok]. apply download_inv_done; [|done]. split; cbn; [done| |].
      - by rewrite Ek, answered_tries, app_nil_r.
      - by rewrite Ek, bodies_tries, app_nil_r. }
  assert (∀ h2, ht_attempts h2 = ht_attempts h1 →
    map fst (answered (ht_attempts h2)) = seqZ 0 (s + 1) ∧ bodies (ht_attempts h2) = wr_written w ++ hr_body r
    ∧ answered (ht_attempts h2) = answered (ht_attempts h) ++ [(s, r)]) as Hh.
  { intros h2 ->. rewrite Ek, answered_tries, bodies_tries, map_app, Hs, Hw. by rewrite <-seqZ_snoc. }
  assert (∀ h2 w2 s2 err, ht_attempts h2 = ht_attempts h1 → wr_written w2 `prefix_of` wr_written w ++ hr_body r →
    download_done (Ended (Err err)) (mkDownload true s2 w2 h2)) as Hfail.
  { intros h2 w2 s2 err E2 Hp. destruct (Hh _ E2) as (Hq & Hb & _).
    split; cbn; [exists (s + 1); split; [lia|done]|by rewrite Hb|done]. }
  destruct (write_body (hr_body r) w) as [[[]|err] w1] eqn:Ew; apply write_body_written in Ew as (j & Ej & Hj).
  2:{ simplify_eq. apply Hfail; [done|]. rewrite Ej. apply prefix_app, prefix_take. }
  rewrite (Hj eq_refl) in Ej. clear Hj.
  destruct (checked_add64 s 1) as [s'|] eqn:Ec; [|simplify_eq; apply Hfail; [done|by rewrite Ej]].
  apply checked_add64_some in Ec as [-> _].
  destruct (header_is (lit "x-mst5-eof") (lit "1") r) eqn:Ee.
  - destruct (writer_call [] w1) as [y w2] eqn:E2. apply writer_call_written in E2 as (i & Ei & _).
    rewrite take_nil, app_nil_r in Ei. simplify_eq. destruct (Hh h1 eq_refl) as (Hq & Hb & Hl).
    split; cbn; rewrite ?Ei, ?Ej, ?Hb; [exists (s + 1); split; [lia|done]|done|].
    intros _. split; [done|]. by exists (answered (ht_attempts h)), (s, r).
  - destruct (after_response r h1) as [[?|err] h2] eqn:Ea; apply after_response_attempts in Ea; simplify_eq.
    + destruct (Hh _ Ea) as (Hq & Hb & _). split; cbn; [lia|done|by rewrite Hb].
    + apply Hfail; [done|by rewrite Ej].
Qed.

Lemma download_loop_sound d o d' :
  download_inv d → download_loop usize_max endpoint session_id d = (o, d') → download_step_ok o d'.
Proof.
  destruct d as [l s w h]. unfold download_loop. cbn. intros Hi H. destruct l; [by eapply download_turn_sound|].
  assert (∀ l' h1, ht_attempts h1 = ht_attempts h → download_inv (mkDownload l' s w h1)) as Hx.
  { intros l' h1 E. destruct Hi as [Hr Hs Hw]. split; cbn in *; by rewrite ?E. }
  destruct (reconnect h) as [[?|e] h1] eqn:E; apply reconnect_attempts in E; simplify_eq.
  - by apply Hx.
  - apply download_inv_done; [by apply Hx|done].
Qed.
End DownloadSteps.

(** ** The bridge *)

(** What a bridge has moved when it stops in [o]. *)
Record bridge_ok (data : list Z) (o : outcome) (b : Bridge) : Prop := {
  bo_upload : ∃ ou, upload_done data ou (b_upload b) ∧
    ∃ od, download_done od (b_download b) ∧
    (o = Ended (Ok tt) → ou = Ended (Ok tt) ∨ od = Ended (Ok tt))
}.

Lemma bridge_run_sound usize_max endpoint session_id data schedule b o b' :
  upload_inv data (b_upload b) → download_inv (b_download b) →
  bridge_run usize_max endpoint session_id schedule b = (o, b') → bridge_ok data o b'.
Proof.
  assert (∀ u d o', upload_inv data u → download_inv d → o' ≠ Ended (Ok tt) → bridge_ok data o' (mkBridge u d)) as Hidle.
  { intros u d o' Hu Hd Ho. split. exists o'. split; [by apply upload_inv_done|].
    exists o'. split; [by apply download_inv_done|done]. }
  revert b. induction schedule as [|[] t IH]; intros [u d] Hu Hd H; cbn in H.
  - simplify_eq. by apply Hidle.
  - destruct (upload_loop usize_max endpoint session_id u) as [ou u'] eqn:E.
    apply (upload_loop_sound _ _ _ data) in E; [|done].
    destruct ou as [r| |]; cbn in E; [|by eapply IH in H..].
    simplify_eq. split. exists (Ended r). split; [done|]. exists Running. split; [by apply download_inv_done|auto].
  - destruct (download_loop usize_max endpoint session_id d) as [od d'] eqn:E.
    apply download_loop_sound in E; [|done].
    destruct od as [r| |]; cbn in E; [|by eapply IH in H..].
    simplify_eq. split. exists Running. split; [by apply upload_inv_done|]. exists (Ended r). split; [done|auto].
Qed.

(** C6: the bridge moves bytes faithfully, for every schedule of its two tasks and every behaviour of the
    connections: whichever unanswered requests were lost, a receiver that takes each
    sequence number once has a prefix of the local bytes, in requests within the
    chunk limit; the local writer got a prefix of the bodies of the answered polls,
    which are numbered 0, 1, 2, ... without repetition; neither task has sent a request
    before the request with number 0 was answered; and when the bridge returns without an
    error, one of the directions is complete: all local bytes received and
    the stream closed, or all bodies written and the end announced by the server. *)
Theorem bridge_faithful usize_max env endpoint schedule o h b :
  ht_attempts (be_up env) = [] → ht_attempts (be_down env) = [] → wr_written (be_writer env) = [] →
  bridge usize_max env endpoint schedule = (o, h, b) →
  let sent := ht_attempts (up_http (b_upload b)) in
  let polls := ht_attempts (dn_http (b_download b)) in
  let written := wr_written (dn_writer (b_download b)) in
  (∀ arr, arrived sent arr → rc_data (receive arr fresh_receiver) `prefix_of` source_data (be_reads env)) ∧
  Forall (λ a, len (at_payload a) ≤ UPLOAD_CHUNK) sent ∧
  (∃ n, 0 ≤ n ∧ map fst (answered polls) = seqZ 0 n) ∧
  written `prefix_of` bodies polls ∧
  (sent ≠ [] ∨ polls ≠ [] → ∃ k r, ht_attempts h = k ++ [mkAttempt 0 [] false (Some r)]) ∧
  (o = Ended (Ok tt) →
    (∀ arr, arrived sent arr →
      rc_data (receive arr fresh_receiver) = source_data (be_reads env) ∧ rc_closed (receive arr fresh_receiver) = true)
    ∨ (written = bodies polls ∧ ended_by_server polls)).
Proof.
  intros Hu Hd Hw H sent polls written. unfold bridge in H.
  set (idle := mkBridge _ _) in H.
  assert (upload_inv (source_data (be_reads env)) (b_upload idle)) as Iu.
  { split; cbn; rewrite Hu; [|constructor]. intros arr Ha. inversion Ha. by exists []. }
  assert (download_inv (b_download idle)) as Id by (split; cbn; rewrite ?Hd; done).
  assert (bridge_ok (source_data (be_reads env)) o b ∧
    (sent ≠ [] ∨ polls ≠ [] → ∃ k r, ht_attempts h = k ++ [mkAttempt 0 [] false (Some r)])) as [[Hb] Hfirst].
  { assert (∀ o', o' ≠ Ended (Ok tt) → bridge_ok (source_data (be_reads env)) o' idle) as Hidle.
    { intros o' Ho. split. exists o'. split; [by apply upload_inv_done|]. exists o'. split; [by apply download_inv_done|done]. }
    assert (b = idle → ¬ (sent ≠ [] ∨ polls ≠ [])) as Hnone.
    { intros ->. subst sent polls. cbn. rewrite Hu, Hd. tauto. }
    destruct (be_nodelay env) as [[]|e]; [|simplify_eq; split; [by apply Hidle|tauto]].
    destruct (random_session_id (be_random env)) as [sid|e]; [|simplify_eq; split; [by apply Hidle|tauto]].
    destruct (request usize_max endpoint sid Up 0 [] false (be_open env)) as [[r|e] h'] eqn:Er;
      [|simplify_eq; split; [by apply Hidle|tauto]].
    destruct (bridge_run usize_max endpoint sid schedule idle) as [o' b'] eqn:Eb. simplify_eq.
    split; [by eapply bridge_run_sound|]. intros _. apply request_attempts in Er as (k & _ & ->).
    eexists _, r. unfold tries. by rewrite app_assoc. }
  destruct Hb as (ou & [Ur Uc] & od & [Ds Dw Da] & Ho).
  split_and!; try done; [by intros; apply Ur|]. intros E. destruct (Ho E) as [-> | ->]; [left|right; by apply Da].
  intros arr Ha. by apply Ur.
Qed.

(** ** Responses *)

(** Decimal numbers are read back. *)
Lemma dec_loop_parse max fuel z acc :
  0 ≤ z ≤ max → z < 10 ^ Z.of_nat fuel → (0 < fuel)%nat →
  parse_digits max 0 (dec_loop fuel z acc) = parse_digits max z acc.
Proof.
  revert z acc. induction fuel as [|f IH]; intros z acc Hz Hf Hp; [lia|].
  cbn [dec_loop]. assert (∀ a, a = z / 10 → parse_digits max a (48 + z mod 10 :: acc) = parse_digits max z acc) as Hd.
  { intros a ->. cbn [parse_digits]. unfold is_ascii_digit, in_range.
    pose proof (Z.mod_pos_bound z 10 ltac:(lia)). replace (_ && _) with true by (symmetry; apply andb_true_intro; lia).
    replace (z / 10 * 10 + (48 + z mod 10 - 48)) with z by div_lia. by zbool. }
  destruct (Z.eqb_spec (z / 10) 0) as [E|E]; [by apply Hd|].
  rewrite IH; [by apply Hd|split; div_lia| |].
  - replace (Z.of_nat (S f)) with (Z.of_nat f + 1) in Hf by lia. rewrite Z.pow_add_r in Hf by lia. div_lia.
  - destruct f; [|lia]. cbn in Hf. div_lia.
Qed.

Lemma dec_loop_digits fuel z acc :
  0 ≤ z → Forall (λ b, is_ascii_digit b = true) acc → Forall (λ b, is_ascii_digit b = true) (dec_loop fuel z acc).
Proof.
  revert z acc. induction fuel as [|f IH]; intros z acc Hz Ha; cbn [dec_loop]; [done|].
  assert (is_ascii_digit (48 + z mod 10) = true) as Hd.
  { pose proof (Z.mod_pos_bound z 10 ltac:(lia)). unfold is_ascii_digit, in_range. apply andb_true_intro. lia. }
  destruct (z / 10 =? 0); [by constructor|]. apply IH; [div_lia|by constructor].
Qed.

Lemma dec_digits z : 0 ≤ z → Forall (λ b, is_ascii_digit b = true) (dec z).
Proof. intros. unfold dec. zbool. by apply dec_loop_digits. Qed.

Lemma dec_loop_nonempty fuel z acc : acc ≠ [] → dec_loop fuel z acc ≠ [].
Proof. revert z acc. induction fuel as [|f IH]; intros z acc Ha; cbn; [done|]. case_match; [done|by apply IH]. Qed.

Lemma dec_nonempty z : dec z ≠ [].
Proof. unfold dec. case_match; [done|]. cbn [dec_loop]. case_match; [done|by apply dec_loop_nonempty]. Qed.

Lemma dec_parse max z : 0 ≤ z ≤ max → parse_uint max (dec z) = Some z.
Proof.
  intros Hz. assert (parse_digits max 0 (dec z) = Some z) as Hp.
  { unfold dec. zbool. rewrite dec_loop_parse; [done|done| |lia].
    replace (Z.of_nat (S (Z.to_nat (Z.log2 z)))) with (Z.succ (Z.log2 z)) by (pose proof (Z.log2_nonneg z); lia).
    destruct (Z.eq_dec z 0) as [-> |]; [done|].
    eapply Z.lt_le_trans; [apply (Z.log2_spec z); lia|]. apply Z.pow_le_mono_l. pose proof (Z.log2_nonneg z). lia. }
  pose proof (dec_digits z ltac:(lia)) as Hd.
  destruct (dec z) as [|b t] eqn:E; [by apply dec_nonempty in E|].
  inversion Hd as [|? ? Hb _]; subst. unfold parse_uint. destruct (Z.eqb_spec b 43) as [-> |]; [done|].
  repeat case_match; simplify_eq; done.
Qed.

Lemma until_newline_here l rest : 10 ∉ l → until_newline (l ++ crlf ++ rest) = (l ++ crlf, rest).
Proof.
  induction l as [|b l IH]; intros Hn; [done|]. apply not_elem_of_cons in Hn as [Hb Hn].
  cbn [app until_newline]. rewrite (proj2 (Z.eqb_neq b 10)) by auto. by rewrite (IH Hn).
Qed.

(** A line a server may send. *)
Record good_line (l : list Z) : Prop := {
  gl_newline : 10 ∉ l;
  gl_len : len l + 2 ≤ MAX_HTTP_HEAD;
  gl_utf8 : utf8_valid l = true
}.

Lemma read_line_here l rest out :
  good_line l → read_line (mkStream (l ++ crlf ++ rest) out []) = Ok (Some l, mkStream rest out []).
Proof.
  intros [Hn Hl Hu]. unfold read_line, io_call. cbn [s_faults s_in s_out]. rewrite until_newline_here by done.
  assert (is_empty (l ++ crlf) = false) as -> by (by destruct l).
  rewrite len_app. change (len crlf) with 2. zbool. cbn [orb].
  unfold ends_with_crlf. rewrite length_app. change (length crlf) with 2%nat.
  replace (length l + 2 - 2)%nat with (length l) by lia.
  rewrite drop_app_length, take_app_length. replace (2 <=? length l + 2)%nat with true by (symmetry; apply Nat.leb_le; lia).
  change (beq crlf crlf) with true. cbn. by rewrite Hu.
Qed.

(** Headers as a server writes them: names trimmed and in lower case, values trimmed. *)
Definition header_line (h : list Z * list Z) : list Z := h.1 ++ 58 :: 32 :: h.2.
Record good_header (h : list Z * list Z) : Prop := {
  gh_line : good_line (header_line h);
  gh_colon : 58 ∉ h.1;
  gh_name : to_ascii_lowercase (trim h.1) = h.1;
  gh_value : trim h.2 = h.2
}.

Definition headers_of (m : gmap (list Z) (list Z)) (hs : list (list Z * list Z)) : gmap (list Z) (list Z) :=
  foldl (λ m h, <[h.1 := h.2]> m) m hs.
Definition header_bytes (hs : list (list Z * list Z)) : list Z := concat (map (λ h, header_line h ++ crlf) hs).
Fixpoint header_total (hs : list (list Z * list Z)) : Z :=
  match hs with [] => 0 | h :: t => len (header_line h) + header_total t end.

Lemma trim_space v : trim (32 :: v) = trim v.
Proof. unfold trim. cbn [char_chunks]. by cbn. Qed.

Lemma header_total_nonneg hs : 0 ≤ header_total hs.
Proof. induction hs as [|h hs IH]; cbn; [done|]. pose proof (len_nonneg (header_line h)). lia. Qed.

Lemma empty_line_good : good_line [].
Proof. split; [apply not_elem_of_nil|by vm_compute|done]. Qed.

Lemma read_headers_here fuel total m hs rest out :
  Forall good_header hs → total + header_total hs ≤ MAX_HTTP_HEAD → (length hs < fuel)%nat →
  read_headers fuel total m (mkStream (header_bytes hs ++ crlf ++ rest) out []) = Ok (headers_of m hs, mkStream rest out []).
Proof.
  intros Hg. revert fuel total m. induction Hg as [|h hs Hh Hg IH]; intros fuel total m Ht Hf;
    (destruct fuel as [|fuel]; [cbn in Hf; lia|]); cbn [read_headers].
  - change (header_bytes [] ++ crlf ++ rest) with ([] ++ crlf ++ rest).
    rewrite (read_line_here _ _ _ empty_line_good). cbn [ok_or header_total] in *. rewrite len_nil. by zbool.
  - cbn [header_bytes map concat] in *. rewrite <-!app_assoc.
    rewrite (read_line_here _ _ _ (gh_line _ Hh)). cbn [ok_or]. cbn [header_total] in Ht. pose proof (header_total_nonneg hs). zbool.
    assert (is_empty (header_line h) = false) as -> by (unfold header_line; by destruct h as [[] ?]).
    change (split_once 58 (header_line h)) with (split_once 58 (h.1 ++ 58 :: 32 :: h.2)).
    rewrite split_once_here by apply Hh. cbn [ok_or].
    rewrite trim_space, (gh_name _ Hh), (gh_value _ Hh). cbn in Hf. apply IH; lia.
Qed.

(** A response as a server renders it. *)
Definition status_line (status : Z) (reason : list Z) : list Z := lit "HTTP/1.1" ++ 32 :: dec status ++ 32 :: reason.
Definition render_response (status : Z) (reason : list Z) (hs : list (list Z * list Z)) (body : list Z) : list Z :=
  status_line status reason ++ crlf ++ header_bytes hs ++ crlf ++ body.

Lemma digits_avoid c l : Forall (λ b, is_ascii_digit b = true) l → is_ascii_digit c = false → c ∉ l.
Proof. intros Hl Hc Hin. rewrite Forall_forall in Hl. apply list_elem_of_In, Hl in Hin. congruence. Qed.

Lemma status_line_parts status reason : 0 ≤ status → status_parts (status_line status reason) = (lit "HTTP/1.1", dec status).
Proof.
  intros Hs. unfold status_parts, status_line. rewrite split_once_here by by_vm.
  rewrite split_once_here; [done|]. by apply digits_avoid; [apply dec_digits|].
Qed.

(** A response with a content length is read back exactly: status, headers (the last of equal
    names wins) and body, with the rest of the connection left for the next
    response, as keep-alive requires. *)
Theorem http_response_roundtrip usize_max status reason hs body rest out :
  is_u16 status → good_line (status_line status reason) → Forall good_header hs → header_total hs ≤ MAX_HTTP_HEAD →
  headers_of ∅ hs !! lit "transfer-encoding" = None →
  headers_of ∅ hs !! lit "content-length" = Some (dec (len body)) →
  len body ≤ MAX_HTTP_BODY → len body ≤ usize_max →
  read_response usize_max (mkStream (render_response status reason hs body ++ rest) out [])
  = Ok (mkResponse_ status (headers_of ∅ hs) body, mkStream rest out []).
Proof.
  intros Hs Hl Hh Ht Hte Hcl Hb Hu. unfold read_response, render_response. rewrite <-!app_assoc.
  rewrite (read_line_here _ _ _ Hl). cbn [ok_or]. widths. rewrite status_line_parts by lia.
  change (beq (lit "HTTP/1.1") (lit "HTTP/1.1")) with true. cbn [negb].
  unfold parse_u16. rewrite dec_parse by (unfold u16_max; lia). cbn [ok_or s_in].
  rewrite read_headers_here; [|done|lia|].
  2:{ rewrite length_app. assert (length hs ≤ length (header_bytes hs))%nat; [|lia].
      clear. induction hs as [|h hs IH]; cbn; [lia|]. rewrite !length_app. cbn. unfold header_bytes in IH. lia. }
  rewrite Hte, Hcl, bool_decide_false by (by intros []).
  pose proof (len_nonneg body). rewrite dec_parse by lia. cbn [ok_or]. rewrite (proj2 (Z.ltb_ge _ _)) by done.
  destruct (Z.eqb_spec (len body) 0) as [E|E].
  - destruct body; [done|]. rewrite len_cons in E. pose proof (len_nonneg body). lia.
  - by rewrite read_exact_app.
Qed.

(** ** Witnesses *)
Module M5ohFixture.

Definition ok_headers : list (list Z * list Z) := [(lit "server", lit "edge"); (lit "content-length", dec 2)].

Lemma http_response_roundtrip_witness :
  read_response u64_max (mkStream (render_response 200 (lit "OK") ok_headers (lit "hi") ++ lit "HTTP") [] [])
  = Ok (mkResponse_ 200 (headers_of ∅ ok_headers) (lit "hi"), mkStream (lit "HTTP") [] []).
Proof.
  apply (http_response_roundtrip u64_max 200 (lit "OK") ok_headers (lit "hi") (lit "HTTP") []).
  - by vm_compute.
  - split; [by_vm|by vm_compute|reflexivity].
  - repeat constructor; try reflexivity; try by_vm; by vm_compute.
  - by vm_compute.
  - reflexivity.
  - reflexivity.
  - by vm_compute.
  - by vm_compute.
Defined.

Definition answer (hs : list (list Z * list Z)) (body : list Z) : list Z :=
  render_response 200 (lit "OK") ((lit "content-length", dec (len body)) :: hs) body.
Definition conn (bytes : list Z) : io Stream := Ok (mkStream bytes [] []).
Definition idle_http (connects : list (io Stream)) : Http := mkHttp connects (mkStream [] [] []) [].

(** The first upload request loses its connection and is retried; the download
    gets one body and the end. *)
Definition env : BridgeEnv := {|
  be_nodelay := Ok tt; be_random := Ok (replicate 16 10); be_open := idle_http [conn (answer [] [])];
  be_reads := [Data (lit "hel"); Data (lit "lo"); Pause; Data []];
  be_up := idle_http [conn []; conn (answer [] [] ++ answer [] [])];
  be_writer := mkWriter [] []; be_down := idle_http [conn (answer [] (lit "world"))]
|}.
Definition node : Endpoint := mkEndpoint (lit "ove.rs") 443 true None (Some sample_dest).
Definition run : outcome * Http * Bridge := bridge u64_max env node [Up; Down; Up; Down; Up].

Lemma bridge_faithful_witness :
  run.1.1 = Ended (Ok tt) ∧
  ((∀ arr, arrived (ht_attempts (up_http (b_upload run.2))) arr →
      rc_data (receive arr fresh_receiver) = lit "hello" ∧ rc_closed (receive arr fresh_receiver) = true)
   ∨ (wr_written (dn_writer (b_download run.2)) = bodies (ht_attempts (dn_http (b_download run.2)))
      ∧ ended_by_server (ht_attempts (dn_http (b_download run.2))))).
Proof.
  assert (run.1.1 = Ended (Ok tt)) as E by (vm_compute; reflexivity). split; [exact E|].
  apply (bridge_faithful u64_max env node [Up; Down; Up; Down; Up] run.1.1 run.1.2 run.2).
  - reflexivity.
  - reflexivity.
  - reflexivity.
  - unfold run. by destruct (bridge u64_max env node [Up; Down; Up; Down; Up]) as [[]].
  - exact E.
Defined.
End M5ohFixture.
