(* ===== verification/WebCore.v ===== *)
(** * The browser client: protocol code (src/wasm/src/lib.rs)

    The browser crate has its own implementation of the route selector, the Noise
    handshake, records and frames, since it cannot use the TCP client.  This file
    translates the parts that do not talk to the browser.  Errors are the messages
    of [JsValue]s.  The crates it calls are the class [WebLibs]; the
    cryptographic ones are those of [Crypto].  [usize] has 32 bits on this
    target; arithmetic that can only overflow after 2{^64} records wraps, as in a
    release build. *)
From S2P Require Import Prelude RustStr Crypto Json.

Abbreviation js := (result (list Z)).

(** ** Constants *)
Definition HEADER_SESSION : list Z := lit "X-MST5-Session".
Definition HEADER_CHANNEL : list Z := lit "X-MST5-Channel".
Definition HEADER_SEQUENCE : list Z := lit "X-MST5-Seq".
Definition HEADER_EOF : list Z := lit "X-MST5-EOF".
Definition MAX_GET_TARGET : Z := 23 * 1024.
Definition GET_TARGET_PREFIX : Z := 4.
Definition PACKET_ROUTE_BYTES : Z := 8.
Definition MAX_GET_RECORD_BYTES : Z := (MAX_GET_TARGET - GET_TARGET_PREFIX) / 4 * 3 - PACKET_ROUTE_BYTES.
Definition CLIENT_MAGIC : list Z := lit "RCP5".
Definition SERVER_MAGIC : list Z := lit "RSP5".
Definition TAG_LEN : Z := 16.
Definition PROTOCOL_NAME : list Z := lit "Noise_NK_25519_ChaChaPoly_SHA256".
Definition PROLOGUE : list Z := lit "MicroMsg Secure Transport v5" ++ [0] ++ lit "RCP5" ++ [0] ++ lit "RSP5".
Definition RECORD_LABEL : list Z := lit "MST5 record".
Definition PADDING_BLOCK : Z := 256.
Definition LARGE_PADDING_BLOCK : Z := 128.
Definition LARGE_PADDING_THRESHOLD : Z := 1024.
Definition MAX_RECORD_BYTES : Z := 4 * 1024 * 1024.
Definition TRANSPORT_MAJOR : Z := 5.
Definition RPC_MAJOR : Z := 1.
Definition RPC_MINOR : Z := 2.
Definition FEATURE_MULTIPLEX : Z := 1.
Definition FEATURE_STRUCTURED_ERRORS : Z := Z.shiftl 1 1.
Definition FEATURE_CBOR_QUERY : Z := Z.shiftl 1 2.
Definition FEATURE_IDEMPOTENCY : Z := Z.shiftl 1 3.
Definition FEATURE_DEADLINE : Z := Z.shiftl 1 4.
Definition FEATURE_CANCEL : Z := Z.shiftl 1 5.
Definition FEATURE_MEDIA_STREAMS : Z := Z.shiftl 1 6.
Definition REQUIRED_FEATURES : Z :=
  Z.lor (Z.lor (Z.lor (Z.lor (Z.lor FEATURE_MULTIPLEX FEATURE_STRUCTURED_ERRORS) FEATURE_CBOR_QUERY)
    FEATURE_IDEMPOTENCY) FEATURE_DEADLINE) FEATURE_CANCEL.
Definition REQUIRED_MEDIA_FEATURES : Z := Z.lor FEATURE_STRUCTURED_ERRORS FEATURE_MEDIA_STREAMS.
Definition BROWSER_MEDIA_CHUNK : Z := 16 * 1024.
Definition M5OH_EMPTY_POLL_INITIAL_MS : Z := 125.
Definition M5OH_EMPTY_POLL_MAX_MS : Z := 2000.
Definition MST5_KIND_AUTH : Z := 1.
Definition MST5_KIND_COMMAND : Z := 2.
Definition MST5_FLAG_DEFLATE : Z := 1.
Definition MST5_KIND_RESULT : Z := 4.
Definition MST5_KIND_ACK : Z := 6.
Definition MST5_KIND_ERROR : Z := 7.
Definition MST5_KIND_HELLO : Z := 11.
Definition MST5_KIND_STREAM_OPEN : Z := 14.
Definition MST5_KIND_STREAM_DATA : Z := 15.
Definition MST5_KIND_STREAM_END : Z := 16.
Definition MST5_KIND_STREAM_ABORT : Z := 17.
Definition MEDIA_OP_UPLOAD : Z := 1.
Definition MEDIA_OP_DOWNLOAD : Z := 2.
Definition MAX_BROWSER_DOWNLOAD_BYTES : Z := 128 * 1024 * 1024.

(** [usize::try_from(u64)] on wasm32. *)
Definition usize_try_from (n : Z) : option Z := if n <=? u32_max then Some n else None.

(** ** Libraries

    base64 (standard and URL-safe without padding), serde_cbor on JSON values,
    and [DeflateDecoder::new(input).take(n).read_to_end]. *)
Class WebLibs `{N : JsonNumber} := {
  b64_encode : list Z → list Z;
  b64_decode : list Z → option (list Z);
  b64url_encode : list Z → list Z;
  b64url_decode : list Z → option (list Z);
  cbor_to_vec : JsonValue → option (list Z);
  cbor_from_slice : list Z → option JsonValue;
  deflate_read : list Z → Z → option (list Z)
}.

(** ** Routes *)

(** [ipv4.split('.').map(str::parse::<u8>).collect()]. *)
Definition parse_octets (ipv4 : list Z) : option (list Z) := mapM (parse_uint 255) (split_on 46 ipv4).

Definition route_wire (octets : list Z) (port reserved : Z) : list Z :=
  let logical := [as_u8 (Z.shiftr port 8); as_u8 port; nth 0 octets 0; nth 1 octets 0; nth 2 octets 0; nth 3 octets 0;
                  as_u8 (Z.shiftr reserved 8); as_u8 reserved] in
  map (λ i, nth i logical 0) [0%nat; 7%nat; 3%nat; 5%nat; 1%nat; 6%nat; 4%nat; 2%nat].

Definition encode_route `{WebLibs} (ipv4 : list Z) (port reserved : Z) : js (list Z) :=
  let? octets := ok_or (parse_octets ipv4) (lit "route IPv4 address is invalid") in
  fail_if (negb (len octets =? 4)) with lit "route IPv4 address is invalid";
  Ok (b64url_encode (route_wire octets port reserved)).

Record M5ohFetch := mkFetch { mf_endpoint : list Z; mf_route : list Z }.

Definition fetch_new (endpoint route : list Z) : js M5ohFetch :=
  let endpoint := trim_end_matches 47 endpoint in
  fail_if (negb (starts_with (lit "https://") endpoint)) with lit "browser M5oHS endpoint must use HTTPS";
  fail_if (negb (len route =? 11) || negb (forallb (λ b, is_ascii_alnum b || (b =? 45) || (b =? 95)) route))
    with lit "M5oH route must be an eight-byte base64url selector";
  Ok (mkFetch endpoint route).

(** The URL of a fetch. *)
Definition fetch_url `{WebLibs} (t : M5ohFetch) (record : option (list Z)) : js (list Z) :=
  match record with
  | Some record =>
      let? packet := ok_or (b64url_decode (mf_route t)) (lit "invalid M5oH route selector") in
      Ok (mf_endpoint t ++ lit "/?r=" ++ b64url_encode (packet ++ record))
  | None => Ok (mf_endpoint t ++ lit "/?r=" ++ mf_route t)
  end.

Definition parse_destination (value : list Z) : js (list Z * Z) :=
  let? (ip, port) := ok_or (rsplit_once 58 value) (lit "invalid M5oH destination") in
  let? port := ok_or (parse_u16 port) (lit "invalid M5oH port") in
  Ok (ip, port).

(** [path.split(['/', '?', '#']).next()]. *)
Fixpoint until_any (cs l : list Z) : list Z :=
  match l with
  | [] => []
  | b :: t => if contains_byte b cs then [] else b :: until_any cs t
  end.

(** [split_once("://")]. *)
Fixpoint after_str (p l : list Z) : option (list Z) :=
  match strip_prefix p l with
  | Some r => Some r
  | None => match l with [] => None | _ :: t => after_str p t end
  end.

Definition parse_media_destination (value : list Z) : js (list Z) :=
  let? fallback :=
    ok_or (List.find (λ item, starts_with (lit "http://") item || starts_with (lit "https://") item) (map trim (split_on 124 value)))
      (lit "media node has no browser M5oH endpoint") in
  let? after_scheme := ok_or (after_str (lit "://") fallback) (lit "invalid browser media endpoint") in
  let? (_, path) := ok_or (split_once 47 after_scheme) (lit "browser media endpoint lacks a destination") in
  let destination := until_any [47; 63; 35] path in
  let? (ip, port) := parse_destination destination in
  fail_if (negb (len (split_on 46 ip) =? 4) || existsb (λ part, negb (bool_decide (is_Some (parse_uint 255 part)))) (split_on 46 ip))
    with lit "browser media destination must be IPv4";
  Ok (ip ++ [58] ++ dec port).

Definition decode_server_key `{WebLibs} (value : list Z) : js (list Z) :=
  let? bytes := ok_or (b64_decode (trim value)) (lit "invalid MST5 server public key") in
  fail_if (negb (len bytes =? 32)) with lit "MST5 server public key must be 32 bytes";
  Ok bytes.

(** ** Hexadecimal *)
Definition HEX : list Z := lit "0123456789abcdef".
Definition hex_bytes (bytes : list Z) : list Z :=
  concat (map (λ b, [nth (Z.to_nat (Z.shiftr b 4)) HEX 0; nth (Z.to_nat (Z.land b 15)) HEX 0]) bytes).

(** ** The cipher *)
Record CipherState := mkCipher { ci_key : list Z; ci_nonce : Z }.
Record SymmetricState := mkSymmetric { sy_key : list Z; sy_hash : list Z; sy_cipher : option (list Z); sy_nonce : Z }.

Definition aead_nonce (value : Z) : list Z := replicate 4 0 ++ le_bytes 8 value.

Definition record_aad (hash : list Z) (length sequence : Z) : js (list Z) :=
  fail_if (u32_max <? length) with lit "record too large";
  Ok (RECORD_LABEL ++ hash ++ be_bytes 4 length ++ be_bytes 8 sequence).

Definition require_shared (value : list Z) : js unit :=
  fail_if (forallb (Z.eqb 0) value) with lit "invalid MST5 key exchange"; Ok tt.

Section Cipher.
Context `{C : Crypto}.

Definition aead_encrypt (key : list Z) (nonce : Z) (aad value : list Z) : js (list Z) :=
  fail_if (negb (len key =? 32)) with lit "invalid cipher key";
  ok_or (chacha_encrypt key (aead_nonce nonce) aad value) (lit "MST5 encryption failed").

Definition aead_decrypt (key : list Z) (nonce : Z) (aad value : list Z) : js (list Z) :=
  fail_if (negb (len key =? 32)) with lit "invalid cipher key";
  ok_or (chacha_decrypt key (aead_nonce nonce) aad value) (lit "MST5 authentication failed").

Definition hkdf (key input : list Z) : list Z * list Z :=
  let out := hkdf_expand key input [] 64 in (take 32 out, drop 32 out).

Definition mix_hash (st : SymmetricState) (data : list Z) : SymmetricState :=
  mkSymmetric (sy_key st) (sha256_digest (sy_hash st ++ data)) (sy_cipher st) (sy_nonce st).

Definition symmetric_new (server : list Z) : SymmetricState :=
  mix_hash (mix_hash (mkSymmetric PROTOCOL_NAME PROTOCOL_NAME None 0) PROLOGUE) server.

Definition mix_key (st : SymmetricState) (input : list Z) : SymmetricState :=
  let '(key, cipher) := hkdf (sy_key st) input in mkSymmetric key (sy_hash st) (Some cipher) 0.

Definition encrypt_and_hash (st : SymmetricState) (value : list Z) : js (list Z * SymmetricState) :=
  match sy_cipher st with
  | Some key =>
      let? output := aead_encrypt key (sy_nonce st) (sy_hash st) value in
      Ok (output, mix_hash (mkSymmetric (sy_key st) (sy_hash st) (Some key) (as_u64 (sy_nonce st + 1))) output)
  | None => Ok (value, mix_hash st value)
  end.

Definition decrypt_and_hash (st : SymmetricState) (value : list Z) : js (list Z * SymmetricState) :=
  match sy_cipher st with
  | Some key =>
      let? output := aead_decrypt key (sy_nonce st) (sy_hash st) value in
      Ok (output, mix_hash (mkSymmetric (sy_key st) (sy_hash st) (Some key) (as_u64 (sy_nonce st + 1))) value)
  | None => Ok (value, mix_hash st value)
  end.

Definition split (st : SymmetricState) : CipherState * CipherState :=
  let '(first, second) := hkdf (sy_key st) [] in (mkCipher first 0, mkCipher second 0).

(** ** Records *)
Definition next_nonce (c : CipherState) : CipherState := mkCipher (ci_key c) (as_u64 (ci_nonce c + 1)).

Definition seal_record (c : CipherState) (hash payload : list Z) : js (list Z) * CipherState :=
  let base := 5 + len payload in
  let block := if base <=? LARGE_PADDING_THRESHOLD then PADDING_BLOCK else LARGE_PADDING_BLOCK in
  let padded := (base + block - 1) / block * block in
  let plain := [0] ++ be_bytes 4 (as_u32 (len payload)) ++ payload ++ replicate (Z.to_nat (padded - base)) 0 in
  let sequence := ci_nonce c in
  let length := 8 + len plain + TAG_LEN in
  match (let? aad := record_aad hash length sequence in aead_encrypt (ci_key c) sequence aad plain) with
  | Ok encrypted => (Ok (be_bytes 8 sequence ++ encrypted), next_nonce c)
  | Err e => (Err e, c)
  end.

Definition open_record (c : CipherState) (hash record : list Z) : js (list Z) * CipherState :=
  if len record <? 24 then (Err (lit "short MST5 encrypted record"), c)
  else
    let sequence := from_be (take 8 record) in
    if negb (sequence =? ci_nonce c) then (Err (lit "MST5 encrypted record sequence mismatch"), c)
    else
      match (let? aad := record_aad hash (len record) sequence in aead_decrypt (ci_key c) sequence aad (drop 8 record)) with
      | Err e => (Err e, c)
      | Ok plain =>
          ((fail_if ((len plain <? 5) || negb (nth 0 plain 0 =? 0)) with lit "invalid MST5 secure transport plaintext";
            let length := from_be (slice 1 5 plain) in
            fail_if ((len plain <? 5 + length) || existsb (λ b, negb (b =? 0)) (drop (Z.to_nat (5 + length)) plain))
              with lit "invalid secure transport padding";
            Ok (take (Z.to_nat length) (drop 5 plain))), next_nonce c)
      end.
End Cipher.

(** ** Frames *)
Record WebFrame := mkWebFrame { wf_kind : Z; wf_code : Z; wf_id : Z; wf_payload : list Z }.

(** [random] is the outcome of [getrandom::fill], called for COMMANDs only. *)
Definition frame_encode (kind code id : Z) (payload : list Z) (random : io (list Z)) : js (list Z) :=
  fail_if (MAX_RECORD_BYTES <? len payload) with lit "MST5 frame too large";
  let? request_nonce :=
    (if kind =? 2 then map_err (λ _, lit "browser random generator is unavailable") random else Ok (replicate 16 0)) in
  Ok ([kind; 0] ++ be_bytes 2 code ++ be_bytes 8 id ++ request_nonce ++ be_bytes 8 0
      ++ be_bytes 4 (as_u32 (len payload)) ++ payload).

Definition frame_decode `{WebLibs} (input : list Z) : js WebFrame :=
  fail_if (len input <? 40) with lit "invalid MST5 frame";
  let flags := nth 1 input 0 in
  fail_if (negb (Z.land flags (255 - MST5_FLAG_DEFLATE) =? 0)) with lit "unsupported MST5 frame compression";
  let size := from_be (slice 36 40 input) in
  fail_if (negb (len input =? 40 + size)) with lit "invalid MST5 frame size";
  let? payload :=
    (if flags =? MST5_FLAG_DEFLATE then
       let? output := ok_or (deflate_read (drop 40 input) (MAX_RECORD_BYTES + 1)) (lit "invalid MST5 deflate payload") in
       fail_if (MAX_RECORD_BYTES <? len output) with lit "MST5 deflate payload exceeds the frame limit";
       Ok output
     else Ok (drop 40 input)) in
  Ok (mkWebFrame (nth 0 input 0) (from_be (slice 2 4 input)) (from_be (slice 4 12 input)) payload).

Definition successful_response (request_kind response_kind code : Z) : bool :=
  let expected_kind := if request_kind =? 11 then 11 else 4 in
  (response_kind =? expected_kind) && (200 <=? code) && (code <? 300).

Definition frame_error `{WebLibs} (context : list Z) (f : WebFrame) : list Z :=
  let message :=
    match cbor_from_slice (wf_payload f) with
    | Some value => match jget value (lit "message") with Some m => jas_str m | None => None end
    | None => None
    end in
  context ++ lit ": " ++ default (lit "MST5 status " ++ dec (wf_code f)) message.

Definition auth_session_token `{JsonNumber} (value : JsonValue) : option (list Z) :=
  match jget value (lit "token") with
  | Some t => match jas_str t with Some s => if is_empty (trim s) then None else Some s | None => None end
  | None => None
  end.

(** ** Operations *)
Definition operation_table : list ((list Z * list Z) * Z) := [
  ((lit "POST", lit "/register"), 1);
  ((lit "POST", lit "/login"), 2);
  ((lit "POST", lit "/auth/email/start"), 3);
  ((lit "POST", lit "/auth/email/verify"), 4);
  ((lit "POST", lit "/auth/qr/start"), 98);
  ((lit "GET", lit "/auth/qr/poll"), 99);
  ((lit "POST", lit "/auth/qr/approve"), 100);
  ((lit "GET", lit "/me"), 5);
  ((lit "POST", lit "/account/delete"), 6);
  ((lit "POST", lit "/username"), 7);
  ((lit "POST", lit "/name"), 8);
  ((lit "POST", lit "/privacy"), 9);
  ((lit "GET", lit "/contacts"), 10);
  ((lit "POST", lit "/contacts/add"), 11);
  ((lit "POST", lit "/contacts/delete"), 12);
  ((lit "POST", lit "/groups"), 13);
  ((lit "POST", lit "/channels"), 14);
  ((lit "POST", lit "/chats/title"), 15);
  ((lit "POST", lit "/channels/username"), 16);
  ((lit "POST", lit "/channels/comments/settings"), 17);
  ((lit "POST", lit "/channels/comments/send"), 18);
  ((lit "GET", lit "/channels/comments"), 19);
  ((lit "POST", lit "/chats/members/add"), 20);
  ((lit "POST", lit "/chats/members/remove"), 21);
  ((lit "POST", lit "/cloud-password"), 22);
  ((lit "POST", lit "/cloud-password/reset"), 23);
  ((lit "GET", lit "/sessions"), 24);
  ((lit "POST", lit "/sessions/revoke"), 25);
  ((lit "POST", lit "/sessions/revoke-others"), 26);
  ((lit "POST", lit "/bots"), 27);
  ((lit "POST", lit "/bots/token/reset"), 28);
  ((lit "POST", lit "/e2e/key"), 29);
  ((lit "GET", lit "/e2e/key"), 30);
  ((lit "POST", lit "/e2e/backup"), 31);
  ((lit "GET", lit "/e2e/backup"), 32);
  ((lit "POST", lit "/e2e/reset"), 33);
  ((lit "GET", lit "/wallet"), 34);
  ((lit "POST", lit "/wallet/send"), 35);
  ((lit "GET", lit "/wallet/history"), 36);
  ((lit "POST", lit "/call"), 37);
  ((lit "POST", lit "/voice-ticket"), 38);
  ((lit "GET", lit "/voice/participants"), 39);
  ((lit "POST", lit "/send"), 40);
  ((lit "POST", lit "/edit"), 41);
  ((lit "POST", lit "/callback"), 42);
  ((lit "POST", lit "/reactions"), 43);
  ((lit "POST", lit "/reactions/paid"), 44);
  ((lit "POST", lit "/read"), 45);
  ((lit "POST", lit "/delete"), 46);
  ((lit "POST", lit "/favorite"), 47);
  ((lit "GET", lit "/nodes/status"), 50);
  ((lit "GET", lit "/chats"), 51);
  ((lit "POST", lit "/chats/delete"), 52);
  ((lit "POST", lit "/users/ban"), 53);
  ((lit "POST", lit "/users/unban"), 54);
  ((lit "GET", lit "/history"), 55);
  ((lit "GET", lit "/updates"), 56);
  ((lit "GET", lit "/oauth/device/request"), 60);
  ((lit "POST", lit "/oauth/device/decision"), 61);
  ((lit "GET", lit "/file/ticket"), 65);
  ((lit "POST", lit "/forward"), 69);
  ((lit "POST", lit "/media/quote"), 70);
  ((lit "POST", lit "/messages/prepare"), 71);
  ((lit "POST", lit "/messages/commit"), 72);
  ((lit "POST", lit "/messages/cancel"), 73);
  ((lit "POST", lit "/pin"), 92);
  ((lit "POST", lit "/polls/vote"), 93);
  ((lit "GET", lit "/chats/favorites"), 94);
  ((lit "POST", lit "/chats/favorite"), 95);
  ((lit "GET", lit "/chats/folders"), 96);
  ((lit "POST", lit "/chats/folder"), 97);
  ((lit "POST", lit "/avatars/prepare"), 86);
  ((lit "POST", lit "/avatars/commit"), 87);
  ((lit "POST", lit "/avatars/delete"), 88);
  ((lit "POST", lit "/profiles/description"), 74);
  ((lit "GET", lit "/bots/commands"), 79);
  ((lit "GET", lit "/stickers/packs"), 80);
  ((lit "GET", lit "/stickers/pack"), 81);
  ((lit "POST", lit "/stickers/packs"), 82);
  ((lit "POST", lit "/stickers/packs/purchase"), 83);
  ((lit "POST", lit "/stickers/send"), 84);
  ((lit "POST", lit "/stickers/packs/price"), 85)
].

Fixpoint find_route (key : list Z * list Z) (l : list ((list Z * list Z) * Z)) : option Z :=
  match l with
  | [] => None
  | (k, code) :: t => if bool_decide (k = key) then Some code else find_route key t
  end.

Definition operation (method path : list Z) : js Z :=
  ok_or (find_route (method, path) operation_table) (lit "unsupported MST5 operation " ++ method ++ [32] ++ path).
