(* ===== verification/Web.v ===== *)
(** * The browser client: sessions, media and the JavaScript API (src/wasm/src/lib.rs)

    The methods are [async] and mutate [&mut self]: a [web S A] maps a state to an
    answer and the state it leaves, also when it throws.  [Pending] is a method
    whose promise the browser has not settled.  The state of every method contains
    the [Browser]: the answers of [fetch] still to come, the outcome of timers,
    of the random generator and of callbacks, and what the client did so far.  The
    number of answers bounds the polling loops, so the model needs no other fuel. *)
From S2P Require Import Prelude RustStr Crypto Frame E2E Media Json WebCore.

(** ** Effects *)
Inductive answer (A : Type) := Return (a : A) | Throw (e : list Z) | Pending.
Arguments Return {A} a.
Arguments Throw {A} e.
Arguments Pending {A}.

Definition web (S A : Type) : Type := S → answer A * S.

Definition wret {S A} (a : A) : web S A := λ s, (Return a, s).
Definition wthrow {S A} (e : list Z) : web S A := λ s, (Throw e, s).
Definition wbind {S A B} (m : web S A) (k : A → web S B) : web S B := λ s,
  match m s with
  | (Return a, s) => k a s
  | (Throw e, s) => (Throw e, s)
  | (Pending, s) => (Pending, s)
  end.
Notation "'await' x := m 'in' k" := (wbind m (λ x, k))
  (at level 10, x pattern, k at level 200) : rust_scope.
Notation "'throw_when' c 'with' e ; k" := (if c then wthrow e else k)
  (at level 10, c at level 100, e at level 100, k at level 200) : rust_scope.

Definition wlift {S A} (r : js A) : web S A := λ s, (match r with Ok a => Return a | Err e => Throw e end, s).
(** [map_err(e2e_error)]: the text of an [io::Error]. *)
Definition e2e_error {A} (r : io A) : js A := map_err emsg r.
Definition wget {S} : web S S := λ s, (Return s, s).
Definition wput {S} (s : S) : web S unit := λ _, (Return tt, s).
(** A mutation that returns a result. *)
Definition wmodify {S A} (f : S → js A * S) : web S A := λ s,
  let '(r, s') := f s in (match r with Ok a => Return a | Err e => Throw e end, s').
(** A method of a part of the state. *)
Definition within {S T A} (get : S → T) (set : T → S → S) (m : web T A) : web S A := λ s,
  let '(r, t) := m (get s) in (r, set t s).

(** ** The browser *)

(** The answer of one [fetch], or the exception any of the browser calls around it
    threw. *)
Inductive fetch_answer :=
| FetchFailed (e : list Z)
| FetchResponse (ok : bool) (status : Z) (status_header : js (option (list Z))) (body : js (list Z)).

Record WebRequest := mkWebRequest {
  wq_url : list Z; wq_session : list Z; wq_channel : list Z; wq_sequence : Z; wq_eof : bool
}.

Record Browser := mkBrowser {
  br_answers : list fetch_answer;
  br_requests : list WebRequest;       (** history *)
  br_sleep : nat → js unit;            (** outcome of the n-th timer *)
  br_slept : list Z;                   (** history of delays *)
  br_random : nat → io (list Z);       (** outcome of the n-th [getrandom::fill] *)
  br_drawn : nat;
  br_secrets : nat → list Z;           (** the n-th [ReusableSecret::random] *)
  br_sessions : nat;
  br_callback : nat → js unit;         (** outcome of the n-th JavaScript callback *)
  br_chunks : list (list Z)            (** history of chunks given to callbacks *)
}.

Definition draw : web Browser (io (list Z)) := λ b,
  (Return (br_random b (br_drawn b)),
   mkBrowser (br_answers b) (br_requests b) (br_sleep b) (br_slept b) (br_random b) (S (br_drawn b))
     (br_secrets b) (br_sessions b) (br_callback b) (br_chunks b)).

(** [n] more outcomes are used. *)
Definition skip_draws (n : nat) : web Browser unit := λ b,
  (Return tt,
   mkBrowser (br_answers b) (br_requests b) (br_sleep b) (br_slept b) (br_random b) (br_drawn b + n)
     (br_secrets b) (br_sessions b) (br_callback b) (br_chunks b)).

Definition draw_secret : web Browser (list Z) := λ b,
  (Return (br_secrets b (br_sessions b)),
   mkBrowser (br_answers b) (br_requests b) (br_sleep b) (br_slept b) (br_random b) (br_drawn b)
     (br_secrets b) (S (br_sessions b)) (br_callback b) (br_chunks b)).

Definition browser_sleep (delay_ms : Z) : web Browser unit := λ b,
  (match br_sleep b (length (br_slept b)) with Ok u => Return u | Err e => Throw e end,
   mkBrowser (br_answers b) (br_requests b) (br_sleep b) (br_slept b ++ [Z.max delay_ms 0]) (br_random b) (br_drawn b)
     (br_secrets b) (br_sessions b) (br_callback b) (br_chunks b)).

Definition on_chunk (chunk : list Z) : web Browser unit := λ b,
  (match br_callback b (length (br_chunks b)) with Ok u => Return u | Err e => Throw e end,
   mkBrowser (br_answers b) (br_requests b) (br_sleep b) (br_slept b) (br_random b) (br_drawn b)
     (br_secrets b) (br_sessions b) (br_callback b) (br_chunks b ++ [chunk])).

(** A request goes out and its answer comes back. *)
Definition exchange (q : WebRequest) : web Browser fetch_answer := λ b,
  (match br_answers b with a :: _ => Return a | [] => Pending end,
   mkBrowser (tail (br_answers b)) (br_requests b ++ [q]) (br_sleep b) (br_slept b) (br_random b) (br_drawn b)
     (br_secrets b) (br_sessions b) (br_callback b) (br_chunks b)).

(** What the client takes from the answer. *)
Definition fetch_body (a : fetch_answer) : js (list Z) :=
  match a with
  | FetchFailed e => Err e
  | FetchResponse ok status status_header body =>
      fail_if (negb ok) with lit "M5oH HTTP " ++ dec status;
      let? header := status_header in
      if bool_decide (header = Some (lit "OK")) then Ok [] else body
  end.

Definition browser_tunnel_id : web Browser (list Z) :=
  await random := draw in
  wlift (result_map hex_bytes (map_err (λ _, lit "browser random generator is unavailable") random)).

(** ** Sessions *)
Record BrowserSession := mkBrowserSession {
  bs_transport : M5ohFetch; bs_tunnel_id : list Z; bs_upstream_seq : Z; bs_downstream_seq : Z;
  bs_received : list Z; bs_seal : CipherState; bs_open : CipherState; bs_handshake_hash : list Z; bs_next_request : Z
}.

Definition set_received (l : list Z) (s : BrowserSession) : BrowserSession :=
  mkBrowserSession (bs_transport s) (bs_tunnel_id s) (bs_upstream_seq s) (bs_downstream_seq s) l (bs_seal s) (bs_open s)
    (bs_handshake_hash s) (bs_next_request s).
Definition set_downstream (n : Z) (s : BrowserSession) : BrowserSession :=
  mkBrowserSession (bs_transport s) (bs_tunnel_id s) (bs_upstream_seq s) n (bs_received s) (bs_seal s) (bs_open s)
    (bs_handshake_hash s) (bs_next_request s).
Definition set_upstream (n : Z) (s : BrowserSession) : BrowserSession :=
  mkBrowserSession (bs_transport s) (bs_tunnel_id s) n (bs_downstream_seq s) (bs_received s) (bs_seal s) (bs_open s)
    (bs_handshake_hash s) (bs_next_request s).
Definition set_seal (c : CipherState) (s : BrowserSession) : BrowserSession :=
  mkBrowserSession (bs_transport s) (bs_tunnel_id s) (bs_upstream_seq s) (bs_downstream_seq s) (bs_received s) c (bs_open s)
    (bs_handshake_hash s) (bs_next_request s).
Definition set_open (c : CipherState) (s : BrowserSession) : BrowserSession :=
  mkBrowserSession (bs_transport s) (bs_tunnel_id s) (bs_upstream_seq s) (bs_downstream_seq s) (bs_received s) (bs_seal s) c
    (bs_handshake_hash s) (bs_next_request s).
Definition set_next_request (n : Z) (s : BrowserSession) : BrowserSession :=
  mkBrowserSession (bs_transport s) (bs_tunnel_id s) (bs_upstream_seq s) (bs_downstream_seq s) (bs_received s) (bs_seal s)
    (bs_open s) (bs_handshake_hash s) n.

(** The methods of a session run in the browser. *)
Abbreviation sweb A := (web (Browser * BrowserSession) A).
Definition in_browser {T A} (m : web Browser A) : web (Browser * T) A := within fst (λ b s, (b, s.2)) m.
Definition in_session {T A} (m : web T A) : web (Browser * T) A := within snd (λ t s, (s.1, t)) m.

Section WebSession.
Context `{N : JsonNumber} `{L : !WebLibs} `{C : Crypto}.

(** ** [M5ohFetch] *)
Definition fetch (t : M5ohFetch) (session channel : list Z) (sequence : Z) (record : option (list Z)) (eof : bool)
  : web Browser (list Z) :=
  await url := wlift (fetch_url t record) in
  await a := exchange (mkWebRequest url session channel sequence eof) in
  wlift (fetch_body a).

Definition upstream_bytes (t : M5ohFetch) (session : list Z) (sequence : Z) (record : list Z) (eof : bool) : web Browser (list Z) :=
  throw_when (MAX_GET_RECORD_BYTES <? len record) with lit "M5oH encrypted GET record exceeds CDN limit";
  fetch t session (lit "up") sequence (Some record) eof.

Definition downstream_bytes (t : M5ohFetch) (session : list Z) (sequence : Z) : web Browser (list Z) :=
  fetch t session (lit "down") sequence None false.

(** ** The handshake *)
Definition next_delay (delay : Z) : Z := Z.min (delay * 2) M5OH_EMPTY_POLL_MAX_MS.

(** The polls for the server's hello: the bytes and the next sequence number. *)
Fixpoint handshake_poll (fuel : nat) (t : M5ohFetch) (tunnel_id received : list Z) (down delay : Z) : web Browser (list Z * Z) :=
  match fuel with
  | O => λ b, (Pending, b)
  | S fuel =>
      if len received <? 54 then
        await body := downstream_bytes t tunnel_id down in
        if is_empty body then
          await _ := browser_sleep delay in
          handshake_poll fuel t tunnel_id received (as_u64 (down + 1)) (next_delay delay)
        else handshake_poll fuel t tunnel_id (received ++ body) (as_u64 (down + 1)) M5OH_EMPTY_POLL_INITIAL_MS
      else wret (received, down)
  end.

(** The client's hello and the state after it. *)
Definition client_hello (client_private server_key : list Z) : js (list Z * SymmetricState) :=
  let public := x25519_public client_private in
  let st := mix_hash (symmetric_new server_key) public in
  let es := x25519 client_private server_key in
  let? _ := require_shared es in
  let? (tag, st) := encrypt_and_hash (mix_key st es) [] in
  Ok (CLIENT_MAGIC ++ be_bytes 2 48 ++ public ++ tag, st).

(** The server's hello, in the first 54 bytes received. *)
Definition server_hello (client_private : list Z) (st : SymmetricState) (received : list Z) : js SymmetricState :=
  fail_if (negb (beq (take 4 received) SERVER_MAGIC) || negb (from_be (slice 4 6 received) =? 48))
    with lit "invalid MST5 server hello";
  let ephemeral := slice 6 38 received in
  let ee := x25519 client_private ephemeral in
  let? _ := require_shared ee in
  let? (payload, st) := decrypt_and_hash (mix_key (mix_hash st ephemeral) ee) (slice 38 54 received) in
  fail_if (negb (is_empty payload)) with lit "invalid MST5 server handshake";
  Ok st.

Definition handshake (t : M5ohFetch) (tunnel_id server_key : list Z) : web Browser BrowserSession :=
  await client_private := draw_secret in
  await (hello, st) := wlift (client_hello client_private server_key) in
  await _ := upstream_bytes t tunnel_id 1 hello false in
  await b := wget in
  await (received, down) := handshake_poll (S (length (br_answers b))) t tunnel_id [] 0 M5OH_EMPTY_POLL_INITIAL_MS in
  await st := wlift (server_hello client_private st received) in
  let '(seal, open) := split st in
  wret (mkBrowserSession t tunnel_id 2 down (drop 54 received) seal open (sy_hash st) 1).

(** ** Records of a session *)
Definition take_request_id : sweb Z := in_session (wmodify (λ s,
  match checked_add64 (bs_next_request s) 1 with
  | Some n => (Ok (bs_next_request s), set_next_request n s)
  | None => (Err (lit "MST5 request id exhausted"), s)
  end)).

Definition write_record (frame : list Z) : sweb unit :=
  await record := in_session (wmodify (λ s,
    let '(r, c) := seal_record (bs_seal s) (bs_handshake_hash s) frame in (r, set_seal c s))) in
  await (_, s) := wget in
  await _ := in_browser (upstream_bytes (bs_transport s) (bs_tunnel_id s) (bs_upstream_seq s)
                           (be_bytes 4 (as_u32 (len record)) ++ record) false) in
  in_session (wmodify (λ s,
    match checked_add64 (bs_upstream_seq s) 1 with
    | Some n => (Ok tt, set_upstream n s)
    | None => (Err (lit "M5oH upload sequence exhausted"), s)
    end)).

Fixpoint read_loop (fuel : nat) (length_ delay : Z) : sweb (list Z) :=
  match fuel with
  | O => λ st, (Pending, st)
  | S fuel =>
      await (_, s) := wget in
      if len (bs_received s) <? length_ then
        await bytes := in_browser (downstream_bytes (bs_transport s) (bs_tunnel_id s) (bs_downstream_seq s)) in
        await _ := in_session (wmodify (λ s,
          match checked_add64 (bs_downstream_seq s) 1 with
          | Some n => (Ok tt, set_downstream n s)
          | None => (Err (lit "M5oH download sequence exhausted"), s)
          end)) in
        if is_empty bytes then
          await _ := in_browser (browser_sleep delay) in
          read_loop fuel length_ (next_delay delay)
        else
          await _ := in_session (wmodify (λ s, (Ok tt, set_received (bs_received s ++ bytes) s))) in
          read_loop fuel length_ M5OH_EMPTY_POLL_INITIAL_MS
      else
        in_session (wmodify (λ s, (Ok (take (Z.to_nat length_) (bs_received s)),
                                   set_received (drop (Z.to_nat length_) (bs_received s)) s)))
  end.

Definition read_exact (length_ : Z) : sweb (list Z) := λ st,
  read_loop (S (length (br_answers st.1))) length_ M5OH_EMPTY_POLL_INITIAL_MS st.

Definition read_record : sweb (list Z) :=
  await size := read_exact 4 in
  let length_ := from_be size in
  throw_when ((length_ <? 24) || (MAX_RECORD_BYTES + 512 <? length_)) with lit "invalid MST5 record length";
  await record := read_exact length_ in
  in_session (wmodify (λ s,
    let '(r, c) := open_record (bs_open s) (bs_handshake_hash s) record in (r, set_open c s))).

Definition write_frame (kind code id : Z) (payload : list Z) : sweb unit :=
  await random := (if (kind =? 2) && (len payload <=? MAX_RECORD_BYTES) then in_browser draw else wret (Ok [])) in
  await frame := wlift (frame_encode kind code id payload random) in
  write_record frame.

(** Frames with another id are skipped; every turn takes at least one answer or
    28 bytes of what was received. *)
Fixpoint read_matching_loop (fuel : nat) (id : Z) : sweb WebFrame :=
  match fuel with
  | O => λ st, (Pending, st)
  | S fuel =>
      await bytes := read_record in
      await frame := wlift (frame_decode bytes) in
      if wf_id frame =? id then wret frame else read_matching_loop fuel id
  end.

(** Bytes the browser can still deliver. *)
Definition deliverable (st : Browser * BrowserSession) : nat :=
  length (bs_received st.2) + length (concat (map (λ a, match fetch_body a with Ok b => b | Err _ => [] end) (br_answers st.1))).

Definition read_matching_frame (id : Z) : sweb WebFrame := λ st, read_matching_loop (S (deliverable st)) id st.

Definition json (entries : list (list Z * JsonValue)) : JsonValue := JObject (btree_collect entries).
Definition jnum (n : Z) : JsonValue := JNumber (num_from_u64 n).

Definition request (kind code : Z) (body : JsonValue) : sweb (bool * list Z * JsonValue) :=
  await id := (if kind =? MST5_KIND_HELLO then wret 0 else take_request_id) in
  await payload := wlift (ok_or (cbor_to_vec body) (lit "cannot encode MST5 command")) in
  await _ := write_frame kind code id payload in
  await decoded := read_matching_frame id in
  await value := wlift (ok_or (cbor_from_slice (wf_payload decoded)) (lit "invalid CBOR response")) in
  let ok := successful_response kind (wf_kind decoded) (wf_code decoded) in
  let reason := default (lit "MST5 request failed")
                  (match jget value (lit "message") with Some m => jas_str m | None => None end) in
  wret (ok, reason, value).

Definition jget_u64 (v : JsonValue) (key : list Z) : option Z :=
  match jget v key with Some x => jas_u64 x | None => None end.
Definition jget_str (v : JsonValue) (key : list Z) : option (list Z) :=
  match jget v key with Some x => jas_str x | None => None end.

Definition negotiate (required_features : Z) : sweb unit :=
  let payload := json
    [(lit "transport_major", jnum TRANSPORT_MAJOR); (lit "rpc_major", jnum RPC_MAJOR); (lit "rpc_minor", jnum RPC_MINOR);
     (lit "features", jnum required_features); (lit "required_features", jnum required_features);
     (lit "max_frame", jnum MAX_RECORD_BYTES)] in
  await (ok, reason, value) := request 11 0 payload in
  throw_when (negb ok) with lit "MST5 HELLO failed: " ++ reason;
  await _ := wlift (ok_or (jas_object value) (lit "MST5 SERVER_HELLO is invalid")) in
  throw_when (negb (bool_decide (jget_u64 value (lit "transport_major") = Some TRANSPORT_MAJOR))
      || negb (bool_decide (jget_u64 value (lit "rpc_major") = Some RPC_MAJOR))
      || negb (Z.land (default 0 (jget_u64 value (lit "features"))) required_features =? required_features))
    with lit "MST5 SERVER_HELLO omitted required capabilities";
  wret tt.

Definition media_authenticate (ticket : list Z) : sweb unit :=
  await (ok, reason, _) := request MST5_KIND_AUTH 0
    (json [(lit "mechanism", JString (lit "media_ticket")); (lit "ticket", JString ticket)]) in
  throw_when (negb ok) with lit "MST5 media authentication failed: " ++ reason;
  wret tt.

(** [device_model.chars().take(128).collect()]. *)
Definition chars_take (n : nat) (l : list Z) : list Z := concat (map snd (take n (char_chunks l))).

Definition authenticate_session (token device_model : list Z) : sweb unit :=
  await (ok, reason, _) := request 1 0
    (json [(lit "token", JString token); (lit "client_name", JString (lit "OVE Web"));
           (lit "device_model", JString (chars_take 128 device_model))]) in
  throw_when (negb ok) with lit "MST5 authentication failed: " ++ reason;
  wret tt.

(** ** Opening a session *)

(** A new session, and a method on it. *)
Definition with_session {A} (s : BrowserSession) (m : sweb A) : web Browser (A * BrowserSession) := λ b,
  match m (b, s) with
  | (Return a, (b, s)) => (Return (a, s), b)
  | (Throw e, (b, _)) => (Throw e, b)
  | (Pending, (b, _)) => (Pending, b)
  end.

Definition establish_session_with_key (endpoint destination key : list Z) (required_features : Z) : web Browser BrowserSession :=
  await (ip, port) := wlift (parse_destination destination) in
  await route := wlift (encode_route ip port 0) in
  await transport := wlift (fetch_new endpoint route) in
  await tunnel_id := browser_tunnel_id in
  await _ := upstream_bytes transport tunnel_id 0 [] false in
  await session := handshake transport tunnel_id key in
  await (_, session) := with_session session (negotiate required_features) in
  wret session.

(** [embedded] is the account key compiled into the crate. *)
Definition establish_session (embedded endpoint destination : list Z) : web Browser BrowserSession :=
  await key := wlift (decode_server_key embedded) in
  establish_session_with_key endpoint destination key REQUIRED_FEATURES.

Definition establish_media_session (endpoint media_endpoint media_public_key : list Z) : web Browser BrowserSession :=
  await destination := wlift (parse_media_destination media_endpoint) in
  await key := wlift (decode_server_key media_public_key) in
  establish_session_with_key endpoint destination key REQUIRED_MEDIA_FEATURES.
End WebSession.
