(* ===== verification/WebMedia.v ===== *)
(** * The browser client: media streams (src/wasm/src/lib.rs)

    [BrowserMediaUpload], the downloads of a session, and the upload classes
    JavaScript sees, [Mst5MediaUpload] and [Mst5E2eMediaUpload].  A class keeps its
    content in a [RefCell<Option<_>>]; its methods are transitions of that option.
    Two overlapping calls of one object, where the second finds the cell borrowed,
    are not modelled. *)
From S2P Require Import Prelude RustStr Crypto Frame E2E Media Json WebCore Web.

Record BrowserMediaUpload := mkMediaUpload {
  mu_session : BrowserSession; mu_id : Z; mu_expected_size : Z; mu_sent : Z; mu_chunk_size : Z;
  mu_digest : list Z;                       (** the bytes hashed so far *)
  mu_resume_checksum : option (list Z)
}.

Definition mu_set_session (s : BrowserSession) (u : BrowserMediaUpload) : BrowserMediaUpload :=
  mkMediaUpload s (mu_id u) (mu_expected_size u) (mu_sent u) (mu_chunk_size u) (mu_digest u) (mu_resume_checksum u).
Definition mu_set_sent (n : Z) (u : BrowserMediaUpload) : BrowserMediaUpload :=
  mkMediaUpload (mu_session u) (mu_id u) (mu_expected_size u) n (mu_chunk_size u) (mu_digest u) (mu_resume_checksum u).
Definition mu_set_digest (d : list Z) (u : BrowserMediaUpload) : BrowserMediaUpload :=
  mkMediaUpload (mu_session u) (mu_id u) (mu_expected_size u) (mu_sent u) (mu_chunk_size u) d (mu_resume_checksum u).

Record BrowserE2eMediaUpload := mkE2eUpload {
  eu_upload : BrowserMediaUpload; eu_encryptor : MediaEncryptor; eu_pending : list Z
}.

Abbreviation uweb A := (web (Browser * BrowserMediaUpload) A).
Abbreviation eweb A := (web (Browser * BrowserE2eMediaUpload) A).

Definition on_session {A} (m : sweb A) : uweb A :=
  within (λ st, (st.1, mu_session st.2)) (λ t st, (t.1, mu_set_session t.2 st.2)) m.
Definition on_upload {A} (m : uweb A) : eweb A :=
  within (λ st, (st.1, eu_upload st.2))
    (λ t st, (t.1, mkE2eUpload t.2 (eu_encryptor st.2) (eu_pending st.2))) m.

(** [data.chunks(n)]. *)
Fixpoint pieces (fuel : nat) (n : Z) (data : list Z) : list (list Z) :=
  match fuel with
  | O => []
  | S fuel =>
      match data with
      | [] => []
      | _ => take (Z.to_nat n) data :: pieces fuel n (drop (Z.to_nat n) data)
      end
  end.
Definition slices (n : Z) (data : list Z) : list (list Z) := pieces (length data) n data.

Section WebMedia.
Context `{N : JsonNumber} `{L : !WebLibs} `{C : Crypto}.

Definition to_vec {S} (v : JsonValue) (error : list Z) : web S (list Z) := wlift (ok_or (cbor_to_vec v) error).
Definition from_slice {S} (l : list Z) (error : list Z) : web S JsonValue := wlift (ok_or (cbor_from_slice l) error).

Definition accepted (f : WebFrame) : bool := (wf_kind f =? MST5_KIND_ACK) && (wf_code f =? 100).
Definition finished (f : WebFrame) : bool := (wf_kind f =? MST5_KIND_RESULT) && (200 <=? wf_code f) && (wf_code f <? 300).

(** ** Uploads *)
Definition open_with_offset (file_id : list Z) (expected_size offset : Z) (checksum : option (list Z))
    (session : BrowserSession) : web Browser BrowserMediaUpload :=
  throw_when (expected_size <? offset) with lit "media upload offset exceeds size";
  await (r, session) := with_session session (
    await id := take_request_id in
    let open := [(lit "file_id", JString file_id); (lit "size", jnum expected_size); (lit "offset", jnum offset)]
                ++ match checksum with Some c => [(lit "sha256", JString c)] | None => [] end in
    await payload := to_vec (json open) (lit "cannot encode media stream open") in
    await _ := write_frame MST5_KIND_STREAM_OPEN MEDIA_OP_UPLOAD id payload in
    await f := read_matching_frame id in
    throw_when (negb (accepted f)) with frame_error (lit "media upload was rejected") f;
    await details := from_slice (wf_payload f) (lit "invalid media upload acknowledgement") in
    throw_when (negb (default offset (jget_u64 details (lit "offset")) =? offset)) with lit "media node checkpoint mismatch";
    await server_chunk := wlift (ok_or
      (match jget_u64 details (lit "chunk_size") with
       | Some size => match usize_try_from size with Some n => if 0 <? n then Some n else None | None => None end
       | None => None
       end) (lit "media node did not provide a chunk size")) in
    wret (id, server_chunk)) in
  let '(id, server_chunk) := r in
  wret (mkMediaUpload session id expected_size offset (Z.min BROWSER_MEDIA_CHUNK server_chunk) [] checksum).

Definition upload_open (file_id : list Z) (expected_size : Z) (session : BrowserSession) : web Browser BrowserMediaUpload :=
  open_with_offset file_id expected_size 0 None session.

Fixpoint write_chunks (chunks : list (list Z)) : uweb unit :=
  match chunks with
  | [] => wret tt
  | chunk :: t =>
      await _ := in_session (wmodify (λ u, (Ok tt, mu_set_digest (mu_digest u ++ chunk) u))) in
      await (_, u) := wget in
      await _ := on_session (write_frame MST5_KIND_STREAM_DATA 0 (mu_id u) chunk) in
      await _ := in_session (wmodify (λ u, (Ok tt, mu_set_sent (as_u32 (mu_sent u + len chunk)) u))) in
      write_chunks t
  end.

(** [sent.saturating_add(data.len()) > expected_size] in 32 bits. *)
Definition upload_write (data : list Z) : uweb unit :=
  await (_, u) := wget in
  throw_when (mu_expected_size u <? Z.min (mu_sent u + len data) u32_max) with lit "media source exceeds its declared size";
  write_chunks (slices (mu_chunk_size u) data).

Definition checksum_of (u : BrowserMediaUpload) : list Z :=
  default (hex_bytes (sha256_digest (mu_digest u))) (mu_resume_checksum u).

Definition end_payload (size : Z) (checksum : list Z) : JsonValue := json [(lit "size", jnum size); (lit "sha256", JString checksum)].

Definition upload_finish : uweb unit :=
  await (_, u) := wget in
  throw_when (negb (mu_sent u =? mu_expected_size u)) with lit "media source ended before its declared size";
  await end_ := to_vec (end_payload (mu_sent u) (checksum_of u)) (lit "cannot encode media stream end") in
  await _ := on_session (write_frame MST5_KIND_STREAM_END 200 (mu_id u) end_) in
  await result := on_session (read_matching_frame (mu_id u)) in
  throw_when (negb (finished result)) with frame_error (lit "media upload failed") result;
  wret tt.

Definition upload_abort : uweb unit :=
  await (_, u) := wget in
  on_session (write_frame MST5_KIND_STREAM_ABORT 499 (mu_id u) []).

(** ** The methods of [BrowserSession] *)
Fixpoint send_chunks (id : Z) (chunks : list (list Z)) : sweb unit :=
  match chunks with
  | [] => wret tt
  | bytes :: t => await _ := write_frame MST5_KIND_STREAM_DATA 0 id bytes in send_chunks id t
  end.

Definition session_upload_media (file_id data : list Z) : sweb unit :=
  await id := take_request_id in
  await payload := to_vec (json [(lit "file_id", JString file_id); (lit "size", jnum (len data))]) (lit "cannot encode media stream open") in
  await _ := write_frame MST5_KIND_STREAM_OPEN MEDIA_OP_UPLOAD id payload in
  await f := read_matching_frame id in
  throw_when (negb (accepted f)) with frame_error (lit "media upload was rejected") f;
  await details := from_slice (wf_payload f) (lit "invalid media upload acknowledgement") in
  let server_chunk := as_u32 (default 0 (jget_u64 details (lit "chunk_size"))) in
  throw_when (server_chunk =? 0) with lit "media node did not provide a chunk size";
  await _ := send_chunks id (slices (Z.min BROWSER_MEDIA_CHUNK server_chunk) data) in
  await end_ := to_vec (end_payload (len data) (hex_bytes (sha256_digest data))) (lit "cannot encode media stream end") in
  await _ := write_frame MST5_KIND_STREAM_END 200 id end_ in
  await result := read_matching_frame id in
  throw_when (negb (finished result)) with frame_error (lit "media upload failed") result;
  wret tt.

(** The opening shared by the three downloads: the stream id. *)
Definition download_open (file_id : list Z) (expected_size : Z) : sweb Z :=
  await id := take_request_id in
  await payload := to_vec (json [(lit "file_id", JString file_id)]) (lit "cannot encode media download open") in
  await _ := write_frame MST5_KIND_STREAM_OPEN MEDIA_OP_DOWNLOAD id payload in
  await f := read_matching_frame id in
  throw_when (negb (accepted f)) with frame_error (lit "media download was rejected") f;
  await metadata := from_slice (wf_payload f) (lit "invalid media download acknowledgement") in
  await announced := wlift (ok_or
    (match jget_u64 metadata (lit "size") with Some size => usize_try_from size | None => None end)
    (lit "media node omitted a valid file size")) in
  throw_when (negb (announced =? expected_size)) with lit "media file size changed before download";
  wret id.

(** A STREAM_DATA payload that does not fit. *)
Definition bad_chunk (received announced : Z) (payload : list Z) : bool :=
  is_empty payload || (BROWSER_MEDIA_CHUNK <? len payload) || (announced <? Z.min (received + len payload) u32_max).

(** A STREAM_END that does not match [received]. *)
Definition bad_end (received : list Z) (announced : Z) (end_ : JsonValue) : bool :=
  negb (len received =? announced) || negb (bool_decide (jget_u64 end_ (lit "size") = Some (len received)))
  || negb (bool_decide (jget_str end_ (lit "sha256") = Some (hex_bytes (sha256_digest received)))).

Definition stray {A} (f : WebFrame) : sweb A :=
  if wf_kind f =? MST5_KIND_ERROR then wthrow (frame_error (lit "media download failed") f)
  else wthrow (lit "unexpected MST5 media download frame").

(** The loops; a chunk is not empty and the callers bound [announced] by
    [MAX_BROWSER_DOWNLOAD_BYTES], so [announced] + 2 turns are enough. *)
Fixpoint download_loop (fuel : nat) (id announced : Z) (data : list Z) : sweb (list Z) :=
  match fuel with
  | O => λ st, (Pending, st)
  | S fuel =>
      await f := read_matching_frame id in
      if wf_kind f =? MST5_KIND_STREAM_DATA then
        throw_when (bad_chunk (len data) announced (wf_payload f)) with lit "invalid MST5 media download chunk";
        download_loop fuel id announced (data ++ wf_payload f)
      else if wf_kind f =? MST5_KIND_STREAM_END then
        await end_ := from_slice (wf_payload f) (lit "invalid MST5 media download end") in
        throw_when (bad_end data announced end_) with lit "MST5 media download checksum mismatch";
        wret data
      else stray f
  end.

Definition session_download_media (file_id : list Z) (expected_size : Z) : sweb (list Z) :=
  await id := download_open file_id expected_size in
  download_loop (S (S (Z.to_nat expected_size))) id expected_size [].

(** [received] are the bytes hashed; the source keeps their number. *)
Fixpoint download_stream_loop (fuel : nat) (id announced : Z) (received : list Z) : sweb unit :=
  match fuel with
  | O => λ st, (Pending, st)
  | S fuel =>
      await f := read_matching_frame id in
      if wf_kind f =? MST5_KIND_STREAM_DATA then
        throw_when (bad_chunk (len received) announced (wf_payload f)) with lit "invalid MST5 media download chunk";
        await _ := in_browser (on_chunk (wf_payload f)) in
        download_stream_loop fuel id announced (received ++ wf_payload f)
      else if wf_kind f =? MST5_KIND_STREAM_END then
        await end_ := from_slice (wf_payload f) (lit "invalid MST5 media download end") in
        throw_when (bad_end received announced end_) with lit "MST5 media download checksum mismatch";
        wret tt
      else stray f
  end.

Definition session_download_media_stream (file_id : list Z) (expected_size : Z) : sweb unit :=
  await id := download_open file_id expected_size in
  download_stream_loop (S (S (Z.to_nat expected_size))) id expected_size [].

Fixpoint download_e2e_loop (fuel : nat) (id announced : Z) (received plaintext : list Z) (d : MediaDecryptor) : sweb (list Z) :=
  match fuel with
  | O => λ st, (Pending, st)
  | S fuel =>
      await f := read_matching_frame id in
      if wf_kind f =? MST5_KIND_STREAM_DATA then
        throw_when (bad_chunk (len received) announced (wf_payload f)) with lit "invalid MST5 media download chunk";
        let '(r, d) := push 32 d (wf_payload f) in
        await chunks := wlift (e2e_error r) in
        download_e2e_loop fuel id announced (received ++ wf_payload f) (plaintext ++ concat chunks) d
      else if wf_kind f =? MST5_KIND_STREAM_END then
        await end_ := from_slice (wf_payload f) (lit "invalid media download end") in
        throw_when (bad_end received announced end_) with lit "MST5 media download checksum mismatch";
        await recovered := wlift (e2e_error (decryptor_finish d)) in
        throw_when (negb (len plaintext =? recovered)) with lit "E2E media size mismatch";
        wret plaintext
      else stray f
  end.

Definition session_download_e2e_media (file_id : list Z) (expected_size : Z) (d : MediaDecryptor) : sweb (list Z) :=
  await id := download_open file_id expected_size in
  download_e2e_loop (S (S (Z.to_nat expected_size))) id expected_size [] [] d.

(** ** [Mst5MediaUpload] *)
Definition mst5_media_upload_write (data : list Z) : web (Browser * option BrowserMediaUpload) unit := λ st,
  if is_empty data then (Return tt, st)
  else
    match st.2 with
    | None => (Throw (lit "media upload is already closed"), st)
    | Some u => let '(r, (b, u)) := upload_write data (st.1, u) in (r, (b, Some u))
    end.

Definition mst5_media_upload_finish : web (Browser * option BrowserMediaUpload) unit := λ st,
  match st.2 with
  | None => (Throw (lit "media upload is already closed"), st)
  | Some u =>
      match upload_finish (st.1, u) with
      | (Return _, (b, _)) => (Return tt, (b, None))
      | (r, (b, u)) => (r, (b, Some u))
      end
  end.

Definition mst5_media_upload_abort : web (Browser * option BrowserMediaUpload) unit := λ st,
  match st.2 with
  | None => (Return tt, st)
  | Some u => let '(r, (b, _)) := upload_abort (st.1, u) in (r, (b, None))
  end.

(** ** [Mst5E2eMediaUpload] *)

(** An upload that is open becomes an encrypted one: the header goes first. *)
Definition send_header (e : MediaEncryptor) (u : BrowserMediaUpload) : web Browser (option BrowserE2eMediaUpload) := λ b,
  match upload_write (encryptor_header e) (b, u) with
  | (Return _, (b, u)) => (Return (Some (mkE2eUpload u e [])), b)
  | (Throw x, (b, _)) => (Throw x, b)
  | (Pending, (b, _)) => (Pending, b)
  end.

(** The [while] loop: whole chunks out of [pending]; the length of [pending] is enough fuel. *)
Fixpoint e2e_write_loop (fuel : nat) : eweb unit :=
  match fuel with
  | O => wret tt
  | S fuel =>
      await (_, e) := wget in
      if MEDIA_CHUNK_SIZE <=? len (eu_pending e) then
        await sealed := in_session (wmodify (λ e,
          let chunk := take (Z.to_nat MEDIA_CHUNK_SIZE) (eu_pending e) in
          let '(r, enc) := seal_chunk (eu_encryptor e) chunk in
          (e2e_error r, mkE2eUpload (eu_upload e) enc (drop (Z.to_nat MEDIA_CHUNK_SIZE) (eu_pending e))))) in
        await _ := on_upload (upload_write sealed) in
        e2e_write_loop fuel
      else wret tt
  end.

Definition e2e_upload_write (bytes : list Z) : eweb unit :=
  await _ := in_session (wmodify (λ e, (Ok tt, mkE2eUpload (eu_upload e) (eu_encryptor e) (eu_pending e ++ bytes)))) in
  await (_, e) := wget in
  e2e_write_loop (length (eu_pending e)).

Definition e2e_upload_finish : eweb unit :=
  await (_, e) := wget in
  await _ :=
    (if is_empty (eu_pending e) then wret tt
     else
       await sealed := in_session (wmodify (λ e,
         let '(r, enc) := seal_chunk (eu_encryptor e) (eu_pending e) in (e2e_error r, mkE2eUpload (eu_upload e) enc []))) in
       on_upload (upload_write sealed)) in
  await (_, e) := wget in
  await _ := wlift (e2e_error (encryptor_finish (eu_encryptor e))) in
  on_upload upload_finish.

Definition mst5_e2e_upload_write (data : list Z) : web (Browser * option BrowserE2eMediaUpload) unit := λ st,
  if is_empty data then (Return tt, st)
  else
    match st.2 with
    | None => (Throw (lit "E2E media upload is already closed"), st)
    | Some e => let '(r, (b, e)) := e2e_upload_write data (st.1, e) in (r, (b, Some e))
    end.

Definition mst5_e2e_upload_finish : web (Browser * option BrowserE2eMediaUpload) unit := λ st,
  match st.2 with
  | None => (Throw (lit "E2E media upload is already closed"), st)
  | Some e =>
      match e2e_upload_finish (st.1, e) with
      | (Return _, (b, _)) => (Return tt, (b, None))
      | (r, (b, e)) => (r, (b, Some e))
      end
  end.

Definition mst5_e2e_upload_abort : web (Browser * option BrowserE2eMediaUpload) unit := λ st,
  match st.2 with
  | None => (Return tt, st)
  | Some e => let '(r, (b, _)) := upload_abort (st.1, eu_upload e) in (r, (b, None))
  end.
End WebMedia.
