(* ===== verification/WebApi.v ===== *)
(** * The browser client: [Mst5E2eIdentity] and [Mst5Web] (src/wasm/src/lib.rs)

    The two classes a web page uses.  Conversions between JavaScript values and
    Rust structures (serde_wasm_bindgen) are the class [JsBridge]. *)
From S2P Require Import Prelude RustStr Crypto Frame E2E Media Json WebCore Web WebMedia.

Record E2eEnvelopeJson := mkEnvelopeJson { ej_version : Z; ej_nonce : list Z; ej_ciphertext : list Z }.
Record GroupE2eEnvelopeJson := mkGroupJson { gj_version : Z; gj_recipients : list (list Z * E2eEnvelopeJson) }.
Record E2eBackupJson := mkBackupJson { bj_version : Z; bj_salt : list Z; bj_nonce : list Z; bj_ciphertext : list Z }.

(** A map comes as the list of its entries, in the order the [HashMap] iterates. *)
Class JsBridge `{N : JsonNumber} := {
  JsValue : Type;
  js_to_json : JsValue → option JsonValue;      json_to_js : JsonValue → option JsValue;
  js_to_keys : JsValue → option (list (list Z * list Z));
  js_to_envelope : JsValue → option E2eEnvelopeJson;   envelope_json_to_js : E2eEnvelopeJson → option JsValue;
  js_to_group : JsValue → option GroupE2eEnvelopeJson; group_json_to_js : GroupE2eEnvelopeJson → option JsValue;
  js_to_backup : JsValue → option E2eBackupJson;       backup_json_to_js : E2eBackupJson → option JsValue
}.

Section Conversions.
Context `{N : JsonNumber} `{L : !WebLibs} `{B : !JsBridge}.

Definition decode_e2e (value field : list Z) (expected : option Z) : js (list Z) :=
  let? bytes := ok_or (b64_decode value) (lit "invalid E2E " ++ field) in
  fail_if (match expected with Some size => negb (len bytes =? size) | None => false end)
    with lit "invalid E2E " ++ field ++ lit " length";
  Ok bytes.

Definition parse_e2e_public (value : list Z) : js (list Z) := decode_e2e value (lit "public key") (Some 32).

Definition envelope_json (e : Envelope) : E2eEnvelopeJson :=
  mkEnvelopeJson (env_version e) (b64_encode (env_nonce e)) (b64_encode (env_ciphertext e)).

Definition envelope_to_js (e : Envelope) : js JsValue :=
  ok_or (envelope_json_to_js (envelope_json e)) (lit "cannot encode E2E envelope").

Definition envelope_of_json (raw : E2eEnvelopeJson) : js Envelope :=
  let? nonce := decode_e2e (ej_nonce raw) (lit "nonce") (Some 24) in
  let? ciphertext := decode_e2e (ej_ciphertext raw) (lit "ciphertext") None in
  Ok (mkEnvelope (ej_version raw) nonce ciphertext).

Definition parse_envelope (value : JsValue) : js Envelope :=
  let? raw := ok_or (js_to_envelope value) (lit "invalid E2E envelope") in envelope_of_json raw.

Definition backup_to_js (b : Backup) : js JsValue :=
  ok_or (backup_json_to_js (mkBackupJson (bk_version b) (b64_encode (bk_salt b)) (b64_encode (bk_nonce b)) (b64_encode (bk_ciphertext b))))
    (lit "cannot encode E2E backup").

Definition parse_backup (value : JsValue) : js Backup :=
  let? raw := ok_or (js_to_backup value) (lit "invalid E2E backup") in
  let? salt := decode_e2e (bj_salt raw) (lit "backup salt") (Some 16) in
  let? nonce := decode_e2e (bj_nonce raw) (lit "backup nonce") (Some 24) in
  let? ciphertext := decode_e2e (bj_ciphertext raw) (lit "backup ciphertext") None in
  Ok (mkBackup (bj_version raw) salt nonce ciphertext).
End Conversions.

(** ** [Mst5E2eIdentity]: its cell is an [option Identity] *)
Section IdentityClass.
Context `{N : JsonNumber} `{L : !WebLibs} `{B : !JsBridge} `{C : Crypto} `{Z1 : Compressor} `{Z2 : Decompressors}.

Definition identity_of (inner : option Identity) : js Identity := ok_or inner (lit "E2E identity is closed").

Definition e2e_identity_new : web Browser (option Identity) :=
  await random := draw in await i := wlift (e2e_error (generate random)) in wret (Some i).

Definition import_private (private : list Z) : js (option Identity) :=
  fail_if (negb (len private =? 32)) with lit "E2E private key must be 32 bytes";
  Ok (Some (from_private private)).

Definition restore_backup (value : JsValue) (password : list Z) : js (option Identity) :=
  let? b := parse_backup value in
  let? i := e2e_error (restore b password) in
  Ok (Some i).

Definition export_private (inner : option Identity) : js (list Z) :=
  let? i := identity_of inner in Ok (private_key i).

Definition web_public_key (inner : option Identity) : js (list Z) :=
  let? i := identity_of inner in Ok (b64_encode (public_key i)).

Definition web_fingerprint (inner : option Identity) : js (list Z) :=
  let? i := identity_of inner in Ok (fingerprint (public_key i)).

Definition seal_message (inner : option Identity) (peer from to plaintext : list Z) : web Browser JsValue :=
  await peer := wlift (parse_e2e_public peer) in
  await i := wlift (identity_of inner) in
  await random := draw in
  await e := wlift (e2e_error (seal i peer from to plaintext random)) in
  wlift (envelope_to_js e).

Definition open_message (inner : option Identity) (peer from to : list Z) (envelope : JsValue) : js (list Z) :=
  let? peer := parse_e2e_public peer in
  let? e := parse_envelope envelope in
  let? i := identity_of inner in
  e2e_error (E2E.open i peer from to e).

(** The random draws of [seal_group]: one per recipient reached. *)
Definition seal_group_message (inner : option Identity) (peer_keys : JsValue) (from plaintext : list Z) : web Browser JsValue :=
  await keys := wlift (ok_or (js_to_keys peer_keys) (lit "invalid group E2E recipient keys")) in
  await recipients := wlift (map_result (λ kv, let? key := parse_e2e_public kv.2 in Ok (kv.1, key)) keys) in
  await i := wlift (identity_of inner) in
  await b := wget in
  await g := wlift (e2e_error (seal_group i recipients from plaintext (λ n, br_random b (br_drawn b + n)%nat))) in
  await _ := skip_draws (length recipients) in
  wlift (ok_or (group_json_to_js (mkGroupJson (grp_version g) (map (λ kv, (kv.1, envelope_json kv.2)) (map_to_list (grp_recipients g)))))
           (lit "cannot encode group E2E envelope")).

Definition open_group_message (inner : option Identity) (sender_public sender recipient : list Z) (envelope : JsValue) : js (list Z) :=
  let? raw := ok_or (js_to_group envelope) (lit "invalid group E2E envelope") in
  let? recipients := map_result (λ kv, let? e := envelope_of_json kv.2 in Ok (kv.1, e)) (gj_recipients raw) in
  let? i := identity_of inner in
  let? key := parse_e2e_public sender_public in
  e2e_error (open_group i key sender recipient (mkGroupEnvelope (gj_version raw) (list_to_map recipients))).

Definition create_backup (inner : option Identity) (password : list Z) : web Browser JsValue :=
  await i := wlift (identity_of inner) in
  await b := wget in
  await v := wlift (e2e_error (backup i password (br_random b (br_drawn b)) (br_random b (S (br_drawn b))))) in
  await _ := skip_draws 2 in
  wlift (backup_to_js v).

Definition web_encrypted_media_size (plaintext_size : Z) : js Z := e2e_error (encrypted_media_size plaintext_size).

Definition web_media_key (inner : option Identity) (peer from to : list Z) : js (list Z) :=
  let? i := identity_of inner in
  let? peer := parse_e2e_public peer in
  let? key := e2e_error (media_key i peer from to) in
  Ok (b64_encode key).

(** [close] empties the cell. *)
Definition identity_close (inner : option Identity) : option Identity := None.
End IdentityClass.

(** ** [Mst5Web]: its cell is an [option BrowserSession] *)
Section WebClass.
Context `{N : JsonNumber} `{L : !WebLibs} `{B : !JsBridge} `{C : Crypto}.

Abbreviation cell A := (web (Browser * option BrowserSession) A).

(** [borrow.as_mut().ok_or("MST5 is not connected")] and a method on it. *)
Definition connected {A} (m : sweb A) : cell A := λ st,
  match st.2 with
  | None => (Throw (lit "MST5 is not connected"), st)
  | Some s => let '(r, (b, s)) := m (st.1, s) in (r, (b, Some s))
  end.

(** [*self.inner.borrow_mut() = Some(session)]. *)
Definition install (s : BrowserSession) : cell unit := λ st, (Return tt, (st.1, Some s)).

Definition web_connect (embedded endpoint destination token device_model : list Z) : cell unit :=
  await s := in_browser (
    await s := establish_session embedded endpoint destination in
    await (_, s) := with_session s (authenticate_session token device_model) in
    wret s) in
  install s.

Definition connect_anonymous (embedded endpoint destination device_model : list Z) : cell unit :=
  web_connect embedded endpoint destination [] device_model.

Definition start_email_auth (email : list Z) : cell unit :=
  let email := trim email in
  throw_when (is_empty email) with lit "e-mail is required";
  await (ok, reason, _) := connected (request MST5_KIND_COMMAND 3 (json [(lit "email", JString email)])) in
  throw_when (negb ok) with reason; wret tt.

Definition verify_email_auth (email code cloud_password : list Z) : cell (list Z) :=
  await (ok, reason, value) := connected (request MST5_KIND_COMMAND 4
    (json [(lit "email", JString (trim email)); (lit "code", JString (trim code)); (lit "cloud_password", JString cloud_password)])) in
  throw_when (negb ok) with reason;
  wlift (ok_or (auth_session_token value) (lit "MST5 auth response did not contain a session")).

(** From the JSON command to kind, opcode and payload. *)
Definition web_command_request (input : JsonValue) : js (Z * Z * JsonValue) :=
  let? object := ok_or (jas_object input) (lit "messenger command must be an object") in
  let field key fallback := match btree_get key object with Some v => default fallback (jas_str v) | None => fallback end in
  let method := to_ascii_uppercase (field (lit "method") (lit "GET")) in
  let raw_path := field (lit "path") (lit "/") in
  let '(path, query) := match split_once 63 raw_path with Some (p, q) => (p, Some q) | None => (raw_path, None) end in
  let? code := operation method path in
  let is_get := beq method (lit "GET") in
  let payload :=
    if is_get then match query with Some q => JObject [(lit "query", JString q)] | None => JObject [] end
    else default (JObject []) (btree_get (lit "body") object) in
  Ok (if is_get then 3 else 2, code, payload).

Definition web_command (input : JsValue) : cell JsValue :=
  await input := wlift (ok_or (js_to_json input) (lit "invalid messenger JSON command")) in
  await (kind, code, payload) := wlift (web_command_request input) in
  await (ok, reason, value) := connected (request kind code payload) in
  throw_when (negb ok) with reason;
  wlift (ok_or (json_to_js value) (lit "cannot return MST5 response")).

Definition web_close (st : Browser * option BrowserSession) : Browser * option BrowserSession := (st.1, None).

(** ** Media methods: each opens a session of its own *)
Definition media_session (endpoint media_endpoint key ticket : list Z) : web Browser BrowserSession :=
  await s := establish_media_session endpoint media_endpoint key in
  await (_, s) := with_session s (media_authenticate ticket) in
  wret s.

Definition web_upload_media (endpoint media_endpoint key ticket file_id data : list Z) : web Browser unit :=
  throw_when (is_empty ticket || is_empty file_id || (len data =? 0)) with lit "media ticket, file id and data are required";
  await s := media_session endpoint media_endpoint key ticket in
  await _ := with_session s (session_upload_media file_id data) in
  wret tt.

Definition begin_media_upload (endpoint media_endpoint key ticket file_id : list Z) (expected_size : Z)
  : web Browser (option BrowserMediaUpload) :=
  throw_when (is_empty ticket || is_empty file_id || (expected_size =? 0))
    with lit "media ticket, file id and expected size are required";
  await expected_size := wlift (ok_or (usize_try_from expected_size) (lit "media file is too large for this browser")) in
  await s := media_session endpoint media_endpoint key ticket in
  await u := upload_open file_id expected_size s in
  wret (Some u).

Definition is_ascii_hexdigit (b : Z) : bool := is_ascii_digit b || in_range 97 102 b || in_range 65 70 b.

Definition begin_resumable_media_upload (endpoint media_endpoint key ticket file_id : list Z) (expected_size offset : Z) (sha256 : list Z)
  : web Browser (option BrowserMediaUpload) :=
  throw_when (is_empty ticket || is_empty file_id || (expected_size =? 0) || (expected_size <? offset))
    with lit "invalid resumable media upload arguments";
  throw_when (negb (len sha256 =? 64) || negb (forallb is_ascii_hexdigit sha256)) with lit "invalid media checksum";
  await expected_size := wlift (ok_or (usize_try_from expected_size) (lit "media file is too large for this browser")) in
  await offset := wlift (ok_or (usize_try_from offset) (lit "media offset is too large for this browser")) in
  await s := media_session endpoint media_endpoint key ticket in
  await u := open_with_offset file_id expected_size offset (Some sha256) s in
  wret (Some u).

(** The upload of an encrypted stream, once the encryptor exists: the header goes first. *)
Definition begin_encrypted (endpoint media_endpoint key ticket file_id : list Z) (expected_size : Z) (e : MediaEncryptor)
  : web Browser (option BrowserE2eMediaUpload) :=
  await s := media_session endpoint media_endpoint key ticket in
  await u := upload_open file_id expected_size s in
  send_header e u.

Definition begin_e2e_media_upload (endpoint media_endpoint key ticket file_id : list Z) (plaintext_size : Z)
    (identity : option Identity) (peer from to : list Z) : web Browser (option BrowserE2eMediaUpload) :=
  throw_when (is_empty ticket || is_empty file_id || (plaintext_size =? 0))
    with lit "media ticket, file id and plaintext size are required";
  await encrypted_size := wlift (e2e_error (encrypted_media_size plaintext_size)) in
  await expected_size := wlift (ok_or (usize_try_from encrypted_size) (lit "media file is too large for this browser")) in
  await peer := wlift (parse_e2e_public peer) in
  await i := wlift (identity_of identity) in
  await random := draw in
  await e := wlift (e2e_error (media_encryptor i peer from to file_id plaintext_size random)) in
  begin_encrypted endpoint media_endpoint key ticket file_id expected_size e.

Definition begin_e2e_media_upload_with_key (endpoint media_endpoint key ticket file_id : list Z) (plaintext_size : Z)
    (media_key file_aad : list Z) : web Browser (option BrowserE2eMediaUpload) :=
  throw_when (is_empty ticket || is_empty file_id || (plaintext_size =? 0))
    with lit "media ticket, file id and plaintext size are required";
  await mkey := wlift (decode_e2e media_key (lit "media key") (Some 32)) in
  await encrypted_size := wlift (e2e_error (encrypted_media_size plaintext_size)) in
  await expected_size := wlift (ok_or (usize_try_from encrypted_size) (lit "media file is too large for this browser")) in
  await aad := wlift (ok_or (b64_decode file_aad) (lit "invalid media AAD")) in
  await random := draw in
  await e := wlift (e2e_error (encryptor_with_key mkey aad plaintext_size random)) in
  begin_encrypted endpoint media_endpoint key ticket file_id expected_size e.

(** The guards of the downloads: the size as [usize]. *)
Definition download_size (ticket file_id : list Z) (expected_size : Z) : js Z :=
  fail_if (is_empty ticket || is_empty file_id || (expected_size =? 0))
    with lit "media ticket, file id and expected size are required";
  let? expected_size := ok_or (usize_try_from expected_size) (lit "media file is too large for this browser") in
  fail_if (MAX_BROWSER_DOWNLOAD_BYTES <? expected_size) with lit "media file exceeds the browser download memory limit";
  Ok expected_size.

Definition web_download_media (endpoint media_endpoint key ticket file_id : list Z) (expected_size : Z) : web Browser (list Z) :=
  await expected_size := wlift (download_size ticket file_id expected_size) in
  await s := media_session endpoint media_endpoint key ticket in
  await (bytes, _) := with_session s (session_download_media file_id expected_size) in
  wret bytes.

Definition web_download_media_stream (endpoint media_endpoint key ticket file_id : list Z) (expected_size : Z) : web Browser unit :=
  await expected_size := wlift (download_size ticket file_id expected_size) in
  await s := media_session endpoint media_endpoint key ticket in
  await _ := with_session s (session_download_media_stream file_id expected_size) in
  wret tt.

Definition web_download_e2e_media (endpoint media_endpoint key ticket file_id : list Z) (expected_size : Z)
    (identity : option Identity) (peer from to : list Z) : web Browser (list Z) :=
  await expected_size := wlift (download_size ticket file_id expected_size) in
  await peer := wlift (parse_e2e_public peer) in
  await i := wlift (identity_of identity) in
  await d := wlift (e2e_error (media_decryptor i peer from to file_id)) in
  await s := media_session endpoint media_endpoint key ticket in
  await (plaintext, _) := with_session s (session_download_e2e_media file_id expected_size d) in
  wret plaintext.

Definition web_download_e2e_media_with_key (endpoint media_endpoint key ticket file_id : list Z) (expected_size : Z)
    (media_key file_aad : list Z) : web Browser (list Z) :=
  await expected_size := wlift (download_size ticket file_id expected_size) in
  await mkey := wlift (decode_e2e media_key (lit "media key") (Some 32)) in
  await aad := wlift (ok_or (b64_decode file_aad) (lit "invalid media AAD")) in
  await d := wlift (e2e_error (decryptor_with_key mkey aad)) in
  await s := media_session endpoint media_endpoint key ticket in
  await (plaintext, _) := with_session s (session_download_e2e_media file_id expected_size d) in
  wret plaintext.
End WebClass.
