(* ===== verification/WebProofs.v ===== *)
(** * The browser client against the native protocol

    - the handshake of the browser, however its polls cut the answer, is the native
      handshake: it agrees with the same responder;
    - its records are the native records until a key has to be replaced: it never
      replaces one, and a peer that does refuses what follows;
    - a record too large for a GET request leaves the session out of step;
    - its routes, targets and operation codes are the native ones. *)
From S2P Require Import Prelude RustStr Codec Crypto Frame Record Cbor Endpoint Json Messenger WebCore Web WebApi.

(** What the documentation of the crates promises. *)
Class WebLibsLaws `{L : WebLibs} : Prop := {
  b64url_rfc4648 l : is_bytes l → b64url_encode l = base64url_no_pad l;
  b64url_roundtrip l : is_bytes l → b64url_decode (b64url_encode l) = Some l;
  b64_roundtrip l : is_bytes l → b64_decode (b64_encode l) = Some l;
  cbor_roundtrip_json v bytes : cbor_to_vec v = Some bytes → is_bytes bytes ∧ cbor_from_slice bytes = Some v
}.

(** ** The cipher of the browser as the native one *)
Definition native_state (w : WebCore.SymmetricState) : Record.SymmetricState :=
  mkSymmetricState (sy_key w) (sy_hash w) (sy_cipher w) (sy_nonce w).

(** The two cipher states will use the same key and sequence number next. *)
Record in_step (w : WebCore.CipherState) (n : Record.CipherState) : Prop := {
  is_key : ci_key w = cs_key n;
  is_nonce : ci_nonce w = cs_nonce n
}.

Lemma slice_take {A} (a b n : nat) (l : list A) : (b ≤ n)%nat → slice a b (take n l) = slice a b l.
Proof.
  intros. unfold slice. rewrite skipn_firstn_comm, take_take. f_equal. lia.
Qed.

Section Cipher_proofs.
Context `{CL : CryptoLaws}.

Lemma native_mix_key w ikm : Record.mix_key (native_state w) ikm = native_state (WebCore.mix_key w ikm).
Proof.
  unfold Record.mix_key, WebCore.mix_key. change (Record.hkdf (ss_chaining_key (native_state w)) ikm) with (WebCore.hkdf (sy_key w) ikm).
  by destruct (WebCore.hkdf (sy_key w) ikm).
Qed.

Lemma mix_key_nonce w ikm : sy_nonce (WebCore.mix_key w ikm) = 0.
Proof. unfold WebCore.mix_key. by destruct (WebCore.hkdf _ _). Qed.

Lemma native_encrypt w v o n :
  sy_nonce w = 0 → Record.encrypt_and_hash (native_state w) v = Ok (o, n) →
  ∃ w', WebCore.encrypt_and_hash w v = Ok (o, w') ∧ n = native_state w'.
Proof.
  intros Hn. unfold Record.encrypt_and_hash, WebCore.encrypt_and_hash, Record.aead_encrypt, WebCore.aead_encrypt.
  cbn [native_state ss_cipher_key ss_cipher_nonce ss_handshake_hash ss_chaining_key].
  destruct (sy_cipher w) as [key|]; [|intros; simplify_eq; eexists; split; reflexivity].
  destruct (negb (len key =? 32)); [done|]. rewrite Hn.
  destruct (chacha_encrypt key (Record.aead_nonce 0) (sy_hash w) v) eqn:E; cbn [ok_or]; [|done].
  change (WebCore.aead_nonce 0) with (Record.aead_nonce 0). rewrite E. cbn [ok_or].
  change (checked_add64 0 1) with (Some 1). cbn [ok_or]. intros. simplify_eq. eexists. split; reflexivity.
Qed.

Lemma native_decrypt w v o n :
  sy_nonce w = 0 → Record.decrypt_and_hash (native_state w) v = Ok (o, n) →
  ∃ w', WebCore.decrypt_and_hash w v = Ok (o, w') ∧ n = native_state w'.
Proof.
  intros Hn. unfold Record.decrypt_and_hash, WebCore.decrypt_and_hash, Record.aead_decrypt, WebCore.aead_decrypt.
  cbn [native_state ss_cipher_key ss_cipher_nonce ss_handshake_hash ss_chaining_key].
  destruct (sy_cipher w) as [key|]; [|intros; simplify_eq; eexists; split; reflexivity].
  destruct (len v <? Record.TAG_LEN); [done|]. destruct (negb (len key =? 32)); [done|]. rewrite Hn.
  destruct (chacha_decrypt key (Record.aead_nonce 0) (sy_hash w) v) eqn:E; cbn [ok_or]; [|done].
  change (WebCore.aead_nonce 0) with (Record.aead_nonce 0). rewrite E. cbn [ok_or].
  change (checked_add64 0 1) with (Some 1). cbn [ok_or]. intros. simplify_eq. eexists. split; reflexivity.
Qed.

Lemma native_split w :
  in_step (WebCore.split w).1 (Record.split (native_state w)).1 ∧ in_step (WebCore.split w).2 (Record.split (native_state w)).2.
Proof.
  unfold WebCore.split, Record.split. change (Record.hkdf (ss_chaining_key (native_state w)) []) with (WebCore.hkdf (sy_key w) []).
  destruct (WebCore.hkdf (sy_key w) []). by repeat split.
Qed.

(** Whatever the native handshake accepts, the browser accepts, with the same
    hello and the same session. *)
Lemma web_handshake_native client pub inp out cl s' :
  client_handshake client pub (mkStream inp out []) = Ok (cl, s') →
  ∃ hello w1 w2, client_hello client pub = Ok (hello, w1) ∧ server_hello client w1 inp = Ok w2 ∧
    s' = mkStream (drop 54 inp) (out ++ hello) [] ∧ sy_hash w2 = se_handshake_hash cl ∧
    in_step (WebCore.split w2).1 (se_seal cl) ∧ in_step (WebCore.split w2).2 (se_open cl) ∧ len hello = 54.
Proof.
  unfold client_handshake, client_hello. intros H.
  change (Record.symmetric_new pub) with (native_state (WebCore.symmetric_new pub)) in H.
  unfold require_nonzero_shared in H. unfold require_shared.
  destruct (forallb (Z.eqb 0) (x25519 client pub)); [done|].
  change (Record.mix_hash (native_state ?w) ?d) with (native_state (WebCore.mix_hash w d)) in H.
  rewrite native_mix_key in H.
  destruct (Record.encrypt_and_hash _ []) as [[tag n1]|] eqn:E1; [|done].
  apply native_encrypt in E1 as (w1 & E1 & ->); [|apply mix_key_nonce]. rewrite E1.
  destruct (negb (len tag =? Record.TAG_LEN)) eqn:Et; [done|]. to_prop. apply Z.eqb_eq in Et.
  unfold write_all, flush, io_call in H. cbn [s_faults s_in s_out] in H.
  unfold Record.read_exact, io_call in H. cbn [s_faults s_in s_out] in H.
  destruct (Z.ltb_spec (len inp) 6) as [|H6]; [done|]. cbn [s_faults s_in s_out] in H.
  destruct (_ || _) eqn:Eh; [done|].
  change (Z.to_nat 6) with 6%nat in *. change (Z.to_nat HANDSHAKE_MESSAGE_LEN) with 48%nat in *.
  destruct (Z.ltb_spec (len (drop 6 inp)) HANDSHAKE_MESSAGE_LEN) as [|H54]; [done|].
  assert (54 ≤ len inp) as Hlen by (revert H54; unfold len, HANDSHAKE_MESSAGE_LEN; rewrite length_drop; lia).
  rewrite take_take, slice_take in Eh by lia. change (4 `min` 6)%nat with 4%nat in Eh.
  change (take 32 (take 48 (drop 6 inp))) with (slice 0 32 (take 48 (drop 6 inp))) in H.
  rewrite slice_take, drop_drop, (skipn_firstn_comm 32 48 (drop 6 inp)), drop_drop in H by lia.
  change (slice 0 32 (drop 6 inp)) with (slice 6 38 inp) in H.
  change (take (48 - 32) (drop (6 + 32) inp)) with (slice 38 54 inp) in H.
  change (Record.mix_hash (native_state w1) (slice 6 38 inp)) with (native_state (WebCore.mix_hash w1 (slice 6 38 inp))) in H.
  rewrite native_mix_key in H. destruct (forallb (Z.eqb 0) (x25519 client (slice 6 38 inp))) eqn:Ee; [done|].
  destruct (Record.decrypt_and_hash _ (slice 38 54 inp)) as [[payload n2]|] eqn:E2; [|done].
  apply native_decrypt in E2 as (w2 & E2 & ->); [|apply mix_key_nonce].
  destruct (negb (is_empty payload)) eqn:Ep; [done|].
  exists (CLIENT_MAGIC ++ be_bytes 2 48 ++ x25519_public client ++ tag), w1, w2. split; [done|].
  unfold server_hello. change (Record.SERVER_MAGIC) with SERVER_MAGIC in Eh. change HANDSHAKE_MESSAGE_LEN with 48 in Eh.
  rewrite Eh. unfold require_shared. rewrite Ee, E2, Ep.
  pose proof (native_split w2) as [Hs Ho]. destruct (Record.split (native_state w2)) as [a b]. simplify_eq. cbn [fst snd] in *.
  split_and!; try done. destruct (x25519_public_key32 client) as [_ Hk].
  rewrite !len_app, len_be_bytes, Et. unfold len. rewrite Hk. reflexivity.
Qed.
End Cipher_proofs.

(** ** The browser's answers *)

(** [b'] came from [b] by fetches and timers only. *)
Record quiet (b b' : Browser) : Prop := {
  qu_sleep : br_sleep b' = br_sleep b;
  qu_random : br_random b' = br_random b;
  qu_drawn : br_drawn b' = br_drawn b;
  qu_secrets : br_secrets b' = br_secrets b;
  qu_sessions : br_sessions b' = br_sessions b;
  qu_callback : br_callback b' = br_callback b;
  qu_chunks : br_chunks b' = br_chunks b
}.

#[export] Instance quiet_preorder : PreOrder quiet.
Proof.
  split; [by split|]. intros a b c [] []. split; congruence.
Qed.

(** [parts] is delivered by [answers], and is the shortest prefix that reaches
    [n] bytes behind [received]. *)
Record delivers (n : Z) (received : list Z) (answers : list fetch_answer) (parts : list (list Z)) : Prop := {
  dl_bodies : Forall2 (λ a p, fetch_body a = Ok p) answers parts;
  dl_enough : n ≤ len (received ++ concat parts);
  dl_minimal init last : parts = init ++ [last] → len (received ++ concat init) < n
}.

Lemma delivers_cons n received a answers p parts :
  delivers n received (a :: answers) (p :: parts) →
  fetch_body a = Ok p ∧ len received < n ∧ delivers n (received ++ p) answers parts.
Proof.
  intros [Hb He Hm]. inversion Hb as [|? ? ? ? Ha Hr]; subst.
  split; [done|]. split.
  - destruct parts as [|q parts] using rev_ind.
    + specialize (Hm [] p eq_refl). by rewrite app_nil_r in Hm.
    + specialize (Hm (p :: parts) q eq_refl). rewrite len_app in Hm. pose proof (len_nonneg (concat (p :: parts))). lia.
  - split; [done|by rewrite <-app_assoc|]. intros init last ->. rewrite <-app_assoc.
    change (p ++ concat init) with (concat (p :: init)). by eapply Hm.
Qed.

Lemma delivers_nil n received answers : delivers n received answers [] → answers = [] ∧ n ≤ len received.
Proof. intros [Hb He _]. inversion Hb. by rewrite app_nil_r in He. Qed.

Section Polls.
Context `{N : JsonNumber} `{L : !WebLibs} `{C : Crypto}.

Definition poll_request (t : M5ohFetch) (tunnel : list Z) (k : Z) : WebRequest :=
  mkWebRequest (mf_endpoint t ++ lit "/?r=" ++ mf_route t) tunnel (lit "down") k false.

Lemma downstream_spec t tunnel k b a rest :
  br_answers b = a :: rest →
  ∃ b', downstream_bytes t tunnel k b = (match fetch_body a with Ok p => Return p | Err e => Throw e end, b')
    ∧ br_answers b' = rest ∧ quiet b b' ∧ br_requests b' = br_requests b ++ [poll_request t tunnel k] ∧ br_slept b' = br_slept b.
Proof.
  intros Ha. unfold downstream_bytes, fetch, wbind, wlift, fetch_url, exchange. rewrite Ha. cbn.
  eexists. split; [reflexivity|]. by repeat split.
Qed.

Lemma sleep_spec d b :
  br_sleep b (length (br_slept b)) = Ok tt →
  ∃ b', browser_sleep d b = (Return tt, b') ∧ br_answers b' = br_answers b ∧ quiet b b' ∧ br_requests b' = br_requests b.
Proof. intros Hs. unfold browser_sleep. rewrite Hs. eexists. split; [reflexivity|]. by repeat split. Qed.

Lemma handshake_poll_spec t tunnel parts : ∀ fuel received down delay b answers more,
  br_answers b = answers ++ more → delivers 54 received answers parts → (∀ n, br_sleep b n = Ok tt) →
  (length parts < fuel)%nat → 0 ≤ down → down + len parts ≤ u64_max →
  ∃ b', handshake_poll fuel t tunnel received down delay b = (Return (received ++ concat parts, down + len parts), b')
    ∧ br_answers b' = more ∧ quiet b b'
    ∧ br_requests b' = br_requests b ++ map (poll_request t tunnel) (seqZ down (len parts)).
Proof.
  induction parts as [|p parts IH]; intros fuel received down delay b answers more Ha Hd Hs Hf H0 Hmax;
    (destruct fuel as [|fuel]; [lia|]); cbn [handshake_poll].
  - apply delivers_nil in Hd as [-> He]. rewrite (proj2 (Z.ltb_ge _ _)) by lia. cbn in *.
    exists b. rewrite !app_nil_r, len_nil, Z.add_0_r. by repeat split.
  - destruct answers as [|a answers]; [by destruct Hd as [Hb _ _]; inversion Hb|].
    apply delivers_cons in Hd as (Hp & Hlt & Hd). rewrite (proj2 (Z.ltb_lt _ _)) by lia.
    destruct (downstream_spec t tunnel down b a (answers ++ more) Ha) as (b1 & E1 & A1 & Q1 & R1 & _).
    unfold wbind at 1. rewrite E1, Hp. cbn iota beta. rewrite len_cons in *. pose proof (len_nonneg parts).
    rewrite as_u64_small by (widths; lia).
    assert (∀ b2 d2, br_answers b2 = answers ++ more → quiet b b2 → br_requests b2 = br_requests b ++ [poll_request t tunnel down] →
      ∃ b', handshake_poll fuel t tunnel (received ++ p) (down + 1) d2 b2
        = (Return (received ++ concat (p :: parts), down + (1 + len parts)), b')
        ∧ br_answers b' = more ∧ quiet b b'
        ∧ br_requests b' = br_requests b ++ map (poll_request t tunnel) (seqZ down (1 + len parts))) as Hstep.
    { intros b2 d2 A2 Q2 R2. destruct (IH fuel (received ++ p) (down + 1) d2 b2 answers more) as (b3 & E3 & A3 & Q3 & R3);
        try done; [by intros n; rewrite (qu_sleep _ _ Q2)|cbn in Hf; lia|lia|lia|].
      exists b3. rewrite E3. cbn [concat]. rewrite <-app_assoc, <-Z.add_assoc. split; [done|].
      split; [done|]. split; [by etransitivity|]. rewrite R3, R2, (Z.add_comm 1), (seqZ_cons down) by lia.
      rewrite <-app_assoc. cbn. by replace (Z.pred (len parts + 1)) with (len parts) by lia. }
    destruct (is_empty p) eqn:Ep.
    + destruct (sleep_spec delay b1) as (b2 & E2 & A2 & Q2 & R2); [by rewrite (qu_sleep _ _ Q1)|].
      unfold wbind. rewrite E2. cbn iota beta.
      destruct p; [|done]. destruct (Hstep b2 (next_delay delay)) as (b' & E' & H'); [congruence|by etransitivity|congruence|].
      exists b'. rewrite app_nil_r in E'. by rewrite E'.
    + apply Hstep; done.
Qed.
End Polls.

(** ** The handshake *)
Section Handshake.
Context `{CL : CryptoLaws} `{WL : WebLibsLaws}.

Definition up_request (t : M5ohFetch) (tunnel packet : list Z) (sequence : Z) (wire : list Z) : WebRequest :=
  mkWebRequest (mf_endpoint t ++ lit "/?r=" ++ b64url_encode (packet ++ wire)) tunnel (lit "up") sequence false.

Lemma upstream_spec t tunnel packet k wire b a rest :
  b64url_decode (mf_route t) = Some packet → len wire ≤ MAX_GET_RECORD_BYTES → br_answers b = a :: rest →
  ∃ b', upstream_bytes t tunnel k wire false b = (match fetch_body a with Ok p => Return p | Err e => Throw e end, b')
    ∧ br_answers b' = rest ∧ quiet b b' ∧ br_requests b' = br_requests b ++ [up_request t tunnel packet k wire] ∧ br_slept b' = br_slept b.
Proof.
  intros Hp Hl Ha. unfold upstream_bytes. rewrite (proj2 (Z.ltb_ge _ _)) by done.
  unfold fetch, wbind, wlift, fetch_url, exchange. rewrite Hp, Ha. cbn. eexists. split; [reflexivity|]. by repeat split.
Qed.

(** C3: the browser's handshake agrees with a Noise NK responder: it succeeds
    however the polls cut the answer and however many of them are empty, its requests are the hello under number 1
    and polls numbered from 0, the bytes behind the answer are kept, and both ends
    have the same handshake hash and use the same keys and sequence numbers next. *)
Theorem web_handshake_agreement t tunnel packet static ephemeral b :
  let client := br_secrets b (br_sessions b) in
  forallb (Z.eqb 0) (x25519 client (x25519_public static)) = false →
  forallb (Z.eqb 0) (x25519 client (x25519_public ephemeral)) = false →
  b64url_decode (mf_route t) = Some packet → (∀ n, br_sleep b n = Ok tt) →
  ∃ hello st answer srv, client_hello client (x25519_public static) = Ok (hello, st) ∧
    respond static ephemeral hello = Ok (answer, srv) ∧
    ∀ up ack polls parts more rest,
      br_answers b = up :: polls ++ more → fetch_body up = Ok ack → delivers 54 [] polls parts →
      concat parts = answer ++ rest → len parts ≤ u64_max →
      ∃ s b', handshake t tunnel (x25519_public static) b = (Return s, b') ∧
        br_answers b' = more ∧
        br_requests b' = br_requests b ++ up_request t tunnel packet 1 hello :: map (poll_request t tunnel) (seqZ 0 (len parts)) ∧
        bs_received s = rest ∧ bs_upstream_seq s = 2 ∧ bs_downstream_seq s = len parts ∧
        bs_handshake_hash s = se_handshake_hash srv ∧
        in_step (bs_seal s) (se_open srv) ∧ in_step (bs_open s) (se_seal srv).
Proof.
  intros client Hes Hee Hp Hs.
  destruct (handshake_agrees client static ephemeral Hes Hee) as (hello & answer & cl & srv & Hr & Hc & Hh & Hso & Hos & _).
  assert (∃ w1, client_hello client (x25519_public static) = Ok (hello, w1)) as [w0 E0].
  { pose proof (Hc [] []) as (hello' & w1 & _ & E & _ & Es & _)%web_handshake_native. injection Es as _ Ehello. cbn in Ehello. subst. by exists w1. }
  exists hello, w0, answer, srv. split; [done|]. split; [done|]. intros up ack polls parts more rest Ha Hup Hd Hcat Hn.
  specialize (Hc rest []). apply web_handshake_native in Hc as (hello' & w1 & w2 & E1 & E2 & Es & Ehash & Is & Io & Hlen).
  injection Es as Erest Ehello. cbn in Ehello. subst hello'.
  assert (length polls = length parts) as Hlp by (destruct Hd as [Hb _ _]; by apply Forall2_length in Hb).
  unfold handshake, draw_secret. unfold wbind at 1. cbn iota beta. fold client.
  set (b0 := mkBrowser _ _ _ _ _ _ _ _ _ _). unfold wbind at 1, wlift at 1. rewrite E1. cbn iota beta.
  destruct (upstream_spec t tunnel packet 1 hello b0 up (polls ++ more) Hp) as (b1 & U1 & A1 & Q1 & R1 & _);
    [rewrite Hlen; by vm_compute|done|].
  unfold wbind at 1. rewrite U1, Hup. cbn iota beta. unfold wbind at 1, wget at 1. cbn iota beta.
  destruct (handshake_poll_spec t tunnel parts (S (length (br_answers b1))) [] 0 M5OH_EMPTY_POLL_INITIAL_MS b1 polls more)
    as (b2 & P2 & A2 & Q2 & R2); try done.
  { intros n. rewrite (qu_sleep _ _ Q1). apply Hs. } { rewrite A1, length_app. lia. }
  unfold wbind at 1. rewrite P2. cbn iota beta. cbn [app]. rewrite Hcat.
  unfold wbind, wlift. rewrite E2. cbn iota beta. destruct (WebCore.split w2) as [cs co] eqn:Esp. cbn [fst snd] in *.
  eexists _, b2. split; [reflexivity|]. cbn. rewrite R2, R1, <-app_assoc, <-Hso, <-Hos.
  split_and!; try done; congruence.
Qed.
End Handshake.

(** ** Records *)
Section Records.
Context `{CL : CryptoLaws}.

(** Records sealed or opened one after the other by the browser. *)
Fixpoint web_seal_all (c : WebCore.CipherState) (hh : list Z) (ps : list (list Z)) : js (list (list Z)) * WebCore.CipherState :=
  match ps with
  | [] => (Ok [], c)
  | p :: t =>
      match WebCore.seal_record c hh p with
      | (Ok r, c) => let '(rs, c) := web_seal_all c hh t in (result_map (cons r) rs, c)
      | (Err e, c) => (Err e, c)
      end
  end.

Fixpoint web_open_all (c : WebCore.CipherState) (hh : list Z) (rs : list (list Z)) : js (list (list Z)) * WebCore.CipherState :=
  match rs with
  | [] => (Ok [], c)
  | r :: t =>
      match WebCore.open_record c hh r with
      | (Ok p, c) => let '(ps, c) := web_open_all c hh t in (result_map (cons p) ps, c)
      | (Err e, c) => (Err e, c)
      end
  end.

Lemma web_padded n :
  (5 + n + (if 5 + n <=? WebCore.LARGE_PADDING_THRESHOLD then WebCore.PADDING_BLOCK else WebCore.LARGE_PADDING_BLOCK) - 1)
  / (if 5 + n <=? WebCore.LARGE_PADDING_THRESHOLD then WebCore.PADDING_BLOCK else WebCore.LARGE_PADDING_BLOCK)
  * (if 5 + n <=? WebCore.LARGE_PADDING_THRESHOLD then WebCore.PADDING_BLOCK else WebCore.LARGE_PADDING_BLOCK) = padded_len n.
Proof.
  unfold padded_len, WebCore.LARGE_PADDING_THRESHOLD, WebCore.PADDING_BLOCK, WebCore.LARGE_PADDING_BLOCK. consts.
  destruct (5 + n <=? 1024); by rewrite Z.add_sub_assoc.
Qed.

Lemma web_seal_native c n hh p rec n' :
  in_step c n → wf_record 0 p → Record.seal_with n hh 0 p = Ok (rec, n') →
  WebCore.seal_record c hh p = (Ok rec, next_nonce c).
Proof.
  intros [Hk Hn] Hw H. pose proof Hw as [_ Hb Hl]. pose proof (len_nonneg p).
  unfold Record.seal_with in H. rewrite transport_plaintext_ok in H by done.
  unfold WebCore.seal_record. cbn zeta. rewrite web_padded, Hk, Hn, as_u32_small by (consts; widths; lia).
  set (plain := [0] ++ _) in *. clearbody plain.
  destruct (check_limit _ _); [|done].
  destruct (checked_add64 8 (len plain)) as [v|] eqn:E8; [|done]. apply checked_add64_some in E8 as [-> _].
  destruct (checked_add64 (8 + len plain) Record.TAG_LEN) as [v|] eqn:E9; [|done]. cbn [ok_or] in H.
  apply checked_add64_some in E9 as [-> _].
  unfold Record.record_aad in H. unfold WebCore.record_aad. change WebCore.TAG_LEN with Record.TAG_LEN.
  destruct (u32_max <? 8 + len plain + Record.TAG_LEN); [done|].
  change WebCore.RECORD_LABEL with Record.RECORD_LABEL.
  unfold Record.aead_encrypt in H. unfold WebCore.aead_encrypt. destruct (negb (len (cs_key n) =? 32)); [done|].
  change (WebCore.aead_nonce (cs_nonce n)) with (Record.aead_nonce (cs_nonce n)).
  destruct (chacha_encrypt _ _ _ _); cbn [ok_or] in *; [|done].
  destruct (commit _ _ _); [|done]. by simplify_eq.
Qed.

(** A record of the browser whose sequence number is not the expected one is refused. *)
Lemma sealed_sequence_refused c c' n hh q rec :
  wf_record 0 q → WebCore.seal_record c hh q = (Ok rec, c') → 0 ≤ ci_nonce c ≤ u64_max → ci_nonce c ≠ cs_nonce n →
  open_with n hh rec = Err (invalid_data (lit "MST5 encrypted record sequence mismatch")).
Proof.
  intros [_ Hb Hl] H Hr Hne. pose proof (len_nonneg q). unfold WebCore.seal_record in H. cbn zeta in H.
  rewrite web_padded, as_u32_small in H by (consts; widths; lia).
  pose proof (padded_len_max (len q) ltac:(lia)) as Hm. pose proof (padded_len_bound (len q) ltac:(lia)).
  pose proof (len_padded 0 q) as Hp. pose proof (plaintext_bytes 0 q (Z.to_nat (padded_len (len q) - (5 + len q)))) as Hpb.
  set (plain := [0] ++ _) in *. clearbody plain.
  unfold WebCore.record_aad, WebCore.aead_encrypt in H. destruct (u32_max <? _); [done|]. destruct (negb _); [done|].
  destruct (chacha_encrypt _ _ _ _) as [ct|] eqn:Ee; cbn [ok_or] in H; [|done].
  apply pair_equal_spec in H as [H _]. apply Ok_inj in H as <-.
  apply chacha_ct in Ee as [_ Hct]; [|apply Hpb; by split; auto].
  unfold open_with. rewrite len_app, len_be_bytes, Hct, Hp.
  rewrite (proj2 (Z.ltb_ge _ _)) by (unfold Record.TAG_LEN in *; lia). unfold Record.TAG_LEN in Hm.
  rewrite (proj2 (Z.ltb_ge _ _)) by lia. cbn [orb].
  rewrite take_app_length' by (by rewrite length_be_bytes). rewrite be_bytes_roundtrip by (widths; cbn; lia).
  by rewrite (proj2 (Z.eqb_neq _ _)).
Qed.

Lemma web_open_native c n hh rec p n' :
  in_step c n → is_bytes rec → Record.open_with n hh rec = Ok (Application p, n') →
  WebCore.open_record c hh rec = (Ok p, next_nonce c).
Proof.
  intros [Hk Hn] Hb H. unfold Record.open_with in H. unfold WebCore.open_record. rewrite Hk, Hn.
  change (8 + Record.TAG_LEN) with 24 in H. destruct (Z.ltb_spec (len rec) 24); [done|]. cbn [orb] in H.
  destruct (max_record_len <? len rec); [done|]. destruct (negb (from_be (take 8 rec) =? cs_nonce n)) eqn:En; [done|].
  destruct (check_limit _ _); [|done]. to_prop. apply Z.eqb_eq in En. rewrite En in *.
  unfold Record.record_aad in H. unfold WebCore.record_aad. destruct (u32_max <? len rec); [done|].
  change WebCore.RECORD_LABEL with Record.RECORD_LABEL.
  unfold Record.aead_decrypt in H. unfold WebCore.aead_decrypt.
  destruct (len (drop 8 rec) <? Record.TAG_LEN); [done|]. destruct (negb (len (cs_key n) =? 32)); [done|].
  change (WebCore.aead_nonce (cs_nonce n)) with (Record.aead_nonce (cs_nonce n)).
  destruct (chacha_decrypt _ _ _ _) as [pt|] eqn:Ed; cbn [ok_or] in *; [|done].
  apply chacha_pt in Ed as [Hpt _]; [|by apply is_bytes_drop].
  unfold parse_transport_plaintext in H. f_equal.
  destruct (len pt <? 5); [done|]. cbn [orb].
  pose proof (from_be_bound (slice 1 5 pt) (is_bytes_slice _ _ _ Hpt)).
  destruct (_ || (len pt <? 5 + from_be (slice 1 5 pt))) eqn:El; [done|]. apply orb_false_elim in El as [_ El]. rewrite El.
  rewrite (Z2Nat.inj_add 5) by lia. change (Z.to_nat 5) with 5%nat. cbn [orb].
  destruct (existsb _ _); [done|].
  destruct (nth 0 pt 0 =? 0); [|destruct (_ && _); [destruct (commit _ _ _)|]; done]. cbn [negb]. destruct (commit _ _ _); [|done]. simplify_eq.
  unfold slice at 2. do 2 f_equal. lia.
Qed.
(** Records until the key has to be replaced. *)
Fixpoint padded_total (ps : list (list Z)) : Z :=
  match ps with [] => 0 | p :: t => padded_len (len p) + padded_total t end.
Record within_key (n : Record.CipherState) (ps : list (list Z)) : Prop := {
  wk_records : cs_nonce n + len ps < REKEY_RECORDS;
  wk_bytes : cs_plaintext_bytes n + padded_total ps < REKEY_BYTES
}.

Lemma padded_total_nonneg ps : 0 ≤ padded_total ps.
Proof. induction ps as [|p ps IH]; cbn; [done|]. pose proof (padded_len_bound (len p) (len_nonneg p)). pose proof (len_nonneg p). lia. Qed.

Lemma commit_in_step c n k hh n' :
  in_step c n → 0 ≤ cs_nonce n → commit n k hh = Ok n' → cs_nonce n + 1 < REKEY_RECORDS → cs_plaintext_bytes n + k < REKEY_BYTES →
  in_step (next_nonce c) n' ∧ cs_nonce n' = cs_nonce n + 1 ∧ cs_plaintext_bytes n' = cs_plaintext_bytes n + k
  ∧ cs_generation n' = cs_generation n.
Proof.
  intros [Hk Hn] H0 H Hr Hb. unfold commit in H.
  destruct (checked_add64 (cs_plaintext_bytes n) k) as [x|] eqn:E1; [|done]. apply checked_add64_some in E1 as [-> _].
  destruct (checked_add64 (cs_nonce n) 1) as [x|] eqn:E2; [|done]. apply checked_add64_some in E2 as [-> Hx].
  cbn [ok_or] in H. rewrite (proj2 (Z.leb_gt _ _)), (proj2 (Z.leb_gt _ _)) in H by done. cbn [orb] in H. simplify_eq.
  cbn. split_and!; try done. split; cbn; [done|]. rewrite Hn, as_u64_small; [done|]. widths. lia.
Qed.

(** C13: the browser's records are the native records as long as no key has to be
    replaced: for any sequence of payloads within one key, both sides seal the same
    records, each opens what the other sealed, and they end in step. *)
Theorem web_records_agree c n hh ps :
  in_step c n → cipher_ok n → is_bytes hh → cs_generation n < u64_max → Forall (wf_record 0) ps → within_key n ps →
  ∃ recs c' n', web_seal_all c hh ps = (Ok recs, c') ∧ web_open_all c hh recs = (Ok ps, c') ∧
    seal_all n hh (map (pair 0) ps) = Ok (recs, n') ∧ open_all n hh recs = Ok (map Application ps, n') ∧ in_step c' n'.
Proof.
  intros Hi Hc Hhh Hg Hps. revert c n Hi Hc Hg. induction Hps as [|p ps Hp Hps IH]; intros c n Hi Hc Hg [Hr Hb].
  - by exists [], c, n.
  - rewrite len_cons in Hr. cbn [padded_total] in Hb.
    pose proof (len_nonneg ps). pose proof (padded_total_nonneg ps).
    destruct (seal_open_step n hh 0 p Hc Hp Hg Hhh) as (rec & n1 & Hs & Ho & Hc1 & Hrb & _ & Hcom).
    destruct (commit_in_step c n _ hh n1 Hi ltac:(apply Hc) Hcom) as (Hi1 & Hn1 & Hb1 & Hg1); [lia|lia|].
    destruct (IH (next_nonce c) n1 Hi1 Hc1 ltac:(lia)) as (recs & c' & n' & E1 & E2 & E3 & E4 & Hi'); [split; lia|].
    exists (rec :: recs), c', n'. cbn. rewrite (web_seal_native c n hh p rec n1), (web_open_native c n hh rec p n1) by done.
    rewrite E1, E2, Hs, E3, Ho, E4. done.
Qed.

(** The browser never replaces a key: after the record that makes a peer replace its
    key (the 262144th under it, or the one that brings it to 256 MiB), which is
    still accepted, the peer refuses every further record of the browser. *)
Theorem web_misses_rekey c n hh p :
  in_step c n → cipher_ok n → is_bytes hh → cs_generation n < u64_max → wf_record 0 p →
  (cs_nonce n + 1 = REKEY_RECORDS ∨ REKEY_BYTES ≤ cs_plaintext_bytes n + padded_len (len p)) →
  ∃ rec c' n', WebCore.seal_record c hh p = (Ok rec, c') ∧ open_with n hh rec = Ok (Application p, n') ∧
    ∀ q rec2 c2, wf_record 0 q → WebCore.seal_record c' hh q = (Ok rec2, c2) →
      open_with n' hh rec2 = Err (invalid_data (lit "MST5 encrypted record sequence mismatch")).
Proof.
  intros Hi Hc Hhh Hg Hp Hre.
  destruct (seal_open_step n hh 0 p Hc Hp Hg Hhh) as (rec & n1 & Hs & Ho & Hc1 & Hrb & _ & Hcom).
  exists rec, (next_nonce c), n1. split; [by eapply web_seal_native|]. split; [done|].
  intros q rec2 c2 Hq H2. destruct Hi as [Hk Hn]. destruct (ck_nonce _ Hc) as [Hn0 Hn1].
  assert (cs_nonce n1 = 0) as Hz.
  { unfold commit in Hcom.
    destruct (checked_add64 (cs_plaintext_bytes n) _) as [x|] eqn:E1; [|done]. apply checked_add64_some in E1 as [-> _].
    destruct (checked_add64 (cs_nonce n) 1) as [x|] eqn:E2; [|done]. apply checked_add64_some in E2 as [-> _].
    cbn [ok_or] in Hcom.
    assert ((REKEY_RECORDS <=? cs_nonce n + 1) || (REKEY_BYTES <=? cs_plaintext_bytes n + padded_len (len p)) = true) as Er
      by (apply orb_true_intro; rewrite !Z.leb_le; lia).
    rewrite Er in Hcom. destruct (ok_or (checked_add64 (cs_generation n) 1) _); [|done]. by simplify_eq. }
  eapply sealed_sequence_refused; [exact Hq|exact H2| |]; rewrite ?Hz; cbn; rewrite Hn, as_u64_small; widths; consts; lia.
Qed.
End Records.

(** ** Frames over a session *)
Section Frames.
Context `{N : JsonNumber} `{L : !WebLibs} `{CL : CryptoLaws}.

Lemma write_record_eq frame b s rec c :
  WebCore.seal_record (bs_seal s) (bs_handshake_hash s) frame = (Ok rec, c) →
  write_record frame (b, s) =
    match upstream_bytes (bs_transport s) (bs_tunnel_id s) (bs_upstream_seq s) (be_bytes 4 (as_u32 (len rec)) ++ rec) false b with
    | (Return _, b') =>
        match checked_add64 (bs_upstream_seq s) 1 with
        | Some n => (Return tt, (b', set_upstream n (set_seal c s)))
        | None => (Throw (lit "M5oH upload sequence exhausted"), (b', set_seal c s))
        end
    | (Throw e, b') => (Throw e, (b', set_seal c s))
    | (Pending, b') => (Pending, (b', set_seal c s))
    end.
Proof.
  intros E. unfold write_record. unfold wbind at 1, in_session at 1, within at 1, wmodify at 1. cbn [snd]. rewrite E.
  cbn iota beta. unfold wbind at 1, wget. cbn iota beta. unfold wbind, in_browser, within. cbn [fst snd].
  destruct (upstream_bytes _ _ _ _ _ b) as [[x|e|] b']; cbn; [|done|done].
  unfold in_session, within, wmodify. cbn [fst snd]. change (bs_upstream_seq (set_seal c s)) with (bs_upstream_seq s).
  by destruct (checked_add64 (bs_upstream_seq s) 1).
Qed.

(** The frame [write_frame] sends: the native frame of a request without a
    deadline, with a nonce for COMMANDs only. *)
Definition web_frame (kind code id : Z) (random payload : list Z) : Frame :=
  mkFrame kind 0 code id (if kind =? 2 then random else replicate 16 0) 0 payload.

Lemma frame_encode_native kind code id payload random :
  len payload ≤ WebCore.MAX_RECORD_BYTES →
  ∃ bytes, frame_encode kind code id payload (Ok random) = Ok bytes ∧ encode (web_frame kind code id random payload) = Ok bytes
    ∧ (wf_frame (web_frame kind code id random payload) → len bytes = 40 + len payload).
Proof.
  intros Hl. unfold frame_encode, encode, encode_into, web_frame. cbn [fr_flags fr_kind fr_payload fr_code fr_id fr_request_nonce fr_deadline_ms].
  change MST5_MAX_WIRE_PAYLOAD with WebCore.MAX_RECORD_BYTES. rewrite (proj2 (Z.ltb_ge _ _)) by done.
  change (negb (0 =? 0)) with false. cbn iota.
  destruct (kind =? 2); cbn [map_err]; (eexists; split; [reflexivity|]; split; [reflexivity|]);
    intros [_ _ _ _ [_ Hn] _ _ _]; cbn in Hn; autorewrite with len; [|lia].
  assert (len random = 16) by (unfold len; lia). lia.
Qed.

(** What [write_frame] draws for a nonce. *)
Definition drawn (kind : Z) (b : Browser) : io (list Z) := if kind =? 2 then br_random b (br_drawn b) else Ok [].
Definition after_draw (kind : Z) (b : Browser) : Browser := if kind =? 2 then (draw b).2 else b.

Lemma write_frame_eq kind code id payload b s random bytes :
  len payload ≤ WebCore.MAX_RECORD_BYTES → drawn kind b = Ok random → frame_encode kind code id payload (Ok random) = Ok bytes →
  write_frame kind code id payload (b, s) = write_record bytes (after_draw kind b, s).
Proof.
  intros Hl Hd He. unfold write_frame, drawn, after_draw in *. rewrite (proj2 (Z.leb_le _ _)), andb_true_r by done.
  destruct (kind =? 2) eqn:Ek; unfold wbind, wret, in_browser, within, draw, wlift; cbn; rewrite ?Hd; cbn.
  - rewrite He. done.
  - simplify_eq. by rewrite He.
Qed.

(** A frame whose record does not fit a GET request breaks the session: the write
    fails before anything is sent, but the sequence number of the record is used up,
    so a peer that was in step refuses every later record. *)
Theorem oversized_frame_desyncs kind code id payload b s n random :
  in_step (bs_seal s) n → cipher_ok n → is_bytes (bs_handshake_hash s) → cs_generation n < u64_max →
  drawn kind b = Ok random → wf_frame (web_frame kind code id random payload) →
  17492 ≤ len payload ≤ WebCore.MAX_RECORD_BYTES →
  ∃ b' s', write_frame kind code id payload (b, s) = (Throw (lit "M5oH encrypted GET record exceeds CDN limit"), (b', s')) ∧
    br_requests b' = br_requests b ∧
    ∀ q rec c', wf_record 0 q → WebCore.seal_record (bs_seal s') (bs_handshake_hash s') q = (Ok rec, c') →
      open_with n (bs_handshake_hash s') rec = Err (invalid_data (lit "MST5 encrypted record sequence mismatch")).
Proof.
  intros Hi Hc Hhh Hg Hd Hw [Hmin Hmax].
  destruct (frame_encode_native kind code id payload random Hmax) as (bytes & E1 & E2 & Hlen). specialize (Hlen Hw).
  rewrite (write_frame_eq kind code id payload b s random bytes) by done.
  destruct (seal_open_step n (bs_handshake_hash s) 0 bytes Hc) as (rec & n1 & Hs & _ & _ & _ & Hrl & _);
    [by eapply encode_wf_record|done|done|].
  apply (web_seal_native (bs_seal s) n) in Hs; [|done|by eapply encode_wf_record].
  rewrite (write_record_eq bytes (after_draw kind b) s rec (next_nonce (bs_seal s)) Hs).
  unfold upstream_bytes. rewrite (proj2 (Z.ltb_lt _ _)).
  2:{ change WebCore.MAX_GET_RECORD_BYTES with 17653. rewrite len_app, len_be_bytes, Hrl, Hlen. unfold padded_len. consts.
      rewrite (proj2 (Z.leb_gt _ _)) by lia. div_lia. }
  eexists _, _. split; [reflexivity|]. split; [by unfold after_draw; destruct (kind =? 2)|].
  intros q rec2 c2 Hq H2. destruct Hi as [_ Hn]. destruct (ck_nonce _ Hc). cbn in H2.
  eapply sealed_sequence_refused; [exact Hq|exact H2| |]; cbn; rewrite Hn, as_u64_small; widths; consts; lia.
Qed.
End Frames.

(** ** Routes *)
Section Routes.
Context `{WL : WebLibsLaws}.

Definition url_safe (b : Z) : bool := is_ascii_alnum b || (b =? 45) || (b =? 95).

Lemma url_char_safe v : good_index v = true → url_safe (url_char v) = true.
Proof.
  intros H. unfold good_index in H. to_prop.
  assert (forallb (λ i, url_safe (url_char i)) (map Z.of_nat (List.seq 0 64)) = true) as Hall by (vm_compute; reflexivity).
  rewrite forallb_forall in Hall. apply Hall. apply in_map_iff. exists (Z.to_nat v). split; [lia|]. apply in_seq. lia.
Qed.

Lemma encoded_safe bs : is_bytes bs → forallb url_safe (base64url_no_pad bs) = true.
Proof.
  assert (is_u8 0) as H0 by (widths; lia).
  induction bs as [|a|a b|a b c t IH] using chunk3_ind; intros Hb; [done| | |]; cbn [base64url_no_pad];
    repeat match goal with H : is_bytes (_ :: _) |- _ => apply is_bytes_cons in H as [? H] end.
  - destruct (idx_good a 0) as (G0 & G1 & _ & _); [done..|]. cbn. by rewrite !url_char_safe.
  - destruct (idx_good a b) as (G0 & G1 & _ & _); [done..|]. destruct (idx_good b 0) as (_ & _ & G2 & _); [done..|].
    cbn. by rewrite !url_char_safe.
  - destruct (idx_good a b) as (G0 & G1 & _ & _); [done..|]. destruct (idx_good b c) as (_ & _ & G2 & _); [done..|].
    destruct (idx_good c 0) as (_ & _ & _ & G3); [done..|]. cbn. rewrite !url_char_safe by done. by apply IH.
Qed.

Lemma route_wire_permute octets port :
  length octets = 4%nat → is_u16 port → route_wire octets port 0 = packet_route_permute (mkSocketAddrV4 octets port).
Proof.
  intros Hl Hp. destruct octets as [|o0 [|o1 [|o2 [|o3 [|]]]]]; try done.
  assert (be_bytes 2 port = [as_u8 (Z.shiftr port 8); as_u8 port]) as E.
  { unfold be_bytes, as_u8. rewrite Z.shiftr_div_pow2 by lia. change (256 ^ Z.of_nat 0) with 1. by rewrite Z.div_1_r. }
  unfold route_wire, packet_route_permute. cbn [sa_port sa_octets]. by rewrite E.
Qed.

(** A browser request is routed like a native one: for every IPv4 destination the
    encoded selector is accepted by [M5ohFetch::new], uploads and polls of records within the limit
    go to the target of the native client for that destination, and the target
    stays within the 23 KiB the CDN accepts. *)
Theorem web_target_agrees host ip port octets record :
  parse_octets ip = Some octets → length octets = 4%nat → is_bytes octets → is_u16 port →
  is_bytes record → len record ≤ MAX_GET_RECORD_BYTES →
  let d := mkSocketAddrV4 octets port in
  let endpoint := trim_end_matches 47 (lit "https://" ++ host) in
  starts_with (lit "https://") endpoint = true →
  ∃ route t, encode_route ip port 0 = Ok route ∧ fetch_new (lit "https://" ++ host) route = Ok t ∧
    b64url_decode (mf_route t) = Some (packet_route_permute d) ∧
    fetch_url t (Some record) = Ok (endpoint ++ get_target (Some d) record) ∧
    fetch_url t None = Ok (endpoint ++ get_target (Some d) []) ∧
    len (get_target (Some d) record) ≤ Endpoint.MAX_GET_TARGET.
Proof.
  intros Ho Hl Hb Hp Hr Hlen d endpoint Hs.
  assert (wf_socket d) as Hd by (by split).
  assert (is_bytes (packet_route_permute d)) as Hpb by (by apply permute_bytes).
  destruct (encoded_no_ws _ Hpb) as [_ Hl11].
  exists (b64url_encode (packet_route_permute d)), (mkFetch endpoint (b64url_encode (packet_route_permute d))).
  unfold encode_route. rewrite Ho. cbn [ok_or]. assert (len octets = 4) as -> by (unfold len; lia).
  rewrite route_wire_permute by done. split; [done|]. split; [|split].
  - unfold fetch_new. fold endpoint. rewrite Hs. cbn [negb]. rewrite b64url_rfc4648 by done.
    rewrite Hl11. change (div_ceil (4 * len (packet_route_permute d)) 3 =? 11) with true.
    cbn [negb orb]. by rewrite (encoded_safe _ Hpb : forallb (λ b, is_ascii_alnum b || (b =? 45) || (b =? 95)) _ = true).
  - by apply b64url_roundtrip.
  - unfold fetch_url. cbn [mf_route mf_endpoint]. rewrite b64url_roundtrip by done. cbn [ok_or]. split; [|split].
    + rewrite b64url_rfc4648 by (by apply is_bytes_app). done.
    + rewrite b64url_rfc4648 by done. unfold get_target. by rewrite app_nil_r.
    + destruct (get_target_fits d record Hd Hr Hlen) as (? & _ & H & _). exact H.
Qed.
End Routes.

(** ** Commands *)
Definition web_only : list (list Z * list Z) := [(lit "GET", lit "/chats/folders"); (lit "POST", lit "/chats/folder")].
Definition native_only : list (list Z * list Z) := [(lit "GET", lit "/account/inactivity"); (lit "POST", lit "/account/inactivity")].

Lemma find_route_in key l c : find_route key l = Some c → (key, c) ∈ l.
Proof.
  induction l as [|[k o] l IH]; cbn; [done|]. case_bool_decide as E; [|right; auto]. intros. simplify_eq. left.
Qed.

Lemma native_operation_in key l c : find_operation key l = Some c → (key, c) ∈ l.
Proof.
  induction l as [|[k o] l IH]; cbn; [done|]. case_bool_decide as E; [|right; auto]. intros. simplify_eq. left.
Qed.

Lemma web_routes_checked :
  Forall (λ r, find_operation r.1 Messenger.operation_table = Some r.2 ∨ r.1 ∈ web_only) WebCore.operation_table ∧
  Forall (λ r, find_route r.1 WebCore.operation_table = Some r.2 ∨ r.1 ∈ native_only) Messenger.operation_table.
Proof. split; by_vm. Qed.

Lemma routes_agree method path :
  match WebCore.operation method path, Messenger.operation method path with
  | Ok c, Ok c' => c = c'
  | Ok _, Err _ => (method, path) ∈ web_only
  | Err _, Ok _ => (method, path) ∈ native_only
  | Err _, Err _ => True
  end.
Proof.
  destruct web_routes_checked as [Hw Hn]. rewrite !Forall_forall in Hw, Hn.
  unfold WebCore.operation, Messenger.operation.
  destruct (find_route (method, path) WebCore.operation_table) as [c|] eqn:Ew; cbn [ok_or];
    destruct (find_operation (method, path) Messenger.operation_table) as [c'|] eqn:En; try done.
  - apply find_route_in, list_elem_of_In, Hw in Ew as [Ew|Ew]; cbn [fst snd] in Ew; [congruence|].
    exfalso. revert Ew En. unfold web_only. rewrite !elem_of_cons. intros [E|[E|E]] En; [injection E as -> ->..|by apply elem_of_nil in E];
      vm_compute in En; done.
  - apply find_route_in, list_elem_of_In, Hw in Ew as [Ew|Ew]; cbn [fst snd] in Ew; [congruence|done].
  - apply native_operation_in, list_elem_of_In, Hn in En as [En|En]; cbn [fst snd] in En; [congruence|done].
Qed.

Section Commands.
Context `{J : SerdeJson}.

(** The method and path a command names. *)
Definition command_route (object : list (list Z * JsonValue)) : list Z * list Z :=
  (to_ascii_uppercase (string_field_or object (lit "method") (lit "GET")), (split_query (string_field_or object (lit "path") (lit "/"))).1).

(** C35: a JSON command means the same to the browser as to the native client: for every
    command object with a token, both send the same kind of frame with the same
    operation code and a payload that encodes the same JSON, an empty query string apart, which only the
    browser sends.  Only the routes of [web_only] and [native_only], and a payload
    the native encoder refuses, are answered differently. *)
Theorem web_commands_agree source object token now :
  from_str source = Ok (JObject object) → btree_get (lit "token") object = Some (JString token) →
  match web_command_request (JObject object), command_request source now with
  | Ok (kind, code, payload), Ok c =>
      kind = cm_kind c ∧ code = cm_opcode c ∧ cm_token c = token ∧
      ∃ payload' v, json_to_cbor payload' = Ok v ∧ cm_payload c = encode_cbor v ∧
        (payload' = payload ∨ kind = 3 ∧ payload = JObject [(lit "query", JString [])] ∧ payload' = JObject [])
  | Ok (_, _, payload), Err e => command_route object ∈ web_only ∨ json_to_cbor payload = Err e
  | Err _, Ok _ => command_route object ∈ native_only
  | Err _, Err _ => True
  end.
Proof.
  intros Hs Ht. unfold web_command_request, command_request, command_route. rewrite Hs. cbn [map_err jas_object ok_or].
  unfold string_field. rewrite Ht. cbn [jas_str ok_or].
  change (match btree_get (lit "method") object with Some v => default (lit "GET") (jas_str v) | None => lit "GET" end)
    with (string_field_or object (lit "method") (lit "GET")).
  change (match btree_get (lit "path") object with Some v => default (lit "/") (jas_str v) | None => lit "/" end)
    with (string_field_or object (lit "path") (lit "/")).
  set (method := to_ascii_uppercase _). unfold split_query. set (raw := string_field_or object (lit "path") _).
  set (sq := match split_once 63 raw with Some (p, q) => (p, Some q) | None => (raw, None) end).
  destruct sq as [path query]. cbn [fst].
  pose proof (routes_agree method path) as Hr.
  destruct (WebCore.operation method path) as [code|], (Messenger.operation method path) as [code'|]; try done.
  - subst code'. destruct (beq method (lit "GET")) eqn:Eg.
    + destruct query as [[|x q]|]; cbn [is_empty].
      * cbn -[encode_cbor]. split_and!; try done. eexists _, _. split; [|split]; [|reflexivity|right; split_and!; reflexivity]. done.
      * destruct (json_to_cbor _) eqn:E; cbn -[encode_cbor]; [|by right]. split_and!; try done. eexists _, _. split; [exact E|]. split; [done|by left].
      * cbn -[encode_cbor]. split_and!; try done. eexists _, _. split; [|split]; [|reflexivity|by left]. done.
    + destruct (json_to_cbor _) eqn:E; cbn -[encode_cbor]; [|by right]. split_and!; try done. eexists _, _. split; [exact E|]. split; [done|by left].
  - by left.
  - by destruct (json_to_cbor _).
Qed.
End Commands.

(** ** Sample values *)
Module WebFixture.
(** Numbers that are all integers. *)
#[export] Instance integers : JsonNumber := {|
  Number := Z; num_as_u64 := Some; num_as_i64 _ := None; num_as_f64 _ := None;
  num_from_u64 n := n; num_from_i64 n := n; num_from_f64 _ := None
|}.
#[local] Existing Instance Toy.toy_crypto.
#[local] Existing Instance Toy.toy_laws.

(** The end of an upload and the empty object, in a notation of their own. *)
Definition cbor_encode (v : JsonValue) : option (list Z) :=
  match v with
  | JObject [] => Some []
  | JObject [(a, JString s); (b, JNumber n)] =>
      if beq a (lit "sha256") && beq b (lit "size") && bool_decide (is_bytes s) && bool_decide (is_u64 n)
      then Some (be_bytes 8 n ++ s) else None
  | _ => None
  end.
Definition cbor_decode (l : list Z) : JsonValue :=
  match l with
  | [] => JObject []
  | _ => JObject [(lit "sha256", JString (drop 8 l)); (lit "size", JNumber (from_be (take 8 l)))]
  end.
Definition url_decode (l : list Z) : option (list Z) := match decode_quads (pad_base64 l) with Ok bs => Some bs | Err _ => None end.

#[export] Instance libs : WebLibs := {|
  b64_encode := base64url_no_pad; b64_decode := url_decode; b64url_encode := base64url_no_pad; b64url_decode := url_decode;
  cbor_to_vec := cbor_encode; cbor_from_slice := Some ∘ cbor_decode; deflate_read _ _ := None
|}.

#[export] Instance libs_laws : WebLibsLaws.
Proof.
  split; [done|by intros; cbn; unfold url_decode; rewrite decode_encode_quads..|].
  intros v bytes H. cbn in *. unfold cbor_encode in H.
  destruct v as [| | | | |[|[a [| | |s| |]] [|[b [| |n| | |]] [|]]]]; try done.
  { apply (inj Some) in H as <-. split; [by_vm|done]. }
  destruct (_ && _) eqn:E; [|done]. apply (inj Some) in H as <-. to_prop. subst.
  split; [by apply is_bytes_app; split; [apply be_bytes_is_bytes|]|]. unfold cbor_decode.
  destruct (be_bytes 8 n ++ s) eqn:Ek; [by destruct s|]. rewrite <-Ek.
  rewrite take_app_length', drop_app_length' by (by rewrite length_be_bytes). rewrite be_bytes_roundtrip by (widths; cbn; lia).
  done.
Qed.

(** A route, keys and a browser that has the given answers. *)
Definition packet : list Z := packet_route_permute (mkSocketAddrV4 [10; 1; 2; 3] 443).
Definition transport : M5ohFetch := mkFetch (lit "https://cdn.example") (b64url_encode packet).
Definition tunnel : list Z := lit "00ff".
Definition browser (answers : list fetch_answer) : Browser :=
  mkBrowser answers [] (λ _, Ok tt) [] (λ _, Ok (replicate 16 1)) 0 (λ _, replicate 32 2) 0 (λ _, Ok tt) [].
Definition body_of (l : list Z) : fetch_answer := FetchResponse true 200 (Ok None) (Ok l).
Definition accepted_upload : fetch_answer := FetchResponse true 200 (Ok (Some (lit "OK"))) (Ok (lit "ignored")).

Definition node_answer : list Z :=
  match client_hello (replicate 32 2) (x25519_public (replicate 32 3)) with
  | Ok (hello, _) => match respond (replicate 32 3) (replicate 32 5) hello with Ok (answer, _) => answer | Err _ => [] end
  | Err _ => []
  end.
Definition answer_parts : list (list Z) := [take 20 node_answer; []; drop 20 node_answer ++ [1; 2; 3]].
Definition hello_browser : Browser := browser (accepted_upload :: map body_of answer_parts ++ [body_of [9]]).

Lemma web_handshake_agreement_witness :
  ∃ s b', handshake transport tunnel (x25519_public (replicate 32 3)) hello_browser = (Return s, b') ∧
    br_answers b' = [body_of [9]] ∧ bs_received s = [1; 2; 3] ∧ bs_downstream_seq s = 3.
Proof.
  destruct (web_handshake_agreement transport tunnel packet (replicate 32 3) (replicate 32 5) hello_browser)
    as (hello & st & answer & srv & Eh & Er & H); [vm_compute; reflexivity..|done|].
  assert (node_answer = answer) as En.
  { unfold node_answer. change (replicate 32 2) with (br_secrets hello_browser (br_sessions hello_browser)). by rewrite Eh, Er. }
  destruct (H accepted_upload [] (map body_of answer_parts) answer_parts [body_of [9]] [1; 2; 3])
    as (s & b' & E & Ha & _ & Hr & _ & Hd & _); [reflexivity|reflexivity| | |vm_compute; congruence|].
  - unfold answer_parts in *. assert (len (take 20 node_answer) = 20) as H20 by (vm_compute; reflexivity).
    assert (len (drop 20 node_answer) = 34) as H34 by (vm_compute; reflexivity). clear En.
    generalize dependent (take 20 node_answer). generalize dependent (drop 20 node_answer). intros y Hy x Hx.
    split; [repeat constructor|cbn; rewrite !app_nil_r, !len_app; change (len [1; 2; 3]) with 3; lia|].
    intros [|x0 [|x1 [|x2 init]]] l Hp; injection Hp; intros; subst; cbn; rewrite ?app_nil_r, ?len_nil, ?Hx; try lia. by destruct init.
  - rewrite <-En. unfold answer_parts. generalize node_answer. intros l. cbn [concat app]. by rewrite app_nil_r, app_assoc, take_drop.
  - exists s, b'. exact (conj E (conj Ha (conj Hr Hd))).
Defined.

Definition web_cipher (nonce : Z) : WebCore.CipherState := mkCipher (replicate 32 7) nonce.

Lemma web_records_agree_witness :
  ∃ recs c' n', web_seal_all (web_cipher 0) sample_hash [lit "a"; []] = (Ok recs, c') ∧
    web_open_all (web_cipher 0) sample_hash recs = (Ok [lit "a"; []], c') ∧
    seal_all sample_cipher sample_hash [(0, lit "a"); (0, [])] = Ok (recs, n') ∧
    open_all sample_cipher sample_hash recs = Ok ([Application (lit "a"); Application []], n') ∧ in_step c' n'.
Proof.
  apply (web_records_agree (web_cipher 0) sample_cipher sample_hash [lit "a"; []]).
  - by split.
  - exact sample_cipher_ok.
  - exact sample_hash_bytes.
  - by vm_compute.
  - repeat constructor; first [by left|by_vm|by vm_compute].
  - by split.
Defined.

(** A peer one record before it replaces its key. *)
Definition old_cipher : Record.CipherState := mkCipherState (replicate 32 7) (REKEY_RECORDS - 1) 1000 0.

Lemma web_misses_rekey_witness :
  ∃ rec c' n', WebCore.seal_record (web_cipher (REKEY_RECORDS - 1)) sample_hash (lit "a") = (Ok rec, c') ∧
    open_with old_cipher sample_hash rec = Ok (Application (lit "a"), n') ∧
    ∃ rec2 c2, WebCore.seal_record c' sample_hash (lit "b") = (Ok rec2, c2) ∧
      open_with n' sample_hash rec2 = Err (invalid_data (lit "MST5 encrypted record sequence mismatch")).
Proof.
  destruct (web_misses_rekey (web_cipher (REKEY_RECORDS - 1)) old_cipher sample_hash (lit "a")) as (rec & c' & n' & E1 & E2 & H).
  - by split.
  - split; [split; [by_vm|done]|by vm_compute..].
  - exact sample_hash_bytes.
  - by vm_compute.
  - repeat constructor; first [by left|by_vm|by vm_compute].
  - by left.
  - exists rec, c', n'. split; [done|]. split; [done|].
    destruct (WebCore.seal_record c' sample_hash (lit "b")) as [[rec2|x] c2] eqn:Es.
    + exists rec2, c2. split; [done|]. eapply H; [|exact Es]. repeat constructor; first [by left|by_vm|by vm_compute].
    + exfalso. assert (c' = next_nonce (web_cipher (REKEY_RECORDS - 1))) as -> by (vm_compute in E1 |- *; by simplify_eq).
      vm_compute in Es. done.
Defined.

(** A session in step with [sample_cipher]. *)
Definition session : BrowserSession := mkBrowserSession transport tunnel 2 0 [] (web_cipher 0) (web_cipher 0) sample_hash 1.
Definition large : list Z := replicate 17492 65.

Lemma oversized_frame_desyncs_witness :
  ∃ b' s', write_frame 3 7 1 large (browser [], session) = (Throw (lit "M5oH encrypted GET record exceeds CDN limit"), (b', s')) ∧
    br_requests b' = [].
Proof.
  destruct (oversized_frame_desyncs 3 7 1 large (browser []) session sample_cipher []) as (b' & s' & E & Hr & _).
  - by split.
  - exact sample_cipher_ok.
  - exact sample_hash_bytes.
  - by vm_compute.
  - reflexivity.
  - split; cbn [web_frame fr_kind fr_flags fr_code fr_id fr_request_nonce fr_deadline_ms fr_payload];
      first [reflexivity|by_vm|split; [by_vm|reflexivity]|by vm_compute].
  - by vm_compute.
  - exact (ex_intro _ b' (ex_intro _ s' (conj E Hr))).
Defined.

Lemma web_target_agrees_witness :
  ∃ route t, encode_route (lit "10.1.2.3") 443 0 = Ok route ∧ fetch_new (lit "https://cdn.example/") route = Ok t ∧
    fetch_url t (Some [1; 2; 3]) = Ok (lit "https://cdn.example" ++ get_target (Some (mkSocketAddrV4 [10; 1; 2; 3] 443)) [1; 2; 3]).
Proof.
  destruct (web_target_agrees (lit "cdn.example/") (lit "10.1.2.3") 443 [10; 1; 2; 3] [1; 2; 3])
    as (route & t & H1 & H2 & _ & H3 & _); [reflexivity|reflexivity|by_vm|by_vm|by_vm|by vm_compute|reflexivity|].
  exists route, t. exact (conj H1 (conj H2 H3)).
Defined.

(** A parser that knows one document. *)
Definition command_object : list (list Z * JsonValue) :=
  [(lit "body", JObject [(lit "text", JString (lit "hi"))]); (lit "method", JString (lit "post")); (lit "path", JString (lit "/send"));
   (lit "token", JString (lit "t"))].
#[local] Instance one_document : SerdeJson := {|
  from_str _ := Ok (JObject command_object);
  json_to_string _ := Err [];
  json_display _ := [];
  values_from_str _ := Ok [];
  document_from_slice _ := Err [];
  document_to_vec _ := Err []
|}.

Lemma web_commands_agree_witness :
  ∃ code payload c, web_command_request (JObject command_object) = Ok (2, code, payload) ∧
    command_request (lit "command") 5 = Ok c ∧ code = cm_opcode c ∧ cm_kind c = 2.
Proof.
  assert (btree_get (lit "token") command_object = Some (JString (lit "t"))) as E by (vm_compute; reflexivity).
  pose proof (web_commands_agree (lit "command") command_object (lit "t") 5 eq_refl E) as H.
  destruct (web_command_request _) as [[[k code] payload]|] eqn:Ew; [|vm_compute in Ew; done].
  destruct (command_request _ _) as [c|] eqn:Ec; [|vm_compute in Ec; done].
  destruct H as (Hk & Hc & _). assert (k = 2) as -> by (vm_compute in Ew; by simplify_eq).
  exists code, payload, c. exact (conj eq_refl (conj eq_refl (conj Hc (eq_sym Hk)))).
Defined.
End WebFixture.
