(* ===== verification/WebMediaProofs.v ===== *)
(** * Media uploads of the browser, seen by the node

    The requests of an upload are followed to the node at the other end, which takes
    the record out of each request, opens it and decodes the frame.  Whatever way a
    page cuts a file into writes, the node receives the E2E container of that file
    and a STREAM_END that declares it. *)
From S2P Require Import Prelude RustStr Cbor Crypto Frame Record Media Json WebCore Web WebMedia WebProofs.

(** [n] answers come that accept an upload. *)
Definition accepting (n : Z) (b : Browser) : Prop :=
  ∃ ups more, br_answers b = ups ++ more ∧ len ups = n ∧ Forall (λ a, ∃ body, fetch_body a = Ok body) ups.

(** The largest padded record of a media frame. *)
Definition MEDIA_RECORD : Z := 16768.

Lemma chunks_of_fuel fuel data : (length data ≤ fuel)%nat → chunks_of fuel data = file_chunks data.
Proof.
  unfold file_chunks.
  enough (∀ f g l, (length l ≤ f)%nat → (length l ≤ g)%nat → chunks_of f l = chunks_of g l) as H by (intros; by apply H).
  pose proof (eq_refl (Z.to_nat MEDIA_CHUNK_SIZE)) as HK. set (K := Z.to_nat MEDIA_CHUNK_SIZE) in HK at 1.
  assert (0 < K)%nat by (unfold K, MEDIA_CHUNK_SIZE; lia). clearbody K.
  induction f as [|f IH]; intros [|g] [|a l] Hf Hg; cbn [length] in *; try lia; try done.
  cbn [chunks_of]. rewrite <-HK. f_equal. apply IH; rewrite length_drop; cbn [length]; lia.
Qed.

Lemma file_chunks_app c rest : len c = MEDIA_CHUNK_SIZE → file_chunks (c ++ rest) = c :: file_chunks rest.
Proof.
  intros Hc. unfold MEDIA_CHUNK_SIZE in Hc. assert (length c = Z.to_nat MEDIA_CHUNK_SIZE) as Hl by (unfold len in Hc; unfold MEDIA_CHUNK_SIZE; lia).
  destruct c as [|a c]; [done|]. unfold file_chunks at 1. cbn [app length chunks_of].
  rewrite <-Hl. change (a :: c ++ rest) with ((a :: c) ++ rest). rewrite take_app_length, drop_app_length. f_equal.
  apply chunks_of_fuel. rewrite length_app. lia.
Qed.

Lemma file_chunks_short c : c ≠ [] → len c < MEDIA_CHUNK_SIZE → file_chunks c = [c].
Proof.
  intros Hn Hc. unfold MEDIA_CHUNK_SIZE in Hc. assert (length c ≤ Z.to_nat MEDIA_CHUNK_SIZE)%nat as Hl by (unfold len in Hc; unfold MEDIA_CHUNK_SIZE; lia).
  destruct c as [|a c]; [done|]. unfold file_chunks. cbn [length chunks_of].
  rewrite firstn_all2, skipn_all2 by done. by destruct c.
Qed.

(** [data.chunks(n)] *)
Lemma pieces_spec n fuel : ∀ data, 1 ≤ n → (length data ≤ fuel)%nat → is_bytes data →
  concat (pieces fuel n data) = data ∧ Forall (λ p, is_bytes p ∧ 1 ≤ len p ≤ n) (pieces fuel n data) ∧
  len (pieces fuel n data) = div_ceil (len data) n.
Proof.
  induction fuel as [|fuel IH]; intros [|a data] Hn Hf Hb; cbn [length] in *; try lia.
  1,2: cbn [pieces]; split; [done|]; split; [by apply Forall_nil|]; unfold div_ceil, len; cbn [length]; symmetry; apply Z.div_small; lia.
  cbn [pieces]. set (l := a :: data) in *. assert (1 ≤ length l)%nat by (cbn; lia).
  destruct (IH (drop (Z.to_nat n) l)) as (H1 & H2 & H3); [done| |by apply is_bytes_drop|].
  { rewrite length_drop. cbn [l length]. lia. }
  split; [cbn [concat]; rewrite H1; apply take_drop|]. split.
  - constructor; [|done]. split; [by apply is_bytes_take|]. unfold len. rewrite length_take. lia.
  - rewrite len_cons, H3. unfold div_ceil, len. rewrite length_drop.
    destruct (Z.leb_spec n (Z.of_nat (length l))).
    + replace (Z.of_nat (length l) + n - 1) with (Z.of_nat (length l - Z.to_nat n) + n - 1 + 1 * n) by lia.
      rewrite Z.div_add by lia. lia.
    + replace (Z.of_nat (length l - Z.to_nat n)) with 0 by lia. rewrite (Z.div_small (0 + n - 1)) by lia.
      apply Z.div_unique_pos with (r := Z.of_nat (length l) - 1); lia.
Qed.

Lemma slices_spec n data : 1 ≤ n → is_bytes data →
  concat (slices n data) = data ∧ Forall (λ p, is_bytes p ∧ 1 ≤ len p ≤ n) (slices n data) ∧
  len (slices n data) = div_ceil (len data) n.
Proof. intros. by apply pieces_spec. Qed.

(** ** Frames on their way to the node *)
Section Uploads.
Context `{WL : WebLibsLaws} `{CL : CryptoLaws} `{D : Decompressors}.
Variables (t : M5ohFetch) (tunnel packet hh : list Z).
Hypothesis route : b64url_decode (mf_route t) = Some packet.
Hypothesis hash_bytes : is_bytes hh.

(** The node, expecting upload [k] with cipher state [n], finds the frames [fs] in
    the requests [qs] and is left at [k'] and [n']. *)
Inductive carried : Z → Record.CipherState → list WebRequest → list Frame → Z → Record.CipherState → Prop :=
| carried_nil k n : carried k n [] [] k n
| carried_cons k n rec bytes f n1 qs fs k' n' :
    open_with n hh rec = Ok (Application bytes, n1) → decode_with_zstd bytes = Ok f → carried (k + 1) n1 qs fs k' n' →
    carried k n (up_request t tunnel packet k (be_bytes 4 (len rec) ++ rec) :: qs) (f :: fs) k' n'.

Lemma carried_app k n qs fs k1 n1 qs' fs' k2 n2 :
  carried k n qs fs k1 n1 → carried k1 n1 qs' fs' k2 n2 → carried k n (qs ++ qs') (fs ++ fs') k2 n2.
Proof. induction 1; [done|]. intros. cbn. econstructor; eauto. Qed.

(** The session is in step with a node in state [n], and [m] media frames can be
    sent: their uploads are accepted, and neither the key nor the sequence number runs out. *)
Record sending (m : Z) (b : Browser) (s : BrowserSession) (n : Record.CipherState) : Prop := {
  sd_transport : bs_transport s = t;
  sd_tunnel : bs_tunnel_id s = tunnel;
  sd_hash : bs_handshake_hash s = hh;
  sd_step : WebProofs.in_step (bs_seal s) n;
  sd_cipher : cipher_ok n;
  sd_generation : cs_generation n < u64_max;
  sd_sequence : bs_upstream_seq s + m ≤ u64_max;
  sd_records : cs_nonce n + m < REKEY_RECORDS;
  sd_bytes : cs_plaintext_bytes n + m * MEDIA_RECORD < REKEY_BYTES;
  sd_answers : accepting m b
}.

Definition media_frame (kind code id : Z) (payload : list Z) : Frame := web_frame kind code id [] payload.

Lemma write_frame_carried kind code id payload m b s n :
  0 ≤ m → sending (1 + m) b s n → kind ≠ 2 → wf_frame (media_frame kind code id payload) → len payload ≤ BROWSER_MEDIA_CHUNK →
  ∃ b' s' n' q, write_frame kind code id payload (b, s) = (Return tt, (b', s')) ∧ sending m b' s' n' ∧
    carried (bs_upstream_seq s) n [q] [media_frame kind code id payload] (bs_upstream_seq s') n' ∧
    br_requests b' = br_requests b ++ [q].
Proof.
  intros Hm [Ht Htu Hh Hi Hc Hg Hsq Hr Hb (ups & more & Ha & Hl & Hok)] Hk Hw Hp.
  unfold BROWSER_MEDIA_CHUNK in Hp. unfold media_frame in *. pose proof (len_nonneg payload).
  destruct ups as [|a ups]; [rewrite len_nil in Hl; lia|]. rewrite len_cons in Hl.
  apply Forall_cons_iff in Hok as [[body Hbody] Hok].
  assert (len payload ≤ WebCore.MAX_RECORD_BYTES) as Hmax by (unfold WebCore.MAX_RECORD_BYTES; lia).
  destruct (frame_encode_native kind code id payload [] Hmax) as (bytes & E1 & E2 & Hlen).
  specialize (Hlen Hw). apply Z.eqb_neq in Hk.
  rewrite (write_frame_eq kind code id payload b s [] bytes Hmax) by (unfold drawn; by rewrite ?Hk).
  unfold after_draw. rewrite Hk.
  destruct (encode_decode _ Hw) as (bytes' & E2' & _ & Hdec). rewrite E2 in E2'. apply Ok_inj in E2' as <-.
  pose proof (encode_wf_record _ _ Hw E2) as Hwr.
  destruct (seal_open_step n hh 0 bytes Hc Hwr Hg hash_bytes) as (rec & n1 & Hs & Ho & Hc1 & _ & Hrl & Hcom).
  pose proof (padded_len_bound (len bytes) (len_nonneg bytes)) as [Hpb _].
  assert (len rec ≤ 17000) as Hrec by (rewrite Hrl; unfold Record.TAG_LEN; lia). pose proof (len_nonneg rec).
  apply (web_seal_native (bs_seal s) n) in Hs; [|done|done]. rewrite <-Hh in Hs.
  rewrite (write_record_eq bytes b s rec _ Hs), as_u32_small, Ht, Htu by (widths; lia).
  destruct (upstream_spec t tunnel packet (bs_upstream_seq s) (be_bytes 4 (len rec) ++ rec) b a (ups ++ more) route)
    as (b1 & -> & A1 & _ & R1 & _); [|by rewrite Ha|].
  { change MAX_GET_RECORD_BYTES with 17653. rewrite len_app, len_be_bytes. lia. }
  rewrite Hbody, (proj2 (checked_add64_some _ _ _)) by (split; [done|lia]).
  assert (m * MEDIA_RECORD = (1 + m) * MEDIA_RECORD - MEDIA_RECORD) as Emul by ring.
  assert (0 ≤ m * MEDIA_RECORD) by (unfold MEDIA_RECORD; lia). unfold MEDIA_RECORD in Emul at 3.
  destruct (commit_in_step (bs_seal s) n _ hh n1 Hi ltac:(apply Hc) Hcom) as (Hi1 & Hn1 & Hb1 & Hg1); [lia|lia|].
  eexists b1, _, n1, _. split; [reflexivity|]. split; [|split; [|exact R1]].
  - split; cbn; try done; try lia. by exists ups, more; split; [|split; [lia|]].
  - cbn. econstructor; [exact Ho|exact Hdec|constructor].
Qed.
(** ** Uploads *)
Definition data_frame (id : Z) (payload : list Z) : Frame := media_frame MST5_KIND_STREAM_DATA 0 id payload.

Lemma media_frame_wf kind code id payload :
  valid_kind kind = true → kind ≠ 2 → is_u16 code → is_u64 id → is_bytes payload → len payload ≤ BROWSER_MEDIA_CHUNK →
  wf_frame (media_frame kind code id payload).
Proof.
  intros Hv Hk Hc Hi Hb Hl. unfold BROWSER_MEDIA_CHUNK in Hl. unfold media_frame, web_frame. rewrite (proj2 (Z.eqb_neq _ _)) by done.
  split; cbn [fr_kind fr_flags fr_code fr_id fr_request_nonce fr_deadline_ms fr_payload]; try done.
  - split; [|done]. by_vm.
  - unfold MST5_MAX_PLAIN_PAYLOAD. lia.
Qed.

(** The upload went from [b] and [u] to [b'] and [u'] by sending [bytes] in
    STREAM_DATA frames, which the node found going from [n] to [n']. *)
Record emitted (b : Browser) (u : BrowserMediaUpload) (n : Record.CipherState) (bytes : list Z)
    (b' : Browser) (u' : BrowserMediaUpload) (n' : Record.CipherState) : Prop := {
  em_frames : ∃ qs payloads, br_requests b' = br_requests b ++ qs ∧ concat payloads = bytes ∧
    Forall (λ p, 1 ≤ len p ≤ BROWSER_MEDIA_CHUNK) payloads ∧
    carried (bs_upstream_seq (mu_session u)) n qs (map (data_frame (mu_id u)) payloads) (bs_upstream_seq (mu_session u')) n';
  em_digest : mu_digest u' = mu_digest u ++ bytes;
  em_sent : mu_sent u' = mu_sent u + len bytes;
  em_id : mu_id u' = mu_id u;
  em_size : mu_expected_size u' = mu_expected_size u;
  em_chunk : mu_chunk_size u' = mu_chunk_size u;
  em_resume : mu_resume_checksum u' = mu_resume_checksum u
}.

Lemma emitted_nil b u n : emitted b u n [] b u n.
Proof.
  split; rewrite ?app_nil_r, ?len_nil, ?Z.add_0_r; try done.
  exists [], []. rewrite app_nil_r. split_and!; try done. constructor.
Qed.

Lemma emitted_app b u n x b1 u1 n1 y b2 u2 n2 :
  emitted b u n x b1 u1 n1 → emitted b1 u1 n1 y b2 u2 n2 → emitted b u n (x ++ y) b2 u2 n2.
Proof.
  intros [(q1 & p1 & R1 & C1 & L1 & F1) D1 S1 I1 E1 K1 M1] [(q2 & p2 & R2 & C2 & L2 & F2) D2 S2 I2 E2 K2 M2].
  split; try congruence.
  - exists (q1 ++ q2), (p1 ++ p2). rewrite R2, R1, concat_app, map_app, app_assoc, C1, C2.
    split_and!; try done; [by apply Forall_app|]. rewrite I1 in F2. by eapply carried_app.
  - by rewrite D2, D1, app_assoc.
  - rewrite S2, S1, len_app. lia.
Qed.

(** The upload can send [m] frames and has [size] bytes left to send. *)
Record uploading (m size : Z) (b : Browser) (u : BrowserMediaUpload) (n : Record.CipherState) : Prop := {
  up_sending : sending m b (mu_session u) n;
  up_id : is_u64 (mu_id u);
  up_sent : 0 ≤ mu_sent u;
  up_size : mu_sent u + size = mu_expected_size u;
  up_max : mu_expected_size u ≤ u32_max;
  up_chunk : 1 ≤ mu_chunk_size u ≤ BROWSER_MEDIA_CHUNK
}.

Lemma write_chunks_emits chunks : ∀ m size b u n,
  0 ≤ m → 0 ≤ size → uploading (len chunks + m) (len (concat chunks) + size) b u n →
  Forall (λ p, is_bytes p ∧ 1 ≤ len p ≤ BROWSER_MEDIA_CHUNK) chunks →
  ∃ b' u' n', write_chunks chunks (b, u) = (Return tt, (b', u')) ∧ emitted b u n (concat chunks) b' u' n' ∧ uploading m size b' u' n'.
Proof.
  induction chunks as [|c chunks IH]; intros m size b u n Hm Hz Hu Hall.
  - exists b, u, n. split; [done|]. split; [apply emitted_nil|]. by rewrite !len_nil, !Z.add_0_l in Hu.
  - apply Forall_cons_iff in Hall as [[Hcb Hcl] Hall]. destruct Hu as [Hs Hi H0 Hsz Hmax Hch].
    cbn [concat] in Hsz. rewrite len_app in Hsz. rewrite len_cons in Hs. pose proof (len_nonneg chunks). pose proof (len_nonneg (concat chunks)).
    cbn [write_chunks]. unfold wbind at 1, in_session at 1, within at 1, wmodify at 1. cbn [snd fst]. unfold wbind at 1, wget at 1.
    cbn iota beta. set (u1 := mu_set_digest _ u). unfold wbind at 1, on_session at 1, within at 1. cbn [snd fst].
    destruct (write_frame_carried MST5_KIND_STREAM_DATA 0 (mu_id u1) c (len chunks + m) b (mu_session u1) n)
      as (b2 & s2 & n2 & q & -> & Hs2 & Hc2 & R2); [lia|by rewrite Z.add_assoc|done|apply media_frame_wf; try done; widths; lia|lia|].
    cbn iota beta. unfold wbind at 1, in_session at 1, within at 1, wmodify at 1. cbn [snd fst mu_sent mu_set_session].
    change (mu_sent u1) with (mu_sent u). rewrite as_u32_small by (widths; lia).
    set (u3 := mu_set_sent _ _).
    destruct (IH m size b2 u3 n2) as (b' & u' & n' & E & Em & Hu'); try done.
    { split; try done. cbn. lia. cbn. lia. }
    exists b', u', n'. split; [exact E|]. split; [|done]. cbn [concat]. eapply emitted_app; [|exact Em].
    split; try done. exists [q], [c]. cbn [concat map]. rewrite app_nil_r. split_and!; try done. by apply Forall_cons.
Qed.

Lemma upload_write_emits data m size b u n :
  0 ≤ m → 0 ≤ size → is_bytes data → uploading (div_ceil (len data) (mu_chunk_size u) + m) (len data + size) b u n →
  ∃ b' u' n', upload_write data (b, u) = (Return tt, (b', u')) ∧ emitted b u n data b' u' n' ∧ uploading m size b' u' n'.
Proof.
  intros Hm Hz Hb Hu. pose proof Hu as [_ _ _ Hsz Hmax Hch].
  destruct (slices_spec (mu_chunk_size u) data) as (Hcat & Hall & Hlen); [lia|done|].
  unfold upload_write, wbind, wget. cbn iota beta. rewrite (proj2 (Z.ltb_ge _ _)) by lia. cbn iota.
  destruct (write_chunks_emits (slices (mu_chunk_size u) data) m size b u n) as (b' & u' & n' & E & Em & Hu'); try done.
  - by rewrite Hcat, Hlen.
  - eapply Forall_impl; [|exact Hall]. intros p [? ?]. split; [done|lia].
  - rewrite Hcat in Em. by exists b', u', n'.
Qed.

(** ** Encrypted uploads *)
Fixpoint total_frames (size : Z) (chunks : list (list Z)) : Z :=
  match chunks with [] => 0 | c :: t => div_ceil (len c + 20) size + total_frames size t end.
Fixpoint sealed_size (chunks : list (list Z)) : Z :=
  match chunks with [] => 0 | c :: t => len c + 20 + sealed_size t end.

Lemma div_ceil_nonneg a b : 0 ≤ a → 1 ≤ b → 0 ≤ div_ceil a b.
Proof. intros. apply Z.div_pos; lia. Qed.

Lemma total_frames_nonneg size cs : 1 ≤ size → 0 ≤ total_frames size cs.
Proof. intros. induction cs as [|c cs IH]; cbn; [done|]. pose proof (div_ceil_nonneg (len c + 20) size ltac:(pose proof (len_nonneg c); lia)). lia. Qed.

Lemma sealed_size_nonneg cs : 0 ≤ sealed_size cs.
Proof. induction cs as [|c cs IH]; cbn; [done|]. pose proof (len_nonneg c). lia. Qed.

(** The upload has its pending bytes and [r] left to seal, and room for [m] more frames. *)
Record encrypting (m : Z) (r : list Z) (b : Browser) (e : BrowserE2eMediaUpload) (n : Record.CipherState) : Prop := {
  ec_upload : uploading (total_frames (mu_chunk_size (eu_upload e)) (file_chunks (eu_pending e ++ r)) + m)
                (sealed_size (file_chunks (eu_pending e ++ r))) b (eu_upload e) n;
  ec_encryptor : encryptor_ok (eu_encryptor e);
  ec_written : 0 ≤ en_written (eu_encryptor e);
  ec_left : en_written (eu_encryptor e) + len (eu_pending e ++ r) = en_plaintext_size (eu_encryptor e);
  ec_index : en_index (eu_encryptor e) + len (file_chunks (eu_pending e ++ r)) ≤ u64_max;
  ec_bytes : is_bytes (eu_pending e ++ r)
}.

(** The chunks [cs] were sealed and sent. *)
Definition sealed (b : Browser) (e : BrowserE2eMediaUpload) (n : Record.CipherState) (cs : list (list Z))
    (b' : Browser) (e' : BrowserE2eMediaUpload) (n' : Record.CipherState) : Prop :=
  ∃ body, seal_chunks (eu_encryptor e) cs = (Ok body, eu_encryptor e') ∧ emitted b (eu_upload e) n body b' (eu_upload e') n'.

Lemma seal_chunks_app cs cs' : ∀ e x e1 y e2,
  seal_chunks e cs = (Ok x, e1) → seal_chunks e1 cs' = (Ok y, e2) → seal_chunks e (cs ++ cs') = (Ok (x ++ y), e2).
Proof.
  induction cs as [|c cs IH]; intros e x e1 y e2 H1 H2; cbn [app seal_chunks] in *; [by simplify_eq|].
  destruct (seal_chunk e c) as [[out|] e3]; [|done]. destruct (seal_chunks e3 cs) as [[outs|] e4] eqn:E; [|done].
  apply pair_equal_spec in H1 as [H1 ->]. apply Ok_inj in H1 as <-. rewrite (IH _ _ _ _ _ E H2). by rewrite app_assoc.
Qed.

Lemma sealed_nil b e n : sealed b e n [] b e n.
Proof. exists []. split; [done|]. apply emitted_nil. Qed.

Lemma sealed_app b e n cs b1 e1 n1 cs' b2 e2 n2 :
  sealed b e n cs b1 e1 n1 → sealed b1 e1 n1 cs' b2 e2 n2 → sealed b e n (cs ++ cs') b2 e2 n2.
Proof.
  intros (x & S1 & E1) (y & S2 & E2). exists (x ++ y). split; [by eapply seal_chunks_app|by eapply emitted_app].
Qed.

Lemma seal_emits c p r m b u enc n :
  0 ≤ m → encrypting m r b (mkE2eUpload u enc (c ++ p)) n → file_chunks ((c ++ p) ++ r) = c :: file_chunks (p ++ r) →
  len c = Z.min (en_plaintext_size enc - en_written enc) MEDIA_CHUNK_SIZE → c ≠ [] →
  ∃ out enc' b' u' n', seal_chunk enc c = (Ok out, enc') ∧ upload_write out (b, u) = (Return tt, (b', u')) ∧
    sealed b (mkE2eUpload u enc (c ++ p)) n [c] b' (mkE2eUpload u' enc' p) n' ∧ encrypting m r b' (mkE2eUpload u' enc' p) n'.
Proof.
  intros Hm [Hu Ho Hw Hl Hi Hb] Hfc Hc Hne. cbn [eu_upload eu_encryptor eu_pending] in *.
  rewrite Hfc in Hu, Hi. cbn [total_frames sealed_size] in Hu. rewrite len_cons in Hi. rewrite <-app_assoc, len_app in Hl.
  assert (0 < len c) by (destruct c; [done|rewrite len_cons; pose proof (len_nonneg c); lia]).
  pose proof (len_nonneg (p ++ r)). pose proof (len_nonneg (file_chunks (p ++ r))).
  rewrite <-app_assoc in Hb. apply is_bytes_app in Hb as [Hcb Hpb].
  destruct (seal_chunk_ok enc c Ho Hcb) as (ct & Hs & Hctb & Hctl & _); [lia|done|lia|].
  set (out := be_bytes 4 (len c + 16) ++ ct) in *.
  assert (len out = len c + 20) as Hol by (unfold out; rewrite len_app, len_be_bytes; lia).
  assert (is_bytes out) as Hob by (apply is_bytes_app; split; [apply be_bytes_is_bytes|done]).
  pose proof (up_chunk _ _ _ _ _ Hu) as Hch. pose proof (total_frames_nonneg _ (file_chunks (p ++ r)) (proj1 Hch)).
  destruct (upload_write_emits out (total_frames (mu_chunk_size u) (file_chunks (p ++ r)) + m) (sealed_size (file_chunks (p ++ r))) b u n)
    as (b' & u' & n' & Ew & Em & Hu'); [lia|apply sealed_size_nonneg|done|by rewrite Hol, Z.add_assoc|].
  exists out, (advance enc (len c)), b', u', n'. split; [done|]. split; [done|]. split.
  - exists out. cbn [seal_chunks eu_encryptor eu_upload]. rewrite Hs. by rewrite app_nil_r.
  - split; cbn [eu_upload eu_encryptor eu_pending]; try done.
    + by rewrite (em_chunk _ _ _ _ _ _ _ Em).
    + by apply advance_ok.
    + cbn. lia.
    + cbn. lia.
    + cbn. lia.
Qed.

Lemma chunk_nat : Z.of_nat (Z.to_nat MEDIA_CHUNK_SIZE) = MEDIA_CHUNK_SIZE ∧ 0 < MEDIA_CHUNK_SIZE.
Proof. unfold MEDIA_CHUNK_SIZE. lia. Qed.

Lemma e2e_write_loop_emits fuel : ∀ r m b e n,
  0 ≤ m → encrypting m r b e n → (length (eu_pending e) ≤ fuel)%nat →
  ∃ cs b' e' n', e2e_write_loop fuel (b, e) = (Return tt, (b', e')) ∧ eu_pending e = concat cs ++ eu_pending e' ∧
    Forall (λ c, len c = MEDIA_CHUNK_SIZE) cs ∧ len (eu_pending e') < MEDIA_CHUNK_SIZE ∧
    sealed b e n cs b' e' n' ∧ encrypting m r b' e' n'.
Proof.
  induction fuel as [|fuel IH]; intros r m b [u enc pending] n Hm He Hf; cbn [eu_pending eu_encryptor eu_upload] in *.
  - destruct pending; [|cbn in Hf; lia]. eexists [], b, _, n. split; [reflexivity|]. split_and!; try done. apply sealed_nil.
  - cbn [e2e_write_loop]. unfold wbind at 1, wget at 1. cbn iota beta. cbn [eu_pending].
    destruct (Z.leb_spec MEDIA_CHUNK_SIZE (len pending)) as [Hge|Hlt].
    2:{ eexists [], b, _, n. split; [reflexivity|]. split_and!; try done. apply sealed_nil. }
    unfold wbind at 1, in_session at 1, within at 1, wmodify at 1. cbn [snd fst eu_pending eu_encryptor].
    pose proof chunk_nat as HK. generalize dependent (Z.to_nat MEDIA_CHUNK_SIZE). intros K HK.
    assert (len (take K pending) = MEDIA_CHUNK_SIZE) as Hc by (unfold len in *; rewrite length_take; lia).
    assert (length (drop K pending) ≤ fuel)%nat as Hd by (rewrite length_drop; unfold len in *; lia).
    rewrite <-(take_drop K pending) in He.
    destruct (seal_emits _ _ r m b u enc n Hm He) as (out & enc' & b1 & u1 & n1 & Es & Ew & Hsl & He1).
    { rewrite <-app_assoc. by apply file_chunks_app. }
    { pose proof (ec_left _ _ _ _ _ He) as Hl. cbn [eu_pending eu_encryptor] in Hl. rewrite !len_app in Hl.
      pose proof (len_nonneg (drop K pending)). pose proof (len_nonneg r). rewrite Hc. lia. }
    { intros E. rewrite E in Hc. change (len []) with 0 in Hc. lia. }
    rewrite take_drop in Hsl. rewrite Es. cbn [e2e_error map_err]. cbn iota beta.
    unfold wbind at 1, on_upload at 1, within at 1. cbn [fst snd eu_upload]. rewrite Ew. cbn [fst snd eu_encryptor eu_pending].
    destruct (IH r m b1 _ n1 Hm He1 Hd) as (cs & b' & e' & n' & E & Hp & Hcs & Hlt & Hsl' & He').
    exists (take K pending :: cs), b', e', n'. split; [exact E|]. cbn [eu_pending] in Hp. split_and!; try done.
    + cbn [concat]. by rewrite <-app_assoc, <-Hp, take_drop.
    + by apply Forall_cons.
    + by eapply (sealed_app _ _ _ [_]).
Qed.

(** The calls of [write] of a page, one after the other. *)
Fixpoint e2e_writes (ws : list (list Z)) : web (Browser * option BrowserE2eMediaUpload) unit :=
  match ws with
  | [] => wret tt
  | w :: t => await _ := mst5_e2e_upload_write w in e2e_writes t
  end.

Lemma e2e_writes_emit ws : ∀ m b e n,
  0 ≤ m → encrypting m (concat ws) b e n → len (eu_pending e) < MEDIA_CHUNK_SIZE →
  ∃ cs b' e' n', e2e_writes ws (b, Some e) = (Return tt, (b', Some e')) ∧ eu_pending e ++ concat ws = concat cs ++ eu_pending e' ∧
    Forall (λ c, len c = MEDIA_CHUNK_SIZE) cs ∧ len (eu_pending e') < MEDIA_CHUNK_SIZE ∧
    sealed b e n cs b' e' n' ∧ encrypting m [] b' e' n'.
Proof.
  induction ws as [|w ws IH]; intros m b e n Hm He Hp.
  - eexists [], b, e, n. split; [reflexivity|]. rewrite app_nil_r. split_and!; try done. apply sealed_nil.
  - cbn [e2e_writes]. unfold wbind at 1, mst5_e2e_upload_write at 1.
    destruct (is_empty w) eqn:Ew; [destruct w; [|done]; by apply IH|].
    cbn [fst snd]. unfold e2e_upload_write. unfold wbind at 1, in_session at 1, within at 1, wmodify at 1. cbn [fst snd].
    unfold wbind at 1, wget at 1. cbn iota beta.
    destruct (e2e_write_loop_emits (length (eu_pending e ++ w)) (concat ws) m b
      (mkE2eUpload (eu_upload e) (eu_encryptor e) (eu_pending e ++ w)) n) as (cs & b1 & e1 & n1 & E & Hpe & Hcs & Hlt & Hs & He1);
      [done| |done|].
    { destruct He. cbn [concat] in *. rewrite app_assoc in *. by split. }
    cbn [eu_pending] in E, Hpe |- *. rewrite E. cbn iota beta.
    destruct (IH m b1 e1 n1 Hm He1 Hlt) as (cs' & b' & e' & n' & E' & Hpe' & Hcs' & Hlt' & Hs' & He').
    exists (cs ++ cs'), b', e', n'. split; [exact E'|]. split_and!; try done.
    + cbn [concat]. rewrite concat_app, app_assoc, Hpe, <-!app_assoc. by f_equal.
    + by apply Forall_app.
    + eapply sealed_app; [|exact Hs']. exact Hs.
Qed.

Lemma file_chunks_concat cs p :
  Forall (λ c, len c = MEDIA_CHUNK_SIZE) cs → len p < MEDIA_CHUNK_SIZE →
  file_chunks (concat cs ++ p) = cs ++ (if is_empty p then [] else [p]).
Proof.
  intros Hcs Hp. induction Hcs as [|c cs Hc Hcs IH]; cbn [concat app].
  - destruct p; [done|]. by apply file_chunks_short.
  - rewrite <-app_assoc, file_chunks_app by done. by rewrite IH.
Qed.

(** ** Reading only polls *)
Definition only_polls {A} (m : sweb A) : Prop := ∀ st,
  ∃ polls, br_requests (m st).2.1 = br_requests st.1 ++ polls ∧ Forall (λ q, wq_channel q = lit "down") polls.

Lemma polls_none {A} (m : sweb A) : (∀ st, br_requests (m st).2.1 = br_requests st.1) → only_polls m.
Proof. intros H st. exists []. by rewrite H, app_nil_r. Qed.

Lemma polls_bind {A B} (m : sweb A) (k : A → sweb B) : only_polls m → (∀ a, only_polls (k a)) → only_polls (wbind m k).
Proof.
  intros Hm Hk st. destruct (Hm st) as (p & E & Hp). unfold wbind. destruct (m st) as [[a|x|] st1]; cbn in *; [|by exists p..].
  destruct (Hk a st1) as (p' & E' & Hp'). exists (p ++ p'). rewrite E', E, app_assoc. split; [done|]. by apply Forall_app.
Qed.

Lemma polls_wget : only_polls (@wget (Browser * BrowserSession)). Proof. by apply polls_none. Qed.
Lemma polls_wlift {A} (r : js A) : only_polls (wlift r). Proof. by apply polls_none. Qed.
Lemma polls_wret {A} (a : A) : only_polls (wret a). Proof. by apply polls_none. Qed.
Lemma polls_pending {A} : only_polls (λ st, (@Pending A, st)). Proof. by apply polls_none. Qed.
Lemma polls_session {A} (f : BrowserSession → js A * BrowserSession) : only_polls (in_session (wmodify f)).
Proof. apply polls_none. intros [b s]. unfold in_session, within, wmodify. cbn. by destruct (f s). Qed.
Lemma polls_sleep d : only_polls (in_browser (browser_sleep d)). Proof. by apply polls_none. Qed.

Lemma polls_downstream tr id k : only_polls (in_browser (downstream_bytes tr id k)).
Proof.
  intros [b s]. unfold in_browser, within, downstream_bytes, fetch, wbind, wlift, fetch_url, exchange. cbn.
  destruct (br_answers b) as [|a l]; cbn; eexists; (split; [reflexivity|]); by apply Forall_cons.
Qed.

#[local] Hint Resolve polls_wget polls_wlift polls_wret polls_pending polls_session polls_sleep polls_downstream : polls.

Lemma polls_read_loop fuel : ∀ n d, only_polls (read_loop fuel n d).
Proof.
  induction fuel as [|fuel IH]; intros n d; cbn [read_loop]; [apply polls_pending|].
  apply polls_bind; [auto with polls|]. intros [b s]. destruct (_ <? n); [|auto with polls].
  apply polls_bind; [auto with polls|]. intros body. apply polls_bind; [auto with polls|]. intros _.
  destruct (is_empty body); apply polls_bind; auto with polls.
Qed.

Lemma polls_read_record : only_polls read_record.
Proof.
  apply polls_bind; [intros st; apply polls_read_loop|]. intros size. cbv zeta. destruct (_ || _); [by apply polls_none|].
  apply polls_bind; [intros st; apply polls_read_loop|]. auto with polls.
Qed.

Lemma polls_read_matching id : only_polls (read_matching_frame id).
Proof.
  intros st. unfold read_matching_frame. generalize (S (deliverable st)). intros fuel. revert st.
  induction fuel as [|fuel IH]; [apply polls_pending|]. cbn [read_matching_loop]. apply polls_bind; [apply polls_read_record|].
  intros bytes. apply polls_bind; [auto with polls|]. intros f. destruct (_ =? id); [auto with polls|exact IH].
Qed.

(** ** The end of an upload *)
Definition end_frame (id : Z) (payload : list Z) : Frame := media_frame MST5_KIND_STREAM_END 200 id payload.

Lemma upload_finish_emits b u n endp :
  uploading 1 0 b u n → cbor_to_vec (end_payload (mu_sent u) (checksum_of u)) = Some endp → len endp ≤ BROWSER_MEDIA_CHUNK →
  ∃ r b' u' q polls k' n', upload_finish (b, u) = (r, (b', u')) ∧ br_requests b' = (br_requests b ++ [q]) ++ polls ∧
    Forall (λ q, wq_channel q = lit "down") polls ∧
    carried (bs_upstream_seq (mu_session u)) n [q] [end_frame (mu_id u) endp] k' n'.
Proof.
  intros [Hs Hi H0 Hsz Hmax Hch] He Hl. destruct (cbor_roundtrip_json _ _ He) as [Hb _].
  unfold upload_finish. unfold wbind at 1, wget at 1. cbn iota beta.
  assert (mu_sent u =? mu_expected_size u = true) as -> by lia. cbn [negb].
  unfold wbind at 1, to_vec, wlift. rewrite He. cbn [ok_or]. cbn iota beta.
  unfold wbind at 1, on_session at 1, within at 1. cbn [fst snd].
  destruct (write_frame_carried MST5_KIND_STREAM_END 200 (mu_id u) endp 0 b (mu_session u) n)
    as (b1 & s1 & n1 & q & -> & _ & Hc & R1); [lia|done|done|apply media_frame_wf; try done; widths; lia|done|].
  cbn iota beta. unfold wbind at 1, on_session at 1, within at 1. cbn [fst snd mu_session mu_set_session].
  destruct (polls_read_matching (mu_id u) (b1, s1)) as (polls & Ep & Hp). cbn [fst] in Ep. rewrite R1 in Ep.
  destruct (read_matching_frame (mu_id u) (b1, s1)) as [[f|x|] [b2 s2]]; cbn in Ep; [destruct (negb (finished f))|..];
    eexists _, b2, _, q, polls, _, _; (split; [reflexivity|]; by split).
Qed.

Lemma e2e_finish_emits b e n endp :
  encrypting 1 [] b e n → len (eu_pending e) < MEDIA_CHUNK_SIZE → mu_resume_checksum (eu_upload e) = None →
  (∀ body enc, seal_chunks (eu_encryptor e) (if is_empty (eu_pending e) then [] else [eu_pending e]) = (Ok body, enc) →
     cbor_to_vec (end_payload (mu_expected_size (eu_upload e)) (hex_bytes (sha256_digest (mu_digest (eu_upload e) ++ body)))) = Some endp) →
  len endp ≤ BROWSER_MEDIA_CHUNK →
  ∃ b1 e1 n1 r b' o q polls k' n', mst5_e2e_upload_finish (b, Some e) = (r, (b', o)) ∧
    sealed b e n (if is_empty (eu_pending e) then [] else [eu_pending e]) b1 e1 n1 ∧
    br_requests b' = (br_requests b1 ++ [q]) ++ polls ∧ Forall (λ q, wq_channel q = lit "down") polls ∧
    carried (bs_upstream_seq (mu_session (eu_upload e1))) n1 [q] [end_frame (mu_id (eu_upload e)) endp] k' n'.
Proof.
  intros He Hp Hres Hcbor Hel. unfold mst5_e2e_upload_finish, e2e_upload_finish. cbn [fst snd].
  assert (∃ b1 e1 n1,
    (if is_empty (eu_pending e) then wret tt
     else await sealed := in_session (wmodify (λ e,
            let '(r, enc) := seal_chunk (eu_encryptor e) (eu_pending e) in (e2e_error r, mkE2eUpload (eu_upload e) enc []))) in
          on_upload (upload_write sealed)) (b, e) = (Return tt, (b1, e1)) ∧
    sealed b e n (if is_empty (eu_pending e) then [] else [eu_pending e]) b1 e1 n1 ∧ encrypting 1 [] b1 e1 n1 ∧ eu_pending e1 = [])
    as (b1 & e1 & n1 & E1 & Hs & He1 & Hp1).
  { destruct e as [u enc pending]. cbn [eu_pending eu_encryptor eu_upload] in *.
    destruct (is_empty pending) eqn:Ee.
    - destruct pending; [|done]. eexists b, _, n. split; [reflexivity|]. split; [apply sealed_nil|done].
    - rewrite <-(app_nil_r pending) in He.
      destruct (seal_emits pending [] [] 1 b u enc n ltac:(lia) He) as (out & enc' & b1 & u1 & n1 & Es & Ew & Hsl & He1).
      + rewrite !app_nil_r. apply file_chunks_short; [by intros ->|done].
      + pose proof (ec_left _ _ _ _ _ He) as Hl. cbn [eu_pending eu_encryptor] in Hl. rewrite !app_nil_r in Hl. lia.
      + by intros ->.
      + exists b1, (mkE2eUpload u1 enc' []), n1. rewrite app_nil_r in Hsl. split; [|done].
        unfold wbind, in_session, within at 1, wmodify. cbn [snd fst eu_encryptor eu_pending]. rewrite Es. cbn [e2e_error map_err].
        cbn iota beta. unfold on_upload, within. cbn [snd fst eu_upload]. by rewrite Ew. }
  unfold wbind at 1, wget at 1. cbn iota beta. unfold wbind at 1. rewrite E1. cbn iota beta. unfold wbind at 1, wget at 1. cbn iota beta.
  pose proof He1 as [Hu _ _ Hl _ _]. rewrite Hp1 in Hu, Hl. cbn [app] in Hl. rewrite len_nil, Z.add_0_r in Hl.
  change (file_chunks ([] ++ [])) with (@nil (list Z)) in Hu. cbn [total_frames sealed_size] in Hu.
  unfold wbind at 1, wlift at 1, encryptor_finish. rewrite Hl, Z.eqb_refl. cbn [e2e_error map_err]. cbn iota beta.
  destruct Hs as (body & Hsc & Hem). pose proof Hem as [_ Hdig _ Hid Hsize _ Hre]. rewrite Hres in Hre.
  pose proof (up_size _ _ _ _ _ Hu) as Hsent. rewrite Z.add_0_r, Hsize in Hsent.
  specialize (Hcbor _ _ Hsc). rewrite <-Hdig, <-Hsent in Hcbor.
  destruct (upload_finish_emits b1 (eu_upload e1) n1 endp Hu) as (r & b' & u' & q & polls & k' & n' & E2 & R2 & Hpo & Hc);
    [by unfold checksum_of; rewrite Hre|done|].
  unfold on_upload, within. cbn [fst snd]. rewrite E2. rewrite Hid in Hc.
  destruct r; eexists b1, e1, n1, _, b', _, q, polls, k', n'; (split; [reflexivity|]); (split; [by exists body|by split_and!]).
Qed.

Lemma sealed_size_sum cs : sealed_size cs = len (concat cs) + 20 * len cs.
Proof. induction cs as [|c cs IH]; cbn [sealed_size concat]; [done|]. rewrite len_app, len_cons. lia. Qed.

Lemma encrypted_size_bound n m : 0 ≤ n → encrypted_media_size n = Ok m → n ≤ m.
Proof.
  intros Hn H. unfold encrypted_media_size in H. destruct (ok_or _ _) as [o|] eqn:Eo; [|done].
  destruct (checked_add64 n o) as [v|] eqn:Ev; [|done]. apply checked_add64_some in Ev as [-> _]. apply Ok_inj in H as <-.
  destruct (checked_mul64 _ _) as [v|] eqn:Em; [|done]. apply checked_mul64_some in Em as [-> _].
  destruct (checked_add64 _ _) as [v|] eqn:Ea; [|done]. apply checked_add64_some in Ea as [-> _]. apply Ok_inj in Eo as <-.
  pose proof (div_ceil_nonneg n MEDIA_CHUNK_SIZE Hn ltac:(unfold MEDIA_CHUNK_SIZE; lia)). unfold MEDIA_TAG_SIZE, MEDIA_HEADER_SIZE. lia.
Qed.

(** The state [begin_encrypted] leaves: the header is sent, and the file of [data] is to come. *)
Lemma begun_encrypting key aad np data e e' body b u n :
  key32 key → length np = 16%nat → is_bytes np → is_bytes data → len data < 2 ^ 63 →
  encryptor_with_key key aad (len data) (Ok np) = Ok e → seal_chunks e (file_chunks data) = (Ok body, e') →
  mu_sent u = len (encryptor_header e) → mu_expected_size u = len (encryptor_header e ++ body) → mu_expected_size u ≤ u32_max →
  is_u64 (mu_id u) → 1 ≤ mu_chunk_size u ≤ BROWSER_MEDIA_CHUNK →
  sending (total_frames (mu_chunk_size u) (file_chunks data) + 1) b (mu_session u) n →
  encrypting 1 data b (mkE2eUpload u e []) n.
Proof.
  intros Hk Hnp Hnpb Hdb H63 Hek Hbody Hsent Hsize Hmax Hid Hch Hsend. pose proof (len_nonneg data) as H0.
  destruct (chunks_layout (length data) data 0 Hdb ltac:(lia) ltac:(lia)) as (Hlay & Hcat & Hnum). fold (file_chunks data) in *.
  rewrite Z.add_0_l in Hlay. unfold MEDIA_CHUNK_SIZE in Hnum.
  unfold encryptor_with_key in Hek. destruct (negb _); [done|]. apply Ok_inj in Hek as <-.
  set (e := mkEncryptor key aad np (len data) 0 0) in *.
  assert (encryptor_ok e) as Heo by (constructor; cbn; auto; widths; lia).
  destruct (seal_chunks_ok e (file_chunks data) Heo Hlay) as (body1 & e2 & Es & _ & _ & Hlen); [cbn; widths; lia|].
  rewrite Hbody in Es. apply pair_equal_spec in Es as [Es _]. apply Ok_inj in Es as <-. cbn in Hlen. rewrite Z.sub_0_r in Hlen.
  split; cbn [eu_upload eu_encryptor eu_pending app]; try done; [|cbn; widths; lia].
  split; try done; [rewrite Hsent; apply len_nonneg|]. rewrite Hsize, Hsent, len_app, sealed_size_sum, Hcat, Hlen. lia.
Qed.

(** The writes and the end, once the header is sent. *)
Lemma web_e2e_upload_core bits key aad np ws e e' body endp b u n :
  let data := concat ws in
  key32 key → length np = 16%nat → is_bytes np → is_bytes data → len data < 2 ^ bits →
  encryptor_with_key key aad (len data) (Ok np) = Ok e → seal_chunks e (file_chunks data) = (Ok body, e') →
  mu_digest u = encryptor_header e → mu_sent u = len (encryptor_header e) →
  encrypted_media_size (len data) = Ok (mu_expected_size u) → mu_expected_size u ≤ u32_max →
  mu_resume_checksum u = None → is_u64 (mu_id u) → 1 ≤ mu_chunk_size u ≤ BROWSER_MEDIA_CHUNK →
  sending (total_frames (mu_chunk_size u) (file_chunks data) + 1) b (mu_session u) n →
  cbor_to_vec (end_payload (mu_expected_size u) (hex_bytes (sha256_digest (encryptor_header e ++ body)))) = Some endp →
  len endp ≤ BROWSER_MEDIA_CHUNK →
  ∃ r b' o qs polls payloads k' n',
    (await _ := e2e_writes ws in mst5_e2e_upload_finish) (b, Some (mkE2eUpload u e [])) = (r, (b', o)) ∧
    br_requests b' = br_requests b ++ qs ++ polls ∧ Forall (λ q, wq_channel q = lit "down") polls ∧
    carried (bs_upstream_seq (mu_session u)) n qs (map (data_frame (mu_id u)) payloads ++ [end_frame (mu_id u) endp]) k' n' ∧
    concat payloads = body ∧
    ∀ parts, concat parts = encryptor_header e ++ body →
      ∃ d d', decryptor_with_key key aad = Ok d ∧ push_all bits d parts = (Ok (file_chunks data), d') ∧
        decryptor_finish d' = Ok (len data) ∧ concat (file_chunks data) = data.
Proof.
  intros data Hk Hnp Hnpb Hdb Hbits Hek Hbody Hdig Hsent Hsize Hmax Hres Hid Hch Hsend Hend Hel.
  assert (len data < 2 ^ 63) as H63 by (apply encrypted_size_bound in Hsize; [widths; lia|apply len_nonneg]).
  assert (∀ parts, mu_expected_size u = len (encryptor_header e ++ body) ∧ (concat parts = encryptor_header e ++ body →
      ∃ d d', decryptor_with_key key aad = Ok d ∧ push_all bits d parts = (Ok (file_chunks data), d') ∧
        decryptor_finish d' = Ok (len data) ∧ concat (file_chunks data) = data)) as Hdec.
  { intros parts. destruct (media_roundtrip_core bits key aad np data parts Hk Hnp Hnpb Hdb Hbits H63)
      as (e0 & d & e1 & body0 & E0 & Ed & Es & _ & Hes & Hpush). rewrite Hek in E0. apply Ok_inj in E0 as <-.
    rewrite Hbody in Es. apply pair_equal_spec in Es as [Es _]. apply Ok_inj in Es as <-.
    split; [rewrite Hsize in Hes; by apply Ok_inj in Hes|]. intros Hparts. destruct (Hpush Hparts) as (d' & ? & ? & ?). by exists d, d'. }
  pose proof (begun_encrypting key aad np data e e' body b u n Hk Hnp Hnpb Hdb H63 Hek Hbody Hsent (proj1 (Hdec [])) Hmax Hid Hch Hsend) as Henc.
  destruct (e2e_writes_emit ws 1 b (mkE2eUpload u e []) n ltac:(lia) Henc) as (cs & b1 & e3 & n1 & E1 & Hpe & Hcs & Hlt & Hs1 & He3).
  { done. }
  cbn [eu_pending app] in Hpe. fold data in Hpe.
  assert (file_chunks data = cs ++ (if is_empty (eu_pending e3) then [] else [eu_pending e3])) as Hfc
    by (rewrite Hpe; by apply file_chunks_concat).
  pose proof Hs1 as (body1 & Hsc1 & Hem1). cbn [eu_upload eu_encryptor] in Hsc1, Hem1.
  pose proof Hem1 as [_ Hd1 _ Hi1 Hz1 _ Hr1].
  destruct (e2e_finish_emits b1 e3 n1 endp He3 Hlt) as (b2 & e4 & n2 & r & b' & o & q & polls & k' & n' & E2 & Hs2 & R2 & Hpo & Hc2);
    [congruence| |done|].
  { intros body2 enc2 Hb2. rewrite Hd1, Hdig, Hz1, <-app_assoc.
    pose proof (seal_chunks_app _ _ _ _ _ _ _ Hsc1 Hb2) as Hall. rewrite <-Hfc, Hbody in Hall.
    apply pair_equal_spec in Hall as [Hall _]. by apply Ok_inj in Hall as <-. }
  destruct (sealed_app _ _ _ _ _ _ _ _ _ _ _ Hs1 Hs2) as (body3 & Hb3 & Hem). rewrite <-Hfc in Hb3. cbn [eu_encryptor eu_upload] in Hb3, Hem.
  rewrite Hbody in Hb3. apply pair_equal_spec in Hb3 as [Hb3 _]. apply Ok_inj in Hb3 as <-.
  destruct (em_frames _ _ _ _ _ _ _ Hem) as (qs & payloads & Rq & Hcp & _ & Hc1).
  exists r, b', o, (qs ++ [q]), polls, payloads, k', n'. split_and!; try done.
  - unfold wbind. by rewrite E1.
  - by rewrite R2, Rq, !app_assoc.
  - eapply carried_app; [exact Hc1|]. by rewrite <-Hi1.
  - intros parts. apply Hdec.
Qed.

(** What a page does with an upload that is open: the header, the writes, the end. *)
Definition upload_file (ws : list (list Z)) (e : MediaEncryptor) (u : BrowserMediaUpload) (b : Browser)
  : answer unit * (Browser * option BrowserE2eMediaUpload) :=
  match send_header e u b with
  | (Return o, b) => (await _ := e2e_writes ws in mst5_e2e_upload_finish) (b, o)
  | (Throw x, b) => (Throw x, (b, None))
  | (Pending, b) => (Pending, (b, None))
  end.

(** The frames of the container: header, sealed chunks, end. *)
Definition container_frames (size : Z) (e : MediaEncryptor) (chunks : list (list Z)) : Z :=
  div_ceil (len (encryptor_header e)) size + (total_frames size chunks + 1).

(** C28: an encrypted upload from its opening on: the header is sent, the page writes a file
    in pieces of any size and finishes it.  As long as the whole upload fits under one key
    (fewer records and bytes than the native node rekeys after, 2^18 and 256 MiB, as the browser
    does not rekey) and its requests are accepted, the node finds in them, besides polls,
    STREAM_DATA frames whose payloads together are exactly the container, header and sealed
    chunks, and a STREAM_END with its size and checksum.  However the node later cuts these
    bytes, a decryptor with the same key recovers the file from them. *)
Theorem web_e2e_upload_container bits key aad np ws e e' body endp b u n :
  let data := concat ws in
  key32 key → length np = 16%nat → is_bytes np → is_bytes data → len data < 2 ^ bits →
  encryptor_with_key key aad (len data) (Ok np) = Ok e → seal_chunks e (file_chunks data) = (Ok body, e') →
  mu_digest u = [] → mu_sent u = 0 →
  encrypted_media_size (len data) = Ok (mu_expected_size u) → mu_expected_size u ≤ u32_max →
  mu_resume_checksum u = None → is_u64 (mu_id u) → 1 ≤ mu_chunk_size u ≤ BROWSER_MEDIA_CHUNK →
  sending (container_frames (mu_chunk_size u) e (file_chunks data)) b (mu_session u) n →
  cbor_to_vec (end_payload (mu_expected_size u) (hex_bytes (sha256_digest (encryptor_header e ++ body)))) = Some endp →
  len endp ≤ BROWSER_MEDIA_CHUNK →
  ∃ r b' o qs polls payloads k' n',
    upload_file ws e u b = (r, (b', o)) ∧
    br_requests b' = br_requests b ++ qs ++ polls ∧ Forall (λ q, wq_channel q = lit "down") polls ∧
    carried (bs_upstream_seq (mu_session u)) n qs (map (data_frame (mu_id u)) payloads ++ [end_frame (mu_id u) endp]) k' n' ∧
    concat payloads = encryptor_header e ++ body ∧ len (concat payloads) = mu_expected_size u ∧
    ∀ parts, concat parts = concat payloads →
      ∃ d d', decryptor_with_key key aad = Ok d ∧ push_all bits d parts = (Ok (file_chunks data), d') ∧
        decryptor_finish d' = Ok (len data) ∧ concat (file_chunks data) = data.
Proof.
  intros data Hk Hnp Hnpb Hdb Hbits Hek Hbody Hdig Hsent Hsize Hmax Hres Hid Hch Hsend Hend Hel.
  assert (len data < 2 ^ 63) as H63 by (apply encrypted_size_bound in Hsize; [widths; lia|apply len_nonneg]).
  destruct (media_roundtrip_core bits key aad np data [] Hk Hnp Hnpb Hdb Hbits H63) as (e0 & d0 & e1 & body0 & E0 & _ & Es & _ & Hes & _).
  rewrite Hek in E0. apply Ok_inj in E0 as <-. rewrite Hbody in Es. apply pair_equal_spec in Es as [Es _]. apply Ok_inj in Es as <-.
  rewrite Hsize in Hes. apply Ok_inj in Hes. rename Hes into Hlen. pose proof Hlen as Hlen'. rewrite len_app in Hlen'.
  pose proof (len_nonneg body). pose proof (total_frames_nonneg (mu_chunk_size u) (file_chunks data) ltac:(lia)).
  assert (is_bytes (encryptor_header e)) as Hhb.
  { unfold encryptor_with_key in Hek. destruct (negb _); [done|]. apply Ok_inj in Hek as <-. by apply media_header_bytes. }
  destruct (upload_write_emits (encryptor_header e) (total_frames (mu_chunk_size u) (file_chunks data) + 1) (len body) b u n)
    as (b1 & u1 & n1 & E1 & Hem & Hu1); [lia|lia|done|by split; try lia|].
  destruct Hem as [(qs0 & ps0 & R0 & C0 & _ & F0) Dg Sn Ii Ez Ec Er].
  destruct (web_e2e_upload_core bits key aad np ws e e' body endp b1 u1 n1) as (r & b' & o & qs & polls & ps & k' & n' & E2 & R2 & Hp & F2 & C2 & Hd);
    try congruence; try done.
  - by rewrite Dg, Hdig.
  - rewrite Sn, Hsent. lia.
  - by rewrite Ez.
  - rewrite Ec. apply Hu1.
  - exists r, b', o, (qs0 ++ qs), polls, (ps0 ++ ps), k', n'. rewrite concat_app, C0, C2.
    split_and!; try done.
    + unfold upload_file, send_header. by rewrite E1.
    + by rewrite R2, R0, !app_assoc.
    + rewrite map_app, <- app_assoc. rewrite Ii in F2. by eapply carried_app.
Qed.
End Uploads.

(** ** Sample values *)
Module WebMediaFixture.
Import WebFixture.
#[local] Existing Instance Toy.toy_crypto.
#[local] Existing Instance Toy.toy_laws.
#[local] Existing Instance no_decompressors.

Definition file_writes : list (list Z) := [[1; 2]; []; [3]].
Definition encryptor : MediaEncryptor := mkEncryptor sample_key [] sample_prefix 3 0 0.
Definition sealed_body : list Z := match seal_chunks encryptor (file_chunks [1; 2; 3]) with (Ok body, _) => body | _ => [] end.
Definition container : list Z := encryptor_header encryptor ++ sealed_body.
Definition upload : BrowserMediaUpload := mkMediaUpload session 5 (len container) 0 16384 [] None.
Definition end_bytes : list Z := be_bytes 8 (len container) ++ hex_bytes (sha256_digest container).

Lemma web_e2e_upload_container_witness :
  ∃ r b' o qs polls payloads k' n',
    upload_file file_writes encryptor upload (browser [accepted_upload; accepted_upload; accepted_upload]) = (r, (b', o)) ∧
    br_requests b' = qs ++ polls ∧ Forall (λ q, wq_channel q = lit "down") polls ∧
    carried transport tunnel packet sample_hash 2 sample_cipher qs
      (map (data_frame 5) payloads ++ [end_frame 5 end_bytes]) k' n' ∧
    concat payloads = container.
Proof.
  assert (b64url_decode (mf_route transport) = Some packet) as Hroute by (vm_compute; reflexivity).
  destruct (web_e2e_upload_container transport tunnel packet sample_hash Hroute sample_hash_bytes
    32 sample_key [] sample_prefix file_writes encryptor (advance encryptor 3) sealed_body end_bytes
    (browser [accepted_upload; accepted_upload; accepted_upload]) upload sample_cipher)
    as (r & b' & o & qs & polls & payloads & k' & n' & H1 & H2 & H3 & H4 & H5 & _).
  - split; [by_vm|done].
  - reflexivity.
  - by_vm.
  - by_vm.
  - by vm_compute.
  - vm_compute. reflexivity.
  - vm_compute. reflexivity.
  - reflexivity.
  - reflexivity.
  - vm_compute. reflexivity.
  - by vm_compute.
  - reflexivity.
  - by_vm.
  - by vm_compute.
  - split; try reflexivity; try (by vm_compute); [exact sample_cipher_ok|].
    exists [accepted_upload; accepted_upload; accepted_upload], []. split; [reflexivity|]. split; [vm_compute; reflexivity|].
    repeat constructor; by eexists.
  - vm_compute. reflexivity.
  - by vm_compute.
  - exists r, b', o, qs, polls, payloads, k', n'. exact (conj H1 (conj H2 (conj H3 (conj H4 H5)))).
Defined.
End WebMediaFixture.
