(* ===== verification/Ffi.v ===== *)
(** * The C interface (src/ffi/src/lib.rs)

    Every [extern "C"] function of the crate.  [Ffi] is the state of the library:
    the counter and the two registries of handles, the heap blocks handed to the
    caller, the last error, and the file system of the identity stores.  A client in
    the registry is a [Client] with the [World] its connection will show it.  A
    pointer argument is [None] when it is null and else the bytes it points to (a C
    string without its terminator); an output pointer is a [bool].  The outcome of
    connecting, and the random bytes a call draws, are arguments.

    The model is of calls one after the other; the registries are locked for single
    accesses only, and no code panics while it holds a lock. *)
From S2P Require Import Prelude RustStr Cbor Crypto Frame Types Fs E2E Json Account Messenger Program Client Api Transfer.

Definition OK : Z := 0.
Definition INVALID_ARGUMENT : Z := 1.
Definition IO_ERROR : Z := 2.
Definition NOT_FOUND : Z := 3.
Definition PANIC : Z := 255.

(** A block handed to the caller: its address and length. *)
Record Mst5Buffer := mkBuffer { bf_data : Z; bf_len : Z }.

Record Ffi := mkFfi {
  ff_next : Z;                               (** [NEXT_HANDLE] *)
  ff_clients : gmap Z (Client.Client * World);
  ff_identities : gmap Z Identity;
  ff_error : list Z;                         (** [LAST_ERROR] *)
  ff_heap : gmap Z (list Z);                 (** blocks the caller has to free *)
  ff_fs : Fs
}.

Definition ff_set_next (n : Z) (s : Ffi) : Ffi := mkFfi n (ff_clients s) (ff_identities s) (ff_error s) (ff_heap s) (ff_fs s).
Definition ff_set_clients (m : gmap Z (Client.Client * World)) (s : Ffi) : Ffi := mkFfi (ff_next s) m (ff_identities s) (ff_error s) (ff_heap s) (ff_fs s).
Definition ff_set_identities (m : gmap Z Identity) (s : Ffi) : Ffi := mkFfi (ff_next s) (ff_clients s) m (ff_error s) (ff_heap s) (ff_fs s).
Definition ff_set_error (e : list Z) (s : Ffi) : Ffi := mkFfi (ff_next s) (ff_clients s) (ff_identities s) e (ff_heap s) (ff_fs s).
Definition ff_set_heap (h : gmap Z (list Z)) (s : Ffi) : Ffi := mkFfi (ff_next s) (ff_clients s) (ff_identities s) (ff_error s) h (ff_fs s).
Definition ff_set_fs (f : Fs) (s : Ffi) : Ffi := mkFfi (ff_next s) (ff_clients s) (ff_identities s) (ff_error s) (ff_heap s) f.

(** ** Calls *)

(** How the body of a call ends; [Failed] carries the status code and the message. *)
Inductive outcome (A : Type) := Done (a : A) | Failed (code : Z) (error : list Z) | Panicked | Aborted | Diverged.
Arguments Done {A} a.
Arguments Failed {A} code error.
Arguments Panicked {A}.
Arguments Aborted {A}.
Arguments Diverged {A}.

Definition native (A : Type) : Type := Ffi → outcome A * Ffi.
Definition cret {A} (a : A) : native A := λ s, (Done a, s).
Definition cfail {A} (code : Z) (error : list Z) : native A := λ s, (Failed code error, s).
Definition cbind {A B} (m : native A) (k : A → native B) : native B := λ s,
  match m s with
  | (Done a, s) => k a s
  | (Failed c e, s) => (Failed c e, s)
  | (Panicked, s) => (Panicked, s)
  | (Aborted, s) => (Aborted, s)
  | (Diverged, s) => (Diverged, s)
  end.
Notation "'call' x := m 'in' k" := (cbind m (λ x, k)) (at level 10, x pattern, k at level 200) : rust_scope.
Definition clift {A} (code : Z) (r : result (list Z) A) : native A :=
  match r with Ok a => cret a | Err e => cfail code e end.
(** [map_err(io_error)]. *)
Definition cio {A} (r : io A) : native A := clift IO_ERROR (map_err emsg r).
Definition with_fs {A} (m : fs_io A) : native A := λ s, let '(r, f) := m (ff_fs s) in cio r (ff_set_fs f s).

(** What the C caller sees: the status code and what was written through the output
    pointer; a call may also abort the process or not return. *)
Inductive c_return (A : Type) := Returned (code : Z) (written : option A) | ProcessAborts | NeverReturns.
Arguments Returned {A} code written.
Arguments ProcessAborts {A}.
Arguments NeverReturns {A}.

(** [error.to_string().replace('\0', " ")]. *)
Definition set_error (error : list Z) (s : Ffi) : Ffi := ff_set_error (map (λ b, if b =? 0 then 32 else b) error) s.

Definition guard {A} (action : native A) (s : Ffi) : c_return A * Ffi :=
  match action s with
  | (Done a, s) => (Returned OK (Some a), set_error [] s)
  | (Failed code error, s) => (Returned code None, set_error error s)
  | (Panicked, s) => (Returned PANIC None, set_error (lit "panic crossed the MST5 C ABI boundary") s)
  | (Aborted, s) => (ProcessAborts, s)
  | (Diverged, s) => (NeverReturns, s)
  end.

(** ** Arguments *)
Definition text (value : option (list Z)) (name : list Z) : native (list Z) :=
  match value with
  | None => cfail INVALID_ARGUMENT (name ++ lit " is null")
  | Some s => if utf8_valid s then cret s else cfail INVALID_ARGUMENT (name ++ lit " is not UTF-8")
  end.

(** The caller promises that a pointer that is not null has [n] bytes behind it. *)
Definition bytes (value : option (list Z)) (n : Z) (name : list Z) : native (list Z) :=
  if n =? 0 then cret []
  else match value with
       | None => cfail INVALID_ARGUMENT (name ++ lit " is null")
       | Some l => cret (take (Z.to_nat n) l)
       end.

Definition require_out (out : bool) (name : list Z) : native unit :=
  if out then cret tt else cfail INVALID_ARGUMENT (name ++ lit " is null").

(** A boxed slice of no bytes has no block: its address is dangling, not null. *)
Definition fresh_block (s : Ffi) : Z := 1 + fold_right Z.max 1 (elements (dom (ff_heap s))).
Definition output (out : bool) (value : list Z) : native Mst5Buffer :=
  call _ := require_out out (lit "output buffer") in
  λ s, if is_empty value then (Done (mkBuffer 1 0), s)
       else (Done (mkBuffer (fresh_block s) (len value)), ff_set_heap (<[fresh_block s := value]> (ff_heap s)) s).

Definition mst5_buffer_free (b : Mst5Buffer) (s : Ffi) : Ffi :=
  if (bf_data b =? 0) || (bf_len b =? 0) then s else ff_set_heap (delete (bf_data b) (ff_heap s)) s.

Definition next_handle : native Z := λ s,
  if ff_next s =? 0 then (Failed IO_ERROR (lit "native handle space exhausted"), s)
  else (Done (ff_next s), ff_set_next (default 0 (checked_add64 (ff_next s) 1)) s).

(** The registered value under a new handle. *)
Definition register_client (c : Client.Client * World) : native Z :=
  call h := next_handle in λ s, (Done h, ff_set_clients (<[h := c]> (ff_clients s)) s).
Definition register_identity (i : Identity) : native Z :=
  call h := next_handle in λ s, (Done h, ff_set_identities (<[h := i]> (ff_identities s)) s).

Definition find_client (handle : Z) : native (Client.Client * World) := λ s,
  match ff_clients s !! handle with
  | Some c => (Done c, s)
  | None => (Failed NOT_FOUND (lit "client handle not found"), s)
  end.
Definition identity (handle : Z) : native Identity := λ s,
  match ff_identities s !! handle with
  | Some i => (Done i, s)
  | None => (Failed NOT_FOUND (lit "identity handle not found"), s)
  end.

(** ** Wire formats of the interface *)
Definition encode_envelope (e : Envelope) : list Z := [env_version e] ++ env_nonce e ++ env_ciphertext e.
Definition decode_envelope (value : list Z) : native Envelope :=
  if (len value <? 41) || negb ((nth 0 value 0 =? LEGACY_ENVELOPE_VERSION) || (nth 0 value 0 =? ENVELOPE_VERSION))
  then cfail INVALID_ARGUMENT (lit "unsupported E2E envelope")
  else cret (mkEnvelope (nth 0 value 0) (slice 1 25 value) (drop 25 value)).

Definition encode_backup (b : Backup) : list Z := [bk_version b] ++ bk_salt b ++ bk_nonce b ++ bk_ciphertext b.
Definition decode_backup (value : list Z) : native Backup :=
  if negb (len value =? 89) || negb (nth 0 value 0 =? BACKUP_VERSION)
  then cfail INVALID_ARGUMENT (lit "invalid E2E backup")
  else cret (mkBackup (nth 0 value 0) (slice 1 17 value) (slice 17 41 value) (drop 41 value)).

Definition encode_response (r : Response) : list Z := [rs_kind r] ++ be_bytes 2 (rs_status r) ++ rs_payload r.

(** ** Paths *)

(** The last component and what is before it, as [Path::file_name] and
    [Path::parent] take them: repeated and trailing separators and [.] are skipped. *)
Definition skipped (c : list Z) : bool := is_empty c || beq c (lit ".").
Definition join_path (absolute : bool) (components : list (list Z)) : list Z :=
  match components with
  | [] => if absolute then [47] else []
  | c :: t => (if absolute then [47] else []) ++ c ++ concat (map (cons 47) t)
  end.
Definition std_path (path : list Z) : Path :=
  let absolute := starts_with [47] path in
  let all := split_on 47 path in
  let head := match all with c :: _ => if beq c (lit ".") then [c] else [] | [] => [] end in
  let components := head ++ List.filter (λ c, negb (skipped c)) all in
  match reverse components with
  | [] => mkPath (if absolute || is_empty path then None else Some []) None
  | f :: before =>
      mkPath (Some (join_path absolute (reverse before))) (if beq f (lit "..") || beq f (lit ".") then None else Some f)
  end.

(** ** [SliceReader] *)
Record SliceReader := mkSliceReader { sr_data : list Z; sr_offset : Z }.
(** [poll_read] into a buffer with [room] bytes left: what it puts there. *)
Definition poll_read (room : Z) (r : SliceReader) : list Z * SliceReader :=
  let remaining := drop (Z.to_nat (sr_offset r)) (sr_data r) in
  if is_empty remaining then ([], r)
  else let count := Z.min (len remaining) room in
       (take (Z.to_nat count) remaining, mkSliceReader (sr_data r) (sr_offset r + count)).
(** The reader as a source of a [World]: one piece, taken as the buffer allows. *)
Definition slice_reads (data : list Z) : list (io (list Z)) := if is_empty data then [] else [Ok data].

(** ** The functions *)

(** The outcome of connecting to one endpoint with one key. *)
Abbreviation dialer := (list Z → list Z → ClientOptions → io (Client.Client * World)).

Section Functions.
Context `{J : SerdeJson} `{C : Crypto} `{Z1 : Compressor} `{Z2 : Decompressors}.
(** Whether the runtime could be started; ciborium; the allocator and the largest
    capacity a [Vec] may have. *)
Context (runtime : result (list Z) unit) (ciborium_into_writer : JsonValue → result (list Z) (list Z))
  (ciborium_from_reader : list Z → result (list Z) JsonValue) (allocates : Z → bool) (isize_max : Z).

Definition mst5_abi_version : Z := 1.
Definition mst5_version : list Z := lit "0.5.0".
Definition mst5_last_error (s : Ffi) : list Z := ff_error s.

(** [runtime()?.block_on(program)] on a client, which keeps its new state. *)
Definition block_on {A} (handle : Z) (program : Client.Client → tprog A) : native A :=
  call (c, w) := find_client handle in
  call _ := clift IO_ERROR runtime in
  λ s, match exec (program c) w with
       | Some (r, w) => cio r (ff_set_clients (<[handle := (c, w)]> (ff_clients s)) s)
       | None => (Diverged, s)
       end.

(** [connect_media] on a new client. *)
Definition media_ticket (ticket : list Z) (cw : Client.Client * World) : native (Client.Client * World) :=
  let '(c, w) := cw in
  match exec (connect_media c ticket) w with
  | Some (Ok _, w) => cret (c, w)
  | Some (Err e, _) => cfail IO_ERROR (emsg e)
  | None => λ s, (Diverged, s)
  end.

Definition mst5_client_connect (dial : dialer) (endpoint key : option (list Z)) (out : bool) : Ffi → c_return Z * Ffi := guard (
  call _ := require_out out (lit "out_client") in
  call endpoint := text endpoint (lit "endpoint") in
  call key := text key (lit "server_public_key_b64") in
  call _ := clift IO_ERROR runtime in
  call c := cio (connect dial endpoint key) in
  register_client c).

Definition mst5_client_connect_compiled (dial : dialer) (compiled : io (list Z)) (endpoint : option (list Z)) (out : bool)
  : Ffi → c_return Z * Ffi := guard (
  call _ := require_out out (lit "out_client") in
  call endpoint := text endpoint (lit "endpoint") in
  call key := cio compiled in
  call _ := clift IO_ERROR runtime in
  call c := cio (connect dial endpoint key) in
  register_client c).

Definition mst5_client_connect_media (dial : dialer) (endpoint key ticket : option (list Z)) (out : bool)
  : Ffi → c_return Z * Ffi := guard (
  call _ := require_out out (lit "out_client") in
  call endpoint := text endpoint (lit "endpoint") in
  call key := text key (lit "server_public_key_b64") in
  call ticket := text ticket (lit "ticket") in
  call _ := clift IO_ERROR runtime in
  call c := cio (connect dial endpoint key) in
  call c := media_ticket ticket c in
  register_client c).

Definition mst5_client_authenticate (handle : Z) (token : option (list Z)) : Ffi → c_return unit * Ffi := guard (
  call token := text token (lit "token") in
  block_on handle (λ c, authenticate c token)).

Definition request_options (deadline : Z) (nonce : option (list Z)) : RequestOptions :=
  let options := if deadline =? 0 then default_request_options else with_deadline_ms default_request_options deadline in
  match nonce with Some n => with_request_nonce options n | None => options end.

Definition mst5_client_request_inner (handle kind opcode : Z) (payload : option (list Z)) (payload_len : Z)
    (nonce : option (list Z)) (deadline : Z) (out : bool) : Ffi → c_return Mst5Buffer * Ffi := guard (
  call payload := bytes payload payload_len (lit "payload") in
  call response := block_on handle (λ c, request_cbor_with_options c kind opcode payload (request_options deadline nonce)) in
  output out (encode_response response)).

Definition mst5_client_request (handle kind opcode : Z) (payload : option (list Z)) (payload_len deadline : Z) (out : bool)
  : Ffi → c_return Mst5Buffer * Ffi := mst5_client_request_inner handle kind opcode payload payload_len None deadline out.

(** The caller promises 16 bytes behind [nonce]. *)
Definition mst5_client_request_with_nonce (handle kind opcode : Z) (payload : option (list Z)) (payload_len : Z)
    (nonce : option (list Z)) (deadline : Z) (out : bool) : Ffi → c_return Mst5Buffer * Ffi :=
  match nonce with
  | None => λ s, (Returned INVALID_ARGUMENT None, s)
  | Some n => mst5_client_request_inner handle kind opcode payload payload_len (Some (take 16 n)) deadline out
  end.

(** The client is removed before the connection is closed. *)
Definition mst5_client_close (handle : Z) : Ffi → c_return unit * Ffi := guard (
  call (c, w) := find_client handle in
  λ s, (call _ := clift IO_ERROR runtime in
        match exec client_close w with
        | Some (r, _) => cio r
        | None => λ s, (Diverged, s)
        end) (ff_set_clients (delete handle (ff_clients s)) s)).

Definition mst5_client_media_upload (handle : Z) (file_id data : option (list Z)) (data_len : Z) : Ffi → c_return unit * Ffi := guard (
  call file_id := text file_id (lit "file_id") in
  call data := bytes data data_len (lit "data") in
  call (c, w) := find_client handle in
  call _ := λ s, (Done tt, ff_set_clients (<[handle := (c, set_reads (slice_reads data) w)]> (ff_clients s)) s) in
  block_on handle (λ c, upload_media c file_id data_len)).

(** [Vec::with_capacity]. *)
Definition with_capacity (n : Z) : native unit := λ s,
  if isize_max <? n then (Panicked, s) else if allocates n then (Done tt, s) else (Aborted, s).

Definition mst5_client_media_download (handle : Z) (file_id : option (list Z)) (out : bool) : Ffi → c_return Mst5Buffer * Ffi := guard (
  call file_id := text file_id (lit "file_id") in
  call size := block_on handle (λ c, media_stat c file_id) in
  call _ := with_capacity size in
  call (c, w) := find_client handle in
  call _ := λ s, (Done tt, ff_set_clients (<[handle := (c, set_writes [] [] w)]> (ff_clients s)) s) in
  call _ := block_on handle (λ c, download_media c file_id size) in
  call (_, w) := find_client handle in
  output out (w_target w)).

Definition mst5_client_media_stat (handle : Z) (file_id : option (list Z)) (out : bool) : Ffi → c_return Z * Ffi := guard (
  call _ := require_out out (lit "out_size") in
  call file_id := text file_id (lit "file_id") in
  block_on handle (λ c, media_stat c file_id)).

Definition mst5_client_media_delete (handle : Z) (file_id : option (list Z)) : Ffi → c_return unit * Ffi := guard (
  call file_id := text file_id (lit "file_id") in
  block_on handle (λ c, media_delete c file_id)).

Definition serde_cbor_encode (value : JsonValue) : native (list Z) :=
  clift IO_ERROR (map_err (λ e, lit "encode request CBOR: " ++ e) (ciborium_into_writer value)).

Definition mst5_client_request_json (handle frame_kind opcode : Z) (json : option (list Z)) (deadline : Z) (out : bool)
  : Ffi → c_return Mst5Buffer * Ffi := guard (
  call json := text json (lit "json_payload") in
  call value := clift INVALID_ARGUMENT (map_err (λ e, lit "invalid JSON payload: " ++ e) (from_str json)) in
  call payload := serde_cbor_encode value in
  call response := block_on handle (λ c, request_cbor_with_options c frame_kind opcode payload (request_options deadline None)) in
  call value := clift IO_ERROR (map_err (λ e, lit "decode response CBOR: " ++ e) (ciborium_from_reader (rs_payload response))) in
  call bytes := clift IO_ERROR (json_to_string value) in
  output out bytes).

(** ** Identities *)
Definition mst5_identity_open (path : option (list Z)) (create : Z) (random : io (list Z)) (out : bool) : Ffi → c_return Z * Ffi := guard (
  call _ := require_out out (lit "out_identity") in
  call path := text path (lit "private_store_path") in
  call i := (if negb (create =? 0) then with_fs (load_or_create (std_path path) random)
             else call found := with_fs (load (std_path path)) in
                  match found with Some i => cret i | None => cfail NOT_FOUND (lit "identity does not exist") end) in
  register_identity i).

Definition mst5_identity_restore (path password backup : option (list Z)) (backup_len : Z) (out : bool) : Ffi → c_return Z * Ffi := guard (
  call _ := require_out out (lit "out_identity") in
  call path := text path (lit "private_store_path") in
  call password := text password (lit "password") in
  call raw := bytes backup backup_len (lit "backup") in
  call b := decode_backup raw in
  call restored := cio (restore b password) in
  call _ := with_fs (save (std_path path) restored) in
  register_identity restored).

Definition mst5_identity_remove (path : option (list Z)) : Ffi → c_return unit * Ffi := guard (
  call path := text path (lit "private_store_path") in
  with_fs (remove (std_path path))).

Definition mst5_identity_close (handle : Z) : Ffi → c_return unit * Ffi := guard (
  call _ := identity handle in
  λ s, (Done tt, ff_set_identities (delete handle (ff_identities s)) s)).

Definition mst5_identity_public_key (handle : Z) (out : bool) : Ffi → c_return Mst5Buffer * Ffi := guard (
  call i := identity handle in output out (public_key i)).

Definition mst5_identity_fingerprint (handle : Z) (out : bool) : Ffi → c_return Mst5Buffer * Ffi := guard (
  call i := identity handle in output out (fingerprint (id_public i))).

Definition mst5_e2e_seal (handle : Z) (peer from to plaintext : option (list Z)) (plaintext_len : Z) (random : io (list Z)) (out : bool)
  : Ffi → c_return Mst5Buffer * Ffi := guard (
  call peer := bytes peer 32 (lit "peer_public_key") in
  call i := identity handle in
  call from := text from (lit "from_id") in
  call to := text to (lit "to_id") in
  call plaintext := bytes plaintext plaintext_len (lit "plaintext") in
  call envelope := cio (seal i peer from to plaintext random) in
  output out (encode_envelope envelope)).

Definition mst5_e2e_open (handle : Z) (peer from to envelope : option (list Z)) (envelope_len : Z) (out : bool)
  : Ffi → c_return Mst5Buffer * Ffi := guard (
  call peer := bytes peer 32 (lit "peer_public_key") in
  call i := identity handle in
  call from := text from (lit "from_id") in
  call to := text to (lit "to_id") in
  call raw := bytes envelope envelope_len (lit "envelope") in
  call e := decode_envelope raw in
  call plaintext := cio (open i peer from to e) in
  output out plaintext).

Definition mst5_e2e_backup (handle : Z) (password : option (list Z)) (random_salt random_nonce : io (list Z)) (out : bool)
  : Ffi → c_return Mst5Buffer * Ffi := guard (
  call i := identity handle in
  call password := text password (lit "password") in
  call b := cio (backup i password random_salt random_nonce) in
  output out (encode_backup b)).
End Functions.
