(* ===== verification/FfiProofs.v ===== *)
(** * The C interface: handles and buffers

    - handles are never reused: one that was closed is refused for ever, and the
      client and identity registries never share a handle;
    - a message sealed by one identity and opened by another through the interface is
      the original, and freeing both buffers leaves no block behind. *)
From S2P Require Import Prelude RustStr Cbor Crypto Frame Types Fs E2E Json Account Messenger Program Client Api Transfer Ffi.

(** ** Every call *)
Section Calls.
Context `{J : SerdeJson} `{C : Crypto} `{Z1 : Compressor} `{Z2 : Decompressors}.
Context (runtime : result (list Z) unit) (ciborium_into_writer : JsonValue → result (list Z) (list Z))
  (ciborium_from_reader : list Z → result (list Z) JsonValue) (allocates : Z → bool) (isize_max : Z).

Inductive c_call :=
| Connect (dial : dialer) (endpoint key : option (list Z)) (out : bool)
| ConnectCompiled (dial : dialer) (compiled : io (list Z)) (endpoint : option (list Z)) (out : bool)
| ConnectMedia (dial : dialer) (endpoint key ticket : option (list Z)) (out : bool)
| Authenticate (handle : Z) (token : option (list Z))
| Request (handle kind opcode : Z) (payload : option (list Z)) (n : Z) (deadline : Z) (out : bool)
| RequestWithNonce (handle kind opcode : Z) (payload : option (list Z)) (n : Z) (nonce : option (list Z)) (deadline : Z) (out : bool)
| RequestJson (handle kind opcode : Z) (json : option (list Z)) (deadline : Z) (out : bool)
| Close (handle : Z)
| MediaUpload (handle : Z) (file_id data : option (list Z)) (n : Z)
| MediaDownload (handle : Z) (file_id : option (list Z)) (out : bool)
| MediaStat (handle : Z) (file_id : option (list Z)) (out : bool)
| MediaDelete (handle : Z) (file_id : option (list Z))
| IdentityOpen (path : option (list Z)) (create : Z) (random : io (list Z)) (out : bool)
| IdentityRestore (path password backup : option (list Z)) (n : Z) (out : bool)
| IdentityRemove (path : option (list Z))
| IdentityClose (handle : Z)
| IdentityPublicKey (handle : Z) (out : bool)
| IdentityFingerprint (handle : Z) (out : bool)
| E2eSeal (handle : Z) (peer from to plaintext : option (list Z)) (n : Z) (random : io (list Z)) (out : bool)
| E2eOpen (handle : Z) (peer from to envelope : option (list Z)) (n : Z) (out : bool)
| E2eBackup (handle : Z) (password : option (list Z)) (salt nonce : io (list Z)) (out : bool)
| BufferFree (b : Mst5Buffer).

Definition perform_call (c : c_call) (s : Ffi) : Ffi :=
  match c with
  | Connect dial e k out => (mst5_client_connect runtime dial e k out s).2
  | ConnectCompiled dial k e out => (mst5_client_connect_compiled runtime dial k e out s).2
  | ConnectMedia dial e k t out => (mst5_client_connect_media runtime dial e k t out s).2
  | Authenticate h t => (mst5_client_authenticate runtime h t s).2
  | Request h k o p n d out => (mst5_client_request runtime h k o p n d out s).2
  | RequestWithNonce h k o p n x d out => (mst5_client_request_with_nonce runtime h k o p n x d out s).2
  | RequestJson h k o j d out => (mst5_client_request_json runtime ciborium_into_writer ciborium_from_reader h k o j d out s).2
  | Close h => (mst5_client_close runtime h s).2
  | MediaUpload h f d n => (mst5_client_media_upload runtime h f d n s).2
  | MediaDownload h f out => (mst5_client_media_download runtime allocates isize_max h f out s).2
  | MediaStat h f out => (mst5_client_media_stat runtime h f out s).2
  | MediaDelete h f => (mst5_client_media_delete runtime h f s).2
  | IdentityOpen p c r out => (mst5_identity_open p c r out s).2
  | IdentityRestore p w b n out => (mst5_identity_restore p w b n out s).2
  | IdentityRemove p => (mst5_identity_remove p s).2
  | IdentityClose h => (mst5_identity_close h s).2
  | IdentityPublicKey h out => (mst5_identity_public_key h out s).2
  | IdentityFingerprint h out => (mst5_identity_fingerprint h out s).2
  | E2eSeal h p f t m n r out => (mst5_e2e_seal h p f t m n r out s).2
  | E2eOpen h p f t e n out => (mst5_e2e_open h p f t e n out s).2
  | E2eBackup h p a b out => (mst5_e2e_backup h p a b out s).2
  | BufferFree b => mst5_buffer_free b s
  end.

Definition run_calls (cs : list c_call) (s : Ffi) : Ffi := fold_left (λ s c, perform_call c s) cs s.
End Calls.

(** ** Handles *)

(** [h] was given out, or will never be. *)
Definition allotted (h : Z) (s : Ffi) : Prop := 0 < h ≤ u64_max ∧ (ff_next s = 0 ∨ h < ff_next s).
Definition live (h : Z) (s : Ffi) : Prop := is_Some (ff_clients s !! h) ∨ is_Some (ff_identities s !! h).

Record ffi_ok (s : Ffi) : Prop := {
  fo_next : 0 ≤ ff_next s ≤ u64_max;
  fo_live h : live h s → allotted h s;
  fo_disjoint h : ff_clients s !! h = None ∨ ff_identities s !! h = None
}.

(** What a call may do to the registries: drop handles and use new ones. *)
Record grows (s s' : Ffi) : Prop := {
  gr_next h : allotted h s → allotted h s';
  gr_live h : live h s' → live h s ∨ ¬ allotted h s
}.

#[export] Instance grows_preorder : PreOrder grows.
Proof.
  split; [split; auto|]. intros a b c [N1 L1] [N2 L2]. split; [auto|].
  intros h Hh. destruct (L2 h Hh) as [H|H]; [|right; auto]. apply (L1 h) in H as [H|H]; [by left|by right].
Qed.

Definition safe {A} (m : native A) : Prop := ∀ s, ffi_ok s → ffi_ok (m s).2 ∧ grows s (m s).2.

Lemma ok_shrink s s' :
  ffi_ok s → ff_next s' = ff_next s → dom (ff_clients s') ⊆ dom (ff_clients s) → dom (ff_identities s') ⊆ dom (ff_identities s) →
  ffi_ok s' ∧ grows s s'.
Proof.
  intros [Hn Hl Hd] En Hc Hi.
  assert (∀ h, live h s' → live h s) as Hlive.
  { intros h [Hh|Hh]; [left|right]; apply elem_of_dom; [apply Hc|apply Hi]; by apply elem_of_dom. }
  split; split; unfold allotted in *; rewrite ?En; auto. intros h. destruct (Hd h) as [E|E]; [left|right];
    apply not_elem_of_dom; intros ?; apply (not_elem_of_dom_2 _ _ E); auto.
Qed.

Lemma safe_same {A} (m : native A) :
  (∀ s, ff_next (m s).2 = ff_next s ∧ dom (ff_clients (m s).2) ⊆ dom (ff_clients s) ∧ dom (ff_identities (m s).2) ⊆ dom (ff_identities s)) → safe m.
Proof. intros H s Hs. destruct (H s) as (? & ? & ?). by apply ok_shrink. Qed.

Lemma safe_bind {A B} (m : native A) (k : A → native B) : safe m → (∀ a, safe (k a)) → safe (cbind m k).
Proof.
  intros Hm Hk s Hs. destruct (Hm s Hs) as [H1 H2]. unfold cbind. destruct (m s) as [[a|c e| | |] s1]; cbn in *; try done.
  destruct (Hk a s1 H1) as [H3 H4]. split; [done|]. by etransitivity.
Qed.

Ltac same := apply safe_same; intros s; cbn; done.

Lemma safe_cret {A} (a : A) : safe (cret a). Proof. same. Qed.
Lemma safe_cfail {A} c e : safe (@cfail A c e). Proof. same. Qed.
Lemma safe_panic {A} : safe (λ s, (@Panicked A, s)). Proof. same. Qed.
Lemma safe_diverge {A} : safe (λ s, (@Diverged A, s)). Proof. same. Qed.
Lemma safe_clift {A} c (r : result (list Z) A) : safe (clift c r). Proof. destruct r; same. Qed.
Lemma safe_cio {A} (r : io A) : safe (cio r). Proof. apply safe_clift. Qed.
Lemma safe_fs {A} (m : fs_io A) : safe (with_fs m).
Proof. apply safe_same. intros s. unfold with_fs. destruct (m (ff_fs s)) as [[a|e] f]; done. Qed.
Lemma safe_text v n : safe (text v n). Proof. unfold text. destruct v as [l|]; [destruct (utf8_valid l)|]; same. Qed.
Lemma safe_bytes v n name : safe (bytes v n name). Proof. unfold bytes. destruct (n =? 0); [same|]. destruct v; same. Qed.
Lemma safe_out out n : safe (require_out out n). Proof. unfold require_out. destruct out; same. Qed.
Lemma safe_find h : safe (find_client h).
Proof. apply safe_same. intros s. unfold find_client. by destruct (ff_clients s !! h). Qed.
Lemma safe_identity h : safe (identity h).
Proof. apply safe_same. intros s. unfold identity. by destruct (ff_identities s !! h). Qed.
Lemma safe_output out v : safe (output out v).
Proof. apply safe_bind; [apply safe_out|]. intros _. apply safe_same. intros s. by destruct (is_empty v). Qed.
Lemma safe_envelope v : safe (decode_envelope v). Proof. unfold decode_envelope. destruct (_ || _); same. Qed.
Lemma safe_backup v : safe (decode_backup v). Proof. unfold decode_backup. destruct (_ || _); same. Qed.
Lemma safe_capacity al mx n : safe (with_capacity al mx n).
Proof. apply safe_same. intros s. unfold with_capacity. destruct (mx <? n); [done|]. by destruct (al n). Qed.

Create HintDb ffi.
#[local] Hint Resolve safe_cret safe_cfail safe_panic safe_diverge safe_clift safe_cio safe_fs safe_text safe_bytes safe_out safe_find
  safe_identity safe_output safe_envelope safe_backup safe_capacity : ffi.

(** A client that is registered keeps its handle when its state changes. *)
Lemma ok_update h c c' s : ffi_ok s → ff_clients s !! h = Some c →
  ffi_ok (ff_set_clients (<[h := c']> (ff_clients s)) s) ∧ grows s (ff_set_clients (<[h := c']> (ff_clients s)) s).
Proof.
  intros Hs E. apply ok_shrink; [done|done| |done]. cbn. rewrite dom_insert.
  assert (h ∈ dom (ff_clients s)) by (apply elem_of_dom; eauto). set_solver.
Qed.

Lemma safe_block_on {A} rt h (p : Client.Client → tprog A) : safe (block_on rt h p).
Proof.
  intros s Hs. unfold block_on, cbind, find_client. destruct (ff_clients s !! h) as [[c w]|] eqn:E; cbn; [|by split; [|reflexivity]].
  destruct rt as [[]|]; cbn; [|by split; [|reflexivity]]. destruct (exec (p c) w) as [[r w']|]; cbn; [|by split; [|reflexivity]].
  destruct (ok_update h (c, w) (c, w') s Hs E) as [H1 H2]. destruct (safe_cio r _ H1) as [H3 H4]. split; [done|]. by etransitivity.
Qed.

Lemma safe_ticket ticket c : safe (media_ticket ticket c).
Proof. destruct c as [c w]. unfold media_ticket. destruct (exec _ w) as [[[]]|]; same. Qed.

(** Another state of a client, and then [m]. *)
Lemma safe_store {A} h (g : Client.Client → World → World) (m : native A) : safe m →
  safe (call (c, w) := find_client h in call _ := λ s, (Done tt, ff_set_clients (<[h := (c, g c w)]> (ff_clients s)) s) in m).
Proof.
  intros Hm s Hs. unfold cbind, find_client. destruct (ff_clients s !! h) as [[c w]|] eqn:E; cbn; [|by split; [|reflexivity]].
  destruct (ok_update h (c, w) (c, g c w) s Hs E) as [H1 H2]. destruct (Hm _ H1) as [H3 H4]. split; [done|]. by etransitivity.
Qed.
#[local] Hint Resolve safe_block_on safe_ticket : ffi.

(** A new handle was not allotted before. *)
Lemma next_handle_spec s h s1 :
  ffi_ok s → next_handle s = (Done h, s1) →
  ¬ allotted h s ∧ allotted h s1 ∧ ff_clients s1 = ff_clients s ∧ ff_identities s1 = ff_identities s ∧
  0 ≤ ff_next s1 ≤ u64_max ∧ ∀ k, allotted k s → allotted k s1.
Proof.
  intros [Hn Hl Hd] H. unfold next_handle in H. destruct (Z.eqb_spec (ff_next s) 0) as [|Hne]; [done|].
  apply pair_equal_spec in H as [H <-]. injection H as <-. unfold allotted. cbn.
  destruct (checked_add64 (ff_next s) 1) as [n|] eqn:E; cbn.
  - apply checked_add64_some in E as [-> Hm]. split_and!; try done; [lia..|]. intros k [? [?|?]]; split; lia.
  - split_and!; try done; try lia; try (by left); try (widths; lia).
Qed.

Lemma safe_next : safe next_handle.
Proof.
  intros s Hs. destruct (next_handle s) as [[h|c e| | |] s1] eqn:E; cbn [snd].
  - destruct (next_handle_spec s h s1 Hs E) as (_ & _ & Ec & Ei & Hn & Hm). destruct Hs as [_ Hl Hd].
    assert (∀ k, live k s1 ↔ live k s) as Hlive by (intros k; unfold live; by rewrite Ec, Ei).
    split; [split; [done|intros k Hk; by apply Hm, Hl, Hlive|by rewrite Ec, Ei]|]. split; [done|]. intros k Hk. left. by apply Hlive.
  - unfold next_handle in E. destruct (ff_next s =? 0); simplify_eq. by split; [|reflexivity].
  - unfold next_handle in E. by destruct (ff_next s =? 0).
  - unfold next_handle in E. by destruct (ff_next s =? 0).
  - unfold next_handle in E. by destruct (ff_next s =? 0).
Qed.

Lemma safe_registered {A} (g : Z → Ffi → Ffi) (f : Z → A) :
  (∀ h s, ff_next (g h s) = ff_next s ∧
     (∀ k, k ≠ h → ff_clients (g h s) !! k = ff_clients s !! k ∧ ff_identities (g h s) !! k = ff_identities s !! k) ∧
     (ff_clients s !! h = None → ff_identities s !! h = None → ff_clients (g h s) !! h = None ∨ ff_identities (g h s) !! h = None)) →
  safe (call h := next_handle in λ s, (Done (f h), g h s)).
Proof.
  intros Hg s Hs. destruct (safe_next s Hs) as [H1 H2]. unfold cbind. destruct (next_handle s) as [[h|c e| | |] s1] eqn:E; cbn in *; try done.
  destruct (next_handle_spec s h s1 Hs E) as (Hnot & Hal & Ec & Ei & Hn & Hm).
  destruct (Hg h s1) as (Gn & Gk & Gh). destruct Hs as [_ Hl Hd].
  assert (ff_clients s !! h = None ∧ ff_identities s !! h = None) as [Nc Ni].
  { split; apply eq_None_not_Some; intros ?; apply Hnot, Hl; [by left|by right]. }
  assert (∀ k, live k (g h s1) → k = h ∨ live k s) as Hlive.
  { intros k Hk. destruct (decide (k = h)) as [->|Hne]; [by left|right]. unfold live in *.
    destruct (Gk k Hne) as [E1 E2]. by rewrite E1, E2, Ec, Ei in Hk. }
  split; split.
  - by rewrite Gn.
  - intros k Hk. unfold allotted. rewrite Gn. destruct (Hlive k Hk) as [->|Hk']; [done|]. by apply Hm, Hl.
  - intros k. destruct (decide (k = h)) as [->|Hne]; [apply Gh; congruence|]. destruct (Gk k Hne) as [-> ->]. rewrite Ec, Ei. apply Hd.
  - intros k Hk. unfold allotted. rewrite Gn. by apply Hm.
  - intros k Hk. destruct (Hlive k Hk) as [->|Hk']; [by right|by left].
Qed.

Lemma safe_register_client c : safe (register_client c).
Proof.
  apply (safe_registered (λ h s, ff_set_clients (<[h := c]> (ff_clients s)) s) id). intros h s. cbn. split; [done|].
  split; [intros k Hne; by rewrite lookup_insert_ne|by right].
Qed.
Lemma safe_register_identity i : safe (register_identity i).
Proof.
  apply (safe_registered (λ h s, ff_set_identities (<[h := i]> (ff_identities s)) s) id). intros h s. cbn. split; [done|].
  split; [intros k Hne; by rewrite lookup_insert_ne|by left].
Qed.
#[local] Hint Resolve safe_register_client safe_register_identity : ffi.

Lemma safe_guard {A} (m : native A) : safe m → ∀ s, ffi_ok s → ffi_ok (guard m s).2 ∧ grows s (guard m s).2.
Proof.
  intros Hm s Hs. destruct (Hm s Hs) as [[Hn Hl Hd] [Hg Hgl]]. unfold guard.
  destruct (m s) as [[a|c e| | |] s1]; cbn in *; split; split; done.
Qed.

Section Handles.
Context `{J : SerdeJson} `{C : Crypto} `{Z1 : Compressor} `{Z2 : Decompressors}.
Context (runtime : result (list Z) unit) (ciborium_into_writer : JsonValue → result (list Z) (list Z))
  (ciborium_from_reader : list Z → result (list Z) JsonValue) (allocates : Z → bool) (isize_max : Z).

Ltac binds := repeat first [solve [auto with ffi] | apply safe_bind; [solve [auto with ffi]|intros ?]].

Lemma safe_close h : safe (
  call (c, w) := find_client h in
  λ s, (call _ := clift IO_ERROR runtime in
        match exec client_close w with Some (r, _) => cio r | None => λ s, (Diverged, s) end) (ff_set_clients (delete h (ff_clients s)) s)).
Proof.
  apply safe_bind; [auto with ffi|]. intros [c w] s Hs.
  destruct (ok_shrink s (ff_set_clients (delete h (ff_clients s)) s) Hs) as [H1 H2]; [done| |done|].
  { cbn. rewrite dom_delete. set_solver. }
  match goal with |- ffi_ok (?m ?s1).2 ∧ _ => assert (safe m) as Hm by (binds; destruct (exec client_close w) as [[]|]; auto with ffi) end.
  destruct (Hm _ H1) as [H3 H4]. split; [done|]. by etransitivity.
Qed.

Lemma call_safe c s : ffi_ok s →
  let s' := perform_call runtime ciborium_into_writer ciborium_from_reader allocates isize_max c s in ffi_ok s' ∧ grows s s'.
Proof.
  intros Hs. destruct c; cbn [perform_call]; try (apply safe_guard; [|exact Hs]; binds; fail).
  - unfold mst5_client_request_with_nonce. destruct nonce; [apply safe_guard; [|exact Hs]; binds|by split; [|reflexivity]].
  - apply safe_guard; [|exact Hs]. unfold serde_cbor_encode. binds.
  - apply safe_guard; [|exact Hs]. apply safe_close.
  - apply safe_guard; [|exact Hs]. do 2 (apply safe_bind; [auto with ffi|intros ?]). apply safe_store. auto with ffi.
  - apply safe_guard; [|exact Hs]. do 3 (apply safe_bind; [auto with ffi|intros ?]).
    apply (safe_store handle (λ _ w, set_writes [] [] w)). apply safe_bind; [auto with ffi|intros ?].
    apply safe_bind; [auto with ffi|]. intros [? ?]. auto with ffi.
  - apply safe_guard; [|exact Hs]. do 2 (apply safe_bind; [auto with ffi|intros ?]).
    apply safe_bind; [|auto with ffi]. destruct (negb _); [auto with ffi|]. apply safe_bind; [auto with ffi|]. intros [?|]; auto with ffi.
  - apply safe_guard; [|exact Hs]. apply safe_bind; [auto with ffi|]. intros _. apply safe_same. intros s'. cbn. rewrite dom_delete. set_solver.
  - unfold mst5_buffer_free. destruct (_ || _); [by split; [|reflexivity]|]. by apply ok_shrink.
Qed.

Lemma calls_safe cs : ∀ s, ffi_ok s →
  let s' := run_calls runtime ciborium_into_writer ciborium_from_reader allocates isize_max cs s in ffi_ok s' ∧ grows s s'.
Proof.
  induction cs as [|c cs IH]; intros s Hs; [by split; [|reflexivity]|].
  destruct (call_safe c s Hs) as [H1 H2]. destruct (IH _ H1) as [H3 H4]. split; [done|]. by etransitivity.
Qed.

(** C29: handles are opaque for good: whatever calls a program makes, no handle is ever
    valid as a client and as an identity, a handle it obtains was never given out
    before, and a handle that was closed is refused by every later call. *)
Theorem handles_never_reused cs cs' s :
  ffi_ok s →
  let run := run_calls runtime ciborium_into_writer ciborium_from_reader allocates isize_max in
  let s1 := run cs s in let s2 := run cs' s1 in
  (∀ h, ff_clients s2 !! h = None ∨ ff_identities s2 !! h = None) ∧
  (∀ h s3, next_handle s2 = (Done h, s3) → ¬ live h s ∧ ¬ live h s1 ∧ ¬ live h s2) ∧
  (∀ h, live h s → ¬ live h s1 → ¬ live h s2 ∧
     (find_client h s2).1 = Failed NOT_FOUND (lit "client handle not found") ∧
     (identity h s2).1 = Failed NOT_FOUND (lit "identity handle not found")).
Proof.
  intros Hs run s1 s2. destruct (calls_safe cs s Hs) as [H1 [N1 L1]]. destruct (calls_safe cs' s1 H1) as [H2 [N2 L2]].
  fold run s1 in H1, N1, L1. fold run s2 in H2, N2, L2. split; [apply H2|]. split.
  - intros h s3 E. destruct (next_handle_spec s2 h s3 H2 E) as (Hn & _). split_and!; intros Hl; apply Hn.
    + by apply N2, N1, Hs.
    + by apply N2, H1.
    + by apply H2.
  - intros h Hl Hc. assert (¬ live h s2) as Hd.
    { intros Hl2. destruct (L2 h Hl2) as [?|Hna]; [done|]. by apply Hna, N1, Hs. }
    split; [done|]. unfold find_client, identity.
    destruct (ff_clients s2 !! h) eqn:Ec; [destruct Hd; left; eauto|]. destruct (ff_identities s2 !! h) eqn:Ei; [destruct Hd; right; eauto|done].
Qed.
End Handles.

(** ** The slice reader *)

(** A read of the world's source is a read of the slice reader. *)
Lemma slice_reader_source r max w :
  0 ≤ max → 0 ≤ sr_offset r → w_reads w = slice_reads (drop (Z.to_nat (sr_offset r)) (sr_data r)) →
  ∃ w', next_read max w = (Ok (poll_read max r).1, w') ∧
    let r' := (poll_read max r).2 in w_reads w' = slice_reads (drop (Z.to_nat (sr_offset r')) (sr_data r')).
Proof.
  intros Hm H0 Hr. unfold poll_read. destruct r as [data off]. cbn [sr_data sr_offset] in *.
  destruct (drop (Z.to_nat off) data) as [|x rem] eqn:Er; unfold next_read; rewrite Hr; cbn [is_empty slice_reads].
  - exists w. cbn [fst snd sr_offset sr_data]. by rewrite Er.
  - set (l := x :: rem) in *. cbn [fst snd sr_offset sr_data].
    assert (Z.to_nat (Z.min (len l) max) = Nat.min (length l) (Z.to_nat max)) as -> by (unfold len; lia).
    assert (take (length l `min` Z.to_nat max) l = take (Z.to_nat max) l) as ->.
    { destruct (Nat.le_ge_cases (length l) (Z.to_nat max)); [rewrite Nat.min_l, !firstn_all2 by lia|rewrite Nat.min_r by lia]; done. }
    eexists. split; [reflexivity|].
    assert (drop (Z.to_nat (off + Z.min (len l) max)) data = drop (Z.to_nat max) l) as ->.
    { rewrite Z2Nat.inj_add, <-drop_drop, Er by (unfold len; lia). unfold len.
      destruct (Z.leb_spec (Z.of_nat (length l)) max); [rewrite Z.min_l, !skipn_all2 by lia|rewrite Z.min_r by lia]; done. }
    unfold slice_reads. by destruct (is_empty (drop (Z.to_nat max) l)).
Qed.

(** ** Buffers *)

(** The bytes behind a buffer. *)
Definition read_buffer (b : Mst5Buffer) (s : Ffi) : list Z := if bf_len b =? 0 then [] else default [] (ff_heap s !! bf_data b).

Lemma fresh_block_free s : ff_heap s !! fresh_block s = None.
Proof.
  apply not_elem_of_dom. intros H%elem_of_elements. unfold fresh_block in H.
  assert (∀ x l, x ∈ l → x ≤ fold_right Z.max 1 l) as Hmax.
  { intros x l. induction l as [|y l IH]; [by intros ?%elem_of_nil|]. intros [->|Hx]%elem_of_cons; cbn; [lia|]. specialize (IH Hx). lia. }
  apply Hmax in H. lia.
Qed.

Lemma fresh_block_pos s : 0 < fresh_block s.
Proof.
  unfold fresh_block. assert (∀ l, 1 ≤ fold_right Z.max 1 l) as H by (induction l; cbn; lia).
  specialize (H (elements (dom (ff_heap s)))). lia.
Qed.

Lemma output_spec v s :
  ∃ b h, output true v s = (Done b, ff_set_heap h s) ∧ bf_len b = len v ∧
    (∀ s', ff_heap s' = h → read_buffer b s' = v ∧ ff_heap (mst5_buffer_free b s') = ff_heap s).
Proof.
  unfold output, cbind, require_out, cret. destruct v as [|x v]; cbn [is_empty].
  - exists (mkBuffer 1 0), (ff_heap s). destruct s. cbn. split; [done|]. split; [done|]. by intros s' <-.
  - exists (mkBuffer (fresh_block s) (len (x :: v))), (<[fresh_block s := x :: v]> (ff_heap s)).
    split; [done|]. split; [done|]. intros s' Hh. unfold read_buffer, mst5_buffer_free. cbn [bf_data bf_len].
    pose proof (len_nonneg v). pose proof (fresh_block_pos s). rewrite len_cons.
    rewrite (proj2 (Z.eqb_neq (1 + len v) 0)), (proj2 (Z.eqb_neq (fresh_block s) 0)) by lia. cbn [orb].
    rewrite Hh, lookup_insert_eq. split; [done|]. cbn. rewrite delete_insert_eq, delete_id; [done|]. apply fresh_block_free.
Qed.

Lemma bytes_whole l name s : bytes (Some l) (len l) name s = (Done l, s).
Proof.
  unfold bytes. destruct l as [|x l]; [done|]. rewrite len_cons. pose proof (len_nonneg l).
  rewrite (proj2 (Z.eqb_neq _ _)) by lia. unfold cret. do 2 f_equal. apply firstn_all2. unfold len. cbn [length]. lia.
Qed.

Lemma text_ok l name s : utf8_valid l = true → text (Some l) name s = (Done l, s).
Proof. intros H. unfold text. by rewrite H. Qed.

Lemma envelope_decodes e s :
  env_version e = ENVELOPE_VERSION → length (env_nonce e) = 24%nat → 16 ≤ len (env_ciphertext e) →
  decode_envelope (encode_envelope e) s = (Done e, s).
Proof.
  intros Hv Hn Hc. destruct e as [v n c]. cbn [env_version env_nonce env_ciphertext] in *. subst v.
  unfold decode_envelope, encode_envelope. cbn [env_version env_nonce env_ciphertext].
  assert (len ([ENVELOPE_VERSION] ++ n ++ c) = 25 + len c) as -> by (rewrite !len_app; unfold len in *; cbn [length]; lia).
  rewrite (proj2 (Z.ltb_ge _ _)) by lia. cbn [app nth]. change (ENVELOPE_VERSION =? ENVELOPE_VERSION) with true.
  rewrite orb_true_r. cbn [negb orb]. change (slice 1 25 (ENVELOPE_VERSION :: n ++ c)) with (take 24 (n ++ c)).
  change (drop 25 (ENVELOPE_VERSION :: n ++ c)) with (drop 24 (n ++ c)). by rewrite take_app_length', drop_app_length' by done.
Qed.

Section Messages.
Context `{CL : CryptoLaws} `{Zs : Compressor} `{Ds : Decompressors} `{ZL : !ZstdLaws}.

Lemma text_bind {B} l name (k : list Z → native B) s : utf8_valid l = true → cbind (text (Some l) name) k s = k l s.
Proof. intros H. unfold cbind. by rewrite text_ok. Qed.
Lemma bytes_bind {B} l n name (k : list Z → native B) s : n = len l → cbind (bytes (Some l) n name) k s = k l s.
Proof. intros ->. unfold cbind. by rewrite bytes_whole. Qed.
Lemma identity_bind {B} h i (k : Identity → native B) s : ff_identities s !! h = Some i → cbind (identity h) k s = k i s.
Proof. intros H. unfold cbind, identity. by rewrite H. Qed.

(** C30: a message crosses the C interface: sealed with one handle and opened with
    another, whose identities know each other, it is the original; both calls
    report success with an empty error text, and freeing the two buffers returns
    every block the calls allocated. *)
Theorem ffi_message_roundtrip ha hb a b from to m nonce s :
  ff_identities s !! ha = Some a → ff_identities s !! hb = Some b → peers a b →
  len (id_public a) = 32 → len (id_public b) = 32 → utf8_valid from = true → utf8_valid to = true →
  is_bytes m → len m ≤ MAX_MESSAGE_BYTES → length nonce = 24%nat →
  ∃ buf s1, mst5_e2e_seal ha (Some (id_public b)) (Some from) (Some to) (Some m) (len m) (Ok nonce) true s
      = (Returned OK (Some buf), s1) ∧ mst5_last_error s1 = [] ∧
    let wire := read_buffer buf s1 in
    bf_len buf = len wire ∧
    ∃ buf2 s2, mst5_e2e_open hb (Some (id_public a)) (Some from) (Some to) (Some wire) (bf_len buf) true s1
        = (Returned OK (Some buf2), s2) ∧ mst5_last_error s2 = [] ∧
      read_buffer buf2 s2 = m ∧ ff_heap (mst5_buffer_free buf (mst5_buffer_free buf2 s2)) = ff_heap s.
Proof.
  intros Ha Hb Hp Hla Hlb Hf Ht Hm Hmax Hn.
  destruct (seal_open_core a b from to m nonce Hp Hm Hmax Hn) as (e & Hs & Hv & Hen & Ho & _).
  assert (16 ≤ len (env_ciphertext e)) as Hc.
  { unfold open in Ho. destruct (_ || (len (env_ciphertext e) <? 16)) eqn:E; [done|]. apply orb_false_elim in E as [_ E]. lia. }
  destruct (output_spec (encode_envelope e) s) as (buf & h1 & O1 & L1 & R1).
  unfold mst5_e2e_seal, guard.
  rewrite bytes_bind, (identity_bind ha a), !text_bind, bytes_bind by done.
  unfold cbind at 1. rewrite Hs. cbn [cio clift map_err cret]. rewrite O1. exists buf. eexists. split; [reflexivity|].
  set (s1 := set_error [] (ff_set_heap h1 s)). split; [done|]. cbv zeta.
  destruct (R1 s1 eq_refl) as [Hr _]. rewrite Hr. split; [done|].
  destruct (output_spec m s1) as (buf2 & h2 & O2 & _ & R2).
  unfold mst5_e2e_open, guard.
  rewrite bytes_bind, (identity_bind hb b), !text_bind, bytes_bind by done.
  unfold cbind at 1. rewrite envelope_decodes by (try done; by rewrite Hen).
  unfold cbind at 1. rewrite Ho. cbn [cio clift map_err cret]. rewrite O2. exists buf2. eexists. split; [reflexivity|].
  set (s2 := set_error [] (ff_set_heap h2 s1)). destruct (R2 s2 eq_refl) as [Hr2 Hf2]. split; [done|]. split; [done|].
  by apply R1.
Qed.
End Messages.

(** ** Sample values *)
Module FfiFixture.
#[local] Existing Instance Toy.toy_crypto.
#[local] Existing Instance Toy.toy_laws.
#[local] Existing Instance store_compressor.
#[local] Existing Instance store_decompressor.
#[local] Existing Instance store_laws.

(** Two open identities. *)
Definition state : Ffi := mkFfi 3 ∅ {[1 := alice; 2 := bob]} [] ∅ (mkFs ∅ []).

#[local] Instance no_numbers : JsonNumber := {|
  Number := Z; num_as_u64 := Some; num_as_i64 _ := None; num_as_f64 _ := None; num_from_u64 n := n; num_from_i64 n := n; num_from_f64 _ := None
|}.
#[local] Instance no_json : SerdeJson := {|
  from_str _ := Err []; json_to_string _ := Err []; json_display _ := []; values_from_str _ := Err [];
  document_from_slice _ := Err []; document_to_vec _ := Err []
|}.

Definition run : list c_call → Ffi → Ffi := run_calls (Ok tt) (λ _, Err []) (λ _, Err []) (λ _, true) i64_max.

Lemma state_ok : ffi_ok state.
Proof.
  split; [by vm_compute| |by left].
  intros h [[? H]|[? H]]; [done|]. cbn in H. unfold allotted. cbn. widths.
  apply lookup_insert_Some in H as [[<- _]|[_ H]]; [lia|]. apply lookup_singleton_Some in H as [<- _]. lia.
Qed.

(** The first identity is closed; the handle stays invalid although another identity is opened. *)
Lemma handles_never_reused_witness :
  let s1 := run [IdentityClose 1] state in
  let s2 := run [IdentityOpen (Some (lit "/data/id")) 1 (Ok (replicate 32 4)) true] s1 in
  is_Some (ff_identities s2 !! 3) ∧ ff_next s2 = 4 ∧ (identity 1 s2).1 = Failed NOT_FOUND (lit "identity handle not found").
Proof.
  split; [vm_compute; by eexists|]. split; [vm_compute; reflexivity|].
  destruct (handles_never_reused (Ok tt) (λ _, Err []) (λ _, Err []) (λ _, true) i64_max [IdentityClose 1]
    [IdentityOpen (Some (lit "/data/id")) 1 (Ok (replicate 32 4)) true] state state_ok) as (_ & _ & H).
  destruct (H 1) as (_ & _ & E).
  - right. vm_compute. by eexists.
  - intros [[? E]|[? E]]; vm_compute in E; done.
  - exact E.
Defined.

Lemma ffi_message_roundtrip_witness :
  ∃ buf s1, mst5_e2e_seal 1 (Some (id_public bob)) (Some (lit "a")) (Some (lit "b")) (Some (lit "hello")) 5 (Ok (replicate 24 0)) true state
      = (Returned OK (Some buf), s1) ∧
    ∃ buf2 s2, mst5_e2e_open 2 (Some (id_public alice)) (Some (lit "a")) (Some (lit "b")) (Some (read_buffer buf s1)) (bf_len buf) true s1
        = (Returned OK (Some buf2), s2) ∧
      read_buffer buf2 s2 = lit "hello" ∧ ff_heap (mst5_buffer_free buf (mst5_buffer_free buf2 s2)) = ∅.
Proof.
  destruct (ffi_message_roundtrip 1 2 alice bob (lit "a") (lit "b") (lit "hello") (replicate 24 0) state)
    as (buf & s1 & H1 & _ & _ & buf2 & s2 & H2 & _ & H3 & H4).
  - reflexivity.
  - reflexivity.
  - exact alice_bob.
  - by vm_compute.
  - by vm_compute.
  - by vm_compute.
  - by vm_compute.
  - by_vm.
  - by vm_compute.
  - reflexivity.
  - exists buf, s1. split; [exact H1|]. exists buf2, s2. exact (conj H2 (conj H3 H4)).
Defined.
End FfiFixture.
