(* ===== verification/Float64.v ===== *)
(** * f64 (the floating-point arithmetic of src/src/image.rs)

    Rust's [f64] is IEEE 754 binary64: a value is a [spec_float], and the operations
    are those of [SpecFloat] with 53 bits of precision.  The lemmas describe them on
    the numbers [decode_image_bytes] meets, all of them positive and normal: every
    operation gives a normal number again, its relative error is below one unit in
    the last place, and rounding does not cross a representable bound. *)
From Stdlib Require Import SpecFloat.
From S2P Require Import Prelude.

Definition f64 : Type := spec_float.

(** [n as f64], for an unsigned integer. *)
Definition f64_of (n : Z) : f64 := binary_normalize 53 1024 n 0 false.
Definition f64_mul : f64 → f64 → f64 := SFmul 53 1024.
Definition f64_div : f64 → f64 → f64 := SFdiv 53 1024.
Definition f64_sqrt : f64 → f64 := SFsqrt 53 1024.

(** [f64::min]: a NaN is ignored. *)
Definition f64_min (a b : f64) : f64 :=
  match a, b with
  | S754_nan, _ => b
  | _, S754_nan => a
  | _, _ => if SFltb b a then b else a
  end.

(** [f64::round]: to the nearest integer, halfway cases away from zero. *)
Definition f64_round (x : f64) : f64 :=
  match x with
  | S754_finite s m e =>
      if 0 <=? e then x
      else let k := (2 * Zpos m + 2 ^ (- e)) / 2 ^ (1 - e) in
           binary_normalize 53 1024 (if s then - k else k) 0 s
  | _ => x
  end.

(** [x as u32]: truncation; values outside the type saturate and NaN gives 0. *)
Definition f64_as_u32 (x : f64) : Z :=
  match x with
  | S754_finite false m e => Z.min u32_max (if 0 <=? e then Zpos m * 2 ^ e else Zpos m / 2 ^ (- e))
  | S754_infinity false => u32_max
  | _ => 0
  end.

Example f64_third : f64_as_u32 (f64_round (f64_mul (f64_of 10) (f64_div (f64_of 2) (f64_of 3)))) = 7.
Proof. reflexivity. Qed.

(** ** Digits and shifts *)
Lemma digits_spec (p : positive) :
  0 < Zpos (digits2_pos p) ∧ 2 ^ (Zpos (digits2_pos p) - 1) ≤ Zpos p < 2 ^ Zpos (digits2_pos p).
Proof.
  assert (∀ d, 0 < d → 2 ^ (Z.succ d - 1) = 2 * 2 ^ (d - 1) ∧ 2 ^ Z.succ d = 2 * 2 ^ d) as Hp.
  { intros d Hd. rewrite <- !Z.pow_succ_r by lia. split; f_equal; lia. }
  assert (∀ d q b, 0 < d ∧ 2 ^ (d - 1) ≤ q < 2 ^ d → 0 ≤ b ≤ 1 →
    0 < Z.succ d ∧ 2 ^ (Z.succ d - 1) ≤ 2 * q + b < 2 ^ Z.succ d) as Hs.
  { intros d q b [H0 H] Hb. destruct (Hp d H0) as [-> ->]. lia. }
  induction p as [p IH|p IH|]; cbn [digits2_pos]; [| |by split; [|split]]; rewrite Pos2Z.inj_succ.
  - change (Zpos p~1) with (2 * Zpos p + 1). by apply Hs.
  - change (Zpos p~0) with (2 * Zpos p + 0). by apply Hs.
Qed.

Lemma digits_unique (p : positive) d : 0 < d → 2 ^ (d - 1) ≤ Zpos p < 2 ^ d → Zpos (digits2_pos p) = d.
Proof.
  intros Hd H. destruct (digits_spec p) as [H0 H1].
  assert (d - 1 < Zpos (digits2_pos p)) by (apply (Z.pow_lt_mono_r_iff 2); lia).
  assert (Zpos (digits2_pos p) - 1 < d) by (apply (Z.pow_lt_mono_r_iff 2); lia). lia.
Qed.

Lemma iter_pos_nat {A} (f : A → A) p x : SpecFloat.iter_pos f p x = Nat.iter (Pos.to_nat p) f x.
Proof.
  revert x. induction p as [p IH|p IH|]; intros x; cbn [SpecFloat.iter_pos]; [| |done]; rewrite !IH, <- Nat.iter_add.
  - rewrite <- Nat.iter_succ_r. f_equal. lia.
  - f_equal. lia.
Qed.

Lemma shr_1_spec m r s : 0 ≤ m →
  let y := shr_1 (Build_shr_record m r s) in shr_m y = m / 2 ∧ shr_r y = Z.odd m ∧ shr_s y = r || s.
Proof. intros Hm. destruct m as [|[p|p|]|]; cbn; try lia; (split; [|done]); div_lia. Qed.

Lemma shr_iter n m l : 0 ≤ m →
  let y := Nat.iter n shr_1 (shr_record_of_loc m l) in
  shr_m y = m / 2 ^ Z.of_nat n ∧ (l = loc_Exact → m mod 2 ^ Z.of_nat n = 0 → shr_r y = false ∧ shr_s y = false).
Proof.
  intros Hm. induction n as [|n [IH1 IH2]].
  - cbn. rewrite Z.div_1_r. destruct l as [|[]]; done.
  - intros y. unfold y. clear y. rewrite Nat.iter_succ. destruct (Nat.iter n shr_1 _) as [q r s]; cbn [shr_m shr_r shr_s] in *. subst q.
    assert (0 < 2 ^ Z.of_nat n) as Hpow by lia.
    destruct (shr_1_spec (m / 2 ^ Z.of_nat n) r s) as (E1 & E2 & E3); [by apply Z.div_pos|].
    rewrite E1, E2, E3, Nat2Z.inj_succ, Z.pow_succ_r by lia. split; [rewrite Z.div_div by lia; f_equal; lia|].
    intros -> Hmod. apply Z.mod_divide in Hmod as [k ->]; [|lia].
    destruct IH2 as [-> ->]; [done|by apply Z.mod_divide; [lia|]; exists (2 * k); lia|].
    replace (k * (2 * 2 ^ Z.of_nat n)) with ((2 * k) * 2 ^ Z.of_nat n) by lia.
    rewrite Z.div_mul by lia. by rewrite Z.odd_mul.
Qed.

Lemma shr_spec m e l n : 0 ≤ m → 0 ≤ n →
  let y := shr (shr_record_of_loc m l) e n in
  y.2 = e + n ∧ shr_m y.1 = m / 2 ^ n ∧ (l = loc_Exact → m mod 2 ^ n = 0 → loc_of_shr_record y.1 = loc_Exact).
Proof.
  intros Hm Hn. destruct n as [|p|p]; [| |lia]; cbn [shr fst snd].
  - rewrite Z.add_0_r, Z.pow_0_r, Z.div_1_r. split; [done|]. split; [by destruct l as [|[]]|]. by intros ->.
  - rewrite iter_pos_nat. destruct (shr_iter (Pos.to_nat p) m l Hm) as [E1 E2]. rewrite positive_nat_Z in *.
    split; [done|]. split; [done|]. intros Hl Hr. destruct (E2 Hl Hr) as [E3 E4].
    destruct (Nat.iter _ _ _) as [q r s']; cbn in *. by subst.
Qed.

(** ** Rounding *)

(** A normal number [m * 2^e], away from the ends of the range. *)
Definition normal (m e : Z) : Prop := 2 ^ 52 ≤ m < 2 ^ 53 ∧ -500 ≤ e ≤ 500.

(** The mantissa before the last step, in units of [2^(e + n)]: below or above [m]. *)
Lemma round_aux_spec s m e l n : 2 ^ (52 + n) ≤ m < 2 ^ (53 + n) → 0 ≤ n → -450 ≤ e + n ≤ 450 →
  ∃ (m' : positive) e' k, binary_round_aux 53 1024 s m e l = S754_finite s m' e' ∧ normal (Zpos m') e' ∧
    m / 2 ^ n ≤ k ≤ m / 2 ^ n + 1 ∧ (l = loc_Exact → m mod 2 ^ n = 0 → k = m / 2 ^ n) ∧
    (Zpos m' = k ∧ e' = e + n ∨ 2 * Zpos m' = k ∧ e' = e + n + 1).
Proof.
  intros Hm Hn He. assert (0 < 2 ^ n) as Hp by lia.
  rewrite !(Z.pow_add_r 2) in Hm by lia.
  assert (2 ^ 52 ≤ m / 2 ^ n < 2 ^ 53) as Hq.
  { split; [apply Z.div_le_lower_bound; lia|apply Z.div_lt_upper_bound; lia]. }
  destruct m as [|pm|pm]; [lia| |lia].
  assert (Zdigits2 (Zpos pm) = 53 + n) as Hd.
  { cbn [Zdigits2]. apply digits_unique; [lia|]. replace (53 + n - 1) with (52 + n) by lia. rewrite !Z.pow_add_r by lia. lia. }
  unfold binary_round_aux, shr_fexp at 1. rewrite Hd. unfold fexp at 1, emin.
  replace (Z.max _ _ - e) with n by lia.
  destruct (shr_spec (Zpos pm) e l n) as (E1 & E2 & E3); [lia..|].
  destruct (shr (shr_record_of_loc (Zpos pm) l) e n) as [y e1]; cbn [fst snd] in *. subst e1. rewrite E2.
  set (k := round_nearest_even _ _).
  assert (Zpos pm / 2 ^ n ≤ k ≤ Zpos pm / 2 ^ n + 1) as Hk.
  { unfold k. destruct (loc_of_shr_record y) as [|[]]; cbn; try destruct (Z.even _); lia. }
  assert (l = loc_Exact → Zpos pm mod 2 ^ n = 0 → k = Zpos pm / 2 ^ n) as Hex.
  { intros Hl Hr. unfold k. by rewrite E3. }
  clearbody k. destruct k as [|pk|pk]; [lia| |lia]. unfold shr_fexp.
  destruct (Z.eq_dec (Zpos pk) (2 ^ 53)) as [Ek|Ek].
  - assert (Zdigits2 (Zpos pk) = 54) as Hd2 by (cbn [Zdigits2]; apply digits_unique; [lia|rewrite Ek; done]).
    rewrite Hd2. unfold fexp, emin. replace (Z.max _ _ - (e + n)) with 1 by lia.
    destruct (shr_spec (Zpos pk) (e + n) loc_Exact 1) as (F1 & F2 & F3); [lia..|].
    destruct (shr _ _ _) as [z e2]; cbn [fst snd] in *. subst e2. rewrite F2, Ek.
    change (2 ^ 53 / 2 ^ 1) with (Zpos (2 ^ 52)). rewrite (proj2 (Z.leb_le _ _)) by lia.
    eexists _, _, _. split; [done|]. split; [split; [by vm_compute|lia]|]. split; [exact Hk|]. split; [done|]. right. split; [by rewrite Ek|lia].
  - assert (Zdigits2 (Zpos pk) = 53) as Hd2 by (cbn [Zdigits2]; apply digits_unique; lia).
    rewrite Hd2. unfold fexp, emin. replace (Z.max _ _ - (e + n)) with 0 by lia.
    cbn [shr shr_record_of_loc shr_m]. rewrite (proj2 (Z.leb_le _ _)) by lia.
    eexists _, _, _. split; [done|]. split; [split; lia|]. split; [exact Hk|]. split; [done|]. by left.
Qed.

(** The value of a number, in units of [2^-1000]. *)
Definition scaled (m e : Z) : Z := m * 2 ^ (e + 1000).

(** What is known of a rounded result: its value is [k] units of [2^(e + n)]. *)
Lemma round_aux_scaled s m e l n : 2 ^ (52 + n) ≤ m < 2 ^ (53 + n) → 0 ≤ n → -450 ≤ e + n ≤ 450 →
  ∃ (m' : positive) e' k, binary_round_aux 53 1024 s m e l = S754_finite s m' e' ∧ normal (Zpos m') e' ∧
    e + n ≤ e' ≤ e + n + 1 ∧ scaled (Zpos m') e' = k * 2 ^ (e + n + 1000) ∧ k * 2 ^ n * 2 ^ 52 ≤ m * (2 ^ 52 + 1) ∧
    (∀ u, l = loc_Exact → m ≤ u * 2 ^ n → k ≤ u) ∧ (∀ u, u * 2 ^ n ≤ m → u ≤ k).
Proof.
  intros Hm Hn He. destruct (round_aux_spec s m e l n Hm Hn He) as (m' & e' & k & E & N & Hk & Hex & Hv).
  exists m', e', k. split; [done|]. split; [done|]. split; [lia|].
  assert (0 < 2 ^ n) as Hp by lia. rewrite !(Z.pow_add_r 2) in Hm by lia.
  pose proof (Z.div_mod m (2 ^ n) ltac:(lia)) as Hdm. pose proof (Z.mod_pos_bound m (2 ^ n) Hp) as Hmod.
  split_and!.
  - unfold scaled. destruct Hv as [[-> ->]|[<- ->]]; [done|].
    rewrite (Z.mul_comm 2), <- Z.mul_assoc, <- (Z.pow_succ_r 2) by lia. do 2 f_equal. lia.
  - nia.
  - intros u Hl Hu. destruct (Z.eq_dec (m / 2 ^ n) u) as [Eu|Eu]; [|nia]. rewrite <- Eu. rewrite Hex; [done|done|]. nia.
  - intros u Hu. assert (u ≤ m / 2 ^ n); [|lia]. apply Z.div_le_lower_bound; lia.
Qed.

Lemma iter_xO p d : Zpos (Pos.iter xO p d) = Zpos p * 2 ^ Zpos d.
Proof.
  induction d as [|d IH] using Pos.peano_ind; [cbn; lia|].
  rewrite Pos.iter_succ, Pos2Z.inj_succ, Z.pow_succ_r by lia. rewrite (Pos2Z.inj_xO (Pos.iter _ _ _)), IH. lia.
Qed.

Lemma f64_of_spec n : 0 < n < 2 ^ 53 →
  ∃ (m : positive) e, f64_of n = S754_finite false m e ∧ normal (Zpos m) e ∧ -52 ≤ e ≤ 0 ∧ Zpos m = n * 2 ^ (- e).
Proof.
  intros Hn. destruct n as [|p|p]; [lia| |lia]. unfold f64_of, binary_normalize, binary_round.
  destruct (digits_spec p) as [H0 H1]. set (d := Zpos (digits2_pos p)) in *.
  assert (d ≤ 53) as Hd by (assert (d - 1 < 53); [apply (Z.pow_lt_mono_r_iff 2); lia|lia]).
  assert (∃ mz, shl_align p 0 (fexp 53 1024 (d + 0)) = (mz, d - 53) ∧ Zpos mz = Zpos p * 2 ^ (53 - d)) as (mz & -> & Ez).
  { unfold shl_align, fexp, emin. replace (Z.max _ _) with (d - 53) by lia. rewrite Z.sub_0_r.
    destruct (d - 53) as [|x|x] eqn:Ed; [exists p|lia|exists (Pos.iter xO p x)].
    - split; [done|]. replace (53 - d) with 0 by lia. lia.
    - split; [done|]. rewrite iter_xO. do 2 f_equal. lia. }
  assert (2 ^ 52 ≤ Zpos mz < 2 ^ 53) as Hz.
  { rewrite Ez. assert (2 ^ (d - 1) * 2 ^ (53 - d) = 2 ^ 52) as E1 by (rewrite <- Z.pow_add_r by lia; f_equal; lia).
    assert (2 ^ d * 2 ^ (53 - d) = 2 ^ 53) as E2 by (rewrite <- Z.pow_add_r by lia; f_equal; lia).
    rewrite <- E1, <- E2. assert (0 < 2 ^ (53 - d)) by lia. nia. }
  destruct (round_aux_spec false (Zpos mz) (d - 53) loc_Exact 0) as (m & e & k & E & N & Hk & Hex & Hv); [lia..|].
  rewrite Z.pow_0_r, Z.div_1_r, Z.mod_1_r in *. specialize (Hex eq_refl eq_refl). subst k.
  destruct N as [N1 N2]. destruct Hv as [[Hm ->]|[Hm ->]]; [|lia].
  exists m, (d - 53 + 0). split; [done|]. split; [done|]. split; [lia|]. rewrite Hm, Ez. do 2 f_equal. lia.
Qed.

Lemma f64_of_scaled n : 0 < n < 2 ^ 53 →
  ∃ (m : positive) e, f64_of n = S754_finite false m e ∧ normal (Zpos m) e ∧ -52 ≤ e ≤ 0 ∧ scaled (Zpos m) e = n * 2 ^ 1000.
Proof.
  intros Hn. destruct (f64_of_spec n Hn) as (m & e & E & N & He & Em). exists m, e. split; [done|]. split; [done|]. split; [done|].
  unfold scaled. rewrite Em, <- Z.mul_assoc, <- Z.pow_add_r by lia. do 2 f_equal. lia.
Qed.

(** ** Operations on normal numbers *)
Lemma f64_mul_spec (m1 m2 : positive) e1 e2 : normal (Zpos m1) e1 → normal (Zpos m2) e2 → -300 ≤ e1 + e2 ≤ 300 →
  ∃ (m : positive) e, f64_mul (S754_finite false m1 e1) (S754_finite false m2 e2) = S754_finite false m e ∧ normal (Zpos m) e ∧
    scaled (Zpos m) e * 2 ^ 1000 * 2 ^ 52 ≤ scaled (Zpos m1) e1 * scaled (Zpos m2) e2 * (2 ^ 52 + 1) ∧
    (∀ w, 0 ≤ w < 2 ^ 52 → scaled (Zpos m1) e1 * scaled (Zpos m2) e2 ≤ w * 2 ^ 2000 → scaled (Zpos m) e ≤ w * 2 ^ 1000) ∧
    (∀ w, 0 ≤ w < 2 ^ 52 → scaled (Zpos m1) e1 * scaled (Zpos m2) e2 = w * 2 ^ 2000 → w * 2 ^ 1000 ≤ scaled (Zpos m) e).
Proof.
  intros [N1 H1] [N2 H2] He. cbn [f64_mul SFmul xorb].
  set (N := Zpos (m1 * m2)). assert (2 ^ 104 ≤ N < 2 ^ 106) as HN by (unfold N; rewrite Pos2Z.inj_mul; nia).
  assert (∃ n, 2 ^ (52 + n) ≤ N < 2 ^ (53 + n) ∧ 52 ≤ n ≤ 53) as (n & Hn & Hn').
  { destruct (Z.lt_ge_cases N (2 ^ 105)); [exists 52|exists 53]; cbn [Z.add]; split; lia. }
  destruct (round_aux_scaled false N (e1 + e2) loc_Exact n) as (m & e & k & E & Nm & _ & Hs & Herr & Hup & Hlow); [lia..|].
  assert (scaled (Zpos m1) e1 * scaled (Zpos m2) e2 = N * 2 ^ (e1 + e2 + 2000)) as EP.
  { unfold scaled, N. rewrite Pos2Z.inj_mul. replace (e1 + e2 + 2000) with ((e1 + 1000) + (e2 + 1000)) by lia.
    rewrite (Z.pow_add_r 2 (e1 + 1000)) by lia. lia. }
  assert (2 ^ (e1 + e2 + n + 1000) * 2 ^ 1000 = 2 ^ n * 2 ^ (e1 + e2 + 2000)) as EQ by (rewrite <- !Z.pow_add_r by lia; f_equal; lia).
  exists m, e. split; [exact E|]. split; [done|]. rewrite EP, Hs. assert (0 < 2 ^ (e1 + e2 + 2000)) by lia. split; [nia|].
  assert (∀ w, 0 ≤ w < 2 ^ 52 → N * 2 ^ (e1 + e2 + 2000) ≤ w * 2 ^ 2000 → e1 + e2 + n ≤ 0) as Hen.
  { intros w Hw Hb. apply Z.nlt_ge. intros Hlt. assert (2 ^ 2000 ≤ 2 ^ (e1 + e2 + n + 2000)) by (apply Z.pow_le_mono_r; lia).
    assert (2 ^ (e1 + e2 + n + 2000) = 2 ^ n * 2 ^ (e1 + e2 + 2000)) by (rewrite <- Z.pow_add_r by lia; f_equal; lia).
    rewrite Z.pow_add_r in Hn by lia. nia. }
  assert (e1 + e2 + n ≤ 0 → ∃ u, u * 2 ^ (e1 + e2 + n + 1000) = 2 ^ 1000 ∧ u * 2 ^ n * 2 ^ (e1 + e2 + 2000) = 2 ^ 2000) as Hu.
  { intros Hz. exists (2 ^ (-(e1 + e2 + n))). split; rewrite <- !Z.pow_add_r by lia; f_equal; lia. }
  assert (0 < 2 ^ (e1 + e2 + n + 1000)) as Hq by lia. split.
  - intros w Hw Hb. destruct (Hu (Hen w Hw Hb)) as (u & EW & EX).
    assert (k ≤ w * u) as Hk by (apply Hup; [done|]; nia). rewrite <- EW. nia.
  - intros w Hw Hb. destruct (Hu (Hen w Hw ltac:(lia))) as (u & EW & EX).
    assert (w * u ≤ k) as Hk by (apply Hlow; nia). rewrite <- EW. nia.
Qed.

Lemma normal_digits (m : positive) e : normal (Zpos m) e → Zpos (digits2_pos m) = 53.
Proof. intros [N _]. apply digits_unique; lia. Qed.

Lemma quotient_error k q m1 m2 pn a c d x1 x2 x3 y z :
  x1 * x2 = pn * a → x3 * y = c * a → k * pn * z ≤ q * d → q * m2 ≤ m1 * c → 0 ≤ a → 0 ≤ d → 0 ≤ m2 →
  k * x1 * (m2 * x2) * z ≤ m1 * x3 * y * d.
Proof.
  intros E1 E2 H1 H2 Ha Hd Hm.
  replace (k * x1 * (m2 * x2) * z) with ((k * pn * z) * (m2 * a)) by (transitivity (k * m2 * z * (x1 * x2)); [rewrite E1|]; ring).
  replace (m1 * x3 * y * d) with ((m1 * c) * (d * a)) by (transitivity (m1 * d * (x3 * y)); [rewrite E2|]; ring).
  transitivity (q * d * (m2 * a)); [apply Z.mul_le_mono_nonneg_r; lia|].
  replace (q * d * (m2 * a)) with (q * m2 * (d * a)) by ring. apply Z.mul_le_mono_nonneg_r; lia.
Qed.

Lemma f64_div_spec (m1 m2 : positive) e1 e2 : normal (Zpos m1) e1 → normal (Zpos m2) e2 → -150 ≤ e1 ≤ 150 → -150 ≤ e2 ≤ 150 →
  ∃ (m : positive) e, f64_div (S754_finite false m1 e1) (S754_finite false m2 e2) = S754_finite false m e ∧ normal (Zpos m) e ∧
    e1 - e2 - 53 ≤ e ≤ e1 - e2 - 51 ∧
    scaled (Zpos m) e * scaled (Zpos m2) e2 * 2 ^ 52 ≤ scaled (Zpos m1) e1 * 2 ^ 1000 * (2 ^ 52 + 1) ∧
    (scaled (Zpos m2) e2 ≤ scaled (Zpos m1) e1 → 2 ^ 1000 ≤ scaled (Zpos m) e).
Proof.
  intros M1 M2 H1 H2. pose proof (normal_digits m1 e1 M1) as D1. pose proof (normal_digits m2 e2 M2) as D2.
  destruct M1 as [N1 _], M2 as [N2 _]. cbn [f64_div SFdiv xorb]. unfold SFdiv_core_binary. cbn [Zdigits2]. rewrite D1, D2.
  unfold fexp, emin. replace (Z.min _ _) with (e1 - e2 - 53) by lia. replace (e1 - e2 - (e1 - e2 - 53)) with 53 by lia.
  cbv iota zeta. rewrite Z.shiftl_mul_pow2 by lia.
  pose proof (Z.div_eucl_eq (Zpos m1 * 2 ^ 53) (Zpos m2) ltac:(lia)) as Heq.
  pose proof (Z.mod_pos_bound (Zpos m1 * 2 ^ 53) (Zpos m2) ltac:(lia)) as Hr. unfold Z.modulo in Hr.
  destruct (Z.div_eucl _ _) as [q r].
  assert (2 ^ 52 ≤ q < 2 ^ 54) as Hq by nia.
  assert (∃ n, 2 ^ (52 + n) ≤ q < 2 ^ (53 + n) ∧ 0 ≤ n ≤ 1) as (n & Hn & Hn').
  { destruct (Z.lt_ge_cases q (2 ^ 53)); [exists 0|exists 1]; cbn [Z.add]; split; lia. }
  destruct (round_aux_scaled false q (e1 - e2 - 53) (new_location (Zpos m2) r) n) as (m & e & k & E & Nm & He & Hs & Herr & _ & Hlow); [lia..|].
  exists m, e. split; [exact E|]. split; [done|]. split; [lia|]. rewrite Hs. unfold scaled. split.
  - assert (2 ^ (e1 - e2 - 53 + n + 1000) * 2 ^ (e2 + 1000) = 2 ^ n * 2 ^ (e1 + 1947)) as E1 by (rewrite <- !Z.pow_add_r by lia; f_equal; lia).
    assert (2 ^ (e1 + 1000) * 2 ^ 1000 = 2 ^ 53 * 2 ^ (e1 + 1947)) as E2 by (rewrite <- !Z.pow_add_r by lia; f_equal; lia).
    apply (quotient_error _ q _ _ _ _ _ _ _ _ _ _ _ E1 E2); lia.
  - intros Hle. destruct (Z.lt_ge_cases 0 (e1 - e2 - 53 + n)) as [Hpos|Hneg].
    { assert (1 ≤ k) by (apply Hlow; rewrite Z.pow_add_r in Hn; lia).
      assert (2 ^ 1000 ≤ 2 ^ (e1 - e2 - 53 + n + 1000)) by (apply Z.pow_le_mono_r; lia). nia. }
    assert (2 ^ (-(e1 - e2 - 53 + n)) ≤ k) as Hk.
    { apply Hlow. rewrite <- Z.pow_add_r by lia. replace (- (e1 - e2 - 53 + n) + n) with (53 + (e2 - e1)) by lia.
      assert (Zpos m2 * 2 ^ (e2 + 1000 - (e1 + 1000 - 53)) ≤ Zpos m1 * 2 ^ 53) as Hx.
      { apply (Z.mul_le_mono_pos_r _ _ (2 ^ (e1 + 1000 - 53))); [lia|]. rewrite <- !Z.mul_assoc, <- !Z.pow_add_r by lia.
        by replace (e2 + 1000 - (e1 + 1000 - 53) + (e1 + 1000 - 53)) with (e2 + 1000) by lia;
           replace (53 + (e1 + 1000 - 53)) with (e1 + 1000) by lia. }
      replace (e2 + 1000 - (e1 + 1000 - 53)) with (53 + (e2 - e1)) in Hx by lia. nia. }
    assert (2 ^ (-(e1 - e2 - 53 + n)) * 2 ^ (e1 - e2 - 53 + n + 1000) = 2 ^ 1000) as <- by (rewrite <- Z.pow_add_r by lia; f_equal; lia).
    apply Z.mul_le_mono_nonneg_r; lia.
Qed.

Lemma sqrt_core (m : positive) e : normal (Zpos m) e →
  ∃ q l, SFsqrt_core_binary 53 1024 (Zpos m) e = (q, Z.div2 e - 26, l) ∧ 2 ^ 52 ≤ q < 2 ^ 53 ∧
    q * q ≤ Zpos m * 2 ^ (e - 2 * (Z.div2 e - 26)) < (q + 1) * (q + 1) ∧ 52 ≤ e - 2 * (Z.div2 e - 26) ≤ 53.
Proof.
  intros M. pose proof (normal_digits m e M) as D. destruct M as [N H].
  assert (0 ≤ e - 2 * Z.div2 e ≤ 1) as Hb by (rewrite Z.div2_div; div_lia).
  unfold SFsqrt_core_binary. cbn [Zdigits2]. rewrite D.
  assert (Z.div2 (53 + e + 1) = Z.div2 e + 27) as -> by (rewrite !Z.div2_div; div_lia).
  unfold fexp, emin. replace (Z.min _ _) with (Z.div2 e - 26) by lia.
  destruct (e - 2 * (Z.div2 e - 26)) as [|s|s] eqn:Es; [lia| |lia]. cbv iota zeta.
  rewrite Z.shiftl_mul_pow2 by lia. pose proof (Z.sqrtrem_spec (Zpos m * 2 ^ Zpos s) ltac:(lia)) as Hs.
  destruct (Z.sqrtrem _) as [q r]. eexists q, _. split; [done|].
  assert (2 ^ 104 ≤ Zpos m * 2 ^ Zpos s < 2 ^ 106) as Hm.
  { assert (Zpos s = 52 ∨ Zpos s = 53) as [->| ->] by lia; lia. }
  assert (0 ≤ q) by nia. split; [nia|]. split; [nia|lia].
Qed.

Lemma root_error k q m1 c x x1 y z d :
  x1 * y = c * (x * x) → k * z ≤ q * d → q * q ≤ m1 * c → 0 ≤ k * z →
  k * x * (k * x) * (z * z) ≤ m1 * x1 * y * (d * d).
Proof.
  intros E H1 H2 Hk.
  replace (k * x * (k * x) * (z * z)) with ((k * z) * (k * z) * (x * x)) by ring.
  replace (m1 * x1 * y * (d * d)) with ((m1 * c) * (d * d) * (x * x)) by (transitivity (m1 * (d * d) * (x1 * y)); [rewrite E|]; ring).
  apply Z.mul_le_mono_nonneg_r; [nia|]. transitivity (q * d * (q * d)); [by apply Z.mul_le_mono_nonneg|].
  replace (q * d * (q * d)) with (q * q * (d * d)) by ring. apply Z.mul_le_mono_nonneg_r; nia.
Qed.

Lemma f64_sqrt_spec (m1 : positive) e1 : normal (Zpos m1) e1 →
  ∃ (m : positive) e, f64_sqrt (S754_finite false m1 e1) = S754_finite false m e ∧ normal (Zpos m) e ∧
    Z.div2 e1 - 26 ≤ e ≤ Z.div2 e1 - 25 ∧
    scaled (Zpos m) e * scaled (Zpos m) e * 2 ^ 104 ≤ scaled (Zpos m1) e1 * 2 ^ 1000 * ((2 ^ 52 + 1) * (2 ^ 52 + 1)) ∧
    (2 ^ 1000 ≤ scaled (Zpos m1) e1 → 2 ^ 1000 ≤ scaled (Zpos m) e).
Proof.
  intros M. destruct (sqrt_core m1 e1 M) as (q & l & E & Hq & Hs & Hb). destruct M as [N H]. cbn [f64_sqrt SFsqrt]. rewrite E.
  set (f := Z.div2 e1 - 26) in *.
  destruct (round_aux_scaled false q f l 0) as (m & e & k & E' & Nm & He & Hsc & Herr & _ & Hlow); [lia..|].
  exists m, e. split; [exact E'|]. split; [done|]. split; [lia|]. split.
  { rewrite Hsc, Z.add_0_r. unfold scaled. rewrite Z.pow_0_r, Z.mul_1_r in Herr. assert (0 ≤ k) by (apply Hlow; lia).
    apply (root_error k q (Zpos m1) (2 ^ (e1 - 2 * f)) (2 ^ (f + 1000)) (2 ^ (e1 + 1000)) (2 ^ 1000) (2 ^ 52) (2 ^ 52 + 1)); try lia.
    rewrite <- !Z.pow_add_r by lia. f_equal. lia. }
  intros H1. rewrite Hsc, Z.add_0_r. unfold scaled in H1.
  destruct (Z.lt_ge_cases 0 f) as [Hpos|Hneg].
  { assert (1 ≤ k) by (apply Hlow; lia). assert (2 ^ 1000 ≤ 2 ^ (f + 1000)) by (apply Z.pow_le_mono_r; lia). nia. }
  assert (2 ^ (- f) ≤ k) as Hk.
  { apply Hlow. rewrite Z.pow_0_r, Z.mul_1_r. apply Z.lt_succ_r, Z.square_lt_simpl_nonneg; [lia|]. unfold Z.succ.
    apply (Z.le_lt_trans _ (Zpos m1 * 2 ^ (e1 - 2 * f))); [|lia].
    apply (Z.mul_le_mono_pos_r _ _ (2 ^ (1000 + 2 * f))); [lia|].
    rewrite <- (Z.mul_assoc (Zpos m1)), <- !Z.pow_add_r by lia.
    replace (- f + - f + (1000 + 2 * f)) with 1000 by lia. by replace (e1 - 2 * f + (1000 + 2 * f)) with (e1 + 1000) by lia. }
  assert (2 ^ (- f) * 2 ^ (f + 1000) = 2 ^ 1000) as <- by (rewrite <- Z.pow_add_r by lia; f_equal; lia).
  apply Z.mul_le_mono_nonneg_r; lia.
Qed.

(** Normal numbers compare by exponent first. *)
Lemma scaled_exp (m1 m2 e1 e2 : Z) : normal m1 e1 → normal m2 e2 → e1 < e2 → scaled m1 e1 < scaled m2 e2.
Proof.
  intros [N1 H1] [N2 H2] He. unfold scaled.
  assert (2 ^ (e2 + 1000) = 2 * 2 ^ (e2 - e1 - 1) * 2 ^ (e1 + 1000)) as ->.
  { rewrite <- (Z.pow_succ_r 2 (e2 - e1 - 1)) by lia. rewrite <- Z.pow_add_r by lia. f_equal. lia. }
  assert (1 ≤ 2 ^ (e2 - e1 - 1)) by lia. assert (0 < 2 ^ (e1 + 1000)) by lia.
  rewrite Z.mul_assoc. apply Z.mul_lt_mono_pos_r; nia.
Qed.

Lemma scaled_inj (m1 m2 e1 e2 : Z) : normal m1 e1 → normal m2 e2 → scaled m1 e1 = scaled m2 e2 → m1 = m2 ∧ e1 = e2.
Proof.
  intros N1 N2 E. destruct (Z.lt_trichotomy e1 e2) as [H|[->|H]].
  - pose proof (scaled_exp _ _ _ _ N1 N2 H). lia.
  - split; [|done]. unfold scaled in E. apply Z.mul_reg_r in E; [done|]. destruct N1. lia.
  - pose proof (scaled_exp _ _ _ _ N2 N1 H). lia.
Qed.

Lemma f64_ltb_spec (m1 m2 : positive) e1 e2 : normal (Zpos m1) e1 → normal (Zpos m2) e2 →
  SFltb (S754_finite false m1 e1) (S754_finite false m2 e2) = bool_decide (scaled (Zpos m1) e1 < scaled (Zpos m2) e2).
Proof.
  intros N1 N2. unfold SFltb, SFcompare. destruct (Z.compare_spec e1 e2) as [->|H|H].
  - change (Pos.compare_cont Eq m1 m2) with (Pos.compare m1 m2). assert (0 < 2 ^ (e2 + 1000)) by (destruct N1; lia).
    unfold scaled. destruct (Pos.compare_spec m1 m2) as [->|Hm|Hm]; symmetry;
      [apply bool_decide_eq_false|apply bool_decide_eq_true|apply bool_decide_eq_false]; nia.
  - symmetry. by apply bool_decide_eq_true, scaled_exp.
  - symmetry. apply bool_decide_eq_false. pose proof (scaled_exp _ _ _ _ N2 N1 H). lia.
Qed.

Lemma f64_min_spec (m1 m2 : positive) e1 e2 : normal (Zpos m1) e1 → normal (Zpos m2) e2 →
  ∃ (m : positive) e, f64_min (S754_finite false m1 e1) (S754_finite false m2 e2) = S754_finite false m e ∧ normal (Zpos m) e ∧
    Z.min e1 e2 ≤ e ≤ Z.max e1 e2 ∧ scaled (Zpos m) e = Z.min (scaled (Zpos m1) e1) (scaled (Zpos m2) e2).
Proof.
  intros N1 N2. cbn [f64_min]. rewrite f64_ltb_spec by done. case_bool_decide.
  - exists m2, e2. split; [done|]. split; [done|]. lia.
  - exists m1, e1. split; [done|]. split; [done|]. lia.
Qed.

(** [x.round() as u32]. *)
Lemma f64_rounded (m : positive) e : normal (Zpos m) e → scaled (Zpos m) e < 2 ^ 31 * 2 ^ 1000 →
  let k := f64_as_u32 (f64_round (S754_finite false m e)) in
  0 ≤ k ∧ (2 * k - 1) * 2 ^ 1000 ≤ 2 * scaled (Zpos m) e < (2 * k + 1) * 2 ^ 1000.
Proof.
  intros [N H] Hb. unfold scaled in *.
  assert (e < 0) as He.
  { apply Z.nle_gt. intros He. assert (2 ^ 1000 ≤ 2 ^ (e + 1000)) by (apply Z.pow_le_mono_r; lia). nia. }
  cbn [f64_round]. rewrite (proj2 (Z.leb_gt _ _)) by lia.
  assert (2 ^ (- e) * 2 ^ (e + 1000) = 2 ^ 1000) as EP by (rewrite <- Z.pow_add_r by lia; f_equal; lia).
  assert (2 ^ (1 - e) = 2 * 2 ^ (- e)) as -> by (rewrite <- Z.pow_succ_r by lia; f_equal; lia).
  set (k := (2 * Zpos m + 2 ^ (- e)) / (2 * 2 ^ (- e))). assert (0 < 2 ^ (- e)) as Hp by lia. assert (0 < 2 ^ (e + 1000)) as Hq by lia.
  assert (2 * 2 ^ (- e) * k ≤ 2 * Zpos m + 2 ^ (- e) < 2 * 2 ^ (- e) * (k + 1)) as Hk.
  { unfold k. pose proof (Z.div_mod (2 * Zpos m + 2 ^ (- e)) (2 * 2 ^ (- e)) ltac:(lia)).
    pose proof (Z.mod_pos_bound (2 * Zpos m + 2 ^ (- e)) (2 * 2 ^ (- e)) ltac:(lia)). lia. }
  assert (0 ≤ k) as Hk0 by (unfold k; apply Z.div_pos; lia). clearbody k.
  assert (k ≤ 2 ^ 31) as Hk1.
  { rewrite <- EP in Hb. assert (Zpos m < 2 ^ 31 * 2 ^ (- e)) by nia. nia. }
  assert (f64_as_u32 (binary_normalize 53 1024 k 0 false) = k) as ->.
  { destruct (Z.eq_dec k 0) as [->|Hne]; [done|]. destruct (f64_of_spec k) as (m' & e' & E & _ & He' & Em); [lia|].
    unfold f64_of in E. rewrite E. cbn [f64_as_u32]. unfold u32_max. destruct (Z.leb_spec 0 e').
    - assert (e' = 0) as -> by lia. rewrite Em. cbn [Z.opp]. lia.
    - rewrite Em, Z.div_mul by lia. lia. }
  split; [done|]. rewrite <- EP. nia.
Qed.
