(* ===== verification/Image.v ===== *)
(** * Images (src/src/image.rs)

    Size limits, orientation, scaling and pixel format of the pictures the client
    decodes and prepares.  The image, exif and webp crates are an instance of
    [ImageCrates]; [ImageLaws] is what their documentation promises of sizes.  Sizes
    are computed in [f64] as in the source. *)
From S2P Require Import Prelude Float64.

Definition MAX_IMAGE_INPUT_BYTES : Z := 12 * 1024 * 1024.
Definition MAX_IMAGE_SOURCE_PIXELS : Z := 64 * 1024 * 1024.
Definition MAX_IMAGE_OUTPUT_PIXELS : Z := 4 * 1024 * 1024.

(** The formats the source tells apart. *)
Inductive ImageFormat := Jpeg | Png | WebP | OtherFormat.

(** A pixel is its red, green, blue and alpha bytes. *)
Record RgbaImage := mkRgba { rgba_width : Z; rgba_height : Z; rgba_pixels : list (Z * Z * Z * Z) }.
(** [as_raw]. *)
Definition rgba_raw (i : RgbaImage) : list Z := concat (map (λ '(r, g, b, a), [r; g; b; a]) (rgba_pixels i)).

Class ImageCrates := {
  DynamicImage : Type;
  dimensions : DynamicImage → Z * Z;
  guess_format : list Z → result (list Z) ImageFormat;
  load_from_memory_with_format : list Z → ImageFormat → result (list Z) DynamicImage;
  crop_imm : Z → Z → Z → Z → DynamicImage → DynamicImage;
  resize_exact : Z → Z → DynamicImage → DynamicImage;
  resize : Z → Z → DynamicImage → DynamicImage;
  to_rgba8 : DynamicImage → RgbaImage;
  fliph : DynamicImage → DynamicImage;
  flipv : DynamicImage → DynamicImage;
  rotate90 : DynamicImage → DynamicImage;
  rotate180 : DynamicImage → DynamicImage;
  rotate270 : DynamicImage → DynamicImage;
  Exif : Type;
  ExifField : Type;
  read_from_container : list Z → result (list Z) Exif;
  get_orientation_field : Exif → option ExifField;
  get_uint : ExifField → option Z;
  webp_encode : list Z → Z → Z → list Z       (** lossy, quality 82 *)
}.

(** What the crates document about sizes. *)
Class ImageLaws `{I : ImageCrates} := {
  dimensions_u32 i : is_u32 (dimensions i).1 ∧ is_u32 (dimensions i).2;
  crop_dimensions x y w h i : 0 ≤ x → 0 ≤ y → 0 ≤ w → 0 ≤ h → x + w ≤ (dimensions i).1 → y + h ≤ (dimensions i).2 → dimensions (crop_imm x y w h i) = (w, h);
  resize_exact_dimensions w h i : 0 < w ≤ u32_max → 0 < h ≤ u32_max → dimensions (resize_exact w h i) = (w, h);
  resize_dimensions w h i : 0 < w ≤ u32_max → 0 < h ≤ u32_max →
    (dimensions (resize w h i)).1 ≤ w ∧ (dimensions (resize w h i)).2 ≤ h;
  rgba_dimensions i : (rgba_width (to_rgba8 i), rgba_height (to_rgba8 i)) = dimensions i;
  rgba_length i : len (rgba_pixels (to_rgba8 i)) = (dimensions i).1 * (dimensions i).2;
  rgba_bytes i : Forall (λ '(r, g, b, a), is_u8 r ∧ is_u8 g ∧ is_u8 b ∧ is_u8 a) (rgba_pixels (to_rgba8 i));
  flip_dimensions i : dimensions (fliph i) = dimensions i ∧ dimensions (flipv i) = dimensions i ∧ dimensions (rotate180 i) = dimensions i;
  rotate_dimensions i : dimensions (rotate90 i) = ((dimensions i).2, (dimensions i).1) ∧ dimensions (rotate270 i) = ((dimensions i).2, (dimensions i).1)
}.

Record DecodedImage := mkDecodedImage { di_width : Z; di_height : Z; di_argb : list Z }.
Record PreparedWebp := mkPreparedWebp { pw_width : Z; pw_height : Z; pw_bytes : list Z }.

(** A pixel as 0xAARRGGBB. *)
Definition argb_of (p : Z * Z * Z * Z) : Z :=
  let '(red, green, blue, alpha) := p in
  Z.lor (Z.lor (Z.lor (Z.shiftl alpha 24) (Z.shiftl red 16)) (Z.shiftl green 8)) blue.

(** [(side as f64 * scale).round() as u32).max(1)]. *)
Definition scaled_side (side : Z) (scale : f64) : Z := Z.max (f64_as_u32 (f64_round (f64_mul (f64_of side) scale))) 1.

Definition image_scale (width height max_side max_pixels : Z) : f64 :=
  let side_scale := f64_min (f64_div (f64_of max_side) (f64_of (Z.max width height))) (f64_of 1) in
  let pixel_scale := f64_min (f64_sqrt (f64_div (f64_of max_pixels) (f64_of (saturating_mul64 width height)))) (f64_of 1) in
  f64_min side_scale pixel_scale.

Definition target_size (width height max_side max_pixels : Z) : Z * Z :=
  let max_side := Z.max max_side 1 in
  let max_pixels := clamp 1 MAX_IMAGE_OUTPUT_PIXELS max_pixels in
  let scale := image_scale width height max_side max_pixels in
  (scaled_side width scale, scaled_side height scale).

(** [Read::take(limit).read_to_end]: the pieces are what successive reads return, an
    empty one being the end; interrupted reads are repeated. *)
Fixpoint read_to_end (pieces : list (io (list Z))) (limit : Z) : io (list Z) :=
  if limit =? 0 then Ok []
  else match pieces with
       | [] => Ok []
       | Ok b :: t =>
           if is_empty b then Ok []
           else let got := take (Z.to_nat limit) b in
                let? rest := read_to_end t (limit - len got) in Ok (got ++ rest)
       | Err e :: t => if bool_decide (ekind e = Interrupted) then read_to_end t limit else Err e
       end.

Definition invalid_dimensions (width height pixels : Z) : bool :=
  (width =? 0) || (height =? 0) || (MAX_IMAGE_SOURCE_PIXELS <? pixels).
Definition too_many_pixels : io_error := invalid_input (lit "image dimensions exceed the 64 MP decode limit").
Definition bad_input_size : io_error := invalid_input (lit "image input must contain 1..12582912 bytes").

Section Image.
Context `{I : ImageCrates}.

Definition image_error (error : list Z) : io_error := invalid_data error.

Definition jpeg_orientation (bytes : list Z) : Z :=
  default 1 (match read_from_container bytes with
             | Ok exif => match get_orientation_field exif with Some field => get_uint field | None => None end
             | Err _ => None
             end).

Definition apply_exif_orientation (image : DynamicImage) (orientation : Z) : DynamicImage :=
  match orientation with
  | 2 => fliph image
  | 3 => rotate180 image
  | 4 => flipv image
  | 5 => fliph (rotate90 image)
  | 6 => rotate90 image
  | 7 => fliph (rotate270 image)
  | 8 => rotate270 image
  | _ => image
  end.

Definition supported (f : ImageFormat) : bool := match f with OtherFormat => false | _ => true end.

Definition load_supported_image (bytes : list Z) : io DynamicImage :=
  fail_if (is_empty bytes || (MAX_IMAGE_INPUT_BYTES <? len bytes)) with bad_input_size;
  let? format := map_err image_error (guess_format bytes) in
  fail_if (negb (supported format)) with invalid_input (lit "only JPEG, PNG and WebP images are supported");
  let? image := map_err image_error (load_from_memory_with_format bytes format) in
  let image := match format with Jpeg => apply_exif_orientation image (jpeg_orientation bytes) | _ => image end in
  let '(width, height) := dimensions image in
  fail_if (invalid_dimensions width height (saturating_mul64 width height)) with too_many_pixels;
  Ok image.

Definition decode_image_bytes (bytes : list Z) (max_side max_pixels : Z) : io DecodedImage :=
  fail_if (is_empty bytes || (MAX_IMAGE_INPUT_BYTES <? len bytes)) with bad_input_size;
  let? image := load_supported_image bytes in
  let '(width, height) := dimensions image in
  fail_if (invalid_dimensions width height (saturating_mul64 width height)) with too_many_pixels;
  let '(target_width, target_height) := target_size width height max_side max_pixels in
  let rgba := if negb (target_width =? width) || negb (target_height =? height)
              then to_rgba8 (resize_exact target_width target_height image) else to_rgba8 image in
  Ok (mkDecodedImage target_width target_height (map argb_of (rgba_pixels rgba))).

Definition decode_image (reader : list (io (list Z))) (max_side max_pixels : Z) : io DecodedImage :=
  let? bytes := read_to_end reader (MAX_IMAGE_INPUT_BYTES + 1) in
  fail_if (MAX_IMAGE_INPUT_BYTES <? len bytes) with invalid_input (lit "image exceeds the 12 MiB decode limit");
  decode_image_bytes bytes max_side max_pixels.

(** The picture [prepare_webp] encodes. *)
Definition prepared_image (image : DynamicImage) (max_side : Z) (square : bool) : DynamicImage :=
  let '(width, height) := dimensions image in
  if square then
    let side := Z.min width height in
    resize_exact max_side max_side (crop_imm ((width - side) / 2) ((height - side) / 2) side side image)
  else if max_side <? Z.max width height then resize max_side max_side image else image.

Definition prepare_webp (bytes : list Z) (max_side : Z) (square : bool) : io PreparedWebp :=
  let? image := load_supported_image bytes in
  let image := prepared_image image (clamp 1 4096 max_side) square in
  let rgba := to_rgba8 image in
  let output := webp_encode (rgba_raw rgba) (rgba_width rgba) (rgba_height rgba) in
  Ok (mkPreparedWebp (rgba_width rgba) (rgba_height rgba) output).
End Image.
