(* ===== verification/ImageScale.v ===== *)
(** * Images: target sizes

    The size a picture is scaled to, with the rounding errors of [f64]. *)
From Stdlib Require Import SpecFloat.
From S2P Require Import Prelude Float64 Image.

(** ** Target sizes *)

(** Images [load_supported_image] lets through. *)
Definition admissible (width height : Z) : Prop := 0 < width ∧ 0 < height ∧ width * height ≤ MAX_IMAGE_SOURCE_PIXELS.

(** Quotient of two integers of the program. *)
Lemma ratio_spec a b : 0 < a < 2 ^ 32 → 0 < b ≤ 2 ^ 26 →
  ∃ (m : positive) e, f64_div (f64_of a) (f64_of b) = S754_finite false m e ∧ normal (Zpos m) e ∧ -110 ≤ e ≤ 10 ∧
    scaled (Zpos m) e * b * 2 ^ 52 ≤ a * 2 ^ 1000 * (2 ^ 52 + 1) ∧ (b ≤ a → 2 ^ 1000 ≤ scaled (Zpos m) e).
Proof.
  intros Ha Hb. destruct (f64_of_scaled a) as (m1 & e1 & -> & N1 & H1 & S1); [lia|].
  destruct (f64_of_scaled b) as (m2 & e2 & -> & N2 & H2 & S2); [lia|].
  destruct (f64_div_spec m1 m2 e1 e2) as (m & e & -> & N & He & Hup & Hlow); [done|done|lia|lia|].
  exists m, e. split; [done|]. split; [done|]. split; [lia|]. rewrite S1, S2 in *. split; [|intros; apply Hlow; nia].
  apply (Z.mul_le_mono_pos_r _ _ (2 ^ 1000)); [lia|]. lia.
Qed.

(** Capping a scale at one. *)
Lemma capped_spec (m1 : positive) e1 : normal (Zpos m1) e1 →
  ∃ (m : positive) e, f64_min (S754_finite false m1 e1) (f64_of 1) = S754_finite false m e ∧ normal (Zpos m) e ∧
    Z.min e1 (-52) ≤ e ≤ Z.max e1 0 ∧ scaled (Zpos m) e = Z.min (scaled (Zpos m1) e1) (2 ^ 1000).
Proof.
  intros N1. destruct (f64_of_scaled 1) as (m2 & e2 & -> & N2 & H2 & S2); [lia|].
  destruct (f64_min_spec m1 m2 e1 e2 N1 N2) as (m & e & -> & N & He & Hs). exists m, e. split; [done|]. split; [done|].
  rewrite Hs, S2. split; lia.
Qed.

Lemma area_error a b c t p y zz z d :
  a ≤ b → b * zz ≤ c * y * (d * d) → c * t * z ≤ p * y * d → 0 ≤ t → 0 ≤ y → 0 ≤ zz → 0 ≤ z →
  a * t * (zz * z) ≤ p * (y * y) * (d * (d * d)).
Proof.
  intros H1 H2 H3 Ht Hy Hzz Hz.
  transitivity (b * zz * (t * z)).
  { replace (a * t * (zz * z)) with (a * (zz * (t * z))) by ring. rewrite <- Z.mul_assoc. apply Z.mul_le_mono_nonneg_r; [|done].
    apply Z.mul_nonneg_nonneg; [done|]. by apply Z.mul_nonneg_nonneg. }
  transitivity (c * y * (d * d) * (t * z)); [apply Z.mul_le_mono_nonneg_r; [by apply Z.mul_nonneg_nonneg|done]|].
  replace (c * y * (d * d) * (t * z)) with (c * t * z * (y * (d * d))) by ring.
  replace (p * (y * y) * (d * (d * d))) with (p * y * d * (y * (d * d))) by ring.
  apply Z.mul_le_mono_nonneg_r; [|done]. apply Z.mul_nonneg_nonneg; [done|]. apply Z.square_nonneg.
Qed.

(** The scale: at most 1, at most what the side limit asks for, and its square at
    most what the pixel limit asks for, up to rounding. *)
Lemma image_scale_spec w h max_side max_pixels :
  admissible w h → 0 < max_side < 2 ^ 32 → 0 < max_pixels ≤ 2 ^ 22 →
  ∃ (m : positive) e, image_scale w h max_side max_pixels = S754_finite false m e ∧ normal (Zpos m) e ∧ -150 ≤ e ≤ 150 ∧
    let s := scaled (Zpos m) e in
    0 < s ≤ 2 ^ 1000 ∧ s * Z.max w h * 2 ^ 52 ≤ max_side * 2 ^ 1000 * (2 ^ 52 + 1) ∧
    s * s * (w * h) * 2 ^ 156 ≤ max_pixels * 2 ^ 2000 * ((2 ^ 52 + 1) * ((2 ^ 52 + 1) * (2 ^ 52 + 1))) ∧
    (Z.max w h ≤ max_side → w * h ≤ max_pixels → s = 2 ^ 1000).
Proof.
  intros (Hw & Hh & Hpix) Hm Hp. unfold MAX_IMAGE_SOURCE_PIXELS in Hpix. unfold image_scale.
  assert (saturating_mul64 w h = w * h) as -> by (unfold saturating_mul64; widths; lia).
  destruct (ratio_spec max_side (Z.max w h)) as (m1 & e1 & -> & N1 & H1 & U1 & L1); [lia|nia|].
  destruct (ratio_spec max_pixels (w * h)) as (m2 & e2 & -> & N2 & H2 & U2 & L2); [lia|nia|].
  destruct (f64_sqrt_spec m2 e2 N2) as (m3 & e3 & -> & N3 & H3 & U3 & L3). rewrite Z.div2_div in H3.
  destruct (capped_spec m1 e1 N1) as (m4 & e4 & -> & N4 & H4 & S4).
  destruct (capped_spec m3 e3 N3) as (m5 & e5 & -> & N5 & H5 & S5).
  destruct (f64_min_spec m4 m5 e4 e5 N4 N5) as (m & e & -> & N & H & S).
  exists m, e. split; [done|]. split; [done|]. split; [div_lia|]. cbv zeta.
  assert (0 < scaled (Zpos m) e) as Hpos by (destruct N; unfold scaled; apply Z.mul_pos_pos; lia).
  split; [lia|]. split; [|split].
  - assert (scaled (Zpos m) e ≤ scaled (Zpos m1) e1) as Hle by lia. clear -U1 Hle Hw Hpos. nia.
  - assert (scaled (Zpos m) e * scaled (Zpos m) e ≤ scaled (Zpos m3) e3 * scaled (Zpos m3) e3) as Hle by (apply Z.mul_le_mono_nonneg; lia).
    apply (area_error _ _ (scaled (Zpos m2) e2) _ _ (2 ^ 1000) (2 ^ 104) (2 ^ 52) (2 ^ 52 + 1) Hle U3 U2); lia.
  - intros F1 F2. rewrite S, S4, S5. specialize (L1 F1). specialize (L3 (L2 F2)). lia.
Qed.

(** One side: [k] before the final [max(1)]. *)
Lemma side_spec w (m : positive) e : 0 < w ≤ 2 ^ 26 → normal (Zpos m) e → -150 ≤ e ≤ 150 → scaled (Zpos m) e ≤ 2 ^ 1000 →
  ∃ k, scaled_side w (S754_finite false m e) = Z.max k 1 ∧ 0 ≤ k ≤ w ∧
    (2 * k - 1) * 2 ^ 1000 * 2 ^ 52 ≤ 2 * w * scaled (Zpos m) e * (2 ^ 52 + 1) ∧ (scaled (Zpos m) e = 2 ^ 1000 → k = w).
Proof.
  intros Hw N He Hs. destruct (f64_of_scaled w) as (mw & ew & Ew & Nw & Hew & Sw); [lia|]. unfold scaled_side. rewrite Ew.
  destruct (f64_mul_spec mw m ew e Nw N) as (mp & ep & -> & Np & Uerr & Uup & Ulow); [lia|]. rewrite Sw in *.
  replace (2 ^ 2000) with (2 ^ 1000 * 2 ^ 1000) in * by (rewrite <- Z.pow_add_r by lia; done).
  assert (scaled (Zpos mp) ep ≤ w * 2 ^ 1000) as Hup by (apply Uup; [lia|]; rewrite Z.mul_assoc; apply Z.mul_le_mono_nonneg_l; lia).
  destruct (f64_rounded mp ep Np) as (K0 & K1 & K2); [apply (Z.le_lt_trans _ _ _ Hup); lia|].
  exists (f64_as_u32 (f64_round (S754_finite false mp ep))). revert K0 K1 K2. generalize (f64_as_u32 (f64_round (S754_finite false mp ep))).
  intros k K0 K1 K2. split; [done|]. split; [lia|]. split.
  - apply (Z.mul_le_mono_pos_r _ _ (2 ^ 1000)); [lia|].
    transitivity (2 * (scaled (Zpos mp) ep * 2 ^ 1000 * 2 ^ 52)); [lia|].
    transitivity (2 * (w * 2 ^ 1000 * scaled (Zpos m) e * (2 ^ 52 + 1))); [lia|].
    apply Z.eq_le_incl. ring.
  - intros E1. rewrite E1 in *. specialize (Ulow w ltac:(lia) ltac:(ring)). lia.
Qed.

(** The rounding errors are too small to carry an integer past its limit. *)
Lemma side_limit k x s mx ms : 0 ≤ s → x ≤ mx → ms < 2 ^ 32 → s * mx * 2 ^ 52 ≤ ms * 2 ^ 1000 * (2 ^ 52 + 1) →
  (2 * k - 1) * 2 ^ 1000 * 2 ^ 52 ≤ 2 * x * s * (2 ^ 52 + 1) → k ≤ ms.
Proof.
  intros Hs Hx Hm H1 H2. assert (x * s ≤ s * mx) as Hxs by (rewrite Z.mul_comm; by apply Z.mul_le_mono_nonneg_l).
  rewrite <- (Z.mul_assoc 2 x s) in H2. revert H1 H2 Hxs. generalize (s * mx) (x * s). intros a b H1 H2 Hxs.
  apply Z.lt_succ_r, Z.nle_gt. intros Hk. lia.
Qed.

Lemma product_bound a b w h s x d : 0 ≤ a → 0 ≤ b → 0 ≤ x → a * x ≤ 2 * w * s * d → b * x ≤ 2 * h * s * d →
  a * b * (x * x) ≤ 4 * (s * s * (w * h)) * (d * d).
Proof.
  intros Ha Hb Hx H1 H2. replace (a * b * (x * x)) with (a * x * (b * x)) by ring.
  replace (4 * _ * _) with (2 * w * s * d * (2 * h * s * d)) by ring.
  apply Z.mul_le_mono_nonneg; [|done| |done]; by apply Z.mul_nonneg_nonneg.
Qed.

Lemma area_limit a b w h s p : 0 ≤ a → 0 ≤ b → p ≤ 2 ^ 22 →
  a * 2 ^ 1000 * 2 ^ 52 ≤ 2 * w * s * (2 ^ 52 + 1) → b * 2 ^ 1000 * 2 ^ 52 ≤ 2 * h * s * (2 ^ 52 + 1) →
  s * s * (w * h) * 2 ^ 156 ≤ p * 2 ^ 2000 * ((2 ^ 52 + 1) * ((2 ^ 52 + 1) * (2 ^ 52 + 1))) → a * b ≤ 4 * p.
Proof.
  intros Ha Hb Hp H1 H2 H3.
  assert (a * b * 2 ^ 2104 ≤ 4 * (s * s * (w * h)) * ((2 ^ 52 + 1) * (2 ^ 52 + 1))) as H4.
  { assert (2 ^ 2104 = 2 ^ 1000 * 2 ^ 52 * (2 ^ 1000 * 2 ^ 52)) as -> by (rewrite <- !Z.pow_add_r by lia; done).
    rewrite <- Z.mul_assoc in H1, H2. apply product_bound; lia || done. }
  revert H3 H4. generalize (s * s * (w * h)) (a * b). intros v u H3 H4. apply Z.lt_succ_r, Z.nle_gt. intros Hk. lia.
Qed.

Lemma target_size_spec w h max_side max_pixels :
  admissible w h → max_side ≤ u32_max →
  let '(tw, th) := target_size w h max_side max_pixels in
  1 ≤ tw ≤ Z.min w (Z.max max_side 1) ∧ 1 ≤ th ≤ Z.min h (Z.max max_side 1) ∧
  (1 < tw → 1 < th → (2 * tw - 1) * (2 * th - 1) ≤ 4 * clamp 1 MAX_IMAGE_OUTPUT_PIXELS max_pixels) ∧
  (Z.max w h ≤ max_side → w * h ≤ clamp 1 MAX_IMAGE_OUTPUT_PIXELS max_pixels → (tw, th) = (w, h)).
Proof.
  intros Hadm Hm. widths. unfold target_size. set (ms := Z.max max_side 1). set (mp := clamp 1 MAX_IMAGE_OUTPUT_PIXELS max_pixels).
  assert (0 < mp ≤ 2 ^ 22) as Hp by (unfold mp, clamp, MAX_IMAGE_OUTPUT_PIXELS; lia). clearbody mp.
  destruct (image_scale_spec w h ms mp Hadm) as (m & e & -> & N & He & Hs & Uside & Uarea & Hone); [lia|done|].
  destruct Hadm as (Hw & Hh & Hpix). unfold MAX_IMAGE_SOURCE_PIXELS in Hpix.
  destruct (side_spec w m e) as (kw & -> & Kw & Ew & Fw); [nia|done|done|lia|].
  destruct (side_spec h m e) as (kh & -> & Kh & Eh & Fh); [nia|done|done|lia|].
  set (s := scaled (Zpos m) e) in *. clearbody s.
  pose proof (side_limit kw w s _ ms ltac:(lia) (Z.le_max_l w h) ltac:(lia) Uside Ew) as Sw.
  pose proof (side_limit kh h s _ ms ltac:(lia) (Z.le_max_r w h) ltac:(lia) Uside Eh) as Sh.
  split; [lia|]. split; [lia|]. split.
  - intros Gw Gh. rewrite !Z.max_l by lia. apply (area_limit _ _ w h s); lia || done.
  - intros F1 F2. rewrite Fw, Fh by (apply Hone; lia). f_equal; lia.
Qed.
