(* ===== verification/ImageProofs.v ===== *)
(** * Images: limits of what is decoded and prepared *)
From S2P Require Import Prelude Float64 Image ImageScale.

(** ** Pixels *)
Lemma lor_disjoint n a b : 0 ≤ n → 0 ≤ b < 2 ^ n → Z.lor (Z.shiftl a n) b = a * 2 ^ n + b.
Proof.
  intros Hn Hb. rewrite <- Z.add_lor_land, Z.shiftl_mul_pow2 by done.
  assert (Z.land (a * 2 ^ n) b = 0) as ->; [|lia]. apply Z.bits_inj'. intros i Hi. rewrite Z.land_spec, Z.bits_0.
  destruct (Z.lt_ge_cases i n) as [Hlt|Hge]; [by rewrite Z.mul_pow2_bits_low|].
  rewrite <- (Z.mod_small b (2 ^ n) Hb), (Z.mod_pow2_bits_high b n i) by lia. apply andb_false_r.
Qed.

Lemma argb_of_sum r g b a : is_u8 r → is_u8 g → is_u8 b → is_u8 a → argb_of (r, g, b, a) = ((a * 256 + r) * 256 + g) * 256 + b.
Proof.
  unfold is_u8, u8_max. intros Hr Hg Hb Ha. unfold argb_of.
  assert (Z.lor (Z.shiftl a 24) (Z.shiftl r 16) = Z.shiftl (a * 2 ^ 8 + r) 16) as ->.
  { rewrite <- (lor_disjoint 8) by lia. by rewrite Z.shiftl_lor, Z.shiftl_shiftl by lia. }
  assert (Z.lor (Z.shiftl (a * 2 ^ 8 + r) 16) (Z.shiftl g 8) = Z.shiftl ((a * 2 ^ 8 + r) * 2 ^ 8 + g) 8) as ->.
  { rewrite <- (lor_disjoint 8 _ g) by lia. by rewrite Z.shiftl_lor, Z.shiftl_shiftl by lia. }
  rewrite lor_disjoint by lia. lia.
Qed.

Lemma input_size_ok (bytes : list Z) : is_empty bytes || (MAX_IMAGE_INPUT_BYTES <? len bytes) = false →
  1 ≤ len bytes ≤ MAX_IMAGE_INPUT_BYTES.
Proof.
  intros [E1 E2]%orb_false_elim. apply Z.ltb_ge in E2. destruct bytes as [|b l]; [done|]. split; [|done].
  rewrite len_cons. pose proof (len_nonneg l). lia.
Qed.

Lemma valid_dimensions w h : invalid_dimensions w h (saturating_mul64 w h) = false → is_u32 w ∧ is_u32 h → admissible w h.
Proof.
  unfold invalid_dimensions, admissible, saturating_mul64. intros [[E1%Z.eqb_neq E2%Z.eqb_neq]%orb_false_elim E3%Z.ltb_ge]%orb_false_elim.
  unfold MAX_IMAGE_SOURCE_PIXELS in *. widths. intros [? ?]. split; [lia|]. split; [lia|]. revert E3. generalize (w * h). lia.
Qed.

Lemma raw_length i : len (rgba_raw i) = 4 * len (rgba_pixels i).
Proof.
  unfold rgba_raw. induction (rgba_pixels i) as [|[[[r g] b] a] l IH]; [done|].
  cbn [map concat]. rewrite len_app, IH. autorewrite with len. lia.
Qed.

Section Laws.
Context `{L : ImageLaws}.

Lemma load_admissible bytes image : load_supported_image bytes = Ok image →
  1 ≤ len bytes ≤ MAX_IMAGE_INPUT_BYTES ∧ admissible (dimensions image).1 (dimensions image).2.
Proof.
  intros H. unfold load_supported_image in H. destruct (is_empty bytes || _) eqn:E0; [done|].
  apply input_size_ok in E0. split; [done|]. clear E0. inv_ok H.
  all: match goal with E : dimensions ?x = (?a, ?b) |- _ => pose proof (dimensions_u32 x) as Hd; rewrite E in *; cbn [fst snd] in *; by apply valid_dimensions end.
Qed.

Lemma pixels_u32 l : Forall (λ '(r, g, b, a), is_u8 r ∧ is_u8 g ∧ is_u8 b ∧ is_u8 a) l → Forall is_u32 (map argb_of l).
Proof.
  intros H. apply Forall_map. revert H. apply Forall_impl. intros [[[r g] b] a] (Hr & Hg & Hb & Ha).
  unfold compose. rewrite argb_of_sum by done. widths. lia.
Qed.

(** The picture a decoded image shows: the loaded one, resampled only when its size
    changes. *)
Definition shown_at (size : Z * Z) (image : DynamicImage) : DynamicImage :=
  if decide (size = dimensions image) then image else resize_exact size.1 size.2 image.

Lemma decode_spec bytes max_side max_pixels d : is_u32 max_side → decode_image_bytes bytes max_side max_pixels = Ok d →
  ∃ image, load_supported_image bytes = Ok image ∧
    (di_width d, di_height d) = target_size (dimensions image).1 (dimensions image).2 max_side max_pixels ∧
    dimensions (shown_at (di_width d, di_height d) image) = (di_width d, di_height d) ∧
    di_argb d = map argb_of (rgba_pixels (to_rgba8 (shown_at (di_width d, di_height d) image))).
Proof.
  intros Hm H. unfold decode_image_bytes in H. destruct (is_empty bytes || _); [done|].
  destruct (load_supported_image bytes) as [image|] eqn:El; [|done]. destruct (load_admissible _ _ El) as [_ Ha].
  exists image. unfold shown_at. destruct (dimensions image) as [w h] eqn:Ed. destruct (invalid_dimensions w h _); [done|].
  cbn [fst snd] in *. pose proof (target_size_spec w h max_side max_pixels Ha (proj2 Hm)) as Ht.
  pose proof (dimensions_u32 image) as Hu. rewrite Ed in Hu. cbn [fst snd] in Hu.
  destruct (target_size w h max_side max_pixels) as [tw th] eqn:Et. destruct Ht as (H1 & H2 & _).
  apply Ok_inj in H. subst d. cbn [di_width di_height di_argb]. split; [done|]. split; [done|].
  destruct (negb (tw =? w) || negb (th =? h)) eqn:Ec.
  - rewrite decide_False by (intros E; simplify_eq; by rewrite !Z.eqb_refl in Ec).
    split; [apply resize_exact_dimensions; widths; lia|done].
  - apply orb_false_elim in Ec as [E1 E2]. to_prop. apply Z.eqb_eq in E1, E2. subst. by rewrite decide_True.
Qed.

(** C38: a picture that decodes has the target size and lies within the limits of its sides: each
    is at least 1, no longer than in the source and no longer than [max_side]; when both
    sides have two pixels or more, no more than half a row and half a column go over the
    pixel limit (a picture with a side of one pixel can go further over it, see
    [pixel_limit_strip]); there is one 32-bit word per pixel, that of the loaded picture
    resampled to that size; and a picture that was within the limits is shown as it is. *)
Theorem decoded_image_within_limits bytes max_side max_pixels d :
  is_u32 max_side → decode_image_bytes bytes max_side max_pixels = Ok d →
  ∃ image, load_supported_image bytes = Ok image ∧
    let '(w, h) := dimensions image in
    let limit := clamp 1 MAX_IMAGE_OUTPUT_PIXELS max_pixels in
    (di_width d, di_height d) = target_size w h max_side max_pixels ∧
    1 ≤ di_width d ≤ Z.min w (Z.max max_side 1) ∧ 1 ≤ di_height d ≤ Z.min h (Z.max max_side 1) ∧
    (1 < di_width d → 1 < di_height d → (2 * di_width d - 1) * (2 * di_height d - 1) ≤ 4 * limit) ∧
    len (di_argb d) = di_width d * di_height d ∧ Forall is_u32 (di_argb d) ∧
    di_argb d = map argb_of (rgba_pixels (to_rgba8 (shown_at (di_width d, di_height d) image))) ∧
    (Z.max w h ≤ max_side → w * h ≤ limit → di_argb d = map argb_of (rgba_pixels (to_rgba8 image))).
Proof.
  intros Hm H. destruct (decode_spec _ _ _ _ Hm H) as (image & El & Et & Es & Ea).
  exists image. split; [done|]. destruct (load_admissible _ _ El) as [_ Hadm].
  pose proof (target_size_spec _ _ max_side max_pixels Hadm (proj2 Hm)) as Ht. rewrite <- Et in Ht.
  set (shown := shown_at _ image) in *. destruct (dimensions image) as [w h] eqn:Ed. cbn [fst snd] in *.
  destruct Ht as (H1 & H2 & H3 & H4).
  split; [done|]. split; [done|]. split; [done|]. split; [done|]. rewrite Ea.
  split; [|split; [apply pixels_u32, rgba_bytes|split; [done|]]].
  - unfold len. rewrite length_map. fold (len (rgba_pixels (to_rgba8 shown))). by rewrite rgba_length, Es.
  - intros F1 F2. unfold shown, shown_at. rewrite decide_True; [done|]. rewrite Ed. by apply H4.
Qed.

(** A prepared picture is encoded from exactly four bytes per pixel; an avatar is
    the square asked for, any other photo has no side above the limit. *)
Theorem prepared_webp_size bytes max_side square p :
  prepare_webp bytes max_side square = Ok p →
  let side := clamp 1 4096 max_side in
  ∃ raw, pw_bytes p = webp_encode raw (pw_width p) (pw_height p) ∧ len raw = 4 * (pw_width p * pw_height p) ∧
    if square then pw_width p = side ∧ pw_height p = side else pw_width p ≤ side ∧ pw_height p ≤ side.
Proof.
  intros H side. unfold prepare_webp in H. destruct (load_supported_image bytes) as [image|] eqn:El; [|done].
  apply Ok_inj in H. subst p. cbn [pw_bytes pw_width pw_height]. fold side.
  assert (1 ≤ side ≤ 4096) as Hs by (unfold side, clamp; lia).
  set (shown := prepared_image image side square). exists (rgba_raw (to_rgba8 shown)). split; [done|].
  pose proof (rgba_dimensions shown) as Hd. pose proof (rgba_length shown) as Hl. destruct (dimensions shown) as [w h] eqn:Ed.
  cbn [fst snd] in *. injection Hd as Hw Hh. rewrite Hw, Hh. split.
  - rewrite <- Hl. apply raw_length.
  - unfold shown, prepared_image in Ed. destruct (load_admissible _ _ El) as [_ Ha]. destruct (dimensions image) as [iw ih] eqn:Ei.
    destruct square; [|destruct (Z.ltb_spec side (Z.max iw ih))].
    + rewrite resize_exact_dimensions in Ed by (widths; lia). by simplify_eq.
    + pose proof (resize_dimensions side side image ltac:(widths; lia) ltac:(widths; lia)) as Hr. rewrite Ed in Hr. done.
    + rewrite Ei in Ed. simplify_eq. lia.
Qed.
End Laws.

(** ** Reading *)
Lemma read_to_end_pieces ps : ∀ n, 0 ≤ n → Forall (λ p, p ≠ []) ps → read_to_end (map Ok ps) n = Ok (take (Z.to_nat n) (concat ps)).
Proof.
  induction ps as [|p ps IH]; intros n Hn Hp; cbn [map read_to_end concat]; [by destruct (n =? 0); rewrite take_nil|].
  apply Forall_cons_iff in Hp as [Hp Hps]. destruct (Z.eqb_spec n 0) as [->|Hne]; [done|].
  assert (is_empty p = false) as -> by (by destruct p).
  rewrite IH by (try done; unfold len; rewrite length_take; lia). f_equal. rewrite take_app. f_equal. f_equal.
  unfold len. rewrite length_take. lia.
Qed.

(** Decoding from a reader is decoding the bytes it delivers, however it delivers
    them, up to the input limit. *)
Lemma decode_image_read `{I : ImageCrates} ps max_side max_pixels :
  Forall (λ p, p ≠ []) ps →
  decode_image (map Ok ps) max_side max_pixels =
  if MAX_IMAGE_INPUT_BYTES <? len (concat ps) then Err (invalid_input (lit "image exceeds the 12 MiB decode limit"))
  else decode_image_bytes (concat ps) max_side max_pixels.
Proof.
  intros Hp. unfold decode_image. assert (0 ≤ MAX_IMAGE_INPUT_BYTES) as H0 by done. revert H0. generalize MAX_IMAGE_INPUT_BYTES. intros n Hn.
  rewrite read_to_end_pieces by (done || lia). unfold len. destruct (Z.ltb_spec n (Z.of_nat (length (concat ps)))).
  - rewrite length_take. by rewrite (proj2 (Z.ltb_lt _ _)) by lia.
  - rewrite take_ge by lia. by rewrite (proj2 (Z.ltb_ge _ _)) by lia.
Qed.

(** ** A concrete instance *)
Module ImageFixture.
(** Pictures of one colour; a stored size is read back within [u32]. *)
#[local] Instance plain : ImageCrates := {|
  DynamicImage := Z * Z;
  dimensions := λ '(w, h), (clamp 0 u32_max w, clamp 0 u32_max h);
  guess_format := λ b, match b with 1 :: _ => Ok Png | _ => Err (lit "unknown format") end;
  load_from_memory_with_format := λ b _, match b with _ :: w :: h :: _ => Ok (w, h) | _ => Err (lit "truncated") end;
  crop_imm := λ _ _ w h _, (w, h);
  resize_exact := λ w h _, (w, h);
  resize := λ w h _, (w, h);
  to_rgba8 := λ '(w, h), mkRgba (clamp 0 u32_max w) (clamp 0 u32_max h)
                (replicate (Z.to_nat (clamp 0 u32_max w * clamp 0 u32_max h)) (18, 52, 86, 120));
  fliph := id; flipv := id; rotate180 := id;
  rotate90 := λ '(w, h), (h, w);
  rotate270 := λ '(w, h), (h, w);
  Exif := unit; ExifField := unit;
  read_from_container := λ _, Err (lit "no exif");
  get_orientation_field := λ _, None;
  get_uint := λ _, None;
  webp_encode := λ raw w h, lit "RIFF" |}.

#[local] Instance plain_laws : ImageLaws.
Proof.
  assert (∀ x, 0 < x ≤ u32_max → clamp 0 u32_max x = x) as Hc by (intros; unfold clamp; lia).
  split.
  - intros [w h]. cbn. unfold clamp. widths. lia.
  - intros x y w h [iw ih]. cbn. unfold clamp. intros. f_equal; lia.
  - intros w h i Hw Hh. cbn. by rewrite !Hc.
  - intros w h i Hw Hh. cbn. rewrite !Hc by done. lia.
  - by intros [w h].
  - intros [w h]. cbn. unfold len. rewrite length_replicate, Z2Nat.id; [done|]. unfold clamp. widths. nia.
  - intros [w h]. cbn. apply Forall_replicate. by_vm.
  - by intros [w h].
  - by intros [w h].
Qed.

(** An 8 by 4 picture in at most 4 by 4 and 16 pixels. *)
Lemma decoded_image_within_limits_witness :
  ∃ image, load_supported_image [1; 8; 4] = Ok image ∧ dimensions image = (8, 4) ∧
    decode_image_bytes [1; 8; 4] 4 16 = Ok (mkDecodedImage 4 2 (replicate 8 0x78123456)) ∧ len (replicate 8 0x78123456) = 4 * 2.
Proof.
  destruct (decoded_image_within_limits [1; 8; 4] 4 16 (mkDecodedImage 4 2 (replicate 8 0x78123456)))
    as (image & El & H).
  - by vm_compute.
  - vm_compute. reflexivity.
  - exists image. split; [exact El|]. split; [vm_compute in El; injection El as <-; reflexivity|]. split; [vm_compute; reflexivity|].
    destruct (dimensions image). cbn [di_width di_height di_argb] in H. exact (proj1 (proj2 (proj2 (proj2 (proj2 H))))).
Defined.

Lemma prepared_webp_size_witness :
  ∃ raw, lit "RIFF" = webp_encode raw 256 256 ∧ len raw = 4 * (256 * 256).
Proof.
  destruct (prepared_webp_size [1; 320; 160] 256 true (mkPreparedWebp 256 256 (lit "RIFF"))) as (raw & H1 & H2 & _).
  - vm_compute. reflexivity.
  - exists raw. exact (conj H1 H2).
Defined.

(** A photo of 4000 by 3000 pixels is decoded to more than the 4 Mi pixels the limit
    names. *)
Example pixel_limit_overshoot : let '(w, h) := target_size 4000 3000 8192 MAX_IMAGE_OUTPUT_PIXELS in w * h = MAX_IMAGE_OUTPUT_PIXELS + 1206.
Proof. vm_compute. reflexivity. Qed.

(** And a strip of one pixel by 2^26 to four times the limit. *)
Example pixel_limit_strip : target_size 1 (2 ^ 26) (2 ^ 31) MAX_IMAGE_OUTPUT_PIXELS = (1, 2 ^ 24).
Proof. vm_compute. reflexivity. Qed.
End ImageFixture.
