(* ===== verification/Jni.v ===== *)
(** * The Android interface (src/android-jni/src/lib.rs): state, messenger, identities

    [Jni] is the state of the library: the counters and registries of handles, the
    session storage, the crash handler, the file system below it, and the Java
    exception the last call left pending.  A Java string or byte array is what the
    [jni] crate converts it to, or the message of its error; a direct buffer is its
    capacity, whether its address can be had, and its contents.  The clock, random
    bytes and the behaviour of the account during a blocking call (a schedule of
    events) are arguments.  Calls run one after the other; the registries are locked for
    single accesses only, and no code panics while it holds a lock. *)
From S2P Require Import Ffi Prelude RustStr Cbor Crypto Frame Types Fs E2E Json Account Messenger Program Client Api Transfer Image.

Definition BRIDGE_VERSION : Z := 7.
Definition JNI_FALSE : Z := 0.
Definition JNI_TRUE : Z := 1.

(** [as jlong] from [u64], and an [i32] that wraps around. *)
Definition as_i64 (z : Z) : Z := (z + 9223372036854775808) mod 18446744073709551616 - 9223372036854775808.
Definition as_i32 (z : Z) : Z := (z + 2147483648) mod 4294967296 - 2147483648.

Record NativeClient := mkNativeClient { nc_messenger : MessengerCore }.
(** A voice stream is its stream id and the connection it is on. *)
Abbreviation VoiceStream := (Z * World)%type.

Record Jni := mkJni {
  jn_next_client : Z;                      (** [NEXT_CLIENT], [NEXT_VOICE], [NEXT_IDENTITY]: [i32] *)
  jn_next_voice : Z;
  jn_next_identity : Z;
  jn_clients : gmap Z NativeClient;
  jn_voices : gmap Z VoiceStream;
  jn_identities : gmap Z Identity;
  jn_session : option SessionStorage;      (** [SESSION_STORAGE] *)
  jn_crash_fd : Z;                         (** [CRASH_FD] *)
  jn_signals : list Z;                     (** signals [native_crash_signal] handles *)
  jn_closed_fds : list Z;
  jn_panic_hook : option (list Z);         (** file the panic hook appends to *)
  jn_fs : Fs;
  jn_exception : option (list Z)           (** message of the pending [IOException] *)
}.

Definition initial_jni (fs : Fs) : Jni := mkJni 1 1 1 ∅ ∅ ∅ None (-1) [] [] None fs None.

Definition jn_set_clients n m s := mkJni n (jn_next_voice s) (jn_next_identity s) m (jn_voices s) (jn_identities s) (jn_session s) (jn_crash_fd s) (jn_signals s) (jn_closed_fds s) (jn_panic_hook s) (jn_fs s) (jn_exception s).
Definition jn_set_voices n m s := mkJni (jn_next_client s) n (jn_next_identity s) (jn_clients s) m (jn_identities s) (jn_session s) (jn_crash_fd s) (jn_signals s) (jn_closed_fds s) (jn_panic_hook s) (jn_fs s) (jn_exception s).
Definition jn_set_identities n m s := mkJni (jn_next_client s) (jn_next_voice s) n (jn_clients s) (jn_voices s) m (jn_session s) (jn_crash_fd s) (jn_signals s) (jn_closed_fds s) (jn_panic_hook s) (jn_fs s) (jn_exception s).
Definition jn_set_session x s := mkJni (jn_next_client s) (jn_next_voice s) (jn_next_identity s) (jn_clients s) (jn_voices s) (jn_identities s) x (jn_crash_fd s) (jn_signals s) (jn_closed_fds s) (jn_panic_hook s) (jn_fs s) (jn_exception s).
Definition jn_set_crash fd signals closed hook s := mkJni (jn_next_client s) (jn_next_voice s) (jn_next_identity s) (jn_clients s) (jn_voices s) (jn_identities s) (jn_session s) fd signals closed hook (jn_fs s) (jn_exception s).
Definition jn_set_fs f s := mkJni (jn_next_client s) (jn_next_voice s) (jn_next_identity s) (jn_clients s) (jn_voices s) (jn_identities s) (jn_session s) (jn_crash_fd s) (jn_signals s) (jn_closed_fds s) (jn_panic_hook s) f (jn_exception s).

(** [throw_io].  The source ignores an error of [throw_new]; here the VM throws. *)
Definition throw_io (message : list Z) (s : Jni) : Jni :=
  mkJni (jn_next_client s) (jn_next_voice s) (jn_next_identity s) (jn_clients s) (jn_voices s) (jn_identities s) (jn_session s)
    (jn_crash_fd s) (jn_signals s) (jn_closed_fds s) (jn_panic_hook s) (jn_fs s) (Some message).

(** ** Calls *)

(** How the closure of a call ends: [Result<T, String>], or never. *)
Inductive ending (A : Type) := Completed (a : A) | Rejected (error : list Z) | Blocked.
Arguments Completed {A} a.
Arguments Rejected {A} error.
Arguments Blocked {A}.

Definition jni (A : Type) : Type := Jni → ending A * Jni.
Definition jret {A} (a : A) : jni A := λ s, (Completed a, s).
Definition jfail {A} (error : list Z) : jni A := λ s, (Rejected error, s).
Definition jblock {A} : jni A := λ s, (Blocked, s).
Definition jbind {A B} (m : jni A) (k : A → jni B) : jni B := λ s,
  match m s with
  | (Completed a, s) => k a s
  | (Rejected e, s) => (Rejected e, s)
  | (Blocked, s) => (Blocked, s)
  end.
Notation "'java' x := m 'in' k" := (jbind m (λ x, k)) (at level 10, x pattern, k at level 200) : rust_scope.
Notation "'reject_if' c 'with' e ; k" := (if c then jfail e else k) (at level 10, c at level 100, e at level 100, k at level 200) : rust_scope.

(** [?] on a result, and [map_err(|error| error.to_string())?]. *)
Definition jlift {A} (r : result (list Z) A) : jni A := match r with Ok a => jret a | Err e => jfail e end.
Definition jio {A} (r : io A) : jni A := jlift (map_err emsg r).
Definition jget : jni Jni := λ s, (Completed s, s).
Definition jmodify (f : Jni → Jni) : jni unit := λ s, (Completed tt, f s).
Definition with_files {A} (m : fs_io A) : jni A := λ s, let '(r, f) := m (jn_fs s) in jio r (jn_set_fs f s).

(** [match result { Ok(v) => v, Err(e) => { throw_io; fallback } }]: what Java receives,
    [None] when the call does not return. *)
Definition or_throw {A} (fallback : A) (m : jni A) (s : Jni) : option A * Jni :=
  match m s with
  | (Completed a, s) => (Some a, s)
  | (Rejected e, s) => (Some fallback, throw_io e s)
  | (Blocked, s) => (None, s)
  end.

(** ** Java values *)
Abbreviation JString := (result (list Z) (list Z)).
Abbreviation JByteArray := (result (list Z) (list Z)).

Definition java_string (value : JString) : jni (list Z) := jlift (map_err (λ e, lit "invalid Java string: " ++ e) value).
Definition java_bytes (value : JByteArray) : jni (list Z) := jlift (map_err (λ e, lit "invalid Java byte array: " ++ e) value).

(** [try_into::<[u8; 32]>()]. *)
Definition key32 (value : JByteArray) (error : list Z) : jni (list Z) :=
  java bytes := java_bytes value in
  if len bytes =? 32 then jret bytes else jfail error.

Record JByteBuffer := mkByteBuffer {
  bb_capacity : result (list Z) Z;
  bb_address : result (list Z) unit;
  bb_memory : list Z
}.
Definition buffer_capacity (what : list Z) (b : JByteBuffer) : jni Z :=
  jlift (map_err (λ e, lit "invalid direct " ++ what ++ lit " buffer: " ++ e) (bb_capacity b)).
Definition buffer_address (what : list Z) (b : JByteBuffer) : jni unit :=
  jlift (map_err (λ e, lit "invalid direct " ++ what ++ lit " buffer: " ++ e) (bb_address b)).
(** [copy_nonoverlapping] to the start of the buffer. *)
Definition overwrite (bytes memory : list Z) : list Z := bytes ++ drop (length bytes) memory.

(** The Java object made from the result: [alloc] is whether the VM could make it, and
    [failed] the message thrown when it could not, if one is. *)
Definition to_java (alloc : result (list Z) unit) (failed : list Z → option (list Z)) (m : jni (list Z)) (s : Jni)
  : option (option (list Z)) * Jni :=
  match m s with
  | (Completed v, s) =>
      match alloc with
      | Ok _ => (Some (Some v), s)
      | Err e => (Some None, match failed e with Some message => throw_io message s | None => s end)
      end
  | (Rejected e, s) => (Some None, throw_io e s)
  | (Blocked, s) => (None, s)
  end.
Definition throws (prefix e : list Z) : option (list Z) := Some (prefix ++ e).
Definition silent (e : list Z) : option (list Z) := None.

(** ** Registries *)
Definition client (handle : Z) : jni NativeClient := λ s,
  match jn_clients s !! handle with Some c => (Completed c, s) | None => (Rejected (lit "MST5 native connection is closed"), s) end.
Definition voice (handle : Z) : jni VoiceStream := λ s,
  match jn_voices s !! handle with Some v => (Completed v, s) | None => (Rejected (lit "MST5 voice stream is closed"), s) end.
Definition identity (handle : Z) : jni Identity := λ s,
  match jn_identities s !! handle with Some i => (Completed i, s) | None => (Rejected (lit "MST5 E2E identity is closed"), s) end.

(** [fetch_add] and the registration that follows. *)
Definition register_native (c : NativeClient) : jni Z := λ s,
  let handle := jn_next_client s in
  let s := jn_set_clients (as_i32 (handle + 1)) (jn_clients s) s in
  if handle <=? 0 then (Rejected (lit "MST5 native connection ID exhausted"), s)
  else (Completed handle, jn_set_clients (jn_next_client s) (<[handle := c]> (jn_clients s)) s).
Definition register_voice (v : VoiceStream) : jni Z := λ s,
  let handle := jn_next_voice s in
  let s := jn_set_voices (as_i32 (handle + 1)) (jn_voices s) s in
  if handle <=? 0 then (Rejected (lit "MST5 voice stream ID exhausted"), s)
  else (Completed handle, jn_set_voices (jn_next_voice s) (<[handle := v]> (jn_voices s)) s).
Definition register_e2e (i : Identity) : jni Z := λ s,
  let handle := jn_next_identity s in
  (Completed handle, jn_set_identities (as_i32 (handle + 1)) (<[handle := i]> (jn_identities s)) s).

(** ** The account during a blocking call *)

(** [task] runs under a schedule until [finished] recognises its phase; an event that
    is not possible is skipped, and without more events the call does not return. *)
Fixpoint await {A} (finished : phase → option A) (task : nat) (schedule : list event) (a : Account)
  : option (A * Account * list event) :=
  match ac_tasks a !! task with
  | Some p =>
      match finished p with
      | Some r => Some (r, a, schedule)
      | None => match schedule with [] => None | ev :: later => await finished task later (default a (step ev a)) end
      end
  | None => None
  end.
Definition set_done (p : phase) : option (io unit) := match p with SetDone x => Some x | _ => None end.
Definition request_done (p : phase) : option (io Response) := match p with Account.Returned x => Some x | _ => None end.
Definition close_done (p : phase) : option (io unit) := match p with CloseDone x => Some x | _ => None end.

Definition new_task (a : Account) : nat := fresh (dom (ac_tasks a)).
(** A method call that starts with [first task]. *)
Definition call_account {A} (finished : phase → option A) (first : nat → event) (schedule : list event) (a : Account)
  : option (A * Account * list event) :=
  let task := new_task a in
  await finished task schedule (default a (step (first task) a)).

Definition set_account (a : Account) (m : MessengerCore) : MessengerCore := mkMessengerCore a (ms_endpoint m) (ms_transport_mode m).

(** [MessengerCore::request_cbor]. *)
Definition messenger_request_cbor (token : list Z) (frame_kind opcode : Z) (payload : list Z) (options : RequestOptions)
    (random : io (list Z)) (schedule : list event) (m : MessengerCore) : option (io Response * MessengerCore) :=
  match call_account set_done (λ t, EvSetCredentials t token (lit "OVE.rs Android")) schedule (ms_account m) with
  | None => None
  | Some (Err e, a, _) => Some (Err e, set_account a m)
  | Some (Ok _, a, schedule) =>
      match call_account request_done (λ t, EvRequest t frame_kind opcode payload options random) schedule a with
      | None => None
      | Some (r, a, _) => Some (r, set_account a m)
      end
  end.

Definition messenger_close (schedule : list event) (m : MessengerCore) : option (io unit * MessengerCore) :=
  match call_account close_done EvClose schedule (ms_account m) with
  | None => None
  | Some (r, a, _) => Some (r, set_account a m)
  end.

Section Functions.
Context `{J : SerdeJson} `{C : Crypto} `{Z1 : Compressor} `{Z2 : Decompressors} `{I : ImageCrates}.
(** Whether the runtime could be started; the key compiled into the library. *)
Context (runtime : result (list Z) unit) (compiled_server_public_key : option (list Z)).

(** [MessengerCore::command_json]. *)
Definition messenger_command_json (source : list Z) (now : Z) (random : io (list Z)) (schedule : list event) (m : MessengerCore)
  : option (io (list Z) * MessengerCore) :=
  match command_request source now with
  | Err e => Some (Err e, m)
  | Ok c =>
      match messenger_request_cbor (cm_token c) (cm_kind c) (cm_opcode c) (cm_payload c)
              (with_deadline_ms default_request_options (cm_deadline_ms c)) random schedule m with
      | None => None
      | Some (Err e, m) => Some (Err e, m)
      | Some (Ok r, m) => Some (command_reply r, m)
      end
  end.

(** [runtime()?.block_on(..)] on the messenger of a registered client. *)
Definition block_on_client {A} (handle : Z) (c : NativeClient) (method : MessengerCore → option (io A * MessengerCore)) : jni A :=
  java _ := jlift runtime in
  match method (nc_messenger c) with
  | None => jblock
  | Some (r, m) =>
      java _ := jmodify (λ s, jn_set_clients (jn_next_client s) (<[handle := mkNativeClient m]> (jn_clients s)) s) in
      jio r
  end.

Definition nativeVersion : Z := BRIDGE_VERSION.

Definition configured_server_public_key (supplied : list Z) : list Z := default supplied compiled_server_public_key.

(** ** The session store *)
Definition nativeOpenSessionStore (root : JString) : Jni → option Z * Jni := or_throw JNI_FALSE (
  java root := java_string root in
  java store := with_files (session_open root) in
  java _ := jmodify (jn_set_session (Some store)) in
  jret JNI_TRUE).

Definition nativeSessionSnapshot (alloc : result (list Z) unit) : Jni → option (option (list Z)) * Jni :=
  to_java alloc (throws (lit "cannot create session snapshot: ")) (
    java s := jget in
    match jn_session s with
    | None => jfail (lit "MST5 session storage is not initialized")
    | Some store => jio (snapshot_json store)
    end).

Definition nativeReplaceSession (raw : JString) : Jni → option Z * Jni := or_throw JNI_FALSE (
  java raw := java_string raw in
  java s := jget in
  match jn_session s with
  | None => jfail (lit "MST5 session storage is not initialized")
  | Some store =>
      let '(r, store, files) := replace_json raw store (jn_fs s) in
      java _ := jmodify (λ s, jn_set_fs files (jn_set_session (Some store) s)) in
      java _ := jio r in
      jret JNI_TRUE
  end).

(** ** Messenger connections *)
Definition nativeOpen (endpoint public_key device_model transport_mode : JString) : Jni → option Z * Jni := or_throw 0 (
  java endpoint := java_string endpoint in
  java supplied_public_key := java_string public_key in
  java device_model := java_string device_model in
  java transport_mode := java_string transport_mode in
  let public_key := configured_server_public_key supplied_public_key in
  java messenger := jio (messenger_new (messenger_config_new endpoint public_key device_model (transport_parse transport_mode))) in
  register_native (mkNativeClient messenger)).

(** The messenger is removed before it is closed; an error to start the runtime is
    dropped. *)
Definition nativeClose (handle : Z) (schedule : list event) : Jni → option unit * Jni := or_throw tt (
  java s := jget in
  match jn_clients s !! handle with
  | None => jret tt
  | Some c =>
      java _ := jmodify (λ s, jn_set_clients (jn_next_client s) (delete handle (jn_clients s)) s) in
      match runtime with
      | Err _ => jret tt
      | Ok _ => match messenger_close schedule (nc_messenger c) with None => jblock | Some (r, _) => jio r end
      end
  end).

(** [(kind << 48) | (status << 32) | len]. *)
Definition pack_response (r : Response) : Z :=
  Z.lor (Z.lor (Z.shiftl (rs_kind r) 48) (Z.shiftl (rs_status r) 32)) (len (rs_payload r)).

(** What is written to [output] is returned with the value. *)
Definition nativeCall (handle : Z) (token : JString) (frame_kind opcode timeout_ms : Z) (input : JByteBuffer) (input_len : Z)
    (output : JByteBuffer) (now : Z) (random : io (list Z)) (schedule : list event)
  : Jni → option (Z * list Z) * Jni := or_throw (-1, bb_memory output) (
  reject_if negb ((0 <=? opcode) && (opcode <=? u16_max)) with lit "MST5 opcode is out of range";
  reject_if input_len <? 0 with lit "MST5 input length is negative";
  java token := java_string token in
  java connection := client handle in
  java input_capacity := buffer_capacity (lit "MST5 input") input in
  reject_if input_capacity <? input_len with lit "MST5 input exceeds direct buffer capacity";
  java _ := buffer_address (lit "MST5 input") input in
  let payload := take (Z.to_nat input_len) (bb_memory input) in
  let deadline_ms := saturating_add64 now (Z.max timeout_ms 1) in
  java response := block_on_client handle connection
    (messenger_request_cbor token (as_u8 frame_kind) (as_u16 opcode) payload
       (with_deadline_ms default_request_options deadline_ms) random schedule) in
  java output_capacity := buffer_capacity (lit "MST5 output") output in
  reject_if output_capacity <? len (rs_payload response)
    with lit "MST5 response needs " ++ dec (len (rs_payload response)) ++ lit " bytes, direct buffer has " ++ dec output_capacity;
  java _ := buffer_address (lit "MST5 output") output in
  jret (as_i64 (pack_response response), overwrite (rs_payload response) (bb_memory output))).

Definition nativeCommandJson (handle : Z) (command : JString) (now : Z) (random : io (list Z)) (schedule : list event)
    (alloc : result (list Z) unit) : Jni → option (option (list Z)) * Jni :=
  to_java alloc (throws (lit "cannot create messenger JSON response: ")) (
    java command := java_string command in
    java connection := client handle in
    block_on_client handle connection (messenger_command_json command now random schedule)).
End Functions.
