(* ===== verification/JniApi.v ===== *)
(** * The Android interface (src/android-jni/src/lib.rs): pictures, identities, crash reports *)
From S2P Require Import Ffi Prelude RustStr Cbor Crypto Frame Types Fs E2E Json Account Messenger Program Client Api Transfer Image Jni.

(** ** Descriptors *)

(** An open file: what reads will deliver and writes will answer. *)
Record FileHandle := mkFile { fh_reads : list (io (list Z)); fh_writes : list (result (io_error * nat) unit) }.

(** [dup] is what [libc::dup] gives: the file, or the message of [errno]. *)
Definition duplicate_file (dup : result (list Z) FileHandle) : jni FileHandle :=
  jlift (map_err (λ e, lit "cannot duplicate media descriptor: " ++ e) dup).

(** ** Pictures *)
Definition android_rgba (pixel : Z) : list Z :=
  match le_bytes 4 pixel with
  | [blue; green; red; alpha] => [red; green; blue; alpha]
  | _ => []
  end.
(** The bytes written from [output] on. *)
Definition copy_argb_as_android_rgba (pixels : list Z) : list Z := concat (map android_rgba pixels).

Definition pack_dimensions (d : DecodedImage) : Z := Z.lor (Z.shiftl (di_width d) 32) (di_height d).

Section Functions.
Context `{J : SerdeJson} `{C : Crypto} `{Z1 : Compressor} `{Z2 : Decompressors} `{I : ImageCrates}.

(** The tail both decoders share: the value and the new contents of [output]. *)
Definition deliver_image (decoded : DecodedImage) (output : JByteBuffer) : jni (Z * list Z) :=
  let required := saturating_mul64 (len (di_argb decoded)) 4 in
  java capacity := buffer_capacity (lit "image output") output in
  reject_if capacity <? required
    with lit "decoded image needs " ++ dec required ++ lit " bytes, direct buffer has " ++ dec capacity;
  java _ := buffer_address (lit "image output") output in
  jret (as_i64 (pack_dimensions decoded), overwrite (copy_argb_as_android_rgba (di_argb decoded)) (bb_memory output)).

Definition nativeDecodeImageFd (dup : result (list Z) FileHandle) (max_side max_pixels : Z) (output : JByteBuffer)
  : Jni → option (Z * list Z) * Jni := or_throw (0, bb_memory output) (
  java file := duplicate_file dup in
  java decoded := jio (decode_image (fh_reads file) (Z.max max_side 1) (Z.max max_pixels 1)) in
  deliver_image decoded output).

Definition nativeDecodeImage (input : JByteBuffer) (input_len max_side max_pixels : Z) (output : JByteBuffer)
  : Jni → option (Z * list Z) * Jni := or_throw (0, bb_memory output) (
  reject_if input_len <=? 0 with lit "image input is empty";
  java capacity := buffer_capacity (lit "image input") input in
  reject_if capacity <? input_len with lit "image input exceeds direct buffer capacity";
  java _ := buffer_address (lit "image input") input in
  let bytes := take (Z.to_nat input_len) (bb_memory input) in
  java decoded := jio (decode_image_bytes bytes (Z.max max_side 1) (Z.max max_pixels 1)) in
  deliver_image decoded output).

Definition nativePrepareWebp (input : JByteArray) (max_side square : Z) (alloc : result (list Z) unit)
  : Jni → option (option (list Z)) * Jni := to_java alloc (throws (lit "cannot allocate WebP byte array: ")) (
  java input := java_bytes input in
  java prepared := jio (prepare_webp input (Z.max max_side 1) (negb (square =? JNI_FALSE))) in
  jret (pw_bytes prepared)).

(** ** Identities *)
Definition not_found_identity : io_error := IoError NotFound (lit "E2E identity not found").

Definition nativeE2EOpen (path : JString) (create : Z) (random : io (list Z)) : Jni → option Z * Jni := or_throw 0 (
  java path := java_string path in
  java value := (if negb (create =? JNI_FALSE) then with_files (load_or_create (std_path path) random)
                 else java found := with_files (load (std_path path)) in jio (ok_or found not_found_identity)) in
  register_e2e value).

Definition nativeE2EClose (handle : Z) (s : Jni) : Jni := jn_set_identities (jn_next_identity s) (delete handle (jn_identities s)) s.

Definition nativeE2ERemove (path : JString) : Jni → option unit * Jni := or_throw tt (
  java path := java_string path in with_files (remove (std_path path))).

Definition nativeE2EPublicKey (handle : Z) (alloc : result (list Z) unit) : Jni → option (option (list Z)) * Jni :=
  to_java alloc silent (java value := identity handle in jret (public_key value)).

Definition nativeE2EFingerprint (handle : Z) (alloc : result (list Z) unit) : Jni → option (option (list Z)) * Jni :=
  to_java alloc silent (java value := identity handle in jret (fingerprint (id_public value))).

Definition bad_public_key : list Z := lit "E2E public key must be 32 bytes".
Definition bad_media_key : list Z := lit "E2E media key must be 32 bytes".
Definition bad_sender_key : list Z := lit "E2E sender key must be 32 bytes".

Definition nativeE2EPublicFingerprint (key : JByteArray) (alloc : result (list Z) unit) : Jni → option (option (list Z)) * Jni :=
  to_java alloc silent (java key := key32 key bad_public_key in jret (fingerprint key)).

Definition nativeE2ESeal (handle : Z) (peer : JByteArray) (from to : JString) (plaintext : JByteArray) (random : io (list Z))
    (alloc : result (list Z) unit) : Jni → option (option (list Z)) * Jni := to_java alloc silent (
  java peer := key32 peer bad_public_key in
  java from := java_string from in
  java to := java_string to in
  java plaintext := java_bytes plaintext in
  java i := identity handle in
  java value := jio (seal i peer from to plaintext random) in
  jret ([env_version value] ++ env_nonce value ++ env_ciphertext value)).

Definition nativeE2EDecrypt (handle : Z) (peer : JByteArray) (from to : JString) (encoded : JByteArray)
    (alloc : result (list Z) unit) : Jni → option (option (list Z)) * Jni := to_java alloc silent (
  java peer := key32 peer bad_public_key in
  java from := java_string from in
  java to := java_string to in
  java encoded := java_bytes encoded in
  reject_if (len encoded <? 41) || negb ((nth 0 encoded 0 =? LEGACY_ENVELOPE_VERSION) || (nth 0 encoded 0 =? ENVELOPE_VERSION))
    with lit "unsupported E2E envelope version; update the application";
  let value := mkEnvelope (nth 0 encoded 0) (slice 1 25 encoded) (drop 25 encoded) in
  java i := identity handle in
  jio (open i peer from to value)).

Definition nativeE2EOpenGroup (handle : Z) (sender_key : JByteArray) (sender recipient envelope : JString)
    (alloc : result (list Z) unit) : Jni → option (option (list Z)) * Jni := to_java alloc (throws []) (
  java key := key32 sender_key bad_sender_key in
  java sender := java_string sender in
  java recipient := java_string recipient in
  java envelope := java_string envelope in
  java i := identity handle in
  jio (open_group_message i key sender recipient envelope)).

Definition nativeE2EMediaKey (handle : Z) (peer : JByteArray) (from to : JString) (alloc : result (list Z) unit)
  : Jni → option (option (list Z)) * Jni := to_java alloc silent (
  java peer := key32 peer bad_public_key in
  java from := java_string from in
  java to := java_string to in
  java i := identity handle in
  jio (media_key i peer from to)).

(** The first version of encrypted media was removed. *)
Definition media_v1_removed : list Z := lit "E2E media V1 was removed; use descriptor streaming".
Definition nativeE2EMediaSeal (s : Jni) : option (list Z) * Jni := (None, throw_io media_v1_removed s).
Definition nativeE2EMediaDecrypt (s : Jni) : option (list Z) * Jni := (None, throw_io media_v1_removed s).

Definition nativeE2EBackup (handle : Z) (password : JString) (random_salt random_nonce : io (list Z)) (alloc : result (list Z) unit)
  : Jni → option (option (list Z)) * Jni := to_java alloc silent (
  java password := java_string password in
  java i := identity handle in
  java value := jio (backup i password random_salt random_nonce) in
  jret ([bk_version value] ++ bk_salt value ++ bk_nonce value ++ bk_ciphertext value)).

Definition nativeE2ERestore (path password : JString) (encoded : JByteArray) : Jni → option Z * Jni := or_throw 0 (
  java path := java_string path in
  java password := java_string password in
  java encoded := java_bytes encoded in
  reject_if negb (len encoded =? 89) || negb (nth 0 encoded 0 =? 2) with lit "invalid E2E backup v2";
  let value := mkBackup (nth 0 encoded 0) (slice 1 17 encoded) (slice 17 41 encoded) (drop 41 encoded) in
  java restored := jio (restore value password) in
  java _ := with_files (save (std_path path) restored) in
  register_e2e restored).
End Functions.

(** ** Crash reports *)
Definition SIGABRT : Z := 6.
Definition SIGSEGV : Z := 11.
Definition SIGBUS : Z := 7.
Definition SIGILL : Z := 4.
Definition SIGFPE : Z := 8.

(** [opened] is what [libc::open] gives: the descriptor, or the message of [errno]. *)
Definition nativeInstallCrashHandler (path : JString) (opened : result (list Z) Z) : Jni → option unit * Jni := or_throw tt (
  java path := java_string path in
  reject_if contains_byte 0 path with lit "invalid crash report path";
  java fd := jlift (map_err (λ e, lit "cannot open native crash report: " ++ e) opened) in
  jmodify (λ s,
    jn_set_crash fd [SIGABRT; SIGSEGV; SIGBUS; SIGILL; SIGFPE]
      (jn_closed_fds s ++ (if 0 <=? jn_crash_fd s then [jn_crash_fd s] else [])) (Some path) s)).

Definition crash_header : list Z := lit "[OVE_ANDROID_CRASH_V1]" ++ [10].
Definition crash_line : list Z := crash_header ++ lit "Source: native-signal" ++ [10] ++ lit "Signal: 00" ++ [10].
Definition SIGNAL_OFFSET : nat := length (crash_header ++ lit "Source: native-signal" ++ [10] ++ lit "Signal: ").

(** The handler: what it writes and where; the signal then has its default action and
    is raised again. *)
Definition native_crash_signal (signal : Z) (s : Jni) : option (Z * list Z) * Jni :=
  let line := <[SIGNAL_OFFSET := 48 + clamp 0 9 (Z.quot signal 10)]> crash_line in
  let line := <[S SIGNAL_OFFSET := 48 + clamp 0 9 (Z.rem signal 10)]> line in
  ((if 0 <=? jn_crash_fd s then Some (jn_crash_fd s, line) else None),
   jn_set_crash (jn_crash_fd s) (List.filter (λ x, negb (x =? signal)) (jn_signals s)) (jn_closed_fds s) (jn_panic_hook s) s).

(** The panic hook: errors are dropped. *)
Definition panic_hook (info : list Z) (s : Jni) : Jni :=
  match jn_panic_hook s with
  | None => s
  | Some path =>
      let p := std_path path in
      let opened : fs_io unit := λ f, if fs_exists p f then fs_touch f else fs_create p f in
      let text := crash_header ++ lit "Source: rust-panic" ++ [10] ++ info ++ [10] in
      jn_set_fs ((do? _ := opened in fs_append p text) (jn_fs s)).2 s
  end.
