(* ===== verification/JniTransfer.v ===== *)
(** * The Android interface (src/android-jni/src/lib.rs): transfers

    Progress reports and cancellation are wrapped around the transfers of [Client]:
    the same programs run with another handler of their reads and writes.  [Transfer]
    is the environment of one transfer: the [World] of its connection and file, the
    observer, and how often each read or write is polled before it is ready.  The
    answers of the Java observer and the clock readings come from a list, one entry per
    visit. *)
From S2P Require Import Ffi Prelude RustStr Cbor Crypto Frame Types Fs E2E Media Json Account Messenger Program Client Api Transfer Image Jni JniApi.

(** ** [JavaProgress] *)

(** One visit to the observer: attaching the thread, [isCancelled], the clock,
    [onProgress]. *)
Record java_answer := mkAnswer {
  an_attach : result (list Z) unit;
  an_cancelled : result (list Z) bool;
  an_now : Z;
  an_progress : result (list Z) unit
}.
(** An observer that agrees to everything. *)
Definition content (now : Z) : java_answer := mkAnswer (Ok tt) (Ok false) now (Ok tt).

Record JavaProgress := mkProgress {
  pg_total : Z;
  pg_last : Z;                       (** [last_callback_ms] *)
  pg_answers : list java_answer;     (** what the next visits will find; then [content 0] *)
  pg_reports : list (Z * Z)          (** calls of [onProgress]: clock and bytes, oldest first *)
}.

Definition visit (p : JavaProgress) : java_answer * JavaProgress :=
  let '(a, t) := pop (content 0) (pg_answers p) in (a, mkProgress (pg_total p) (pg_last p) t (pg_reports p)).

Definition other (e : list Z) : io_error := IoError OtherKind e.
Definition transfer_cancelled : io_error := IoError Interrupted (lit "media transfer cancelled").

Definition asked (a : java_answer) : io unit :=
  let? _ := map_err other (an_attach a) in
  let? cancelled := map_err other (an_cancelled a) in
  fail_if cancelled with transfer_cancelled;
  Ok tt.

Definition check_cancelled (p : JavaProgress) : io unit * JavaProgress :=
  let '(a, p) := visit p in (asked a, p).

Definition update (completed : Z) (p : JavaProgress) : io unit * JavaProgress :=
  let '(a, p) := visit p in
  match asked a with
  | Err e => (Err e, p)
  | Ok _ =>
      let terminal := (completed =? 0) || (pg_total p <=? completed) in
      if negb terminal && (saturating_sub64 (an_now a) (pg_last p) <? 125) then (Ok tt, p)
      else (map_err other (an_progress a),
            mkProgress (pg_total p) (an_now a) (pg_answers p) (pg_reports p ++ [(an_now a, completed)]))
  end.

(** The Java observer: [None] is null; else whether the VM and a global reference can
    be had, and its answers. *)
Definition Observer : Type := option (result (list Z) unit * result (list Z) unit * list java_answer).

Definition progress_new (observer : Observer) (total : Z) : jni (option JavaProgress) :=
  match observer with
  | None => jret None
  | Some (vm, reference, answers) =>
      java _ := jlift (map_err (λ e, lit "cannot access Java VM: " ++ e) vm) in
      java _ := jlift (map_err (λ e, lit "cannot retain transfer observer: " ++ e) reference) in
      jret (Some (mkProgress total 0 answers []))
  end.

(** ** Readers and writers *)
Inductive poll (A : Type) := Pending | Ready (a : A).
Arguments Pending {A}.
Arguments Ready {A} a.

Record Transfer := mkTransfer {
  tr_world : World;
  tr_progress : option JavaProgress;
  tr_completed : Z;
  tr_pending : list nat;             (** polls of the next reads and writes that find them pending; then none *)
  tr_limit : option Z                (** the limit of a [MemoryWriter]; [None] for a file *)
}.
Definition set_world w t := mkTransfer w (tr_progress t) (tr_completed t) (tr_pending t) (tr_limit t).
Definition set_progress p t := mkTransfer (tr_world t) p (tr_completed t) (tr_pending t) (tr_limit t).
Definition set_pending l t := mkTransfer (tr_world t) (tr_progress t) (tr_completed t) l (tr_limit t).
Definition add_completed n t := mkTransfer (tr_world t) (tr_progress t) (as_u64 (tr_completed t + n)) (tr_pending t) (tr_limit t).

(** [progress.update(self.completed)], when there is an observer. *)
Definition observed (t : Transfer) : io unit * Transfer :=
  match tr_progress t with
  | None => (Ok tt, t)
  | Some p => let '(r, p) := update (tr_completed t) p in (r, set_progress (Some p) t)
  end.

(** After [n] bytes were moved. *)
Definition moved {A} (n : Z) (a : A) (t : Transfer) : poll (io A) * Transfer :=
  let '(r, t) := observed (add_completed n t) in
  (Ready (match r with Err e => Err e | Ok _ => Ok a end), t).

(** [ProgressReader::poll_read]; [ready] is whether the file has data or ends. *)
Definition progress_poll_read (max : Z) (ready : bool) (t : Transfer) : poll (io (list Z)) * Transfer :=
  match observed t with
  | (Err e, t) => (Ready (Err e), t)
  | (Ok _, t) =>
      if negb ready then (Pending, t)
      else match next_read max (tr_world t) with
           | (Ok bytes, w) => moved (len bytes) bytes (set_world w t)
           | (Err e, w) => (Ready (Err e), set_world w t)
           end
  end.

(** [ProgressWriter::poll_write]: the file takes the whole chunk. *)
Definition progress_poll_write (bytes : list Z) (ready : bool) (t : Transfer) : poll (io Z) * Transfer :=
  match observed t with
  | (Err e, t) => (Ready (Err e), t)
  | (Ok _, t) =>
      if negb ready then (Pending, t)
      else match next_write bytes (tr_world t) with
           | (Ok _, w) => moved (len bytes) (len bytes) (set_world w t)
           | (Err e, w) => (Ready (Err e), set_world w t)
           end
  end.

(** [MemoryWriter::poll_write]. *)
Definition memory_poll_write (limit : Z) (bytes : list Z) (w : World) : io Z * World :=
  if limit <? saturating_add64 (len (w_target w)) (len bytes)
  then (Err (invalid_data (lit "media download exceeds memory limit")), w)
  else (Ok (len bytes), set_writes (w_writes w) (w_target w ++ bytes) w).

(** A future is polled until it is ready; [polls] says how often it is pending.  (A
    ready read or write is not pending again.) *)
Fixpoint await_ready {A} (poll_once : bool → Transfer → poll (io A) * Transfer) (polls : nat) (t : Transfer) : io A * Transfer :=
  match polls with
  | O => match poll_once true t with (Ready r, t) => (r, t) | (Pending, t) => (Err (other []), t) end
  | S polls => match poll_once false t with (Ready r, t) => (r, t) | (Pending, t) => await_ready poll_once polls t end
  end.

Definition next_polls (t : Transfer) : nat * Transfer :=
  let '(n, l) := pop O (tr_pending t) in (n, set_pending l t).

(** [AsyncReadExt::read] and [write_all], which does not poll for an empty buffer. *)
Definition observed_read (max : Z) (t : Transfer) : io (list Z) * Transfer :=
  let '(n, t) := next_polls t in await_ready (progress_poll_read max) n t.
Definition observed_write (bytes : list Z) (t : Transfer) : io unit * Transfer :=
  if is_empty bytes then let '(r, w) := next_write [] (tr_world t) in (r, set_world w t)
  else let '(n, t) := next_polls t in
       let '(r, t) := await_ready (progress_poll_write bytes) n t in (result_map (λ _, tt) r, t).
Definition memory_write (limit : Z) (bytes : list Z) (t : Transfer) : io unit * Transfer :=
  let '(r, w) := memory_poll_write limit bytes (tr_world t) in (result_map (λ _, tt) r, set_world w t).

(** The handler of a transfer: reads and writes are wrapped, flushing is passed on (to
    no effect for memory), the rest is the connection's. *)
Definition in_world {X} (e : effect X) (t : Transfer) : X * Transfer :=
  let '(x, w) := handle e (tr_world t) in (x, set_world w t).
Definition transfer_handle {X} (e : effect X) : Transfer → X * Transfer :=
  match e in effect X return Transfer → X * Transfer with
  | ERead max => observed_read max
  | EWrite bytes => λ t, match tr_limit t with Some limit => memory_write limit bytes t | None => observed_write bytes t end
  | EFlush => λ t, match tr_limit t with
                   | Some _ => (Ok tt, set_world (log AFlush (tr_world t)) t)
                   | None => in_world EFlush t
                   end
  | e => in_world e
  end.

Fixpoint exec_transfer {A} (p : prog A) (t : Transfer) : option (A * Transfer) :=
  match p with
  | Ret a => Some (a, t)
  | Vis e k => let '(x, t) := transfer_handle e t in exec_transfer (k x) t
  | OutOfFuel => None
  end.

(** ** Cancellation *)
Definition transfer_check (t : Transfer) : io unit * Transfer :=
  match tr_progress t with
  | None => (Ok tt, t)
  | Some p => let '(r, p) := check_cancelled p in (r, set_progress (Some p) t)
  end.

(** [n] ticks of 125 ms pass while the operation waits. *)
Fixpoint ticks_pass (n : nat) (t : Transfer) : io unit * Transfer :=
  match n with
  | O => (Ok tt, t)
  | S n => match transfer_check t with (Ok _, t) => ticks_pass n t | (Err e, t) => (Err e, t) end
  end.

(** The loop of [poll_transfer_cancellation]; [ticks] says how many ticks pass before
    each interaction of the operation.  A failing check drops the operation; when that
    is the connecting, its guard also closes the connection in the background, outside
    this call. *)
Fixpoint select_loop {A} (ticks : list nat) (p : tprog A) (t : Transfer) : option (io A * Transfer) :=
  match p with
  | Ret a => Some (a, t)
  | Vis e k =>
      match ticks_pass (hd O ticks) t with
      | (Err x, t) => Some (Err x, t)
      | (Ok _, t) => let '(x, t) := transfer_handle e t in select_loop (tail ticks) (k x) t
      end
  | OutOfFuel => None
  end.

Definition poll_transfer_cancellation {A} (ticks : list nat) (p : tprog A) (t : Transfer) : option (io A * Transfer) :=
  match transfer_check t with
  | (Err e, t) => Some (Err e, t)
  | (Ok _, t) => select_loop ticks p t
  end.

Definition cancellable_download {A} (ticks : list nat) (p : tprog A) (t : Transfer) : option (io A * Transfer) :=
  match tr_progress t with
  | None => exec_transfer p t
  | Some _ => poll_transfer_cancellation ticks p t
  end.

(** ** Arguments *)
Definition transfer_strings (endpoint public_key ticket file_id : JString) : jni (list Z * list Z * list Z * list Z) :=
  java endpoint := java_string endpoint in
  java public_key := java_string public_key in
  java ticket := java_string ticket in
  java file_id := java_string file_id in
  jret (endpoint, public_key, ticket, file_id).

(** A Java array of strings: the elements with the errors of fetching them. *)
Fixpoint java_strings (elements : list (result (list Z) JString)) : jni (list (list Z)) :=
  match elements with
  | [] => jret []
  | x :: t =>
      java value := jlift (map_err (λ e, lit "invalid Java string array element: " ++ e) x) in
      java value := java_string value in
      java rest := java_strings t in
      jret (value :: rest)
  end.
Definition java_string_array (values : result (list Z) (list (result (list Z) JString))) : jni (list (list Z)) :=
  java elements := jlift (map_err (λ e, lit "invalid Java string array: " ++ e) values) in
  java_strings elements.

(** ** Sessions with a media node *)
Definition no_world : World := mkWorld [] [] None [] [] [] [] [] [] [].
(** The transfer after dialling: its file and observer, and the connection made. *)
Definition transfer_start (dialled : io (Client.Client * World)) (file : FileHandle) (progress : option JavaProgress) (pending : list nat)
    (limit : option Z) : Transfer :=
  let w := match dialled with Ok (_, w) => w | Err _ => no_world end in
  mkTransfer (set_writes (fh_writes file) [] (set_reads (fh_reads file) w)) progress 0 pending limit.

(** [Client::connect_media], after dialling. *)
Definition media_connected (dialled : io (Client.Client * World)) (ticket : list Z) : tprog Client.Client :=
  do! c := lift (result_map fst dialled) in
  do! _ := connect_media c ticket in
  Ret (Ok c).

(** Connect, transfer, close; the outcome of closing is ignored. *)
Definition media_session {A} (dialled : io (Client.Client * World)) (ticket : list Z) (program : Client.Client → tprog A) : tprog A :=
  do! c := media_connected dialled ticket in
  let! r := program c in
  let! _ := client_close in
  Ret r.

Definition closing {A} (r : io A) (t : Transfer) : option (io A * Transfer) :=
  match exec_transfer client_close t with Some (_, t) => Some (r, t) | None => None end.

(** The same with connecting and the transfer cancellable; [dial_ticks] ticks pass while
    dialling. *)
Definition cancellable_session {A} (dial_ticks : nat) (ticks ticks' : list nat) (dialled : io (Client.Client * World)) (ticket : list Z)
    (program : Client.Client → tprog A) (t : Transfer) : option (io A * Transfer) :=
  let connected :=
    match tr_progress t with
    | None => exec_transfer (media_connected dialled ticket) t
    | Some _ =>
        match transfer_check t with
        | (Err e, t) => Some (Err e, t)
        | (Ok _, t) =>
            match ticks_pass dial_ticks t with
            | (Err e, t) => Some (Err e, t)
            | (Ok _, t) => select_loop ticks (media_connected dialled ticket) t
            end
        end
    end in
  match connected with
  | None => None
  | Some (Err e, t) => Some (Err e, t)
  | Some (Ok c, t) =>
      match cancellable_download ticks' (program c) t with
      | None => None
      | Some (r, t) => closing r t
      end
  end.

(** What Java receives of a transfer, and the transfer as it ended. *)
Definition transfer_result {A} (fallback : A) (m : jni (io A * Transfer)) (s : Jni) : option (A * option Transfer) * Jni :=
  match m s with
  | (Completed (Ok a, t), s) => (Some (a, Some t), s)
  | (Completed (Err e, t), s) => (Some (fallback, Some t), throw_io (emsg e) s)
  | (Rejected e, s) => (Some (fallback, None), throw_io e s)
  | (Blocked, s) => (None, s)
  end.
Definition finished {A} (r : option (io A * Transfer)) : jni (io A * Transfer) :=
  match r with Some x => jret x | None => jblock end.
