(* ===== verification/JniMedia.v ===== *)
(** * The Android interface (src/android-jni/src/lib.rs): uploads, downloads, voice

    The transfer entry points, and the batch upload: its tasks take turns, one
    interaction at a time, in the order the scheduler chooses. *)
From S2P Require Import Ffi Prelude RustStr Cbor Crypto Frame Types Fs E2E Media Json Account Messenger Program Client Api Transfer Image Jni JniApi JniTransfer.

Section Functions.
Context `{J : SerdeJson} `{C : Crypto} `{Z2 : Decompressors}.
(** Whether the runtime could be started; the pointer width; the network. *)
Context (runtime : result (list Z) unit) (usize_bits : Z) (dial : dialer).

Definition dialled (endpoint public_key : list Z) : io (Client.Client * World) := connect dial endpoint public_key.

(** The first report, before the transfer. *)
Definition first_report (t : Transfer) : jni Transfer :=
  let '(r, t) := observed t in java _ := jio r in jret t.

(** ** Uploads *)
Definition upload_of (endpoint public_key ticket : list Z) (file : FileHandle) (progress : option JavaProgress) (pending : list nat)
    (program : Client.Client → tprog unit) : jni (io unit * Transfer) :=
  let d := dialled endpoint public_key in
  java t := first_report (transfer_start d file progress pending None) in
  java _ := jlift runtime in
  finished (exec_transfer (media_session d ticket program) t).

Definition done_upload (m : jni (io unit * Transfer)) (s : Jni) : option (Z * option Transfer) * Jni :=
  let '(r, s) := transfer_result None (java (r, t) := m in jret (result_map Some r, t)) s in
  (match r with
   | Some (v, t) => Some (match v with Some _ => JNI_TRUE | None => JNI_FALSE end, t)
   | None => None
   end, s).

Definition nativeUpload (endpoint public_key ticket file_id : JString) (size fd : Z) (dup : result (list Z) FileHandle)
    (observer : Observer) (pending : list nat) : Jni → option (Z * option Transfer) * Jni := done_upload (
  reject_if (size <? 0) || (fd <? 0) with lit "invalid media source";
  java (endpoint, public_key, ticket, file_id) := transfer_strings endpoint public_key ticket file_id in
  java progress := progress_new observer size in
  java file := duplicate_file dup in
  upload_of endpoint public_key ticket file progress pending (λ c, upload_media c file_id size)).

Definition nativeUploadE2E (endpoint public_key ticket file_id : JString) (plaintext_size fd : Z) (dup : result (list Z) FileHandle)
    (identity_handle : Z) (peer : JByteArray) (from to : JString) (observer : Observer) (pending : list nat) (random : io (list Z))
  : Jni → option (Z * option Transfer) * Jni := done_upload (
  reject_if (plaintext_size <? 0) || (fd <? 0) with lit "invalid E2E media source";
  java peer := key32 peer bad_public_key in
  java (endpoint, public_key, ticket, file_id) := transfer_strings endpoint public_key ticket file_id in
  java from := java_string from in
  java to := java_string to in
  java i := identity identity_handle in
  java progress := progress_new observer plaintext_size in
  java file := duplicate_file dup in
  upload_of endpoint public_key ticket file progress pending (λ c, upload_media_e2e c file_id plaintext_size i peer from to random)).

Definition nativeUploadE2EWithKey (endpoint public_key ticket file_id : JString) (plaintext_size fd : Z) (dup : result (list Z) FileHandle)
    (media_key file_aad : JByteArray) (observer : Observer) (pending : list nat) (random : io (list Z))
  : Jni → option (Z * option Transfer) * Jni := done_upload (
  reject_if (plaintext_size <? 0) || (fd <? 0) with lit "invalid E2E media source";
  java media_key := key32 media_key bad_media_key in
  java file_aad := java_bytes file_aad in
  java (endpoint, public_key, ticket, file_id) := transfer_strings endpoint public_key ticket file_id in
  java progress := progress_new observer plaintext_size in
  java file := duplicate_file dup in
  upload_of endpoint public_key ticket file progress pending (λ c, upload_media_e2e_with_key c file_id plaintext_size media_key file_aad random)).

(** ** Downloads to a file *)
Record ticking := mkTicking { tk_dial : nat; tk_connect : list nat; tk_transfer : list nat }.

Definition download_of (endpoint public_key ticket : list Z) (file : FileHandle) (progress : option JavaProgress) (pending : list nat)
    (k : ticking) (program : Client.Client → tprog Z) : jni (io Z * Transfer) :=
  let d := dialled endpoint public_key in
  java _ := jlift runtime in
  finished (cancellable_session (tk_dial k) (tk_connect k) (tk_transfer k) d ticket program (transfer_start d file progress pending None)).

(** [received as jlong]. *)
Definition done_download (m : jni (io Z * Transfer)) : Jni → option (Z * option Transfer) * Jni :=
  transfer_result (-1) (java (r, t) := m in jret (result_map as_i64 r, t)).

Definition nativeDownload (endpoint public_key ticket file_id : JString) (expected_size fd : Z) (dup : result (list Z) FileHandle)
    (observer : Observer) (pending : list nat) (k : ticking) : Jni → option (Z * option Transfer) * Jni := done_download (
  reject_if (expected_size <? 0) || (fd <? 0) with lit "invalid media target";
  java (endpoint, public_key, ticket, file_id) := transfer_strings endpoint public_key ticket file_id in
  java progress := progress_new observer expected_size in
  java file := duplicate_file dup in
  download_of endpoint public_key ticket file progress pending k (λ c, download_media c file_id expected_size)).

Definition nativeDownloadE2EWithKey (endpoint public_key ticket file_id : JString) (expected_encrypted_size fd : Z)
    (dup : result (list Z) FileHandle) (media_key file_aad : JByteArray) (observer : Observer) (pending : list nat) (k : ticking)
  : Jni → option (Z * option Transfer) * Jni := done_download (
  reject_if (expected_encrypted_size <? 0) || (fd <? 0) with lit "invalid E2E media target";
  java media_key := key32 media_key bad_media_key in
  java file_aad := java_bytes file_aad in
  java (endpoint, public_key, ticket, file_id) := transfer_strings endpoint public_key ticket file_id in
  java file := duplicate_file dup in
  java progress := progress_new observer 0 in
  download_of endpoint public_key ticket file progress pending k
    (λ c, download_media_e2e_with_key c usize_bits file_id expected_encrypted_size media_key file_aad)).

Definition nativeDownloadE2E (endpoint public_key ticket file_id : JString) (expected_encrypted_size fd : Z)
    (dup : result (list Z) FileHandle) (identity_handle : Z) (peer : JByteArray) (from to : JString) (observer : Observer)
    (pending : list nat) (k : ticking) : Jni → option (Z * option Transfer) * Jni := done_download (
  reject_if (expected_encrypted_size <? 0) || (fd <? 0) with lit "invalid E2E media target";
  java peer := key32 peer bad_public_key in
  java (endpoint, public_key, ticket, file_id) := transfer_strings endpoint public_key ticket file_id in
  java from := java_string from in
  java to := java_string to in
  java i := identity identity_handle in
  java file := duplicate_file dup in
  java progress := progress_new observer 0 in
  download_of endpoint public_key ticket file progress pending k
    (λ c, download_media_e2e c usize_bits file_id expected_encrypted_size i peer from to)).

Definition nativeDownloadGroupMedia (endpoint public_key ticket file_id : JString) (expected_size fd : Z)
    (dup : result (list Z) FileHandle) (identity_handle : Z) (sender_key : JByteArray) (sender recipient envelope : JString)
    (observer : Observer) (pending : list nat) (k : ticking) : Jni → option (Z * option Transfer) * Jni := done_download (
  reject_if (expected_size <? 0) || (fd <? 0) with lit "invalid group media target";
  java key := key32 sender_key bad_sender_key in
  java (endpoint, public_key, ticket, file_id) := transfer_strings endpoint public_key ticket file_id in
  java sender := java_string sender in
  java recipient := java_string recipient in
  java envelope := java_string envelope in
  java i := identity identity_handle in
  java file := duplicate_file dup in
  java progress := progress_new observer 0 in
  download_of endpoint public_key ticket file progress pending k
    (λ c, download_group_media c usize_bits file_id expected_size i key sender recipient envelope)).

(** ** Downloads to memory *)
Definition memory_download (endpoint public_key ticket : list Z) (limit : Z) (program : Client.Client → tprog Z) : jni (list Z) :=
  let d := dialled endpoint public_key in
  java _ := jlift runtime in
  java (r, t) := finished (exec_transfer (media_session d ticket program) (transfer_start d (mkFile [] []) None [] (Some limit))) in
  java _ := jio r in
  jret (w_target (tr_world t)).

Definition nativeDownloadE2EBytes (endpoint public_key ticket file_id : JString) (expected_encrypted_size max_bytes identity_handle : Z)
    (peer : JByteArray) (from to : JString) (alloc : result (list Z) unit) : Jni → option (option (list Z)) * Jni :=
  to_java alloc (throws []) (
  reject_if (expected_encrypted_size <? 0) || (max_bytes <? 1) with lit "invalid E2E in-memory media size";
  java peer := key32 peer bad_public_key in
  java (endpoint, public_key, ticket, file_id) := transfer_strings endpoint public_key ticket file_id in
  java from := java_string from in
  java to := java_string to in
  java i := identity identity_handle in
  memory_download endpoint public_key ticket max_bytes (λ c, download_media_e2e c usize_bits file_id expected_encrypted_size i peer from to)).

Definition nativeDownloadE2EBytesWithKey (endpoint public_key ticket file_id : JString) (expected_encrypted_size max_bytes : Z)
    (media_key file_aad : JByteArray) (alloc : result (list Z) unit) : Jni → option (option (list Z)) * Jni :=
  to_java alloc (throws []) (
  reject_if (expected_encrypted_size <? 0) || (max_bytes <? 1) with lit "invalid E2E in-memory media size";
  java media_key := key32 media_key bad_media_key in
  java file_aad := java_bytes file_aad in
  java (endpoint, public_key, ticket, file_id) := transfer_strings endpoint public_key ticket file_id in
  memory_download endpoint public_key ticket max_bytes
    (λ c, download_media_e2e_with_key c usize_bits file_id expected_encrypted_size media_key file_aad)).

Definition nativeDownloadBytes (endpoint public_key ticket file_id : JString) (expected_size max_bytes : Z) (alloc : result (list Z) unit)
  : Jni → option (option (list Z)) * Jni := to_java alloc (throws []) (
  reject_if (expected_size <? 0) || (2147483647 <? expected_size) || (max_bytes <? 1) with lit "invalid in-memory media size";
  reject_if max_bytes <? expected_size with lit "file is too large";
  java (endpoint, public_key, ticket, file_id) := transfer_strings endpoint public_key ticket file_id in
  memory_download endpoint public_key ticket max_bytes (λ c, download_media c file_id expected_size)).

(** ** Voice *)

(** [Client::connect_voice], after dialling. *)
Definition voice_connected (d : io (Client.Client * World)) (ticket : list Z) : option (io VoiceStream) :=
  match d with
  | Err e => Some (Err e)
  | Ok (c, w) =>
      match exec (connect_voice c ticket) w with
      | None => None
      | Some (Err e, _) => Some (Err e)
      | Some (Ok id, w) => Some (Ok (id, w))
      end
  end.

Definition nativeVoiceOpen (endpoint public_key ticket : JString) : Jni → option Z * Jni := or_throw 0 (
  java endpoint := java_string endpoint in
  java public_key := java_string public_key in
  java ticket := java_string ticket in
  java _ := jlift runtime in
  match voice_connected (dialled endpoint public_key) ticket with
  | None => jblock
  | Some r => java stream := jio r in register_voice stream
  end).

(** [runtime()?.block_on(voice(handle)?..)]. *)
Definition block_on_voice {A} (handle : Z) (program : Z → tprog A) : jni A :=
  java _ := jlift runtime in
  java (id, w) := voice handle in
  match exec (program id) w with
  | None => jblock
  | Some (r, w) =>
      java _ := jmodify (λ s, jn_set_voices (jn_next_voice s) (<[handle := (id, w)]> (jn_voices s)) s) in
      jio r
  end.

Definition nativeVoiceSend (handle : Z) (pcm : JByteArray) : Jni → option unit * Jni := or_throw tt (
  java pcm := java_bytes pcm in block_on_voice handle (λ id, voice_send id pcm)).

Definition nativeVoiceReceive (handle : Z) (alloc : result (list Z) unit) : Jni → option (option (list Z)) * Jni :=
  to_java alloc (throws []) (block_on_voice handle voice_recv).

Definition nativeVoiceClose (handle : Z) : Jni → option unit * Jni := or_throw tt (
  java s := jget in
  match jn_voices s !! handle with
  | None => jret tt
  | Some (id, w) =>
      java _ := jmodify (λ s, jn_set_voices (jn_next_voice s) (delete handle (jn_voices s)) s) in
      match runtime with
      | Err _ => jret tt
      | Ok _ => match exec (voice_close id) w with None => jblock | Some (r, _) => jio r end
      end
  end).
End Functions.
