(* ===== verification/JniBatch.v ===== *)
(** * The Android interface (src/android-jni/src/lib.rs): [nativeUploadBatch]

    Up to 64 uploads, three at a time.  [Batch] is the state the tasks share with the
    call that waits for them: the permits of the semaphore, the aggregate count, the
    observer, the tasks and the queue of the [JoinSet].  An event is one turn: a task
    takes a permit, makes one interaction (or is polled while its read is pending),
    ends or panics, or the call takes the next finished task.  Any order of events is possible. *)
From S2P Require Import Ffi Prelude RustStr Cbor Crypto Frame Types Fs E2E Media Json Account Messenger Program Client Api Transfer Image Jni JniApi JniTransfer JniMedia.

Inductive task_phase :=
| Waiting                                   (** for a permit *)
| Running (p : tprog unit) (w : World)
| Joinable (r : io unit) (w : World)        (** ended *)
| Aborted.

Record task := mkTask {
  tk_program : tprog unit;
  tk_world : World;                         (** the node and the file *)
  tk_phase : task_phase
}.
Definition set_phase (x : task_phase) (t : task) : task := mkTask (tk_program t) (tk_world t) x.

Record Batch := mkBatch {
  bt_permits : Z;
  bt_aggregate : Z;
  bt_progress : JavaProgress;
  bt_tasks : list task;
  bt_queue : list (io unit);                (** results of ended tasks not yet taken, oldest first *)
  bt_taken : nat;
  bt_result : option (io unit)
}.
Definition bt_set_task (i : nat) (x : task_phase) (b : Batch) : Batch :=
  mkBatch (bt_permits b) (bt_aggregate b) (bt_progress b) (alter (set_phase x) i (bt_tasks b)) (bt_queue b) (bt_taken b) (bt_result b).
Definition bt_set_permits (n : Z) (b : Batch) : Batch :=
  mkBatch n (bt_aggregate b) (bt_progress b) (bt_tasks b) (bt_queue b) (bt_taken b) (bt_result b).
Definition bt_set_progress (n : Z) (p : JavaProgress) (b : Batch) : Batch :=
  mkBatch (bt_permits b) n p (bt_tasks b) (bt_queue b) (bt_taken b) (bt_result b).
Definition bt_set_queue (q : list (io unit)) (taken : nat) (b : Batch) : Batch :=
  mkBatch (bt_permits b) (bt_aggregate b) (bt_progress b) (bt_tasks b) q taken (bt_result b).
Definition bt_set_result (r : io unit) (b : Batch) : Batch :=
  mkBatch (bt_permits b) (bt_aggregate b) (bt_progress b) (bt_tasks b) (bt_queue b) (bt_taken b) (Some r).

(** [progress.update], with the aggregate. *)
Definition batch_observed (b : Batch) : io unit * Batch :=
  let '(r, p) := update (bt_aggregate b) (bt_progress b) in (r, bt_set_progress (bt_aggregate b) p b).

(** [BatchProgressReader::poll_read]; the new world of the task is returned. *)
Definition batch_poll_read (max : Z) (ready : bool) (w : World) (b : Batch) : poll (io (list Z)) * World * Batch :=
  match batch_observed b with
  | (Err e, b) => (Ready (Err e), w, b)
  | (Ok _, b) =>
      if negb ready then (Pending, w, b)
      else match next_read max w with
           | (Err e, w) => (Ready (Err e), w, b)
           | (Ok bytes, w) =>
               let aggregate := saturating_add64 (bt_aggregate b) (len bytes) in
               let '(r, b) := batch_observed (bt_set_progress aggregate (bt_progress b) b) in
               (Ready (match r with Err e => Err e | Ok _ => Ok bytes end), w, b)
           end
  end.

Inductive batch_event :=
| BTurn (i : nat)       (** task [i] goes on *)
| BPoll (i : nat)       (** task [i] is polled in vain *)
| BPanic (i : nat) (message : list Z)   (** task [i] panics; [message] is the text of its [JoinError] *)
| BJoin.                (** [join_next] *)

(** A read of the task's source; [None] while it is pending. *)
Definition batch_read (max : Z) (ready : bool) (k : io (list Z) → tprog unit) (w : World) (b : Batch) : tprog unit * World * Batch :=
  match batch_poll_read max ready w b with
  | (Ready x, w, b) => (k x, w, b)
  | (Pending, w, b) => (Vis (ERead max) k, w, b)
  end.

(** One interaction of a running task. *)
Definition batch_interact {X} (ready : bool) (e : effect X) : (X → tprog unit) → World → Batch → tprog unit * World * Batch :=
  match e in effect X return (X → tprog unit) → World → Batch → tprog unit * World * Batch with
  | ERead max => batch_read max ready
  | e => λ k w b, if ready then let '(x, w) := handle e w in (k x, w, b) else (Vis e k, w, b)
  end.

Definition task_turn (ready : bool) (i : nat) (t : task) (b : Batch) : option Batch :=
  match tk_phase t with
  | Waiting =>
      if ready && (0 <? bt_permits b)
      then Some (bt_set_task i (Running (tk_program t) (tk_world t)) (bt_set_permits (bt_permits b - 1) b)) else None
  | Running (Vis e k) w => let '(p, w, b) := batch_interact ready e k w b in Some (bt_set_task i (Running p w) b)
  | Running (Ret r) w =>
      if ready
      then Some (bt_set_queue (bt_queue b ++ [r]) (bt_taken b) (bt_set_task i (Joinable r w) (bt_set_permits (bt_permits b + 1) b)))
      else None
  | _ => None
  end.

(** A panic ends a running task: its permit is dropped, and [join_next] makes an
    [io::Error::other] of the [JoinError]. *)
Definition task_panic (i : nat) (message : list Z) (t : task) (b : Batch) : option Batch :=
  match tk_phase t with
  | Running _ w =>
      let r := Err (other message) in
      Some (bt_set_queue (bt_queue b ++ [r]) (bt_taken b) (bt_set_task i (Joinable r w) (bt_set_permits (bt_permits b + 1) b)))
  | _ => None
  end.

(** [abort_all]: ended tasks stay ended. *)
Definition abort (t : task) : task := match tk_phase t with Joinable _ _ => t | _ => set_phase Aborted t end.

Definition batch_step (total : Z) (ev : batch_event) (b : Batch) : option Batch :=
  match bt_result b with
  | Some _ => None
  | None =>
      match ev with
      | BTurn i => match bt_tasks b !! i with Some t => task_turn true i t b | None => None end
      | BPoll i => match bt_tasks b !! i with Some t => task_turn false i t b | None => None end
      | BPanic i message => match bt_tasks b !! i with Some t => task_panic i message t b | None => None end
      | BJoin =>
          match bt_queue b with
          | Ok _ :: q => Some (bt_set_queue q (S (bt_taken b)) b)
          | Err e :: q =>
              let b := bt_set_queue q (S (bt_taken b)) b in
              Some (bt_set_result (Err e)
                     (mkBatch (bt_permits b) (bt_aggregate b) (bt_progress b) (map abort (bt_tasks b)) (bt_queue b) (bt_taken b) None))
          | [] =>
              if (bt_taken b =? length (bt_tasks b))%nat
              then let '(r, p) := update total (bt_progress b) in Some (bt_set_result r (bt_set_progress (bt_aggregate b) p b))
              else None
          end
      end
  end.

(** Events that are not possible are skipped. *)
Definition run_batch (total : Z) (evs : list batch_event) (b : Batch) : Batch :=
  fold_left (λ b ev, default b (batch_step total ev b)) evs b.

(** [sizes.iter().try_fold(0, checked_add)]. *)
Fixpoint checked_total (sizes : list Z) (total : Z) : option Z :=
  match sizes with
  | [] => Some total
  | size :: t => match checked_add64 total size with Some n => checked_total t n | None => None end
  end.

Section Functions.
Context (runtime : result (list Z) unit) `{C : Crypto} (dial : dialer).

Definition batch_task (item : list Z * list Z * list Z * list Z * Z * FileHandle) : task :=
  let '(endpoint, public_key, ticket, file_id, size, file) := item in
  let d := dialled dial endpoint public_key in
  mkTask (media_session d ticket (λ c, upload_media c file_id size)) (tr_world (transfer_start d file None [] None)) Waiting.

Definition batch_start (progress : JavaProgress) (items : list (list Z * list Z * list Z * list Z * Z * FileHandle)) : Batch :=
  mkBatch 3 0 progress (map batch_task items) [] 0 None.

(** [zip]: up to the shortest. *)
Fixpoint zip_items (endpoints keys tickets ids : list (list Z)) (sizes : list Z) (files : list FileHandle)
  : list (list Z * list Z * list Z * list Z * Z * FileHandle) :=
  match endpoints, keys, tickets, ids, sizes, files with
  | a :: endpoints, b :: keys, c :: tickets, d :: ids, e :: sizes, f :: files =>
      (a, b, c, d, e, f) :: zip_items endpoints keys tickets ids sizes files
  | _, _, _, _, _, _ => []
  end.

(** Every descriptor is duplicated, up to the first that cannot be. *)
Fixpoint duplicate_files (dups : list (result (list Z) FileHandle)) : jni (list FileHandle) :=
  match dups with
  | [] => jret []
  | d :: t => java f := duplicate_file d in java fs := duplicate_files t in jret (f :: fs)
  end.

(** The length and the region of a Java array of numbers. *)
Abbreviation JNumbers := (result (list Z) Z * result (list Z) (list Z))%type.

Definition nativeUploadBatch (endpoints public_keys tickets file_ids : result (list Z) (list (result (list Z) JString)))
    (sizes fds : JNumbers) (dups : list (result (list Z) FileHandle)) (observer : Observer) (schedule : list batch_event)
  : Jni → option (Z * option Batch) * Jni := λ s,
  let body : jni (io unit * Batch) :=
    java endpoints := java_string_array endpoints in
    java supplied_public_keys := java_string_array public_keys in
    java tickets := java_string_array tickets in
    java file_ids := java_string_array file_ids in
    let count := len endpoints in
    let bad := lit "media batch arrays must have the same 1..64 length" in
    reject_if (count =? 0) || (64 <? count) || negb (len supplied_public_keys =? count) || negb (len tickets =? count)
              || negb (len file_ids =? count) with bad;
    java sizes_len := jlift sizes.1 in
    reject_if negb (sizes_len =? count) with bad;
    java fds_len := jlift fds.1 in
    reject_if negb (fds_len =? count) with bad;
    java sizes_raw := jlift (map_err (λ e, lit "invalid media size array: " ++ e) sizes.2) in
    java fds_raw := jlift (map_err (λ e, lit "invalid media descriptor array: " ++ e) fds.2) in
    reject_if existsb (λ v, v <? 0) sizes_raw || existsb (λ v, v <? 0) fds_raw
      with lit "media batch contains an invalid size or descriptor";
    java total := jlift (ok_or (checked_total sizes_raw 0) (lit "media batch total size overflow")) in
    java progress := progress_new observer total in
    java progress := jlift (ok_or progress (lit "media batch observer is required")) in
    let '(r, progress) := update 0 progress in
    java _ := jio r in
    java files := duplicate_files dups in
    let items := zip_items endpoints supplied_public_keys tickets file_ids sizes_raw files in
    java _ := jlift runtime in
    let b := run_batch total schedule (batch_start progress items) in
    match bt_result b with
    | Some r => jret (r, b)
    | None => jblock
    end in
  match body s with
  | (Completed (Ok _, b), s) => (Some (JNI_TRUE, Some b), s)
  | (Completed (Err e, b), s) => (Some (JNI_FALSE, Some b), throw_io (emsg e) s)
  | (Rejected e, s) => (Some (JNI_FALSE, None), throw_io e s)
  | (Blocked, s) => (None, s)
  end.
End Functions.
