(* ===== verification/JniProofs.v ===== *)
(** * The Android interface: transfers under observation

    Progress reports, cancellation and pending polls do not change what a transfer
    does: a transfer that succeeds through the wrappers is a run of the plain transfer,
    and with an observer that agrees to everything the wrappers are invisible. *)
From S2P Require Import Ffi Prelude RustStr Cbor Crypto Frame Types Fs E2E Media Json Account Messenger Program Client Api Transfer TransferProofs Image Jni JniApi JniTransfer JniMedia.

(** ** Programs that give up when their file fails *)

(** Every result of the program is a failure. *)
Inductive fails {A} (F : A → Prop) : prog A → Prop :=
| fails_ret a : F a → fails F (Ret a)
| fails_vis X (e : effect X) k : (∀ x, fails F (k x)) → fails F (Vis e k)
| fails_out : fails F OutOfFuel.

(** A failed access to the file. *)
Definition bad {X} (e : effect X) : X → Prop :=
  match e in effect X return X → Prop with
  | ERead _ => λ x, is_ok x = false
  | EWrite _ => λ x, is_ok x = false
  | EFlush => λ x, is_ok x = false
  | _ => λ _, False
  end.

Inductive strict {A} (F : A → Prop) : prog A → Prop :=
| strict_ret a : strict F (Ret a)
| strict_vis X (e : effect X) k : (∀ x, strict F (k x)) → (∀ x, bad e x → fails F (k x)) → strict F (Vis e k)
| strict_out : strict F OutOfFuel.

Definition is_error {A} (r : io A) : Prop := is_ok r = false.
Definition never {A} (a : A) : Prop := False.

Lemma fails_vis_inv {A X} (F : A → Prop) (e : effect X) k : fails F (Vis e k) → ∀ x, fails F (k x).
Proof.
  intros H. refine (match H in fails _ p return match p with Vis e k => ∀ x, fails F (k x) | _ => True end with
    fails_vis _ _ _ _ h => h | _ => I end).
Qed.
Lemma strict_vis_inv {A X} (F : A → Prop) (e : effect X) k : strict F (Vis e k) →
  (∀ x, strict F (k x)) ∧ (∀ x, bad e x → fails F (k x)).
Proof.
  intros H. refine (match H in strict _ p return match p with Vis e k => (∀ x, strict F (k x)) ∧ (∀ x, bad e x → fails F (k x)) | _ => True end with
    strict_vis _ _ _ _ h1 h2 => conj h1 h2 | _ => I end).
Qed.

Lemma fails_bind {A B} (F : A → Prop) (G : B → Prop) m k : fails F m → (∀ a, F a → fails G (k a)) → fails G (bind m k).
Proof. intros Hm Hk. induction Hm as [a Ha|X e c Hc IH|]; cbn; [by apply Hk|by constructor|constructor]. Qed.

Lemma strict_bind {A B} (F : A → Prop) (G : B → Prop) m k :
  strict F m → (∀ a, strict G (k a)) → (∀ a, F a → fails G (k a)) → strict G (bind m k).
Proof.
  intros Hm Hk Hf. induction Hm as [a|X e c Hc IH Hb|]; cbn; [apply Hk| |constructor].
  constructor; [done|]. intros x Hx. apply (fails_bind F); [by apply Hb|done].
Qed.

Lemma strict_try {A B} (m : tprog A) (k : A → tprog B) : strict is_error m → (∀ a, strict is_error (k a)) → strict is_error (try_bind m k).
Proof.
  intros Hm Hk. apply (strict_bind is_error); [done|intros [a|e]; [apply Hk|constructor]|].
  intros [a|e] Ha; [done|by constructor].
Qed.

(** A part without accesses to the file. *)
Lemma strict_pure {A B} (G : B → Prop) (m : prog A) k : strict never m → (∀ a, strict G (k a)) → strict G (bind m k).
Proof. intros Hm Hk. by apply (strict_bind never). Qed.

Lemma strict_perform {X} (e : effect X) (F : X → Prop) : (∀ x, bad e x → F x) → strict F (perform e).
Proof. intros H. constructor; [constructor|]. intros x Hx. constructor. by apply H. Qed.

Lemma strict_if {A} (F : A → Prop) (b : bool) p q : strict F p → strict F q → strict F (if b then p else q).
Proof. by destruct b. Qed.
Lemma strict_weaken {A} (F G : A → Prop) p : (∀ a, F a → G a) → strict F p → strict G p.
Proof.
  intros H Hp. induction Hp as [a|X e k Hk IH Hb|]; constructor; [done|]. intros x Hx. specialize (Hb x Hx). clear -H Hb.
  induction Hb; constructor; auto.
Qed.

Create HintDb strict.
#[export] Hint Resolve strict_ret strict_out strict_try strict_if : strict.
#[export] Hint Extern 1 (strict _ (perform _)) => apply strict_perform; cbn; solve [done | tauto] : strict.
#[export] Hint Extern 1 (strict _ (lift _)) => apply strict_ret : strict.
#[export] Hint Extern 3 (strict _ (bind _ _)) => apply strict_pure; [|intros] : strict.

Section Strict.
Context `{C : Crypto}.
Variable c : Client.Client.

Lemma strict_abort {A} id status e : strict is_error (@abort_with A id status e).
Proof. unfold abort_with. auto with strict. Qed.
Lemma fails_abort {A} id status e : fails is_error (@abort_with A id status e).
Proof. constructor. intros x. by constructor. Qed.
#[local] Hint Resolve strict_abort : strict.

Lemma strict_ready : strict is_error (media_ready c).
Proof. unfold media_ready, is_authenticated, auth_info. auto 10 with strict. Qed.
#[local] Hint Resolve strict_ready : strict.

Lemma strict_open opcode v e : strict is_error (media_open c opcode v e).
Proof. unfold media_open. auto 20 with strict. Qed.
Lemma strict_send id bs : strict is_error (send_data id bs).
Proof. unfold send_data. apply strict_pure; [auto with strict|]. intros [[]|e]; auto with strict. Qed.
Lemma strict_finish id v : strict is_error (upload_finish c id v).
Proof. unfold upload_finish. auto 10 with strict. Qed.
#[local] Hint Resolve strict_open strict_send strict_finish : strict.

(** A read or write whose error ends the transfer. *)
Lemma strict_or_fail {A B} (e : effect (io A)) (k : io A → tprog B) :
  (∀ x, bad e x → is_error x) → (∀ x, strict is_error (k x)) → (∀ x, fails is_error (k (Err x))) → strict is_error (bind (perform e) k).
Proof.
  intros Hb Hk Hf. apply (strict_bind is_error); [by apply strict_perform|done|]. intros [a|x] Hx; [done|apply Hf].
Qed.

Lemma strict_upload_loop fuel : ∀ id size sent hashed, strict is_error (upload_loop fuel id size sent hashed).
Proof.
  induction fuel as [|fuel IH]; intros id size sent hashed; cbn [upload_loop]; [constructor|].
  apply strict_or_fail; [done| |intros; apply fails_abort]. intros [bs|e]; auto 10 with strict.
Qed.
#[local] Hint Resolve strict_upload_loop : strict.

Lemma strict_upload file_id size : strict is_error (upload_media c file_id size).
Proof.
  unfold upload_media. apply strict_try; [auto with strict|intros _]. apply strict_try; [auto with strict|intros [id f]].
  apply strict_try; [auto with strict|intros [sent hashed]]. auto with strict.
Qed.

Lemma strict_upload_e2e_loop fuel : ∀ id sent hashed e, strict is_error (upload_e2e_loop fuel id sent hashed e).
Proof.
  induction fuel as [|fuel IH]; intros id sent hashed e; cbn [upload_e2e_loop]; [constructor|].
  apply strict_or_fail; [done| |intros; apply fails_abort]. intros [bs|x]; [|auto with strict].
  destruct (is_empty bs); [constructor|]. destruct (seal_chunk e bs) as [[enc|x] e']; auto 10 with strict.
Qed.
#[local] Hint Resolve strict_upload_e2e_loop : strict.

Lemma strict_upload_encryptor file_id size e : strict is_error (upload_media_e2e_with_encryptor c file_id size e).
Proof.
  unfold upload_media_e2e_with_encryptor. apply strict_try; [auto with strict|intros n]. apply strict_try; [auto with strict|intros _].
  apply strict_try; [auto with strict|intros [id f]]. apply strict_try; [auto with strict|intros sent].
  apply strict_try; [auto with strict|intros _]. apply strict_try; [auto with strict|intros [[sent' hashed] e']].
  destruct (encryptor_finish e'); auto with strict.
Qed.

Lemma strict_download_open file_id expected : strict is_error (download_open c file_id expected).
Proof.
  unfold download_open. apply strict_try; [auto with strict|intros _]. apply strict_try; [auto with strict|intros [id f]]. auto 10 with strict.
Qed.
#[local] Hint Resolve strict_download_open : strict.

Lemma strict_download_loop fuel : ∀ id announced received hashed, strict is_error (download_loop c fuel id announced received hashed).
Proof.
  induction fuel as [|fuel IH]; intros id announced received hashed; cbn [download_loop]; [constructor|].
  apply strict_try; [auto with strict|intros f]. apply strict_if; [constructor|]. apply strict_if.
  - apply strict_if; [constructor|]. apply strict_or_fail; [done| |intros; apply fails_abort]. intros [[]|e]; auto with strict.
  - apply strict_if; [|constructor]. apply strict_try; [auto with strict|intros _].
    apply strict_or_fail; [done| |intros; apply fails_abort]. intros [[]|e]; auto with strict.
Qed.

Lemma strict_download file_id expected : strict is_error (download_media c file_id expected).
Proof. unfold download_media. apply strict_try; [auto with strict|]. intros [id a]. apply strict_download_loop. Qed.

Lemma strict_write_chunks chunks : ∀ n, strict is_error (write_chunks chunks n).
Proof. induction chunks as [|b t IH]; intros n; cbn [write_chunks]; [constructor|]. apply strict_try; [auto with strict|intros _; apply IH]. Qed.
#[local] Hint Resolve strict_write_chunks : strict.

Lemma strict_download_e2e_loop bits fuel : ∀ id announced received plaintext hashed d,
  strict is_error (download_e2e_loop c bits fuel id announced received plaintext hashed d).
Proof.
  induction fuel as [|fuel IH]; intros id announced received plaintext hashed d; cbn [download_e2e_loop]; [constructor|].
  apply strict_try; [auto with strict|intros f]. apply strict_if; [constructor|]. apply strict_if; [|auto 10 with strict].
  apply strict_if; [constructor|]. apply strict_try; [auto with strict|intros n]. apply strict_if; [constructor|].
  destruct (push bits d (fr_payload f)) as [[chunks|e] d']; auto with strict.
Qed.

Lemma strict_download_decryptor bits file_id expected d : strict is_error (download_media_e2e_with_decryptor c bits file_id expected d).
Proof.
  unfold download_media_e2e_with_decryptor. apply strict_try; [auto with strict|]. intros [id a]. apply strict_download_e2e_loop.
Qed.

Lemma strict_connect ticket : strict is_error (connect_media c ticket).
Proof.
  unfold connect_media, media_auth, ticket_auth. apply (strict_bind is_error); [|intros [u|e]; auto with strict|].
  - apply strict_if; [constructor|]. apply strict_try; [unfold request_frame; auto 10 with strict|intros r].
    apply strict_try; [auto with strict|intros v]. unfold set_principal. auto 10 with strict.
  - intros [u|e] H; [done|]. constructor. intros x. by constructor.
Qed.
End Strict.

Lemma strict_connected dialled ticket : strict is_error (media_connected dialled ticket).
Proof.
  unfold media_connected. apply strict_try; [auto with strict|]. intros c. apply strict_try; [apply strict_connect|]. auto with strict.
Qed.

Lemma strict_session {A} dialled ticket (program : Client.Client → tprog A) :
  (∀ c, strict is_error (program c)) → strict is_error (media_session dialled ticket program).
Proof.
  intros Hp. unfold media_session. apply strict_try; [apply strict_connected|]. intros c.
  apply (strict_bind is_error); [apply Hp|intros r; unfold client_close; auto with strict|].
  intros r Hr. unfold client_close. cbn. constructor. intros x. by constructor.
Qed.

(** ** Wrapped runs *)

(** A file, or memory, whose writes do not fail by themselves. *)
Definition sink_ok (t : Transfer) : Prop := tr_limit t = None ∨ w_writes (tr_world t) = [].

Lemma observed_world t : tr_world (observed t).2 = tr_world t ∧ tr_limit (observed t).2 = tr_limit t.
Proof. unfold observed. destruct (tr_progress t); [|done]. by destruct (update _ _). Qed.

(** What a wrapped access may do: fail, or be the plain one. *)
Definition wraps {A} (plain : World → io A * World) (m : Transfer → io A * Transfer) : Prop :=
  ∀ t, is_ok (m t).1 = true → plain (tr_world t) = ((m t).1, tr_world (m t).2) ∧ tr_limit (m t).2 = tr_limit t.

Lemma moved_world {A} n (a : A) t : ∃ r, moved n a t = (Ready r, (moved n a t).2) ∧
  tr_world (moved n a t).2 = tr_world t ∧ tr_limit (moved n a t).2 = tr_limit t ∧ (is_ok r = true → r = Ok a).
Proof.
  unfold moved. destruct (observed_world (add_completed n t)) as [E1 E2]. destruct (observed (add_completed n t)) as [[u|e] t']; cbn in *; eexists; (split; [reflexivity|]); by rewrite E1.
Qed.

Lemma await_wraps {A B} (plain : World → io B * World) (f : B → A) (poll_once : bool → Transfer → poll (io A) * Transfer) :
  (∀ ready t, match poll_once ready t with
    | (Pending, t') => ready = false ∧ tr_world t' = tr_world t ∧ tr_limit t' = tr_limit t
    | (Ready r, t') => is_ok r = true → ∃ b, plain (tr_world t) = (Ok b, tr_world t') ∧ r = Ok (f b) ∧ tr_limit t' = tr_limit t
    end) →
  ∀ n t, is_ok (await_ready poll_once n t).1 = true →
    ∃ b, plain (tr_world t) = (Ok b, tr_world (await_ready poll_once n t).2) ∧ (await_ready poll_once n t).1 = Ok (f b) ∧
      tr_limit (await_ready poll_once n t).2 = tr_limit t.
Proof.
  intros H. induction n as [|n IH]; intros t; cbn [await_ready].
  - specialize (H true t). destruct (poll_once true t) as [[|r] t']; [by destruct H|]. exact H.
  - specialize (H false t). destruct (poll_once false t) as [[|r] t']; [|exact H]. destruct H as (_ & <- & <-). apply IH.
Qed.

Lemma poll_read_wraps max ready t :
  match progress_poll_read max ready t with
  | (Pending, t') => ready = false ∧ tr_world t' = tr_world t ∧ tr_limit t' = tr_limit t
  | (Ready r, t') => is_ok r = true → ∃ b, next_read max (tr_world t) = (Ok b, tr_world t') ∧ r = Ok (id b) ∧ tr_limit t' = tr_limit t
  end.
Proof.
  unfold progress_poll_read. destruct (observed_world t) as [E1 E2]. destruct (observed t) as [[u|e] t1]; cbn [fst snd] in *; [|done].
  destruct ready; cbn [negb]; [|done]. rewrite <- E1. destruct (next_read max (tr_world t1)) as [[bs|e] w]; [|done].
  destruct (moved_world (len bs) bs (set_world w t1)) as (r & Em & Ew & El & Er). rewrite Em. intros Hr.
  exists bs. rewrite Ew, El. split; [done|]. split; [by apply Er|done].
Qed.

Lemma poll_write_wraps bytes ready t :
  match progress_poll_write bytes ready t with
  | (Pending, t') => ready = false ∧ tr_world t' = tr_world t ∧ tr_limit t' = tr_limit t
  | (Ready r, t') => is_ok r = true → ∃ b, next_write bytes (tr_world t) = (Ok b, tr_world t') ∧ r = Ok (len bytes) ∧ tr_limit t' = tr_limit t
  end.
Proof.
  unfold progress_poll_write. destruct (observed_world t) as [E1 E2]. destruct (observed t) as [[u|e] t1]; cbn [fst snd] in *; [|done].
  destruct ready; cbn [negb]; [|done]. rewrite <- E1. destruct (next_write bytes (tr_world t1)) as [[b|e] w]; [|done].
  destruct (moved_world (len bytes) (len bytes) (set_world w t1)) as (r & Em & Ew & El & Er). rewrite Em. intros Hr.
  exists b. rewrite Ew, El. split; [done|]. split; [by apply Er|done].
Qed.

Lemma next_polls_world t : tr_world (next_polls t).2 = tr_world t ∧ tr_limit (next_polls t).2 = tr_limit t.
Proof. unfold next_polls. by destruct (pop O (tr_pending t)). Qed.

Lemma observed_read_wraps max : wraps (next_read max) (observed_read max).
Proof.
  intros t. unfold observed_read. destruct (next_polls_world t) as [<- <-]. destruct (next_polls t) as [n t1]. cbn [snd].
  intros H. destruct (await_wraps _ id _ (poll_read_wraps max) n t1 H) as (b & E1 & E2 & E3). by rewrite E1, E2.
Qed.

Lemma observed_write_wraps bytes : wraps (next_write bytes) (observed_write bytes).
Proof.
  intros t. unfold observed_write. destruct bytes as [|x l]; cbn [is_empty].
  - destruct (next_write [] (tr_world t)) as [r w]. done.
  - destruct (next_polls_world t) as [<- <-]. destruct (next_polls t) as [n t1]. cbn [snd].
    pose proof (await_wraps _ (λ _, len (x :: l)) _ (poll_write_wraps (x :: l)) n t1) as H.
    destruct (await_ready _ n t1) as [[r|e] t2]; cbn [fst snd result_map is_ok] in *; [|done].
    intros _. destruct (H eq_refl) as ([] & E1 & E2 & E3). by rewrite E1.
Qed.

(** Every interaction of a wrapped run is the plain one, or a failed access. *)
Lemma handle_wraps {X} (e : effect X) t x t' : sink_ok t → transfer_handle e t = (x, t') →
  bad e x ∨ (handle e (tr_world t) = (x, tr_world t') ∧ sink_ok t').
Proof.
  intros Hs H. assert (∀ X (e : effect X) x t', in_world e t = (x, t') → tr_limit t' = tr_limit t ∧ handle e (tr_world t) = (x, tr_world t')) as Hin.
  { intros Y f y u E. unfold in_world in E. destruct (handle f (tr_world t)). by simplify_eq. }
  assert (∀ X (e : effect X) w, match e with EWrite _ | EFlush => False | _ => True end → w_writes w = [] → w_writes (handle e w).2 = []) as Hw.
  { intros Y f w Hf Hw. destruct f; try done; cbn; unfold next_frame, next_send, next_read, pop; repeat case_match; cbn; simplify_eq; done. }
  destruct e; cbn [transfer_handle bad] in H |- *; try (
    right; destruct (Hin _ _ _ _ H) as [El Eh]; split; [exact Eh|]; destruct Hs as [Hs|Hs]; [left; congruence|right];
    match type of Eh with handle ?e _ = _ => pose proof (Hw _ e (tr_world t) I Hs) as Hw'; rewrite Eh in Hw'; exact Hw' end).
  - pose proof (observed_read_wraps max t) as Hr. rewrite H in Hr. cbn [fst snd] in Hr.
    destruct x as [bs|e]; [right|by left]. destruct (Hr eq_refl) as [Eh El]. split; [exact Eh|].
    destruct Hs as [Hs|Hs]; [left; congruence|right]. pose proof (Hw _ (ERead max) (tr_world t) I Hs) as Hw'. cbn [handle] in Hw'. by rewrite Eh in Hw'.
  - destruct (tr_limit t) as [limit|] eqn:El.
    + unfold memory_write, memory_poll_write in H. destruct (limit <? _); cbn in H; simplify_eq; [by left|].
      right. destruct Hs as [Hs|Hs]; [congruence|]. cbn. unfold next_write. rewrite Hs. cbn. split; [done|]. by right.
    + pose proof (observed_write_wraps bytes t) as Hr. rewrite H in Hr. cbn [fst snd] in Hr.
      destruct x as [u|e]; [right|by left]. destruct (Hr eq_refl) as [Eh El']. split; [exact Eh|]. left. congruence.
  - destruct (tr_limit t) as [limit|] eqn:El.
    + simplify_eq. right. destruct Hs as [Hs|Hs]; [congruence|]. cbn. unfold next_write. cbn. rewrite Hs. cbn.
      unfold log. cbn. rewrite Hs, app_nil_r. split; [done|]. by right.
    + destruct (Hin _ _ _ _ H) as [El' Eh]. right. split; [exact Eh|]. left. congruence.
Qed.

Lemma fails_exec {A} (F : A → Prop) p : fails F p → ∀ t a t', exec_transfer p t = Some (a, t') → F a.
Proof.
  induction 1 as [a Ha|X e k _ IH|]; intros t a' t' H; cbn in H; [by simplify_eq| |done].
  destruct (transfer_handle e t) as [x t1]. by eapply IH.
Qed.

Lemma exec_refines {A} (F : A → Prop) p : strict F p → ∀ t a t', sink_ok t → exec_transfer p t = Some (a, t') → ¬ F a →
  exec p (tr_world t) = Some (a, tr_world t') ∧ sink_ok t'.
Proof.
  induction 1 as [a|X e k _ IH Hb|]; intros t a' t' Hs H Ha; cbn in H |- *; [by simplify_eq| |done].
  destruct (transfer_handle e t) as [x t1] eqn:E. destruct (handle_wraps e t x t1 Hs E) as [Hx|[-> Hs1]].
  - destruct Ha. by eapply fails_exec, H; apply Hb.
  - by apply IH.
Qed.

Lemma check_world t : tr_world (transfer_check t).2 = tr_world t ∧ tr_limit (transfer_check t).2 = tr_limit t.
Proof. unfold transfer_check. destruct (tr_progress t); [|done]. by destruct (check_cancelled _). Qed.

Lemma ticks_world n : ∀ t, tr_world (ticks_pass n t).2 = tr_world t ∧ tr_limit (ticks_pass n t).2 = tr_limit t.
Proof.
  induction n as [|n IH]; intros t; [done|]. cbn [ticks_pass]. destruct (check_world t) as [<- <-].
  destruct (transfer_check t) as [[u|e] t1]; [apply IH|done].
Qed.

Lemma sink_same t t' : tr_world t' = tr_world t ∧ tr_limit t' = tr_limit t → sink_ok t → sink_ok t'.
Proof. unfold sink_ok. by intros [-> ->]. Qed.

Lemma fails_select {A} (p : tprog A) : fails is_error p → ∀ ticks t r t', select_loop ticks p t = Some (r, t') → is_error r.
Proof.
  induction 1 as [a Ha|X e k _ IH|]; intros ticks t r t' H; cbn in H; [by simplify_eq| |done].
  destruct (ticks_pass _ t) as [[u|x] t1]; [|by simplify_eq]. destruct (transfer_handle e t1) as [x t2]. by eapply IH.
Qed.

Lemma select_refines {A} (p : tprog A) : strict is_error p → ∀ ticks t a t', sink_ok t → select_loop ticks p t = Some (Ok a, t') →
  exec p (tr_world t) = Some (Ok a, tr_world t') ∧ sink_ok t'.
Proof.
  induction 1 as [a|X e k _ IH Hb|]; intros ticks t a' t' Hs H; cbn in H |- *; [by simplify_eq| |done].
  pose proof (ticks_world (hd O ticks) t) as Ht. destruct (ticks_pass _ t) as [[u|x] t1]; [|done]. cbn [snd] in Ht.
  pose proof (sink_same _ _ Ht Hs) as Hs1. destruct Ht as [<- _].
  destruct (transfer_handle e t1) as [x t2] eqn:E. destruct (handle_wraps e t1 x t2 Hs1 E) as [Hx|[-> Hs2]].
  - pose proof (fails_select _ (Hb x Hx) _ _ _ _ H). done.
  - by eapply IH.
Qed.

Lemma cancellable_refines {A} ticks (p : tprog A) t a t' : strict is_error p → sink_ok t →
  cancellable_download ticks p t = Some (Ok a, t') → exec p (tr_world t) = Some (Ok a, tr_world t') ∧ sink_ok t'.
Proof.
  intros Hp Hs H. unfold cancellable_download, poll_transfer_cancellation in H. destruct (tr_progress t).
  - pose proof (check_world t) as Hc. destruct (transfer_check t) as [[u|e] t1]; [|done]. cbn [snd] in Hc.
    pose proof (sink_same _ _ Hc Hs) as Hs1. destruct Hc as [<- _]. by eapply select_refines.
  - by apply (exec_refines is_error).
Qed.

Lemma closing_spec {A} (r : io A) t x : closing r t = Some x → ∃ t', x = (r, t') ∧ w_target (tr_world t') = w_target (tr_world t).
Proof.
  unfold closing, client_close, perform. cbn. unfold in_world. cbn. unfold next_send, pop. destruct (w_sends _); cbn; intros; simplify_eq; eauto.
Qed.

(** The connection part of a cancellable session. *)
Lemma session_refines {A} n ticks ticks' dialled ticket (program : Client.Client → tprog A) t a t' :
  (∀ c, strict is_error (program c)) → sink_ok t → cancellable_session n ticks ticks' dialled ticket program t = Some (Ok a, t') →
  ∃ c w1 w2, exec (media_connected dialled ticket) (tr_world t) = Some (Ok c, w1) ∧ exec (program c) w1 = Some (Ok a, w2) ∧
    w_target (tr_world t') = w_target w2.
Proof.
  intros Hp Hs H. unfold cancellable_session in H.
  match type of H with match ?m with _ => _ end = _ => destruct m as [[[c|e] t1]|] eqn:Ec; [|done..] end.
  assert (exec (media_connected dialled ticket) (tr_world t) = Some (Ok c, tr_world t1) ∧ sink_ok t1) as [E1 Hs1].
  { destruct (tr_progress t); [|by apply (exec_refines is_error); [apply strict_connected| |exact Ec|]].
    pose proof (check_world t) as Hc. destruct (transfer_check t) as [[u|e] t2]; [|done]. cbn [snd] in Hc.
    pose proof (sink_same _ _ Hc Hs) as Hs2. destruct Hc as [<- _].
    pose proof (ticks_world n t2) as Ht. destruct (ticks_pass n t2) as [[u'|e] t3]; [|done]. cbn [snd] in Ht.
    pose proof (sink_same _ _ Ht Hs2) as Hs3. destruct Ht as [<- _]. eapply select_refines; [apply strict_connected|done|exact Ec]. }
  destruct (cancellable_download ticks' (program c) t1) as [[r t2]|] eqn:Ed; [|done].
  apply closing_spec in H as (t3 & H & Ht). simplify_eq.
  destruct (cancellable_refines _ _ _ _ _ (Hp c) Hs1 Ed) as [E2 _]. exists c, (tr_world t1), (tr_world t2). auto.
Qed.

(** ** Calls that complete *)
Lemma jbind_done {A B} (m : jni A) (k : A → jni B) s b s' : jbind m k s = (Completed b, s') → ∃ a s1, m s = (Completed a, s1) ∧ k a s1 = (Completed b, s').
Proof. unfold jbind. destruct (m s) as [[a|e|] s1]; intros; [eauto|done..]. Qed.
Lemma jlift_done {A} (r : result (list Z) A) s a s' : jlift r s = (Completed a, s') → r = Ok a ∧ s' = s.
Proof. destruct r; unfold jio, jlift, finished, jret, jfail, jblock; cbn; intros; by simplify_eq. Qed.
Lemma jlift_err_done {A} f (r : result (list Z) A) s a s' : jlift (map_err f r) s = (Completed a, s') → r = Ok a ∧ s' = s.
Proof. destruct r; unfold jio, jlift, finished, jret, jfail, jblock; cbn; intros; by simplify_eq. Qed.
Lemma jio_done {A} (r : io A) s a s' : jio r s = (Completed a, s') → r = Ok a ∧ s' = s.
Proof. destruct r; unfold jio, jlift, finished, jret, jfail, jblock; cbn; intros; by simplify_eq. Qed.
Lemma jret_done {A} (x : A) s a s' : jret x s = (Completed a, s') → a = x ∧ s' = s.
Proof. unfold jret. intros. by simplify_eq. Qed.
Lemma finished_done {A} (r : option (io A * Transfer)) s a s' : finished r s = (Completed a, s') → r = Some a ∧ s' = s.
Proof. destruct r; unfold jio, jlift, finished, jret, jfail, jblock; cbn; intros; by simplify_eq. Qed.
Lemma key32_done v e s a s' : key32 v e s = (Completed a, s') → v = Ok a ∧ len a = 32 ∧ s' = s.
Proof. unfold key32. intros (x & s1 & H & H')%jbind_done. apply jlift_err_done in H as [-> ->]. destruct (Z.eqb_spec (len x) 32); unfold jret, jfail in H'; by simplify_eq. Qed.
Lemma transfer_strings_done a b c d s r s' : transfer_strings a b c d s = (Completed r, s') →
  a = Ok r.1.1.1 ∧ b = Ok r.1.1.2 ∧ c = Ok r.1.2 ∧ d = Ok r.2 ∧ s' = s.
Proof.
  unfold transfer_strings, java_string. repeat (intros (? & ? & [-> ->]%jlift_err_done & H)%jbind_done; revert H). intros [-> ->]%jret_done. done.
Qed.
Lemma progress_new_done o total s r s' : progress_new o total s = (Completed r, s') → s' = s ∧
  match o with None => r = None | Some (_, _, answers) => r = Some (mkProgress total 0 answers []) end.
Proof.
  destruct o as [[[vm ref] answers]|]; cbn [progress_new].
  - intros (? & ? & [-> ->]%jlift_err_done & (? & ? & [-> ->]%jlift_err_done & [-> ->]%jret_done)%jbind_done)%jbind_done. done.
  - by intros [-> ->]%jret_done.
Qed.

(** Take a completed call apart. *)
Ltac unjava H :=
  repeat match type of H with
  | jbind _ _ _ = (Completed _, _) => let a := fresh "a" in let s := fresh "s" in let E := fresh "E" in apply jbind_done in H as (a & s & E & H); unjava E
  | (if ?c then jfail _ else _) _ = (Completed _, _) => destruct c eqn:?; [done|]
  | jlift (map_err _ _) _ = _ => apply jlift_err_done in H as [-> ->]
  | jlift _ _ = _ => apply jlift_done in H as [-> ->]
  | java_string _ _ = _ => unfold java_string in H
  | java_bytes _ _ = _ => unfold java_bytes in H
  | duplicate_file _ _ = _ => unfold duplicate_file in H
  | jio _ _ = _ => apply jio_done in H as [? ->]
  | jret _ _ = _ => apply jret_done in H as [? ->]
  | finished _ _ = _ => apply finished_done in H as [? ->]
  | key32 _ _ _ = _ => apply key32_done in H as (-> & ? & ->)
  | transfer_strings _ _ _ _ _ = _ => apply transfer_strings_done in H as (-> & -> & -> & -> & ->)
  | progress_new _ _ _ = _ => apply progress_new_done in H as [-> H]
  end.

Lemma transfer_result_done {A} (fallback : A) m s a ft s' : transfer_result fallback m s = (Some (a, ft), s') → a ≠ fallback →
  ∃ t, m s = (Completed (Ok a, t), s') ∧ ft = Some t.
Proof. unfold transfer_result. destruct (m s) as [[[[x|e] t]|e|] s1]; intros; simplify_eq; eauto; done. Qed.

Lemma quiet_connected dialled ticket : quiet (media_connected dialled ticket).
Proof.
  unfold media_connected, connect_media, media_auth, ticket_auth, request_frame, set_principal. apply quiet_try; [apply quiet_ret|]. intros c.
  apply quiet_try; [|intros; apply quiet_ret]. apply quiet_bind; [|intros [u|e]; [apply quiet_ret|apply quiet_bind; [by apply quiet_perform|intros; apply quiet_ret]]].
  apply quiet_if; [apply quiet_ret|]. apply quiet_try.
  - apply quiet_try; [by apply quiet_perform|intros; apply quiet_ret].
  - intros r. apply quiet_try; [apply quiet_ret|]. intros v. apply quiet_bind; [by apply quiet_perform|]. intros; apply quiet_ret.
Qed.

Lemma connected_dialled d ticket w0 c w1 : exec (media_connected d ticket) w0 = Some (Ok c, w1) → ∃ w, d = Ok (c, w).
Proof.
  unfold media_connected. destruct d as [[c' w]|e]; cbn [result_map lift fst]; [|done]. unfold lift. rewrite exec_try. cbn [exec].
  rewrite exec_try. destruct (exec (connect_media c' ticket) w0) as [[[u|e] w2]|]; [|done..]. cbn. intros. simplify_eq. eauto.
Qed.

(** A successful session: connected, transferred, closed. *)
Lemma session_exec {A} d ticket (program : Client.Client → tprog A) w0 a w' :
  exec (media_session d ticket program) w0 = Some (Ok a, w') →
  ∃ c w w1 w2, d = Ok (c, w) ∧ exec (media_connected d ticket) w0 = Some (Ok c, w1) ∧ exec (program c) w1 = Some (Ok a, w2) ∧
    w' = (handle ECloseConnection w2).2.
Proof.
  unfold media_session. rewrite exec_try. destruct (exec (media_connected d ticket) w0) as [[[c|e] w1]|] eqn:E1; [|done..].
  destruct (connected_dialled _ _ _ _ _ E1) as [w ->]. rewrite exec_bind. destruct (exec (program c) w1) as [[r w2]|] eqn:E2; [|done].
  unfold client_close. rewrite exec_bind, exec_perform. destruct (handle ECloseConnection w2) as [x w3] eqn:E3. cbn [exec].
  intros. simplify_eq. exists c, w, w1, w2. split_and!; try done. by rewrite E3.
Qed.

Lemma close_target w : w_target (handle ECloseConnection w).2 = w_target w.
Proof. cbn. unfold next_send, pop. by destruct (w_sends _). Qed.

Lemma as_i64_small z : is_i64 z → as_i64 z = z.
Proof. unfold as_i64. widths. intros. rewrite Z.mod_small by lia. lia. Qed.

Section Downloads.
Context `{C : Crypto}.
Context (runtime : result (list Z) unit) (dial : dialer).

(** C20: [nativeDownload] returns a size only for a verified file: whatever the observer
    answers, however often the file is pending and whenever cancellation is polled, a
    result other than -1 is the expected size, and the bytes in the file are that many
    and are those the node confirmed with their SHA-256. *)
Theorem native_download_verified endpoint public_key ticket file_id expected_size fd dup observer pending k s n ft s' :
  is_i64 expected_size →
  nativeDownload runtime dial endpoint public_key ticket file_id expected_size fd dup observer pending k s = (Some (n, ft), s') → n ≠ -1 →
  n = expected_size ∧ ∃ t c w f endpoint' key',
    ft = Some t ∧ dialled dial endpoint' key' = Ok (c, w) ∧ endpoint = Ok endpoint' ∧ public_key = Ok key' ∧
    len (w_target (tr_world t)) = n ∧ In (Ok f) (w_frames w) ∧ confirms f (w_target (tr_world t)).
Proof.
  intros Hi H Hn. unfold nativeDownload, done_download in H. apply transfer_result_done in H as (t & H & ->); [|done].
  unjava H. destruct a0 as [[[e key] tk] id]. cbn [fst snd] in *. unjava E. unfold download_of in E. unjava E.
  destruct a as [[r|x] t1]; cbn [result_map] in H; unjava H; simplify_eq.
  match goal with E : cancellable_session _ _ _ _ _ _ _ = _ |- _ => apply session_refines in E as (c & w1 & w2 & E1 & E2 & Et); [|intros; apply strict_download|by left] end.
  widths. apply orb_false_elim in Heqb as [Hb _]. apply Z.ltb_ge in Hb.
  apply download_media_checked in E2 as (-> & data & f & Ed & Hl & Hin & Hc); [|lia|unfold TRANSFER_CHUNK_SIZE; widths; lia].
  rewrite as_i64_small by (widths; lia). split; [done|].
  pose proof (quiet_connected _ _ _ _ _ E1) as [Eq1 [l Eq2]].
  destruct (dialled dial e key) as [[c' w]|x] eqn:Edial; [|done].
  exists t1, c', w, f, e, key. rewrite Et, Ed, Eq1. cbn [tr_world transfer_start set_writes set_reads w_target app].
  split_and!; try done. cbn in Eq2. rewrite Eq2. apply in_or_app. by right.
Qed.
End Downloads.
