(* ===== verification/JniWatch.v ===== *)
(** * The Android interface: the observer of a transfer

    - an observer that agrees to everything is invisible to the transfer;
    - a cancelled transfer never starts, and a running one ends at the next poll;
    - between two intermediate reports lie at least 125 ms. *)
From S2P Require Import Ffi Prelude RustStr Cbor Crypto Frame Types Fs E2E Media Json Account Messenger Program Client Api Transfer TransferProofs Image Jni JniApi JniTransfer JniMedia JniProofs.

(** ** Agreeable observers *)
Definition agrees (a : java_answer) : Prop := asked a = Ok tt ∧ an_progress a = Ok tt.
Definition agreeable (t : Transfer) : Prop := ∀ p, tr_progress t = Some p → Forall agrees (pg_answers p).

Lemma visit_agrees p : Forall agrees (pg_answers p) → agrees (visit p).1 ∧ Forall agrees (pg_answers (visit p).2).
Proof.
  unfold visit, pop. destruct (pg_answers p) as [|a l]; cbn; [done|]. intros H. by apply Forall_cons_iff in H.
Qed.

Lemma update_agrees c p : Forall agrees (pg_answers p) → (update c p).1 = Ok tt ∧ Forall agrees (pg_answers (update c p).2).
Proof.
  intros H. apply visit_agrees in H as [[H1 H2] H3]. unfold update. destruct (visit p) as [a q]. cbn [fst snd] in *. rewrite H1.
  destruct (_ && _); cbn; [done|]. by rewrite H2.
Qed.

Lemma observed_agrees t : agreeable t → ∃ t', observed t = (Ok tt, t') ∧ agreeable t' ∧ tr_world t' = tr_world t ∧ tr_limit t' = tr_limit t.
Proof.
  intros H. unfold observed. destruct (tr_progress t) as [p|] eqn:E; [|exists t; split_and!; try done; by rewrite E].
  destruct (update_agrees (tr_completed t) p (H p E)) as [E1 E2]. destruct (update _ p) as [r q]. cbn [fst snd] in *. subst r.
  exists (set_progress (Some q) t). split_and!; try done. intros q' Eq. cbn in Eq. by simplify_eq.
Qed.

Lemma check_agrees t : agreeable t → ∃ t', transfer_check t = (Ok tt, t') ∧ agreeable t' ∧ tr_world t' = tr_world t ∧ tr_limit t' = tr_limit t.
Proof.
  intros H. unfold transfer_check, check_cancelled. destruct (tr_progress t) as [p|] eqn:E; [|exists t; split_and!; try done; by rewrite E].
  destruct (visit_agrees p (H p E)) as [[E1 _] E2]. destruct (visit p) as [a q]. cbn [fst snd] in *. rewrite E1.
  exists (set_progress (Some q) t). split_and!; try done. intros q' Eq. cbn in Eq. by simplify_eq.
Qed.

Lemma ticks_agree n : ∀ t, agreeable t → ∃ t', ticks_pass n t = (Ok tt, t') ∧ agreeable t' ∧ tr_world t' = tr_world t ∧ tr_limit t' = tr_limit t.
Proof.
  induction n as [|n IH]; intros t H; cbn [ticks_pass]; [by exists t|].
  destruct (check_agrees t H) as (t1 & -> & H1 & <- & <-). by apply IH.
Qed.

(** A poll under an agreeable observer is the plain access. *)
Lemma moved_agrees {A} n (a : A) t : agreeable t → ∃ t', moved n a t = (Ready (Ok a), t') ∧ agreeable t' ∧ tr_world t' = tr_world t ∧ tr_limit t' = tr_limit t.
Proof. intros H. unfold moved. destruct (observed_agrees (add_completed n t) H) as (t1 & -> & H1 & E1 & E2). by exists t1. Qed.

Lemma await_agrees {A B} (plain : World → io B * World) (f : B → A) (poll_once : bool → Transfer → poll (io A) * Transfer) :
  (∀ t, agreeable t → ∃ t', poll_once false t = (Pending, t') ∧ agreeable t' ∧ tr_world t' = tr_world t ∧ tr_limit t' = tr_limit t) →
  (∀ t, agreeable t → ∃ t', poll_once true t = (Ready (result_map f (plain (tr_world t)).1), t') ∧ agreeable t' ∧
     tr_world t' = (plain (tr_world t)).2 ∧ tr_limit t' = tr_limit t) →
  ∀ n t, agreeable t → ∃ t', await_ready poll_once n t = (result_map f (plain (tr_world t)).1, t') ∧ agreeable t' ∧
    tr_world t' = (plain (tr_world t)).2 ∧ tr_limit t' = tr_limit t.
Proof.
  intros Hp Hr. induction n as [|n IH]; intros t H; cbn [await_ready].
  - destruct (Hr t H) as (t1 & -> & H1). by exists t1.
  - destruct (Hp t H) as (t1 & -> & H1 & <- & <-). by apply IH.
Qed.

Lemma agreeable_world w t : agreeable t → agreeable (set_world w t).
Proof. done. Qed.

Lemma poll_read_agrees max ready t : agreeable t → ∃ t', progress_poll_read max ready t =
    ((if ready then Ready (next_read max (tr_world t)).1 else Pending), t') ∧ agreeable t' ∧
    tr_world t' = (if ready then (next_read max (tr_world t)).2 else tr_world t) ∧ tr_limit t' = tr_limit t.
Proof.
  intros H. unfold progress_poll_read. destruct (observed_agrees t H) as (t1 & -> & H1 & E1 & E2). rewrite <- E1.
  destruct ready; cbn [negb]; [|by exists t1]. destruct (next_read max (tr_world t1)) as [[bs|e] w]; cbn [fst snd].
  - destruct (moved_agrees (len bs) bs (set_world w t1) H1) as (t2 & -> & H2 & E3 & E4). exists t2. split_and!; try done. exact (eq_trans E4 E2).
  - by exists (set_world w t1).
Qed.

Lemma poll_write_agrees bytes ready t : agreeable t → ∃ t', progress_poll_write bytes ready t =
    ((if ready then Ready (result_map (λ _, len bytes) (next_write bytes (tr_world t)).1) else Pending), t') ∧ agreeable t' ∧
    tr_world t' = (if ready then (next_write bytes (tr_world t)).2 else tr_world t) ∧ tr_limit t' = tr_limit t.
Proof.
  intros H. unfold progress_poll_write. destruct (observed_agrees t H) as (t1 & -> & H1 & E1 & E2). rewrite <- E1.
  destruct ready; cbn [negb]; [|by exists t1]. destruct (next_write bytes (tr_world t1)) as [[u|e] w]; cbn [fst snd].
  - destruct (moved_agrees (len bytes) (len bytes) (set_world w t1) H1) as (t2 & -> & H2 & E3 & E4). exists t2. split_and!; try done. exact (eq_trans E4 E2).
  - by exists (set_world w t1).
Qed.

Lemma next_polls_agrees t : agreeable t → ∃ n t', next_polls t = (n, t') ∧ agreeable t' ∧ tr_world t' = tr_world t ∧ tr_limit t' = tr_limit t.
Proof. intros H. unfold next_polls. destruct (pop O (tr_pending t)) as [n l]. by exists n, (set_pending l t). Qed.

Lemma handle_agrees {X} (e : effect X) t : agreeable t → tr_limit t = None →
  ∃ t', transfer_handle e t = ((handle e (tr_world t)).1, t') ∧ agreeable t' ∧ tr_world t' = (handle e (tr_world t)).2 ∧ tr_limit t' = None.
Proof.
  intros H Hl.
  assert (∀ X (e : effect X), ∃ t', in_world e t = ((handle e (tr_world t)).1, t') ∧ agreeable t' ∧ tr_world t' = (handle e (tr_world t)).2 ∧ tr_limit t' = None) as Hin.
  { intros Y f. unfold in_world. destruct (handle f (tr_world t)) as [x w]. by exists (set_world w t). }
  destruct e; try exact (Hin _ _); cbn [transfer_handle]; rewrite ?Hl.
  - unfold observed_read. destruct (next_polls_agrees t H) as (n & t1 & -> & H1 & E1 & E2).
    destruct (await_agrees (next_read max) id (progress_poll_read max)) with (n := n) (t := t1) as (t2 & -> & H2 & E3 & E4).
    + intros u Hu. by destruct (poll_read_agrees max false u Hu) as (u' & -> & ?); exists u'.
    + intros u Hu. destruct (poll_read_agrees max true u Hu) as (u' & -> & ?). exists u'. split; [|done]. by destruct (next_read _ _) as [[]].
    + done.
    + exists t2. rewrite E3, E1. split_and!; try done; [|congruence]. cbn [handle]. by destruct (next_read max (tr_world t)) as [[]].
  - unfold observed_write. destruct bytes as [|b l]; cbn [is_empty handle].
    { destruct (next_write [] (tr_world t)) as [r w]. by exists (set_world w t). }
    destruct (next_polls_agrees t H) as (n & t1 & -> & H1 & E1 & E2).
    destruct (await_agrees (next_write (b :: l)) (λ _, len (b :: l)) (progress_poll_write (b :: l))) with (n := n) (t := t1) as (t2 & -> & H2 & E3 & E4).
    + intros u Hu. by destruct (poll_write_agrees (b :: l) false u Hu) as (u' & -> & ?); exists u'.
    + intros u Hu. by destruct (poll_write_agrees (b :: l) true u Hu) as (u' & -> & ?); exists u'.
    + done.
    + exists t2. rewrite E3, E1. split_and!; try done; [|congruence]. by destruct (next_write (b :: l) (tr_world t)) as [[[]|]].
  - exact (Hin _ EFlush).
Qed.

Lemma exec_agrees {A} (p : prog A) : ∀ t, agreeable t → tr_limit t = None →
  match exec p (tr_world t) with
  | Some (a, w) => ∃ t', exec_transfer p t = Some (a, t') ∧ agreeable t' ∧ tr_world t' = w ∧ tr_limit t' = None
  | None => exec_transfer p t = None
  end.
Proof.
  induction p as [a|X e k IH|]; intros t H Hl; cbn [exec exec_transfer]; [by exists t| |done].
  destruct (handle_agrees e t H Hl) as (t1 & -> & H1 & E1 & E2). destruct (handle e (tr_world t)) as [x w]. cbn [fst snd] in *. subst w.
  by apply IH.
Qed.

Lemma select_agrees {A} (p : tprog A) : ∀ ticks t, agreeable t → tr_limit t = None →
  match exec p (tr_world t) with
  | Some (a, w) => ∃ t', select_loop ticks p t = Some (a, t') ∧ agreeable t' ∧ tr_world t' = w ∧ tr_limit t' = None
  | None => select_loop ticks p t = None
  end.
Proof.
  induction p as [a|X e k IH|]; intros ticks t H Hl; cbn [exec select_loop]; [by exists t| |done].
  destruct (ticks_agree (hd O ticks) t H) as (t0 & -> & H0 & <- & E0). rewrite <- E0 in Hl.
  destruct (handle_agrees e t0 H0 Hl) as (t1 & -> & H1 & E1 & E2). destruct (handle e (tr_world t0)) as [x w]. cbn [fst snd] in *. subst w.
  by apply IH.
Qed.

(** C21: an observer that agrees to everything is invisible: however the accesses are
    polled and however many ticks pass, a transfer, and a cancellable operation, ends
    with the result and the effects it has without the wrappers. *)
Theorem agreeable_observer_invisible {A} (p : tprog A) ticks t : agreeable t → tr_limit t = None →
  match exec p (tr_world t) with
  | Some (a, w) => (∃ t', exec_transfer p t = Some (a, t') ∧ tr_world t' = w) ∧ (∃ t', cancellable_download ticks p t = Some (a, t') ∧ tr_world t' = w)
  | None => exec_transfer p t = None ∧ cancellable_download ticks p t = None
  end.
Proof.
  intros H Hl. pose proof (exec_agrees p t H Hl) as H1. unfold cancellable_download, poll_transfer_cancellation.
  destruct (check_agrees t H) as (t1 & -> & H2 & E1 & E2). rewrite <- E2 in Hl. pose proof (select_agrees p ticks t1 H2 Hl) as H3.
  rewrite <- E1 in H1 |- *. destruct (exec p (tr_world t1)) as [[a w]|]; [|by destruct (tr_progress t)].
  destruct H1 as (t2 & H1 & _ & H4 & _). destruct H3 as (t3 & H3 & _ & H5 & _). split; [eauto|]. destruct (tr_progress t); eauto.
Qed.

(** ** Cancellation *)

(** The observer wants the transfer to end. *)
Definition cancels (a : java_answer) : Prop := an_attach a = Ok tt ∧ an_cancelled a = Ok true.

Lemma check_cancels t p a l : tr_progress t = Some p → pg_answers p = a :: l → cancels a →
  ∃ t', transfer_check t = (Err transfer_cancelled, t') ∧ tr_world t' = tr_world t.
Proof.
  intros Ep Ea [H1 H2]. unfold transfer_check, check_cancelled, visit. rewrite Ep, Ea. cbn [pop].
  unfold asked. rewrite H1, H2. cbn. eauto.
Qed.

Lemma check_goes_on t p a l : tr_progress t = Some p → pg_answers p = a :: l → asked a = Ok tt →
  transfer_check t = (Ok tt, set_progress (Some (mkProgress (pg_total p) (pg_last p) l (pg_reports p))) t).
Proof. intros Ep Ea Ha. unfold transfer_check, check_cancelled, visit. rewrite Ep, Ea. cbn [pop]. by rewrite Ha. Qed.

(** Within [n] ticks an observer answers to cancel. *)
Lemma ticks_cancel before a later : ∀ n t p, tr_progress t = Some p → pg_answers p = before ++ a :: later →
  Forall (λ x, asked x = Ok tt) before → cancels a → (length before < n)%nat →
  ∃ t', ticks_pass n t = (Err transfer_cancelled, t') ∧ tr_world t' = tr_world t.
Proof.
  induction before as [|b before IH]; intros [|n] t p Ep Ea Hb Ha Hn; cbn [length] in Hn; try lia; cbn [ticks_pass].
  - destruct (check_cancels t p a later Ep Ea Ha) as (t1 & -> & Ew). by exists t1.
  - apply Forall_cons_iff in Hb as [Hb1 Hb2]. rewrite (check_goes_on t p b (before ++ a :: later) Ep Ea Hb1).
    edestruct (IH n) as (t1 & -> & Ew); [reflexivity|reflexivity|done|done|lia|]. by exists t1.
Qed.

(** C22: cancellation is honoured: a session whose observer cancels at the first check
    ends with the cancellation error before anything was sent or written; and at
    whatever interaction an operation waits, an observer that cancels while it waits
    ends it with that error and with nothing done since. *)
Theorem cancellation_honoured :
  (∀ A n ticks ticks' dialled ticket (program : Client.Client → tprog A) t p a later,
     tr_progress t = Some p → pg_answers p = a :: later → cancels a →
     ∃ t', cancellable_session n ticks ticks' dialled ticket program t = Some (Err transfer_cancelled, t') ∧ tr_world t' = tr_world t) ∧
  (∀ A X (e : effect X) (k : X → tprog A) n ticks t p before a later,
     tr_progress t = Some p → pg_answers p = before ++ a :: later → Forall (λ x, asked x = Ok tt) before → cancels a →
     (length before < n)%nat →
     ∃ t', select_loop (n :: ticks) (Vis e k) t = Some (Err transfer_cancelled, t') ∧ tr_world t' = tr_world t).
Proof.
  split.
  - intros A n ticks ticks' dialled ticket program t p a later Ep Ea Ha. unfold cancellable_session. rewrite Ep.
    destruct (check_cancels t p a later Ep Ea Ha) as (t1 & -> & Ew). by exists t1.
  - intros A X e k n ticks t p before a later Ep Ea Hb Ha Hn. cbn [select_loop hd].
    destruct (ticks_cancel before a later n t p Ep Ea Hb Ha Hn) as (t1 & -> & Ew). by exists t1.
Qed.

(** ** Invariants of the observer *)
Section Invariant.
Variable P : JavaProgress → Prop.
Hypothesis P_update : ∀ c p, P p → P (update c p).2.
Hypothesis P_check : ∀ p, P p → P (check_cancelled p).2.

Definition watched (t : Transfer) : Prop := ∀ p, tr_progress t = Some p → P p.

Lemma observed_watched t : watched t → watched (observed t).2.
Proof.
  intros H. unfold observed. destruct (tr_progress t) as [p|] eqn:E; [|exact H].
  pose proof (P_update (tr_completed t) p (H p E)) as Hp. destruct (update _ p) as [r q]. intros q' Eq. cbn in Eq. by simplify_eq.
Qed.
Lemma check_watched t : watched t → watched (transfer_check t).2.
Proof.
  intros H. unfold transfer_check. destruct (tr_progress t) as [p|] eqn:E; [|exact H].
  pose proof (P_check p (H p E)) as Hp. destruct (check_cancelled p) as [r q]. intros q' Eq. cbn in Eq. by simplify_eq.
Qed.
Lemma moved_watched {A} n (a : A) t : watched t → watched (moved n a t).2.
Proof. intros H. unfold moved. pose proof (observed_watched (add_completed n t) H). by destruct (observed _). Qed.

Lemma await_watched {A} (poll_once : bool → Transfer → poll (io A) * Transfer) :
  (∀ ready t, watched t → watched (poll_once ready t).2) → ∀ n t, watched t → watched (await_ready poll_once n t).2.
Proof.
  intros H. induction n as [|n IH]; intros t Ht; cbn [await_ready].
  - pose proof (H true t Ht). by destruct (poll_once true t) as [[|r] t1].
  - pose proof (H false t Ht). destruct (poll_once false t) as [[|r] t1]; [by apply IH|done].
Qed.

Lemma poll_watched max bytes ready t : watched t → watched (progress_poll_read max ready t).2 ∧ watched (progress_poll_write bytes ready t).2.
Proof.
  intros Ht. apply observed_watched in Ht. unfold progress_poll_read, progress_poll_write. destruct (observed t) as [[u|e] t1]; [|done].
  cbn [snd] in Ht. destruct ready; cbn [negb]; [|done]. split.
  - destruct (next_read max (tr_world t1)) as [[bs|e] w]; [by apply moved_watched|done].
  - destruct (next_write bytes (tr_world t1)) as [[v|e] w]; [by apply moved_watched|done].
Qed.

Lemma handle_watched {X} (e : effect X) t : watched t → watched (transfer_handle e t).2.
Proof.
  intros Ht. assert (∀ X (e : effect X), watched (in_world e t).2) as Hin.
  { intros Y f. unfold in_world. by destruct (handle f (tr_world t)). }
  destruct e; try exact (Hin _ _); cbn [transfer_handle].
  - unfold observed_read, next_polls. destruct (pop O (tr_pending t)) as [n l]. apply await_watched; [|done].
    intros ready u Hu. by apply (poll_watched max []).
  - destruct (tr_limit t) as [limit|]; [unfold memory_write; by destruct (memory_poll_write _ _ _)|].
    unfold observed_write. destruct (is_empty bytes); [by destruct (next_write [] _)|]. unfold next_polls.
    destruct (pop O (tr_pending t)) as [n l].
    assert (watched (await_ready (progress_poll_write bytes) n (set_pending l t)).2) as Hw
      by (apply await_watched; [intros ready u Hu; by apply (poll_watched 0 bytes)|done]).
    by destruct (await_ready _ _ _).
  - destruct (tr_limit t); [done|exact (Hin _ EFlush)].
Qed.

Lemma exec_watched {A} (p : prog A) : ∀ t a t', watched t → exec_transfer p t = Some (a, t') → watched t'.
Proof.
  induction p as [a|X e k IH|]; intros t a' t' Ht H; cbn [exec_transfer] in H; [by simplify_eq| |done].
  pose proof (handle_watched e t Ht). destruct (transfer_handle e t) as [x t1]. by eapply IH.
Qed.

Lemma ticks_watched n : ∀ t, watched t → watched (ticks_pass n t).2.
Proof.
  induction n as [|n IH]; intros t Ht; [done|]. cbn [ticks_pass]. apply check_watched in Ht.
  destruct (transfer_check t) as [[u|e] t1]; [by apply IH|done].
Qed.

Lemma select_watched {A} (p : tprog A) : ∀ ticks t r t', watched t → select_loop ticks p t = Some (r, t') → watched t'.
Proof.
  induction p as [a|X e k IH|]; intros ticks t r t' Ht H; cbn [select_loop] in H; [by simplify_eq| |done].
  apply (ticks_watched (hd O ticks)) in Ht. destruct (ticks_pass _ t) as [[u|x] t1]; [|by simplify_eq].
  pose proof (handle_watched e t1 Ht). destruct (transfer_handle e t1) as [x t2]. by eapply IH.
Qed.

Lemma session_watched {A} n ticks ticks' dialled ticket (program : Client.Client → tprog A) t r t' :
  watched t → cancellable_session n ticks ticks' dialled ticket program t = Some (r, t') → watched t'.
Proof.
  intros Ht H. unfold cancellable_session in H.
  match type of H with match ?m with _ => _ end = _ => destruct m as [[c t1]|] eqn:Ec; [|done] end.
  assert (watched t1) as H1.
  { destruct (tr_progress t); [|by eapply exec_watched]. apply check_watched in Ht. destruct (transfer_check t) as [[u|e] t2]; [|by simplify_eq].
    apply (ticks_watched n) in Ht. cbn [snd] in Ht. destruct (ticks_pass n t2) as [[u'|e] t3]; [|by simplify_eq]. by eapply select_watched. }
  destruct c as [c|e]; [|by simplify_eq].
  destruct (cancellable_download ticks' (program c) t1) as [[r' t2]|] eqn:Ed; [|done].
  assert (watched t2) as H2.
  { unfold cancellable_download, poll_transfer_cancellation in Ed. destruct (tr_progress t1); [|by eapply exec_watched].
    apply check_watched in H1. destruct (transfer_check t1) as [[u|e] t3]; [by eapply select_watched|by simplify_eq]. }
  unfold closing in H. destruct (exec_transfer client_close t2) as [[x t3]|] eqn:Ex; [|done]. simplify_eq. by eapply exec_watched.
Qed.
End Invariant.

(** ** Report rate *)

(** Every intermediate report is at least 125 ms after the report before it. *)
Definition spaced (total : Z) (l : list (Z * Z)) : Prop :=
  ∀ i t1 c1 t2 c2, l !! i = Some (t1, c1) → l !! S i = Some (t2, c2) → 0 < c2 < total → t1 + 125 ≤ t2.

Definition rate_ok (p : JavaProgress) : Prop :=
  spaced (pg_total p) (pg_reports p) ∧ ∀ t c, pg_reports p !! pred (length (pg_reports p)) = Some (t, c) → pg_last p = t.

Lemma rate_visit p : rate_ok p → rate_ok (visit p).2.
Proof. unfold visit. by destruct (pop _ _). Qed.

Lemma rate_update c p : rate_ok p → rate_ok (update c p).2.
Proof.
  intros H. apply rate_visit in H. unfold update. destruct (visit p) as [a q]. cbn [snd] in H. destruct (asked a); [|done].
  destruct (negb _ && _) eqn:Et; [done|]. destruct H as [Hs Hl]. split; cbn.
  - intros i t1 c1 t2 c2 H1 H2 Hc. destruct (decide (S i < length (pg_reports q))%nat) as [Hi|Hi].
    { rewrite lookup_app_l in H1, H2 by lia. by eapply Hs. }
    apply lookup_app_Some in H2 as [H2|[Hge H2]]; [apply lookup_lt_Some in H2; lia|].
    apply list_lookup_singleton_Some in H2 as [Hn H2]. simplify_eq.
    rewrite lookup_app_l in H1 by lia. replace (pred (length (pg_reports q))) with i in Hl by lia.
    apply Hl in H1. apply andb_false_iff in Et as [Et|Et].
    + apply negb_false_iff, orb_prop in Et as [Et|Et]; [apply Z.eqb_eq in Et|apply Z.leb_le in Et]; lia.
    + apply Z.ltb_ge in Et. unfold saturating_sub64 in Et. lia.
  - intros t c' H. rewrite length_app, Nat.add_1_r in H. cbn [length pred] in H. rewrite lookup_app_r, Nat.sub_diag in H by lia. cbn in H. by simplify_eq.
Qed.

(** With a total of 0, which the encrypted downloads pass, every count is terminal and no
    report is held back, however close it is to the last one. *)
Lemma unknown_total_unthrottled c p : pg_total p = 0 → 0 ≤ c → asked (visit p).1 = Ok tt → length (pg_reports (update c p).2) = S (length (pg_reports p)).
Proof.
  intros Ht Hc Ha. unfold update, visit in *. destruct (pop _ _) as [a l]. cbn [fst] in Ha. rewrite Ha. cbn [pg_total]. rewrite Ht.
  rewrite (proj2 (Z.leb_le 0 c) Hc), orb_true_r. cbn. rewrite length_app. cbn. lia.
Qed.

Lemma rate_check p : rate_ok p → rate_ok (check_cancelled p).2.
Proof. intros H. apply rate_visit in H. unfold check_cancelled. by destruct (visit p). Qed.

Section Rate.
Context `{C : Crypto}.
Context (runtime : result (list Z) unit) (dial : dialer).

(** C39: progress reports are rate-limited: in a download, whatever the clock and the
    observer do, every report of an intermediate count is at least 125 ms after the
    report before it. *)
Theorem progress_rate_limited endpoint public_key ticket file_id expected_size fd dup observer pending k s v t s' p :
  nativeDownload runtime dial endpoint public_key ticket file_id expected_size fd dup observer pending k s = (Some (v, Some t), s') →
  tr_progress t = Some p → spaced (pg_total p) (pg_reports p).
Proof.
  intros H Hp. unfold nativeDownload, done_download, transfer_result in H.
  match type of H with match ?m with _ => _ end = _ => destruct m as [[[r t1]|e|] s1] eqn:E; [|done..] end.
  assert (t1 = t) as -> by (destruct r; by simplify_eq). clear H.
  unjava E. destruct a0 as [[[e key] tk] id]. cbn [fst snd] in *. unjava E0. unfold download_of in E0. unjava E0.
  destruct a as [r' t']. unjava E. simplify_eq.
  apply (session_watched rate_ok rate_update rate_check) in H; [by destruct (H p Hp)|].
  intros q Eq. cbn in Eq. subst a0. destruct observer as [[[vm ref] answers]|]; [|done]. simplify_eq. by split.
Qed.
End Rate.
