(* ===== verification/JniCalls.v ===== *)
(** * The Android interface: calls

    - [nativeCall] hands the response over intact: its packed result decodes to the
      kind, status and length, and is never taken for the error value;
    - a decoded picture reaches Android as the RGBA bytes of the picture;
    - a download to memory stays within the limit and is verified;
    - a replaced session survives a restart. *)
From S2P Require Import Ffi Prelude RustStr Cbor Crypto Frame Types Fs E2E Media Json Account Messenger MessengerProofs Program Client Api Transfer TransferProofs Image ImageScale ImageProofs Jni JniApi JniTransfer JniMedia JniProofs.

Lemma or_throw_done {A} (fallback : A) m s a s' : or_throw fallback m s = (Some a, s') →
  m s = (Completed a, s') ∨ (a = fallback ∧ ∃ e s1, m s = (Rejected e, s1) ∧ s' = throw_io e s1).
Proof. unfold or_throw. destruct (m s) as [[x|e|] s1]; intros; simplify_eq; eauto 10. Qed.

Lemma to_java_done alloc failed m s v s' : to_java alloc failed m s = (Some (Some v), s') → m s = (Completed v, s').
Proof. unfold to_java. destruct (m s) as [[x|e|] s1]; [destruct alloc|..]; intros; by simplify_eq. Qed.

(** ** Packed results *)
Lemma unpack_low a b n : 0 ≤ n → 0 ≤ b < 2 ^ n → Z.land (a * 2 ^ n + b) (2 ^ n - 1) = b ∧ Z.shiftr (a * 2 ^ n + b) n = a.
Proof.
  intros Hn Hb. replace (2 ^ n - 1) with (Z.ones n) by (rewrite Z.ones_equiv; lia). rewrite Z.land_ones, Z.shiftr_div_pow2 by lia.
  rewrite Z.add_comm, Z.mod_add, Z.div_add by lia. rewrite Z.mod_small, Z.div_small by lia. lia.
Qed.

Lemma pack_response_sum r : is_u16 (rs_status r) → len (rs_payload r) < 2 ^ 32 →
  pack_response r = (rs_kind r * 2 ^ 16 + rs_status r) * 2 ^ 32 + len (rs_payload r).
Proof.
  intros Hs Hl. pose proof (len_nonneg (rs_payload r)). widths. unfold pack_response.
  assert (Z.lor (Z.shiftl (rs_kind r) 48) (Z.shiftl (rs_status r) 32) = Z.shiftl (rs_kind r * 2 ^ 16 + rs_status r) 32) as ->.
  { rewrite <- (lor_disjoint 16) by lia. by rewrite Z.shiftl_lor, Z.shiftl_shiftl by lia. }
  by rewrite lor_disjoint by lia.
Qed.

(** What [nativeCall]'s caller reads out of the value. *)
Definition unpacked (v : Z) : Z * Z * Z := (Z.shiftr v 48, Z.land (Z.shiftr v 32) 65535, Z.land v 4294967295).

Lemma unpack_response r : is_u8 (rs_kind r) → is_u16 (rs_status r) → len (rs_payload r) < 2 ^ 32 →
  0 ≤ as_i64 (pack_response r) ∧ unpacked (as_i64 (pack_response r)) = (rs_kind r, rs_status r, len (rs_payload r)).
Proof.
  intros Hk Hs Hl. rewrite pack_response_sum by done. pose proof (len_nonneg (rs_payload r)) as H0. widths.
  rewrite as_i64_small by (widths; lia). split; [lia|]. unfold unpacked.
  destruct (unpack_low (rs_kind r * 2 ^ 16 + rs_status r) (len (rs_payload r)) 32) as [E1 E2]; [lia..|].
  destruct (unpack_low (rs_kind r) (rs_status r) 16) as [E3 E4]; [lia..|].
  replace 48 with (32 + 16) by lia. rewrite <- Z.shiftr_shiftr, E2 by lia. by f_equal; [f_equal|].
Qed.

Lemma client_done h s m s' : client h s = (Completed m, s') → jn_clients s !! h = Some m ∧ s' = s.
Proof. unfold client. destruct (jn_clients s !! h); intros; by simplify_eq. Qed.
Lemma identity_done h s i s' : Jni.identity h s = (Completed i, s') → jn_identities s !! h = Some i ∧ s' = s.
Proof. unfold Jni.identity. destruct (jn_identities s !! h); intros; by simplify_eq. Qed.
Lemma capacity_done what b s c s' : buffer_capacity what b s = (Completed c, s') → bb_capacity b = Ok c ∧ s' = s.
Proof. apply jlift_err_done. Qed.
Lemma address_done what b s u s' : buffer_address what b s = (Completed u, s') → bb_address b = Ok u ∧ s' = s.
Proof. apply jlift_err_done. Qed.
Lemma block_on_done {A} rt h c (method : MessengerCore → option (io A * MessengerCore)) s a s' :
  block_on_client rt h c method s = (Completed a, s') → ∃ m', method (nc_messenger c) = Some (Ok a, m').
Proof.
  unfold block_on_client. intros H. unjava H. destruct (method (nc_messenger c)) as [[r m']|]; [|done]. unjava H. subst r. eauto.
Qed.

Lemma overwrite_spec bytes memory : take (length bytes) (overwrite bytes memory) = bytes ∧
  drop (length bytes) (overwrite bytes memory) = drop (length bytes) memory.
Proof. unfold overwrite. split; [apply take_app_length|by rewrite drop_app_length]. Qed.

Section Calls.
Context (runtime : result (list Z) unit).

(** C32: [nativeCall] hands the response over intact.  It returns -1 only with an
    exception pending and the output buffer as it was; any other value comes from a
    response of the account to exactly the request of the caller, whose payload now
    starts the output buffer, and the value is not negative and decodes to the kind,
    status and payload length of that response. *)
Theorem native_call_intact handle token frame_kind opcode timeout_ms input input_len output now random schedule s v out s' :
  (∀ c, bb_capacity output = Ok c → c ≤ 2147483647) →
  nativeCall runtime handle token frame_kind opcode timeout_ms input input_len output now random schedule s = (Some (v, out), s') →
  (v = -1 ∧ out = bb_memory output ∧ is_Some (jn_exception s')) ∨
  ∃ tok c r m', token = Ok tok ∧ jn_clients s !! handle = Some c ∧
    messenger_request_cbor tok (as_u8 frame_kind) opcode (take (Z.to_nat input_len) (bb_memory input))
      (with_deadline_ms default_request_options (saturating_add64 now (Z.max timeout_ms 1))) random schedule (nc_messenger c) = Some (Ok r, m') ∧
    take (length (rs_payload r)) out = rs_payload r ∧ drop (length (rs_payload r)) out = drop (length (rs_payload r)) (bb_memory output) ∧
    (is_u8 (rs_kind r) → is_u16 (rs_status r) → 0 ≤ v ∧ unpacked v = (rs_kind r, rs_status r, len (rs_payload r))).
Proof.
  intros Hcap H. unfold nativeCall in H. apply or_throw_done in H as [H|(E & e & s1 & _ & ->)]; [right|left; by simplify_eq].
  unjava H. apply client_done in E as [Em ->]. apply capacity_done in E0 as [_ ->]. apply address_done in E1 as [_ ->].
  apply block_on_done in E2 as [m' E2]. apply capacity_done in E3 as [Ec ->]. apply address_done in E4 as [_ ->].
  simplify_eq. to_prop. apply Z.leb_le in H0. apply Z.leb_le in H. apply Z.ltb_ge in Heqb2. specialize (Hcap _ Ec).
  assert (as_u16 opcode = opcode) as Eo by (unfold as_u16; widths; apply Z.mod_small; lia). rewrite Eo in E2.
  exists a, a0, a3, m'. split_and!; try done; try apply overwrite_spec. intros Hk Hst. apply unpack_response; [done..|lia].
Qed.
End Calls.

(** ** Pictures *)
Lemma android_rgba_of r g b a : is_u8 r → is_u8 g → is_u8 b → is_u8 a → android_rgba (argb_of (r, g, b, a)) = [r; g; b; a].
Proof.
  intros Hr Hg Hb Ha. rewrite argb_of_sum by done. widths. unfold android_rgba, le_bytes, be_bytes.
  change (256 ^ Z.of_nat 3) with 16777216. change (256 ^ Z.of_nat 2) with 65536. change (256 ^ Z.of_nat 1) with 256. change (256 ^ Z.of_nat 0) with 1.
  assert (((((a * 256 + r) * 256 + g) * 256 + b) / 16777216) mod 256 = a) as -> by div_lia.
  assert (((((a * 256 + r) * 256 + g) * 256 + b) / 65536) mod 256 = r) as -> by div_lia.
  assert (((((a * 256 + r) * 256 + g) * 256 + b) / 256) mod 256 = g) as -> by div_lia.
  assert (((((a * 256 + r) * 256 + g) * 256 + b) / 1) mod 256 = b) as -> by div_lia. done.
Qed.

Lemma copy_is_raw i : Forall (λ '(r, g, b, a), is_u8 r ∧ is_u8 g ∧ is_u8 b ∧ is_u8 a) (rgba_pixels i) →
  copy_argb_as_android_rgba (map argb_of (rgba_pixels i)) = rgba_raw i.
Proof.
  unfold copy_argb_as_android_rgba, rgba_raw. induction 1 as [|[[[r g] b] a] l (Hr & Hg & Hb & Ha) _ IH]; [done|].
  cbn [map concat]. by rewrite android_rgba_of, IH.
Qed.

Section Pictures.
Context `{L : ImageLaws}.

(** C33: [nativeDecodeImage] delivers the picture: a result other than 0 decodes to the
    target size of the picture that was loaded from the input, and the output buffer then
    starts with exactly the bytes, in the order red, green, blue, alpha, of that picture,
    resampled to this size when it has another: packing into 0xAARRGGBB words and
    unpacking them for Android cancel out. *)
Theorem native_image_delivered input input_len max_side max_pixels output s v out s' :
  max_side ≤ 2147483647 →
  nativeDecodeImage input input_len max_side max_pixels output s = (Some (v, out), s') → v ≠ 0 →
  ∃ image, load_supported_image (take (Z.to_nat input_len) (bb_memory input)) = Ok image ∧
    let size := target_size (dimensions image).1 (dimensions image).2 (Z.max max_side 1) (Z.max max_pixels 1) in
    let shown := if decide (size = dimensions image) then image else resize_exact size.1 size.2 image in
    (Z.shiftr v 32, Z.land v 4294967295) = size ∧ dimensions shown = size ∧
    take (length (rgba_raw (to_rgba8 shown))) out = rgba_raw (to_rgba8 shown).
Proof.
  intros Hm H Hv. unfold nativeDecodeImage in H. apply or_throw_done in H as [H|(E & _)]; [|by simplify_eq].
  unjava H. apply capacity_done in E as [_ ->]. apply address_done in E0 as [_ ->]. unfold deliver_image in H. unjava H. simplify_eq.
  assert (is_u32 (Z.max max_side 1)) as Hu by (widths; lia).
  destruct (decode_spec _ _ _ _ Hu H0) as (image & El & Et & Es & Ea). exists image. split; [done|].
  destruct (load_admissible _ _ El) as [_ Ha]. pose proof (target_size_spec _ _ (Z.max max_side 1) (Z.max max_pixels 1) Ha (proj2 Hu)) as Hb.
  rewrite <- Et in Hb |- *. destruct Hb as (B1 & B2 & _). destruct Ha as (Hw & Hh & Hwh). unfold MAX_IMAGE_SOURCE_PIXELS in Hwh.
  assert (di_width a1 < 2 ^ 31 ∧ di_height a1 < 2 ^ 32) as [Hdw Hdh] by lia. split; [|split; [exact Es|]].
  - unfold pack_dimensions. rewrite lor_disjoint, as_i64_small by (widths; lia). change 4294967295 with (2 ^ 32 - 1).
    destruct (unpack_low (di_width a1) (di_height a1) 32) as [-> ->]; [lia..|done].
  - rewrite Ea, copy_is_raw by apply rgba_bytes. apply overwrite_spec.
Qed.
End Pictures.

(** ** Downloads to memory *)
Definition within (limit : Z) (t : Transfer) : Prop := tr_limit t = Some limit ∧ len (w_target (tr_world t)) ≤ limit.

Lemma read_target max t : w_target (tr_world (observed_read max t).2) = w_target (tr_world t) ∧ tr_limit (observed_read max t).2 = tr_limit t.
Proof.
  unfold observed_read. destruct (next_polls_world t) as [<- <-]. destruct (next_polls t) as [n u]. cbn [snd].
  assert (∀ ready u, let u' := (progress_poll_read max ready u).2 in w_target (tr_world u') = w_target (tr_world u) ∧ tr_limit u' = tr_limit u) as Hp.
  { clear. intros ready u. unfold progress_poll_read. destruct (observed_world u) as [<- <-]. destruct (observed u) as [[x|x] u1]; [|done].
    destruct ready; cbn [negb snd]; [|done]. assert (w_target (next_read max (tr_world u1)).2 = w_target (tr_world u1)) as Hr
      by (unfold next_read; repeat case_match; done).
    destruct (next_read max (tr_world u1)) as [[bs|e] w]; cbn [snd] in *; [|done].
    destruct (moved_world (len bs) bs (set_world w u1)) as (r & _ & -> & -> & _). done. }
  revert u. induction n as [|n IH]; intros u; cbn [await_ready].
  - specialize (Hp true u). by destruct (progress_poll_read max true u) as [[|r] u1].
  - specialize (Hp false u). destruct (progress_poll_read max false u) as [[|r] u1]; cbn [snd] in Hp; [|done].
    destruct Hp as [<- <-]. apply IH.
Qed.

Lemma handle_within limit {X} (e : effect X) t : limit < u64_max → within limit t → within limit (transfer_handle e t).2.
Proof.
  intros Hu [Hl Ht].
  assert (∀ X (e : effect X), match e with EWrite _ | EFlush => False | _ => True end → w_target (handle e (tr_world t)).2 = w_target (tr_world t)) as Hw.
  { intros Y f Hf. destruct f; try done; cbn; unfold next_frame, next_send, next_read, pop; repeat case_match; cbn; simplify_eq; done. }
  assert (∀ X (e : effect X), match e with EWrite _ | EFlush => False | _ => True end → within limit (in_world e t).2) as Hin.
  { intros Y f Hf. specialize (Hw Y f Hf). unfold in_world, within. destruct (handle f (tr_world t)) as [y w]. cbn in *. by rewrite Hw. }
  destruct e; cbn [transfer_handle]; rewrite ?Hl; try (apply Hin; exact I).
  - match goal with |- within _ (observed_read ?m t).2 => destruct (read_target m t) as [E1 E2] end. split; congruence.
  - unfold memory_write, memory_poll_write, saturating_add64. destruct (Z.ltb_spec limit (Z.min (len (w_target (tr_world t)) + len bytes) u64_max)); cbn; [done|].
    split; [done|]. cbn. rewrite len_app. lia.
  - done.
Qed.

Lemma exec_within limit {A} (p : prog A) : limit < u64_max → ∀ t a t', within limit t → exec_transfer p t = Some (a, t') → within limit t'.
Proof.
  intros Hu. induction p as [a|X e k IH|]; intros t a' t' Ht H; cbn [exec_transfer] in H; [by simplify_eq| |done].
  pose proof (handle_within limit e t Hu Ht). destruct (transfer_handle e t) as [x t1]. by eapply IH.
Qed.

Section Memory.
Context `{C : Crypto}.
Context `{J : SerdeJson} `{Z2 : Decompressors}.
Context (runtime : result (list Z) unit) (usize_bits : Z) (dial : dialer).

Lemma memory_download_done endpoint key ticket limit program s bytes s' :
  0 ≤ limit < u64_max → memory_download runtime dial endpoint key ticket limit program s = (Completed bytes, s') →
  len bytes ≤ limit ∧ ((∀ c, strict is_error (program c)) →
    ∃ c w w1 w2 n, dialled dial endpoint key = Ok (c, w) ∧ exec (program c) w1 = Some (Ok n, w2) ∧ w_target w1 = [] ∧ w_target w2 = bytes ∧
      ∃ l, w_frames w = l ++ w_frames w1).
Proof.
  intros Hl Hm. unfold memory_download in Hm. unjava Hm. destruct a0 as [r t]. unjava Hm. subst r bytes. split.
  - apply (exec_within limit) in H0; [by destruct H0|lia|]. split; [done|]. cbn. by apply Hl.
  - intros Hs. apply (exec_refines is_error) in H0 as [H0 _]; [|by apply strict_session|by right|done].
    apply session_exec in H0 as (c & w & w1 & w2 & Ed & E1 & E2 & ->). rewrite close_target.
    exists c, w, w1, w2, a0. pose proof (quiet_connected _ _ _ _ _ E1) as [Eq1 [l Eq2]]. rewrite Ed in *.
    split_and!; [done|done|by rewrite Eq1|done|]. exists l. exact Eq2.
Qed.

(** C23: a download into memory is bounded by the caller: an encrypted one, with the key
    of an identity or with a key that is given, never returns more than [max_bytes] bytes
    of plaintext, and a plain one returns exactly the expected number of
    bytes, which is no more than [max_bytes], and those the node confirmed with their
    SHA-256. *)
Theorem memory_downloads_bounded endpoint public_key ticket file_id size max_bytes identity_handle peer from to key aad alloc s bytes s' :
  is_i64 size → max_bytes ≤ 2147483647 →
  (nativeDownloadE2EBytes runtime usize_bits dial endpoint public_key ticket file_id size max_bytes identity_handle peer from to alloc s = (Some (Some bytes), s') →
     len bytes ≤ max_bytes) ∧
  (nativeDownloadE2EBytesWithKey runtime usize_bits dial endpoint public_key ticket file_id size max_bytes key aad alloc s = (Some (Some bytes), s') →
     len bytes ≤ max_bytes) ∧
  (nativeDownloadBytes runtime dial endpoint public_key ticket file_id size max_bytes alloc s = (Some (Some bytes), s') →
     len bytes = size ∧ size ≤ max_bytes ∧
     ∃ e k c w f, endpoint = Ok e ∧ public_key = Ok k ∧ dialled dial e k = Ok (c, w) ∧ In (Ok f) (w_frames w) ∧ confirms f bytes).
Proof.
  intros Hsz Hm. split_and!; intros Hn.
  - unfold nativeDownloadE2EBytes in Hn. apply to_java_done in Hn. unjava Hn.
    match type of Hn with context [let '(_, _) := ?x in _] => destruct x as [[[e k] tk] id] end. unjava Hn.
    apply memory_download_done in Hn as [Hn _]; [done|]. to_prop. widths. lia.
  - unfold nativeDownloadE2EBytesWithKey in Hn. apply to_java_done in Hn. unjava Hn.
    destruct a1 as [[[e k] tk] id]. apply memory_download_done in Hn as [Hn _]; [done|]. to_prop. widths. lia.
  - unfold nativeDownloadBytes in Hn. apply to_java_done in Hn. unjava Hn. destruct a as [[[e k] tk] id].
    to_prop. apply memory_download_done in Hn as [_ Hn]; [|widths; lia].
    destruct (Hn (λ c, strict_download c id size)) as (c & w & w1 & w2 & n & Ed & E2 & Et1 & Et2 & l & Ef).
    apply download_media_checked in E2 as (-> & data & f & Ed2 & Hl & Hin & Hc); [|lia|unfold TRANSFER_CHUNK_SIZE; widths; lia].
    rewrite Et1, app_nil_l in Ed2. subst bytes. rewrite Ed2. split; [done|]. split; [lia|].
    exists e, k, c, w, f. split_and!; try done. rewrite Ef. apply in_or_app. by right.
Qed.
End Memory.

(** ** The session store *)
Section Sessions.
Context `{JL : SerdeJsonLaws}.

(** A new process over the files the old one left. *)
Definition restarted (s : Jni) : Jni := initial_jni (mkFs (fs_files (jn_fs s)) []).

(** C34: [nativeReplaceSession] is all or nothing, also across a restart.  If it returns
    true, a new process that opens the store finds exactly the session this one now has;
    if it returns false, an exception is pending, and the session in memory and the
    session file are what they were. *)
Theorem session_survives_restart root raw store s v s' :
  root ≠ [] → jn_session s = Some store → ss_path store = session_path root →
  nativeReplaceSession (Ok raw) s = (Some v, s') →
  (v = JNI_TRUE ∧ ∃ s2, nativeOpenSessionStore (Ok root) (restarted s') = (Some JNI_TRUE, s2) ∧ jn_session s2 = jn_session s' ∧
     ∀ alloc, (nativeSessionSnapshot alloc s2).1 = (nativeSessionSnapshot alloc s').1) ∨
  (v = JNI_FALSE ∧ is_Some (jn_exception s') ∧ jn_session s' = jn_session s ∧
     fs_files (jn_fs s') !! path_key (session_path root) = fs_files (jn_fs s) !! path_key (session_path root)).
Proof.
  intros Hroot Hs Hp Hc. unfold nativeReplaceSession, or_throw, java_string, jbind, jget, jmodify in Hc. cbn in Hc. rewrite Hs in Hc.
  destruct (replace_json raw store (jn_fs s)) as [[r store'] files] eqn:Er.
  pose proof (session_replace_atomic root raw store (jn_fs s) r store' files Hroot Hp Er) as Ha.
  destruct r as [[]|e]; cbn in Hc; simplify_eq; [left|right].
  - split; [done|]. destruct Ha as [_ Ha]. unfold nativeOpenSessionStore, or_throw, java_string, with_files, jbind. cbn [map_err jlift jret].
    unfold jret. cbn [restarted initial_jni jn_fs jn_set_fs jn_set_session].
    destruct (session_open root (mkFs (fs_files files) [])) as [r f] eqn:Eo. cbn [fst] in Ha. subst r.
    eexists. split; [reflexivity|]. split; [done|]. intros alloc. unfold nativeSessionSnapshot, to_java, jbind, jget. cbn.
    destruct (snapshot_json store'); cbn; [by destruct alloc|done].
  - destruct Ha as [-> Ha]. split_and!; [done|by eexists|by rewrite <- Hs|exact Ha].
Qed.
End Sessions.

(** ** Handles *)

(** [fetch_add] wraps: after the last positive handle come the negative ones and zero,
    and then handles that were given out before. *)
Lemma counter_wraps : as_i32 (2147483647 + 1) = -2147483648 ∧ as_i32 (-1 + 1) = 0.
Proof. by vm_compute. Qed.

(** Clients and voices are refused at such a counter, identities are not: one registered
    at zero has the value that means failure, and one registered at a live handle
    replaces its identity. *)
Lemma identity_handle_unchecked i j s h : jn_next_identity s = h → jn_identities s !! h = Some j →
  ∃ s', register_e2e i s = (Completed h, s') ∧ jn_identities s' !! h = Some i.
Proof. intros <- _. eexists. split; [reflexivity|]. cbn. apply lookup_insert_eq. Qed.

Lemma client_handle_checked c s : jn_next_client s ≤ 0 → ∃ s', register_native c s = (Rejected (lit "MST5 native connection ID exhausted"), s') ∧
  jn_clients s' = jn_clients s.
Proof. intros Hn. unfold register_native. rewrite (proj2 (Z.leb_le _ _) Hn). eexists. split; [reflexivity|done]. Qed.
