(* ===== verification/JniBatchProofs.v ===== *)
(** * The Android interface: batch uploads

    In every interleaving at most three uploads run at a time; the batch succeeds only
    when every upload succeeded by itself; and it can always run to its end. *)
From S2P Require Import Ffi Prelude RustStr Cbor Crypto Frame Types Fs E2E Media Json Account Messenger Program Client Api Transfer TransferProofs Image Jni JniApi JniTransfer JniMedia JniBatch JniProofs.

(** ** State of the tasks *)
Definition is_running (t : task) : Prop := match tk_phase t with Running _ _ => True | _ => False end.
#[export] Instance is_running_dec t : Decision (is_running t).
Proof. unfold is_running. destruct (tk_phase t); apply _. Defined.
Definition running (b : Batch) : Z := len (filter is_running (bt_tasks b)).

Definition result_of (t : task) : option (io unit) := match tk_phase t with Joinable r _ => Some r | _ => None end.
Definition results (b : Batch) : list (io unit) := omap result_of (bt_tasks b).

(** No answers make the program run out of fuel. *)
Inductive ends {A} : prog A → Prop :=
| ends_ret a : ends (Ret a)
| ends_vis X (e : effect X) k : (∀ x, ends (k x)) → ends (Vis e k).

Lemma ends_vis_inv {A X} (e : effect X) (k : X → prog A) : ends (Vis e k) → ∀ x, ends (k x).
Proof.
  intros H. refine (match H in ends p return match p with Vis e k => ∀ x, ends (k x) | _ => True end with
    ends_vis _ _ _ h => h | _ => I end).
Qed.

(** What a task has done: a prefix of its own session, or it is bound to fail. *)
Definition task_ok (t : task) : Prop :=
  match tk_phase t with
  | Running p w => ends p ∧ (fails is_error p ∨ (strict is_error p ∧ exec (tk_program t) (tk_world t) = exec p w))
  | Joinable r w => is_error r ∨ exec (tk_program t) (tk_world t) = Some (r, w)
  | Waiting => ends (tk_program t) ∧ strict is_error (tk_program t)
  | Aborted => True
  end.

Record batch_ok (b : Batch) : Prop := {
  bo_permits : 0 ≤ bt_permits b;
  bo_running : bt_permits b + running b ≤ 3;
  bo_tasks : Forall task_ok (bt_tasks b);
  bo_results : bt_result b = None → results b ≡ₚ replicate (bt_taken b) (Ok tt) ++ bt_queue b;
  bo_full : bt_result b = None → bt_permits b + running b = 3;
  bo_alive : bt_result b = None → Forall (λ t, tk_phase t ≠ Aborted) (bt_tasks b);
  bo_done : bt_result b = Some (Ok tt) → Forall (λ t, result_of t = Some (Ok tt)) (bt_tasks b)
}.

(** ** Changing one task *)
Definition run1 (t : task) : Z := if decide (is_running t) then 1 else 0.
Definition res1 (t : task) : list (io unit) := match result_of t with Some r => [r] | None => [] end.

Lemma run1_phase t : run1 t = match tk_phase t with Running _ _ => 1 | _ => 0 end.
Proof. unfold run1. case_decide as H; unfold is_running in H; by destruct (tk_phase t). Qed.

Lemma change_task x i t l : l !! i = Some t → ∃ rest, l ≡ₚ t :: rest ∧ alter (set_phase x) i l ≡ₚ set_phase x t :: rest.
Proof.
  intros Hi. assert (∃ l1 l2, l = l1 ++ t :: l2 ∧ i = length l1) as (l1 & l2 & -> & ->).
  { exists (take i l), (drop (S i) l). split; [symmetry; by apply take_drop_middle|].
    apply lookup_lt_Some in Hi. rewrite length_take. lia. }
  exists (l1 ++ l2). rewrite <- (Nat.add_0_r (length l1)), alter_app_r. split; symmetry; apply Permutation_middle.
Qed.

Lemma running_cons t l : len (filter is_running (t :: l)) = run1 t + len (filter is_running l).
Proof. rewrite filter_cons. unfold run1. destruct (decide (is_running t)); [by rewrite len_cons|done]. Qed.
Lemma results_cons t l : omap result_of (t :: l) = res1 t ++ omap result_of l.
Proof. unfold res1. cbn. by destruct (result_of t). Qed.

Lemma running_perm l k : l ≡ₚ k → len (filter is_running l) = len (filter is_running k).
Proof. intros H. unfold len. by rewrite H. Qed.
Lemma results_perm l k : l ≡ₚ k → omap result_of l ≡ₚ omap result_of k.
Proof. intros H. by rewrite H. Qed.

(** The parts of the invariant that concern the tasks, after a change of task [i]. *)
Lemma change_ok b i t x : bt_tasks b !! i = Some t → Forall task_ok (bt_tasks b) → task_ok (set_phase x t) → x ≠ Aborted →
  let l := alter (set_phase x) i (bt_tasks b) in
  Forall task_ok l ∧ len (filter is_running l) = running b - run1 t + run1 (set_phase x t) ∧
  (Forall (λ t, tk_phase t ≠ Aborted) (bt_tasks b) → Forall (λ t, tk_phase t ≠ Aborted) l) ∧
  (∀ q, res1 t = [] → results b ≡ₚ q → omap result_of l ≡ₚ q ++ res1 (set_phase x t)).
Proof.
  intros Hi Hok Hx Hne l. destruct (change_task x i t _ Hi) as (rest & P1 & P2). fold l in P2. unfold running, results.
  rewrite P1 in Hok. apply Forall_cons_iff in Hok as [_ Hr]. split; [rewrite P2; by constructor|].
  rewrite (running_perm _ _ P1), (running_perm _ _ P2), !running_cons. split; [lia|]. split.
  - rewrite P1, P2. intros H. apply Forall_cons_iff in H as [_ H]. by constructor.
  - intros q Hq Hp. rewrite (results_perm _ _ P2), results_cons, Permutation_app_comm. f_equiv.
    rewrite <- Hp, (results_perm _ _ P1), results_cons, Hq. done.
Qed.

(** ** Interactions *)

(** Observing and counting leave the tasks alone. *)
Record same_tasks (b b' : Batch) : Prop := {
  st_permits : bt_permits b' = bt_permits b;
  st_tasks : bt_tasks b' = bt_tasks b;
  st_queue : bt_queue b' = bt_queue b;
  st_taken : bt_taken b' = bt_taken b;
  st_result : bt_result b' = bt_result b
}.
#[export] Instance same_tasks_preorder : PreOrder same_tasks.
Proof. split; [by split|]. intros a b c [] []. split; congruence. Qed.

Lemma observed_same b : same_tasks b (batch_observed b).2.
Proof. unfold batch_observed. by destruct (update _ _). Qed.

Lemma poll_read_spec max ready w b : let '(r, w', b') := batch_poll_read max ready w b in
  same_tasks b b' ∧
  match r with
  | Pending => ready = false ∧ w' = w
  | Ready (Ok bytes) => next_read max w = (Ok bytes, w')
  | Ready (Err _) => True
  end.
Proof.
  unfold batch_poll_read. pose proof (observed_same b) as H1. destruct (batch_observed b) as [[u|e] b1]; [|done]. cbn [snd] in H1.
  destruct ready; cbn [negb]; [|done]. destruct (next_read max w) as [[bs|e] w1]; [|done].
  pose proof (observed_same (bt_set_progress (saturating_add64 (bt_aggregate b1) (len bs)) (bt_progress b1) b1)) as H2.
  destruct (batch_observed _) as [[u'|e] b2]; cbn [snd] in H2; (split; [|done]); etransitivity; try exact H1; by destruct H2.
Qed.

Lemma interact_spec {X} ready (e : effect X) k w b : let '(p, w', b') := batch_interact ready e k w b in
  same_tasks b b' ∧ ((∃ x, p = k x ∧ (bad e x ∨ handle e w = (x, w'))) ∨ (p = Vis e k ∧ w' = w)).
Proof.
  destruct e; cbn [batch_interact]; try (destruct ready; [|by split; [|right]];
    match goal with |- context [handle ?e w] => destruct (handle e w) as [x w'] eqn:E end; split; [done|]; left; exists x; auto).
  unfold batch_read. pose proof (poll_read_spec max ready w b) as H.
  destruct (batch_poll_read max ready w b) as [[[|[bs|e]] w'] b']; destruct H as [H1 H2]; (split; [done|]).
  - destruct H2 as [_ ->]. by right.
  - left. exists (Ok bs). split; [done|]. right. exact H2.
  - left. exists (Err e). split; [done|]. by left.
Qed.

Lemma interact_ok {X} ready (e : effect X) k w b t : tk_phase t = Running (Vis e k) w → task_ok t →
  let '(p, w', b') := batch_interact ready e k w b in same_tasks b b' ∧ task_ok (set_phase (Running p w') t).
Proof.
  intros Hp Hok. pose proof (interact_spec ready e k w b) as H. destruct (batch_interact ready e k w b) as [[p w'] b'].
  destruct H as [H1 H2]. split; [done|]. unfold task_ok in *. rewrite Hp in Hok. cbn [set_phase tk_phase tk_program tk_world].
  destruct H2 as [(x & -> & Hx)|[-> ->]]; [|done]. destruct Hok as [Hend Hok]. split; [by eapply ends_vis_inv|]. destruct Hok as [Hf|[Hs He]].
  - left. by eapply fails_vis_inv.
  - apply strict_vis_inv in Hs as [Hs Hb]. destruct Hx as [Hx|Hx]; [left; by apply Hb|].
    right. split; [done|]. rewrite He. cbn [exec]. by rewrite Hx.
Qed.

(** ** Steps *)

(** The invariant after a turn of task [i]: the queue takes the result, if there is one. *)
Lemma turn_ok b b' i t x : batch_ok b → bt_tasks b !! i = Some t → bt_result b = None → res1 t = [] →
  task_ok (set_phase x t) → x ≠ Aborted → 0 ≤ bt_permits b' → bt_permits b' + run1 (set_phase x t) = bt_permits b + run1 t →
  bt_tasks b' = alter (set_phase x) i (bt_tasks b) → bt_queue b' = bt_queue b ++ res1 (set_phase x t) →
  bt_taken b' = bt_taken b → bt_result b' = None → batch_ok b'.
Proof.
  intros [H1 H2 H3 H4 H5 H6 H7] Hi Hr Hq Hx Hne Hp He Ht Hqu Hn Hr'.
  destruct (change_ok b i t x Hi H3 Hx Hne) as (K1 & K2 & K3 & K4). rewrite <- Ht in *.
  assert (running b' = running b - run1 t + run1 (set_phase x t)) as Hrun by exact K2.
  split; rewrite ?Hr'; try done; intros; specialize (H5 Hr); try lia.
  - rewrite Hn, Hqu, app_assoc. by apply K4; [|apply H4].
  - by apply K3, H6.
Qed.

Lemma fails_ret_inv {A} (F : A → Prop) a : fails F (Ret a) → F a.
Proof. by inversion 1. Qed.

Lemma task_turn_ok ready i t b b' : batch_ok b → bt_result b = None → bt_tasks b !! i = Some t → task_turn ready i t b = Some b' → batch_ok b'.
Proof.
  intros Hb Hr Hi H. pose proof (bo_tasks _ Hb) as Hall. rewrite Forall_lookup in Hall. specialize (Hall i t Hi).
  pose proof (bo_permits _ Hb) as H0. unfold task_turn in H. destruct (tk_phase t) as [|p w|r w|] eqn:Hp; [| |done..].
  - case_match eqn:E; [|done]. destruct ready; [|done]. injection H as <-. apply Z.ltb_lt in E.
    eapply (turn_ok b _ i t); try done; rewrite ?run1_phase; unfold task_ok, res1, result_of in *; cbn; rewrite ?Hp in *; try done; try lia.
    + destruct Hall. split; [done|]. right. by split.
    + by rewrite app_nil_r.
  - destruct p as [r|X e k|].
    + destruct ready; [|done]. injection H as <-.
      eapply (turn_ok b _ i t); try done; rewrite ?run1_phase; unfold task_ok, res1, result_of in *; cbn; rewrite ?Hp in *; try done; try lia.
      destruct Hall as [_ [Hf|[_ He]]]; [left; by apply fails_ret_inv|by right].
    + pose proof (interact_ok ready e k w b t Hp Hall) as Hok. destruct (batch_interact ready e k w b) as [[p w'] b1].
      destruct Hok as [[S1 S2 S3 S4 S5] Hok]. injection H as <-.
      eapply (turn_ok b _ i t); try exact Hok; try done; cbn [bt_permits bt_tasks bt_queue bt_taken bt_result bt_set_task].
      all: rewrite ?S1, ?S2, ?S3, ?S4, ?S5; try done; rewrite ?run1_phase; unfold res1, result_of; cbn; rewrite ?Hp; try done; by rewrite app_nil_r.
    + done.
Qed.

Lemma task_panic_ok i message t b b' : batch_ok b → bt_result b = None → bt_tasks b !! i = Some t → task_panic i message t b = Some b' → batch_ok b'.
Proof.
  intros Hb Hr Hi H. pose proof (bo_permits _ Hb) as H0. unfold task_panic in H. destruct (tk_phase t) as [|p w|r w|] eqn:Hp; try done. injection H as <-.
  eapply (turn_ok b _ i t (Joinable (Err (other message)) w)); try done; rewrite ?run1_phase; unfold task_ok, res1, result_of in *; cbn; rewrite ?Hp in *; try done; try lia.
  by left.
Qed.

Lemma abort_ok t : (task_ok t → task_ok (abort t)) ∧ ¬ is_running (abort t).
Proof. unfold abort, task_ok, is_running. destruct (tk_phase t) eqn:E; cbn; rewrite ?E; split; naive_solver. Qed.

Lemma aborted_idle l : filter is_running (map abort l) = [].
Proof.
  induction l as [|t l IH]; [done|]. cbn [map]. rewrite filter_cons_False; [done|].
  by apply abort_ok.
Qed.

(** When as many results are in as there are tasks, each task has one. *)
Lemma all_results n ts : omap result_of ts ≡ₚ replicate n (Ok tt) → n = length ts → Forall (λ t, result_of t = Some (Ok tt)) ts.
Proof.
  intros Hp ->. assert (Forall (λ r, r = Ok tt) (omap result_of ts)) as Hall by (rewrite Hp; by apply Forall_replicate).
  apply Permutation_length in Hp. rewrite length_replicate in Hp.
  assert (∀ l : list task, (length (omap result_of l) ≤ length l)%nat) as Hle.
  { induction l as [|t l IH]; cbn; [lia|]. destruct (result_of t); cbn; lia. }
  induction ts as [|t ts IH]; [done|]. cbn in Hp, Hall. destruct (result_of t) as [r|] eqn:Er.
  - cbn in Hp. apply Forall_cons_iff in Hall as [-> Hall]. constructor; [done|]. apply IH; [lia|done].
  - specialize (Hle ts). lia.
Qed.

Lemma join_ok total b b' : batch_ok b → bt_result b = None → batch_step total BJoin b = Some b' → batch_ok b'.
Proof.
  intros [H1 H2 H3 H4 H5 H6 H7] Hr H. unfold batch_step in H. rewrite Hr in H. specialize (H4 Hr). specialize (H5 Hr). specialize (H6 Hr).
  destruct (bt_queue b) as [|[[]|e] q] eqn:Hq.
  - case_match eqn:En; [|done]. apply Nat.eqb_eq in En. destruct (update _ _) as [r p]. injection H as <-.
    split; try done. cbn. intros _. rewrite app_nil_r in H4. by apply (all_results (bt_taken b)).
  - injection H as <-. split; try done; cbn; rewrite Hr; try done. intros _. change (results b ≡ₚ Ok tt :: replicate (bt_taken b) (Ok tt) ++ q).
    rewrite H4. symmetry. apply Permutation_middle.
  - injection H as <-. split; try done.
    + unfold running. cbn. rewrite aborted_idle, len_nil. pose proof (len_nonneg (filter is_running (bt_tasks b))) as Hn. unfold running in H2. lia.
    + cbn. apply Forall_map. eapply Forall_impl; [|exact H3]. intros t Ht. by apply abort_ok.
Qed.

Lemma batch_step_ok total ev b b' : batch_ok b → batch_step total ev b = Some b' → batch_ok b'.
Proof.
  intros Hb H. destruct (bt_result b) eqn:Hr; [unfold batch_step in H; by rewrite Hr in H|].
  destruct ev as [i|i|i m|]; [| | |by apply (join_ok total b)]; unfold batch_step in H; rewrite Hr in H; case_match eqn:Hi; try done;
    first [by eapply task_turn_ok|by eapply task_panic_ok].
Qed.

Lemma run_batch_ok total evs : ∀ b, batch_ok b → batch_ok (run_batch total evs b).
Proof.
  induction evs as [|ev evs IH]; intros b Hb; [done|]. cbn. apply IH. destruct (batch_step total ev b) eqn:E; cbn; [|done].
  by eapply batch_step_ok.
Qed.

(** ** The batch can always be brought to its end *)

(** How far a task is from its end. *)
Definition weight (t : task) : nat := match tk_phase t with Waiting => 2 | Running _ _ => 1 | _ => 0 end.
Definition remaining (b : Batch) : nat := sum_list_with weight (bt_tasks b).

Lemma weight_perm l k : l ≡ₚ k → sum_list_with weight l = sum_list_with weight k.
Proof. induction 1; cbn; lia. Qed.

Lemma remaining_change x i t l : l !! i = Some t →
  (sum_list_with weight (alter (set_phase x) i l) + weight t = sum_list_with weight l + weight (set_phase x t))%nat.
Proof.
  intros Hi. destruct (change_task x i t l Hi) as (rest & P1 & P2). rewrite (weight_perm _ _ P1), (weight_perm _ _ P2). cbn. lia.
Qed.

(** A running task left alone comes to its end. *)
Lemma finish_running total i p : ends p → ∀ b t w, batch_ok b → bt_result b = None → bt_tasks b !! i = Some t → tk_phase t = Running p w →
  ∃ evs, let b' := run_batch total evs b in batch_ok b' ∧ bt_result b' = None ∧ (remaining b' < remaining b)%nat.
Proof.
  induction 1 as [r|X e k Hk IH]; intros b t w Hb Hr Hi Hp.
  - exists [BTurn i]. unfold run_batch. cbn [fold_left]. assert (batch_step total (BTurn i) b = task_turn true i t b) as E.
    { unfold batch_step. by rewrite Hr, Hi. }
    unfold task_turn in E. rewrite Hp in E. rewrite E. cbn [default from_option id]. split_and!; [by eapply batch_step_ok|done|].
    pose proof (remaining_change (Joinable r w) i t _ Hi) as Hc.
    assert (weight t = 1%nat) by (unfold weight; by rewrite Hp). change (weight (set_phase (Joinable r w) t)) with 0%nat in Hc.
    unfold remaining. cbn [id bt_tasks bt_set_queue bt_set_task bt_set_permits]. lia.
  - assert (batch_step total (BTurn i) b = task_turn true i t b) as E by (unfold batch_step; by rewrite Hr, Hi).
    unfold task_turn in E. rewrite Hp in E. pose proof (interact_spec true e k w b) as H.
    destruct (batch_interact true e k w b) as [[p w'] b1] eqn:Ei. destruct H as [[S1 S2 S3 S4 S5] H].
    assert (∃ x, p = k x) as [x ->].
    { destruct H as [(x & -> & _)|[Hst _]]; [by exists x|]. clear -Ei. destruct e; cbn in Ei; unfold batch_read, batch_poll_read in Ei;
        repeat case_match; simplify_eq; eauto. }
    pose proof (batch_step_ok _ _ _ _ Hb E) as Hb1.
    destruct (IH x (bt_set_task i (Running (k x) w') b1) (set_phase (Running (k x) w') t) w') as (evs & K1 & K2 & K3); try done.
    + cbn. by rewrite S5.
    + cbn. rewrite S2. by rewrite list_lookup_alter_eq, Hi.
    + exists (BTurn i :: evs). unfold run_batch. cbn [fold_left]. rewrite E. cbn [default from_option id]. split_and!; try done.
      eapply Nat.lt_le_trans; [exact K3|]. unfold remaining. cbn [id bt_tasks bt_set_task]. rewrite S2.
      pose proof (remaining_change (Running (k x) w') i t _ Hi) as Hc.
      assert (weight t = 1%nat) by (unfold weight; by rewrite Hp). change (weight (set_phase (Running (k x) w') t)) with 1%nat in Hc. lia.
Qed.

Lemma run_batch_app total e1 e2 b : run_batch total (e1 ++ e2) b = run_batch total e2 (run_batch total e1 b).
Proof. apply fold_left_app. Qed.

(** All results are in: they are taken one after the other. *)
Lemma drain total q : ∀ b, bt_result b = None → bt_queue b = q → (bt_taken b + length q = length (bt_tasks b))%nat →
  ∃ evs, bt_result (run_batch total evs b) ≠ None.
Proof.
  induction q as [|[u|e] q IH]; intros b Hr Hq Hn.
  - exists [BJoin]. cbn in *. unfold batch_step. rewrite Hr, Hq. rewrite (proj2 (Nat.eqb_eq _ _)) by lia. by destruct (update _ _).
  - destruct (IH (bt_set_queue q (S (bt_taken b)) b)) as [evs H]; [done|done|cbn in *; lia|].
    exists (BJoin :: evs). cbn [run_batch fold_left]. unfold batch_step at 2. by rewrite Hr, Hq.
  - exists [BJoin]. cbn. unfold batch_step. by rewrite Hr, Hq.
Qed.

Lemma weightless l : sum_list_with weight l = 0%nat → Forall (λ t, tk_phase t ≠ Aborted) l → length (omap result_of l) = length l.
Proof.
  induction l as [|t l IH]; [done|]. intros Hw [Ht Hl]%Forall_cons_iff. cbn [sum_list_with] in Hw. cbn. unfold result_of, weight in *.
  destruct (tk_phase t); try done; try lia. cbn. rewrite IH; [done|lia|done].
Qed.

(** A task that is not at its end can go on: it runs, or there is a permit for it. *)
Lemma task_progress total b : batch_ok b → bt_result b = None → remaining b ≠ 0%nat →
  ∃ evs, let b' := run_batch total evs b in batch_ok b' ∧ bt_result b' = None ∧ (remaining b' < remaining b)%nat.
Proof.
  intros Hb Hr Hw. pose proof (bo_full _ Hb Hr) as Hfull. destruct (decide (running b = 0)) as [H0|H0].
  - assert (∃ i t, bt_tasks b !! i = Some t ∧ tk_phase t = Waiting) as (i & t & Hi & Hp). 
    { clear Hfull Hr Hb. unfold remaining, running in *. induction (bt_tasks b) as [|t l IH]; [done|]. rewrite running_cons, run1_phase in H0.
      cbn [sum_list_with] in Hw. pose proof (len_nonneg (filter is_running l)).
      destruct (tk_phase t) eqn:E; [exists 0%nat, t; done|lia| |]; (destruct IH as (i & t' & Hi & Hp); [|lia|exists (S i), t'; done]).
      all: unfold weight in Hw at 1; rewrite E in Hw; exact Hw. }
    exists [BTurn i]. unfold run_batch. cbn [fold_left]. assert (batch_step total (BTurn i) b = task_turn true i t b) as E.
    { unfold batch_step. by rewrite Hr, Hi. }
    unfold task_turn in E. rewrite Hp in E. rewrite (proj2 (Z.ltb_lt _ _)) in E by lia. cbn [andb] in E. rewrite E. cbn [default from_option id].
    split_and!; [by eapply batch_step_ok|done|]. pose proof (remaining_change (Running (tk_program t) (tk_world t)) i t _ Hi) as Hc.
    assert (weight t = 2%nat) by (unfold weight; by rewrite Hp).
    change (weight (set_phase (Running (tk_program t) (tk_world t)) t)) with 1%nat in Hc.
    unfold remaining. cbn [id bt_tasks bt_set_task bt_set_permits]. lia.
  - assert (∃ i t p w, bt_tasks b !! i = Some t ∧ tk_phase t = Running p w) as (i & t & p & w & Hi & Hp).
    { clear Hfull Hr Hb Hw. unfold running in *. induction (bt_tasks b) as [|t l IH]; [done|]. rewrite running_cons, run1_phase in H0.
      destruct (tk_phase t) as [|p w|r w|] eqn:E; [|exists 0%nat, t, p, w; done|..];
        (destruct IH as (i & t' & p' & w' & Hi & Hp); [lia|exists (S i), t', p', w'; done]). }
    pose proof (bo_tasks _ Hb) as Hok. rewrite Forall_lookup in Hok. specialize (Hok i t Hi). unfold task_ok in Hok. rewrite Hp in Hok.
    eapply finish_running; try done. apply Hok.
Qed.

Lemma can_finish total b : batch_ok b → ∃ evs, bt_result (run_batch total evs b) ≠ None.
Proof.
  intros Hb. destruct (bt_result b) eqn:Hr; [exists []; cbn; by rewrite Hr|]. remember (remaining b) as n eqn:Hn. revert b Hb Hr Hn.
  induction (lt_wf n) as [n _ IH]. intros b Hb Hr ->. destruct (decide (remaining b = 0%nat)) as [H0|H0].
  - apply (drain total (bt_queue b)); [done..|]. pose proof (bo_results _ Hb Hr) as Hp. apply Permutation_length in Hp.
    rewrite length_app, length_replicate in Hp. rewrite <- Hp. apply weightless; [done|by apply bo_alive].
  - destruct (task_progress total b Hb Hr H0) as (e1 & K1 & K2 & K3). destruct (IH _ K3 _ K1 K2 eq_refl) as [e2 H].
    exists (e1 ++ e2). by rewrite run_batch_app.
Qed.

(** ** The tasks of a batch *)
Create HintDb ends.
#[export] Hint Resolve ends_ret : ends.
Lemma ends_bind {A B} (m : prog A) (k : A → prog B) : ends m → (∀ a, ends (k a)) → ends (bind m k).
Proof. intros Hm Hk. induction Hm; cbn; [done|by constructor]. Qed.
Lemma ends_try {A B} (m : tprog A) (k : A → tprog B) : ends m → (∀ a, ends (k a)) → ends (try_bind m k).
Proof. intros Hm Hk. apply ends_bind; [done|]. intros [a|e]; [done|constructor]. Qed.
Lemma ends_perform {X} (e : effect X) : ends (perform e).
Proof. constructor. constructor. Qed.
Lemma ends_if {A} (b : bool) (p q : prog A) : ends p → ends q → ends (if b then p else q).
Proof. by destruct b. Qed.
#[export] Hint Resolve ends_perform ends_try ends_bind ends_if : ends.
#[export] Hint Extern 1 (ends (lift _)) => apply ends_ret : ends.

Section Batches.
Context `{C : Crypto}.
Context (runtime : result (list Z) unit) (dial : dialer).

Lemma ends_send_data id bs : ends (send_data id bs).
Proof. unfold send_data, abort_with. apply ends_bind; [auto with ends|]. intros [u|e]; auto with ends. Qed.
#[local] Hint Resolve ends_send_data : ends.

Lemma ends_upload_loop fuel : ∀ id size sent hashed, size < u64_max → 0 ≤ sent → (Z.to_nat (size - sent) + 1 < fuel)%nat →
  ends (upload_loop fuel id size sent hashed).
Proof.
  induction fuel as [|fuel IH]; intros id size sent hashed Hs H0 Hf; [lia|]. cbn [upload_loop]. apply ends_bind; [auto with ends|].
  intros [bs|e]; [|unfold abort_with; auto with ends]. destruct bs as [|x bs]; [constructor|]. cbn [is_empty].
  destruct (Z.ltb_spec size (saturating_add64 sent (len (x :: bs)))) as [|Hle]; [unfold abort_with; auto with ends|].
  apply ends_try; [auto with ends|intros _]. pose proof (len_nonneg bs). rewrite len_cons in *. unfold saturating_add64 in *.
  apply IH; [done|lia|lia].
Qed.

Lemma ends_upload c file_id size : 0 ≤ size < u64_max → ends (upload_media c file_id size).
Proof.
  intros Hs. unfold upload_media, media_ready, is_authenticated, auth_info, media_open, upload_finish, abort_with.
  apply ends_try; [auto 10 with ends|intros _]. apply ends_try; [auto 20 with ends|intros [id f]].
  apply ends_try; [apply ends_upload_loop; unfold upload_fuel; lia|intros [sent hashed]]. auto 10 with ends.
Qed.

Lemma ends_session d ticket file_id size : 0 ≤ size < u64_max → ends (media_session d ticket (λ c, upload_media c file_id size)).
Proof.
  intros Hs. unfold media_session, media_connected, connect_media, media_auth, ticket_auth, request_frame, set_principal, client_close.
  apply ends_try.
  - apply ends_try; [auto with ends|intros c]. apply ends_try; [|auto with ends]. apply ends_bind; [auto 20 with ends|].
    intros [u|e]; auto with ends.
  - intros c. apply ends_bind; [by apply ends_upload|]. auto with ends.
Qed.

Definition item_size (item : list Z * list Z * list Z * list Z * Z * FileHandle) : Z := item.1.2.
Definition sized (item : list Z * list Z * list Z * list Z * Z * FileHandle) : Prop := 0 ≤ item_size item < u64_max.

Lemma start_ok progress items : Forall sized items → batch_ok (batch_start dial progress items).
Proof.
  intros Hs. assert (∀ l, filter is_running (map (batch_task dial) l) = []) as Hidle.
  { induction l as [|[[[[[]]]]] l IH]; [done|]. cbn [map]. rewrite filter_cons_False; [done|by intros []]. }
  assert (∀ l, omap result_of (map (batch_task dial) l) = []) as Hres by (induction l as [|[[[[[]]]]] l IH]; done).
  split; try done; cbn.
  - unfold running. cbn. by rewrite Hidle, len_nil.
  - apply Forall_map. eapply Forall_impl; [|exact Hs]. intros [[[[[e k] t] id] size] f] Hi. unfold task_ok, batch_task. cbn [tk_phase tk_program tk_world].
    split; [by apply ends_session|]. apply strict_session. intros c. apply strict_upload.
  - intros _. unfold results. cbn. by rewrite Hres.
  - intros _. unfold running. cbn. by rewrite Hidle.
  - intros _. apply Forall_map, Forall_forall. by intros [[[[[]]]]] _.
Qed.

(** The upload of an item, by itself: connected, uploaded, and what was sent is what
    was declared. *)
Definition uploaded (item : list Z * list Z * list Z * list Z * Z * FileHandle) : Prop :=
  let '(endpoint, public_key, ticket, file_id, size, file) := item in
  ∃ c w w1 w2 l, dialled dial endpoint public_key = Ok (c, w) ∧
    exec (media_connected (Ok (c, w)) ticket) (tr_world (transfer_start (Ok (c, w)) file None [] None)) = Some (Ok c, w1) ∧
    exec (upload_media c file_id size) w1 = Some (Ok tt, w2) ∧
    w_log w2 = w_log w1 ++ l ∧ declares size (Ok tt) l.

Lemma same_programs total evs : ∀ b, map (λ t, (tk_program t, tk_world t)) (bt_tasks (run_batch total evs b)) = map (λ t, (tk_program t, tk_world t)) (bt_tasks b).
Proof.
  assert (∀ x i l, map (λ t, (tk_program t, tk_world t)) (alter (set_phase x) i l) = map (λ t, (tk_program t, tk_world t)) l) as Halter.
  { intros x i l. revert i. induction l as [|t l IH]; intros [|i]; cbn; [done..|]. by rewrite <- (IH i). }
  assert (∀ ready i t b b', task_turn ready i t b = Some b' → map (λ t, (tk_program t, tk_world t)) (bt_tasks b') = map (λ t, (tk_program t, tk_world t)) (bt_tasks b)) as Hturn.
  { intros ready i t b b'. unfold task_turn. destruct (tk_phase t) as [|[r|X e k|] w|r w|]; try done.
    - case_match; [|done]. intros. simplify_eq. apply Halter.
    - destruct ready; [|done]. intros. simplify_eq. apply Halter.
    - pose proof (interact_spec ready e k w b) as H. destruct (batch_interact ready e k w b) as [[p w'] b1]. intros. simplify_eq.
      cbn. rewrite Halter. by destruct H as [[_ -> _ _ _] _]. }
  induction evs as [|ev evs IH]; intros b; [done|]. cbn. change (fold_left _ evs ?x) with (run_batch total evs x). rewrite IH.
  destruct (batch_step total ev b) as [b'|] eqn:E; [|done]. cbn. unfold batch_step in E. destruct (bt_result b); [done|].
  destruct ev as [i|i|i m|]; [by case_match; [eapply Hturn|]..| |].
  { case_match; [|done]. unfold task_panic in E. case_match; try done. simplify_eq. apply Halter. }
  destruct (bt_queue b) as [|[u|e] q].
  - case_match; [|done]. destruct (update _ _). by simplify_eq.
  - by simplify_eq.
  - simplify_eq. cbn. rewrite map_map. apply map_ext. intros t. unfold abort. by destruct (tk_phase t).
Qed.

(** A batch that succeeded: each of its items was uploaded. *)
Lemma batch_success total evs progress items : Forall sized items →
  bt_result (run_batch total evs (batch_start dial progress items)) = Some (Ok tt) → Forall uploaded items.
Proof.
  intros Hs Hr. pose proof (run_batch_ok total evs _ (start_ok progress items Hs)) as [_ _ Ht _ _ _ Hd]. specialize (Hd Hr).
  pose proof (same_programs total evs (batch_start dial progress items)) as Hp. cbn [batch_start bt_tasks] in Hp.
  revert Ht Hd Hp. generalize (bt_tasks (run_batch total evs (batch_start dial progress items))). clear Hr.
  induction Hs as [|item items Hi Hs IH]; [constructor|]. intros [|t ts] Ht Hd Hp; [done|]. cbn [map] in Hp. injection Hp as Hp Hw Hps.
  apply Forall_cons_iff in Ht as [Ht Hts], Hd as [Hd Hds]. constructor; [|by apply (IH ts)].
  unfold result_of in Hd. unfold task_ok in Ht. destruct (tk_phase t) as [| |r w|]; try done. injection Hd as ->.
  destruct Ht as [|He]; [done|]. rewrite Hp, Hw in He. destruct item as [[[[[e k] tk] id] size] f]. cbn [batch_task tk_program tk_world] in He.
  apply session_exec in He as (c & w0 & w1 & w2 & Ed & E1 & E2 & _). pose proof E2 as E3. apply upload_media_declares in E3 as (l & El & Hl); [|done].
  exists c, w0, w1, w2, l. rewrite Ed in E1. by split_and!.
Qed.

(** A Java array of readable strings. *)
Definition java_array (l : list (list Z)) : list (result (list Z) JString) := map (λ x, Ok (Ok x)) l.

Lemma java_strings_done l s r s' : java_string_array (Ok (java_array l)) s = (Completed r, s') → r = l ∧ s' = s.
Proof.
  unfold java_string_array. intros (a & s1 & [[= <-] ->]%jlift_err_done & H)%jbind_done. revert r s' H.
  induction l as [|x l IH]; cbn [java_array map java_strings]; intros r s' H; [by apply jret_done in H|].
  apply jbind_done in H as (y & s2 & [[= <-] ->]%jlift_err_done & H). unfold java_string in H.
  apply jbind_done in H as (y & s3 & [[= <-] ->]%jlift_err_done & (ys & s4 & [-> ->]%IH & [-> ->]%jret_done)%jbind_done). done.
Qed.

Lemma duplicate_files_done l s r s' : duplicate_files (map Ok l) s = (Completed r, s') → r = l ∧ s' = s.
Proof.
  revert r s'. induction l as [|x l IH]; cbn [map duplicate_files]; intros r s' H; [by apply jret_done in H|]. unfold duplicate_file in H.
  apply jbind_done in H as (y & s2 & [[= <-] ->]%jlift_err_done & (ys & s3 & [-> ->]%IH & [-> ->]%jret_done)%jbind_done). done.
Qed.

Lemma zip_length es ks ts ids szs files : length ks = length es → length ts = length es → length ids = length es → length szs = length es →
  length files = length es → length (zip_items es ks ts ids szs files) = length es.
Proof.
  revert ks ts ids szs files. induction es as [|e es IH]; intros [|] [|] [|] [|] [|]; cbn; try done. intros. f_equal. apply IH; lia.
Qed.
Lemma zip_sized es ks ts ids szs files : Forall (λ z, 0 ≤ z < u64_max) szs → Forall sized (zip_items es ks ts ids szs files).
Proof.
  intros H. revert es ks ts ids files. induction H as [|z szs Hz Hs IH]; intros [|] [|] [|] [|] [|]; cbn; constructor; [done|apply IH].
Qed.

(** C18: a batch upload that reports success uploaded every item.  Whatever the observer
    answers and in whichever order the tasks, the pending reads, panics and the joins come:
    when [nativeUploadBatch] returns true there were 1 to 64 items, and for each of
    them the session with its media node, run by itself, connected, uploaded and sent
    exactly the declared number of bytes with their SHA-256. *)
Theorem batch_upload_sound es ks ts ids szs files fds observer schedule s b s' :
  Forall is_i64 szs → length szs = length es → length files = length es →
  nativeUploadBatch runtime dial (Ok (java_array es)) (Ok (java_array ks)) (Ok (java_array ts)) (Ok (java_array ids)) (Ok (len szs), Ok szs) fds
    (map Ok files) observer schedule s = (Some (JNI_TRUE, b), s') →
  1 ≤ len es ≤ 64 ∧ length (zip_items es ks ts ids szs files) = length es ∧ Forall uploaded (zip_items es ks ts ids szs files).
Proof.
  intros Hi Hl Hf H. unfold nativeUploadBatch in H.
  cbv zeta in H. match type of H with context [match ?m with (_, _) => _ end] => destruct m as [[[[[]|x] b1]|e|] s1] eqn:E end; [|done..].
  clear H. repeat match type of E with
  | jbind (java_string_array (Ok (java_array _))) _ _ = _ => apply jbind_done in E as (? & ? & [-> ->]%java_strings_done & E)
  | jbind (duplicate_files _) _ _ = _ => apply jbind_done in E as (? & ? & [-> ->]%duplicate_files_done & E)
  | _ => progress unjava E
  end.
  apply jlift_err_done in E2 as [[= <-] ->]. destruct (update 0 a5) as [r p]. unjava E.
  match goal with H : duplicate_files _ _ = _ |- _ => apply duplicate_files_done in H as [-> ->] end. unjava E.
  destruct (bt_result _) as [r'|] eqn:Er; [|done]. apply jret_done in E as [[= <- ->] ->]. apply orb_false_elim in Heqb3 as [Hneg _].
  repeat match goal with H : _ || _ = false |- _ => apply orb_false_elim in H as [? ?] end.
  repeat match goal with H : negb (_ =? _) = false |- _ => apply negb_false_iff, Z.eqb_eq in H end. unfold len in *.
  split; [|split; [apply zip_length; lia|]].
  - pose proof (Nat2Z.is_nonneg (length es)). lia.
  - eapply batch_success; [|exact Er]. apply zip_sized, Forall_forall. intros z Hz. rewrite Forall_forall in Hi. specialize (Hi z Hz).
    destruct (Z.ltb_spec z 0) as [Hlt|]; [|widths; lia]. apply not_true_iff_false in Hneg.
    destruct Hneg. apply existsb_exists. exists z. split; [done|by apply Z.ltb_lt].
Qed.

(** C19: the uploads of a batch share three permits.  After any sequence of events, of
    tasks in any order, at most three of them run, no more than the permits that are
    taken; and from there the batch can be brought to its result: no order of
    events leads into a deadlock. *)
Theorem batch_three_at_a_time total progress items schedule : Forall sized items →
  let b := run_batch total schedule (batch_start dial progress items) in
  0 ≤ bt_permits b ∧ running b ≤ 3 - bt_permits b ∧ ∃ more, bt_result (run_batch total (schedule ++ more) (batch_start dial progress items)) ≠ None.
Proof.
  intros Hs b. pose proof (run_batch_ok total schedule _ (start_ok progress items Hs)) as Hb. split; [apply Hb|].
  split; [pose proof (bo_running _ Hb); unfold b; lia|]. destruct (can_finish total _ Hb) as [more H]. exists more. by rewrite run_batch_app.
Qed.
End Batches.
