(* ===== verification/JniIdentity.v ===== *)
(** * The Android interface: identities

    An identity that is backed up on one phone and restored on another is the same
    identity, also after a restart. *)
From S2P Require Import Ffi Prelude RustStr Cbor Crypto Frame Types Fs E2E Media Json Account Messenger Program Client Api Transfer Image Jni JniApi JniTransfer JniMedia JniProofs JniCalls.

(** The encoding of a backup between the phones. *)
Definition backup_bytes (b : Backup) : list Z := [bk_version b] ++ bk_salt b ++ bk_nonce b ++ bk_ciphertext b.

Lemma backup_fields v salt nonce c : length salt = 16%nat → length nonce = 24%nat →
  let l := backup_bytes (mkBackup v salt nonce c) in
  nth 0 l 0 = v ∧ slice 1 17 l = salt ∧ slice 17 41 l = nonce ∧ drop 41 l = c ∧ len l = 41 + len c.
Proof.
  intros Hs Hn l. unfold l, backup_bytes. cbn [bk_version bk_salt bk_nonce bk_ciphertext]. split; [done|].
  split; [rewrite slice_app_skip by (cbn; lia); apply slice_app_exact; cbn; lia|].
  split; [rewrite slice_app_skip by (cbn; lia); rewrite slice_app_skip by (cbn; lia); rewrite Hs; apply slice_app_exact; cbn; lia|]. split.
  - rewrite !app_assoc. apply drop_app_length'. rewrite !length_app. cbn. lia.
  - unfold len. rewrite !length_app. cbn. lia.
Qed.

Section Identities.
Context `{L : CryptoLaws}.

Lemma native_backup_spec h i password salt nonce s : wf_identity i → jn_identities s !! h = Some i → 3 ≤ len password →
  is_Some (argon2id password salt) → length salt = 16%nat → length nonce = 24%nat →
  ∃ c, len c = 48 ∧ restore (mkBackup BACKUP_VERSION salt nonce c) password = Ok i ∧
    nativeE2EBackup h (Ok password) (Ok salt) (Ok nonce) (Ok tt) s = (Some (Some (backup_bytes (mkBackup BACKUP_VERSION salt nonce c))), s).
Proof.
  intros Hi Hh Hp Hk Hs Hn. destruct (backup_restore_core i password salt nonce Hi Hp Hk Hn) as (c & Hc & _ & Hb & Hr).
  exists c. split; [done|]. split; [done|]. unfold nativeE2EBackup, to_java, java_string, jbind, jlift, Jni.identity. cbn [map_err jret].
  unfold jret. rewrite Hh. cbn. unfold jio. rewrite Hb. done.
Qed.

Lemma native_restore_spec path password salt nonce c i s : len c = 48 → length salt = 16%nat → length nonce = 24%nat →
  restore (mkBackup BACKUP_VERSION salt nonce c) password = Ok i →
  nativeE2ERestore (Ok path) (Ok password) (Ok (backup_bytes (mkBackup BACKUP_VERSION salt nonce c))) s =
  let '(r, f) := save (std_path path) i (jn_fs s) in
  match r with
  | Ok _ => let h := jn_next_identity s in (Some h, jn_set_identities (as_i32 (h + 1)) (<[h := i]> (jn_identities s)) (jn_set_fs f s))
  | Err e => (Some 0, throw_io (emsg e) (jn_set_fs f s))
  end.
Proof.
  intros Hc Hs Hn Hr. destruct (backup_fields BACKUP_VERSION salt nonce c Hs Hn) as (E0 & E1 & E2 & E3 & El).
  unfold nativeE2ERestore, or_throw, java_string, java_bytes, jbind, jlift. cbn [map_err]. unfold jret. rewrite E0, E1, E2, E3, El, Hc.
  cbn [Z.add Pos.add Z.eqb Pos.eqb negb orb BACKUP_VERSION]. unfold jio. rewrite Hr. cbn [map_err jlift jret]. unfold with_files, jret, jio.
  change (negb (41 + 48 =? 89) || false) with false. cbv beta iota.
  destruct (save (std_path path) i (jn_fs s)) as [[u|e] f]; done.
Qed.

(** C31: an identity moves to another phone.  A backup made by [nativeE2EBackup] is
    89 bytes; [nativeE2ERestore] with the same password on any other phone either
    gives a handle to the same identity, which is then also in the file, so that a later
    process opens it from there, or it fails exactly because the file cannot be
    written, and then raises that error. *)
Theorem identity_moves h i password salt nonce path random s t v t' :
  wf_identity i → jn_identities s !! h = Some i → 3 ≤ len password → is_Some (argon2id password salt) →
  length salt = 16%nat → length nonce = 24%nat → distinct_temporary (std_path path) →
  ∃ encoded, nativeE2EBackup h (Ok password) (Ok salt) (Ok nonce) (Ok tt) s = (Some (Some encoded), s) ∧ len encoded = 89 ∧
    (nativeE2ERestore (Ok path) (Ok password) (Ok encoded) t = (Some v, t') →
     (v = jn_next_identity t ∧ jn_identities t' !! v = Some i ∧
      ∃ u, nativeE2EOpen (Ok path) JNI_FALSE random (restarted t') = (Some 1, u) ∧ jn_identities u !! 1 = Some i) ∨
     (v = 0 ∧ jn_identities t' = jn_identities t ∧
      ∃ e, (save (std_path path) i (jn_fs t)).1 = Err e ∧ jn_exception t' = Some (emsg e))).
Proof.
  intros Hi Hh Hp Hk Hs Hn Hd. destruct (native_backup_spec h i password salt nonce s Hi Hh Hp Hk Hs Hn) as (c & Hc & Hr & Hb).
  exists (backup_bytes (mkBackup BACKUP_VERSION salt nonce c)). split; [done|].
  split; [destruct (backup_fields BACKUP_VERSION salt nonce c Hs Hn) as (_ & _ & _ & _ & ->); lia|].
  rewrite (native_restore_spec path password salt nonce c i t) by done. destruct (save (std_path path) i (jn_fs t)) as [[[]|e] f] eqn:Es.
  - cbv zeta. intros [= <- <-]. left. split; [done|]. split; [cbn; apply lookup_insert_eq|].
    apply save_atomic_core in Es as [_ Es]; [|done]. specialize (Es eq_refl).
    unfold nativeE2EOpen, or_throw, java_string, jbind, jlift. cbn [map_err]. unfold jret, with_files. cbn [negb Z.eqb JNI_FALSE restarted initial_jni jn_fs jn_set_fs jn_set_identities].
    rewrite (load_stored (std_path path) i (fs_files f) Hi Es). eexists. split; [reflexivity|]. cbn. apply lookup_insert_eq.
  - intros [= <- <-]. right. split; [done|]. split; [done|]. eauto.
Qed.
End Identities.
