(* ===== verification/JniFixture.v ===== *)
(** * The Android interface: concrete calls

    The theorems on the Android interface applied to concrete calls: a media node that
    takes or serves one file, an observer with a clock, an account that answers, a
    picture, a session store. *)
From S2P Require Import Ffi Prelude RustStr Cbor Crypto Frame Types Fs E2E Media Json Account AccountProofs Messenger MessengerProofs Program Client Api Transfer TransferProofs Image ImageScale ImageProofs Jni JniApi JniTransfer JniMedia JniBatch JniProofs JniWatch JniCalls JniBatchProofs JniIdentity.

Module JniFixture.
#[local] Existing Instance Toy.toy_crypto.

Definition key64 : list Z := lit "AAAAAAAAAAAAAAAAAAAAAAAAAAAAAAAAAAAAAAAAAAA=".
Definition admitted : io Frame := Ok (TransferProofs.Fixture.frame kind.RESULT 200 (encode_cbor (VMap []))).

(** A node that admits the ticket and then serves, or takes, one file. *)
Definition serving (w : World) : World := set_frames (admitted :: w_frames w) w.
Definition node (w : World) : dialer := λ _ _ _, Ok (TransferProofs.Fixture.client, serving w).
Definition idle : Jni := initial_jni (mkFs ∅ []).
(** An observer whose clock advances by 100 ms per visit. *)
Definition watching : Observer := Some (Ok tt, Ok tt, map (λ n, content (100 * Z.of_nat n)) (seq 1 40)).

Abbreviation sample_download := (nativeDownload (Ok tt) (node TransferProofs.Fixture.download_world) (Ok (lit "node:1")) (Ok key64)
  (Ok (lit "ticket")) (Ok (lit "f")) 5 3 (Ok (mkFile [] [])) watching [1%nat; 2%nat] (mkTicking 1 [1%nat] [2%nat; 1%nat]) idle).

Definition ended {A B} (r : option (A * option B) * Jni) : option B := match r.1 with Some (_, t) => t | None => None end.

Lemma sample_download_ends :
  ∃ t s', sample_download = (Some (5, Some t), s') ∧ w_target (tr_world t) = lit "hello".
Proof. eexists _, _; split; vm_compute; reflexivity. Qed.
Lemma dial_node w : dialled (node w) (lit "node:1") key64 = Ok (TransferProofs.Fixture.client, serving w).
Proof. vm_compute. reflexivity. Qed.

Lemma native_download_verified_witness :
  ∃ t, ended sample_download = Some t ∧ len (w_target (tr_world t)) = 5 ∧ w_target (tr_world t) = lit "hello" ∧
    ∃ f, In (Ok f) (w_frames (serving TransferProofs.Fixture.download_world)) ∧ confirms f (w_target (tr_world t)).
Proof.
  destruct sample_download_ends as (t & s' & E & Et).
  rewrite E. exists t. split; [reflexivity|].
  apply native_download_verified in E as (_ & t' & c & w & f & e' & k' & Eq & Ed & Ee & Ek & Hl & Hin & Hc); [|by_vm|lia].
  injection Eq as <-. split; [exact Hl|]. split; [exact Et|].
  injection Ek as <-. injection Ee as <-. rewrite dial_node in Ed. injection Ed as _ <-. exists f. exact (conj Hin Hc).
Defined.

(** ** Observers *)
Abbreviation plain_download := (download_media TransferProofs.Fixture.client (lit "f") 5).
Definition observed_transfer (answers : list java_answer) : Transfer :=
  mkTransfer TransferProofs.Fixture.download_world (Some (mkProgress 5 0 answers [])) 0 [1%nat; 2%nat] None.
Definition after_download : World := TransferProofs.Fixture.after plain_download TransferProofs.Fixture.download_world.
Lemma plain_download_ends : exec plain_download TransferProofs.Fixture.download_world = Some (Ok 5, after_download).
Proof. vm_compute. reflexivity. Qed.

Lemma agreeable_observer_invisible_witness :
  ∃ t, cancellable_download [2%nat; 1%nat] plain_download (observed_transfer [content 100; content 300]) = Some (Ok 5, t) ∧
    tr_world t = after_download.
Proof.
  pose proof (agreeable_observer_invisible plain_download [2%nat; 1%nat] (observed_transfer [content 100; content 300])) as H.
  cbn [tr_world observed_transfer] in H. rewrite plain_download_ends in H. apply H; [|reflexivity].
  intros p [= <-]. repeat constructor.
Defined.

(** The observer lets one check pass and cancels at the second. *)
Definition cancelling : list java_answer := [content 100; mkAnswer (Ok tt) (Ok true) 200 (Ok tt)].
Lemma cancellation_honoured_witness :
  ∃ t, select_loop [2%nat] (Vis (ERecv 7 0) (λ _, plain_download)) (observed_transfer cancelling) = Some (Err transfer_cancelled, t) ∧
    tr_world t = TransferProofs.Fixture.download_world.
Proof.
  apply (proj2 cancellation_honoured Z _ (ERecv 7 0) (λ _, plain_download) 2%nat [] (observed_transfer cancelling)
           (mkProgress 5 0 cancelling []) [content 100] (mkAnswer (Ok tt) (Ok true) 200 (Ok tt)) []);
    [reflexivity|reflexivity|repeat constructor|split; reflexivity|cbn; lia].
Defined.

Lemma sample_download_reports :
  ∃ t p s', sample_download = (Some (5, Some t), s') ∧ tr_progress t = Some p ∧ pg_total p = 5 ∧ map snd (pg_reports p) = [0; 0; 3; 3; 5].
Proof. eexists _, _, _; split_and!; vm_compute; reflexivity. Qed.

Lemma progress_rate_limited_witness :
  ∃ t p s', sample_download = (Some (5, Some t), s') ∧ tr_progress t = Some p ∧ map snd (pg_reports p) = [0; 0; 3; 3; 5] ∧ spaced 5 (pg_reports p).
Proof.
  destruct sample_download_reports as (t & p & s' & E & Ep & Et & Er). exists t, p, s'. split; [exact E|]. split; [exact Ep|]. split; [exact Er|].
  rewrite <- Et. exact (progress_rate_limited _ _ _ _ _ _ _ _ _ _ _ _ _ _ _ _ _ E Ep).
Defined.

(** ** Calls *)
Definition account : Account := mkAccount sample_config (lit "token", lit "OVE.rs Android", []) None None 0 false [] [] [] ∅.
Definition messenger : MessengerCore := mkMessengerCore account (lit "host:1") TMst5.
Definition connected_jni : Jni := jn_set_clients 2 {[ 1 := mkNativeClient messenger ]} idle.
Definition answer : Response := mkResponse kind.RESULT 0 200 1 (replicate 16 0) 0 (lit "pong").
(** The credentials are as they were; the request connects, authenticates and is
    answered. *)
Definition call_schedule : list event :=
  [EvStep 1; EvStep 1; EvStep 1; EvStep 1; EvConnect 1 (Ok tt); EvStep 1; EvAuth 1 (Ok tt); EvStep 1; EvResponse 1 (Ok answer)].
Definition buffer (bytes : list Z) : JByteBuffer := mkByteBuffer (Ok (len bytes)) (Ok tt) bytes.
Abbreviation sample_call := (nativeCall (Ok tt) 1 (Ok (lit "token")) kind.COMMAND 40 1000 (buffer (lit "ping!")) 4 (buffer (replicate 6 0)) 5000
  (Ok sample_nonce) call_schedule connected_jni).
Lemma sample_call_ends : ∃ v s', sample_call = (Some (v, lit "pong" ++ [0; 0]), s') ∧ 0 ≤ v ∧ unpacked v = (kind.RESULT, 200, 4).
Proof. eexists _, _; split_and!; [vm_compute; reflexivity|by vm_compute|vm_compute; reflexivity]. Qed.

Lemma native_call_intact_witness :
  ∃ v s' r, sample_call = (Some (v, lit "pong" ++ [0; 0]), s') ∧ unpacked v = (kind.RESULT, 200, 4) ∧
    take (length (rs_payload r)) (lit "pong" ++ [0; 0]) = rs_payload r.
Proof.
  destruct sample_call_ends as (v & s' & E & Hv & Hu). exists v, s'.
  pose proof E as E'. apply native_call_intact in E' as [[-> _]|(tok & m & r & m' & _ & _ & _ & Ht & _)]; [lia| |].
  - exists r. exact (conj E (conj Hu Ht)).
  - intros c [= <-]. by_vm.
Defined.

(** ** Pictures *)
#[local] Existing Instance ImageFixture.plain.
#[local] Existing Instance ImageFixture.plain_laws.
Abbreviation sample_picture := (nativeDecodeImage (buffer [1; 8; 4]) 3 4 16 (buffer (replicate 32 0)) idle).
Lemma sample_picture_ends : sample_picture = (Some (Z.shiftl 4 32 + 2, concat (replicate 8 [18; 52; 86; 120])), idle).
Proof. vm_compute. reflexivity. Qed.

Lemma native_image_delivered_witness :
  ∃ image, load_supported_image [1; 8; 4] = Ok image ∧
    take (length (rgba_raw (to_rgba8 (resize_exact 4 2 image)))) (concat (replicate 8 [18; 52; 86; 120])) = rgba_raw (to_rgba8 (resize_exact 4 2 image)).
Proof.
  pose proof sample_picture_ends as E. apply native_image_delivered in E as (image & El & Hd); [|lia|discriminate].
  change (take (Z.to_nat 3) (bb_memory (buffer [1; 8; 4]))) with [1; 8; 4] in El.
  exists image. split; [exact El|]. vm_compute in El. injection El as <-. exact (proj2 (proj2 Hd)).
Defined.

(** ** Memory *)
#[local] Existing Instance Plain.plain_number.
#[local] Existing Instance MessengerProofs.Fixture.fixture.
#[local] Existing Instance no_decompressors.
Abbreviation sample_bytes := (nativeDownloadBytes (Ok tt) (node TransferProofs.Fixture.download_world) (Ok (lit "node:1")) (Ok key64)
  (Ok (lit "ticket")) (Ok (lit "f")) 5 100 (Ok tt) idle).
Lemma sample_bytes_end : sample_bytes = (Some (Some (lit "hello")), idle).
Proof. vm_compute. reflexivity. Qed.

Lemma memory_downloads_bounded_witness :
  len (lit "hello") = 5 ∧ ∃ f, In (Ok f) (w_frames (serving TransferProofs.Fixture.download_world)) ∧ confirms f (lit "hello").
Proof.
  destruct (memory_downloads_bounded (Ok tt) 64 (node TransferProofs.Fixture.download_world) (Ok (lit "node:1")) (Ok key64) (Ok (lit "ticket"))
    (Ok (lit "f")) 5 100 1 (Ok []) (Ok []) (Ok []) (Ok []) (Ok []) (Ok tt) idle (lit "hello") idle ltac:(by_vm) ltac:(lia)) as (_ & _ & H).
  destruct (H sample_bytes_end) as (Hl & _ & e & k & c & w & f & Ee & Ek & Ed & Hin & Hc). split; [exact Hl|].
  injection Ek as <-. injection Ee as <-. rewrite dial_node in Ed. injection Ed as _ <-. exists f. exact (conj Hin Hc).
Defined.

(** ** Sessions *)
Definition fresh_store : SessionStorage := mkSession (session_path (lit "/data")) [] false.
Definition stored : Jni := jn_set_session (Some fresh_store) idle.
Lemma sample_replace_ends : ∃ s', nativeReplaceSession (Ok (lit "saved")) stored = (Some JNI_TRUE, s').
Proof. eexists. vm_compute. reflexivity. Qed.

Lemma session_survives_restart_witness :
  ∃ s' s2, nativeReplaceSession (Ok (lit "saved")) stored = (Some JNI_TRUE, s') ∧
    nativeOpenSessionStore (Ok (lit "/data")) (restarted s') = (Some JNI_TRUE, s2) ∧ jn_session s2 = jn_session s'.
Proof.
  destruct sample_replace_ends as [s' E].
  destruct (@session_survives_restart _ _ MessengerProofs.Fixture.fixture_laws (lit "/data") (lit "saved") fresh_store stored _ s'
    ltac:(discriminate) eq_refl eq_refl E) as [(_ & s2 & H1 & H2 & _)|[H _]]; [|discriminate H].
  exists s', s2. exact (conj E (conj H1 H2)).
Defined.

(** ** Identities *)
Definition old_phone : Jni := jn_set_identities 2 {[ 1 := alice ]} idle.
Definition home : list Z := lit "/data/identity".
Lemma alice_wf : wf_identity alice.
Proof. split; [by_vm|reflexivity]. Qed.
Lemma home_distinct : distinct_temporary (std_path home).
Proof.
  assert (std_path home = sample_path) as -> by (vm_compute; reflexivity). exact sample_path_distinct.
Qed.
Lemma home_saved : ∃ f, save (std_path home) alice (jn_fs idle) = (Ok tt, f).
Proof.
  assert ((save (std_path home) alice (jn_fs idle)).1 = Ok tt) as E by (vm_compute; reflexivity).
  destruct (save _ _ _) as [r f]. cbn in E. subst r. eauto.
Qed.

Lemma identity_moves_witness :
  ∃ encoded t u, nativeE2ERestore (Ok home) (Ok (lit "secret")) (Ok encoded) idle = (Some 1, t) ∧ len encoded = 89 ∧
    nativeE2EOpen (Ok home) JNI_FALSE (Ok []) (restarted t) = (Some 1, u) ∧ jn_identities u !! 1 = Some alice.
Proof.
  destruct (@native_backup_spec Toy.toy_crypto Toy.toy_laws 1 alice (lit "secret") (replicate 16 4) (replicate 24 5) old_phone alice_wf eq_refl ltac:(vm_compute; congruence)
    ltac:(by eexists) eq_refl eq_refl) as (c & Hc & Hr & Hb).
  pose proof (@native_restore_spec Toy.toy_crypto home (lit "secret") (replicate 16 4) (replicate 24 5) c alice idle Hc eq_refl eq_refl Hr) as Et.
  destruct home_saved as [f Ef]. rewrite Ef in Et. eexists _, _.
  destruct (@identity_moves Toy.toy_crypto Toy.toy_laws 1 alice (lit "secret") (replicate 16 4) (replicate 24 5) home (Ok []) old_phone idle 1
    (jn_set_identities (as_i32 (jn_next_identity idle + 1)) (<[jn_next_identity idle := alice]> (jn_identities idle)) (jn_set_fs f idle)) alice_wf)
    as (encoded' & E' & Hl & H); [reflexivity|vm_compute; congruence|by eexists|reflexivity|reflexivity|exact home_distinct|].
  rewrite Hb in E'. apply (f_equal fst) in E'. cbn [fst] in E'. injection E' as <-. destruct (H Et) as [(_ & _ & u & H1 & H2)|(H1 & _)]; [|discriminate H1].
  exists u. exact (conj Et (conj Hl (conj H1 H2))).
Defined.

(** ** Batches *)

(** Two files, two nodes; the second task is polled in vain, and the first is joined
    last. *)
Definition two (n : nat) (i : nat) : list batch_event := replicate n (BTurn i).
Definition batch_schedule : list batch_event :=
  [BTurn 0; BTurn 1; BPoll 1] ++ two 9 0 ++ two 30 1 ++ [BJoin] ++ two 30 0 ++ [BJoin; BJoin].
Definition source : FileHandle := mkFile [Ok (lit "he"); Ok (lit "llo")] [].
Abbreviation sample_batch := (nativeUploadBatch (Ok tt) (node TransferProofs.Fixture.upload_world) (Ok (java_array [lit "node:1"; lit "node:1"]))
  (Ok (java_array [key64; key64])) (Ok (java_array [lit "t1"; lit "t2"])) (Ok (java_array [lit "f"; lit "g"]))
  (Ok (len [5; 5]), Ok [5; 5]) (Ok 2, Ok [3; 4]) (map Ok [source; source]) watching batch_schedule idle).
Abbreviation sample_items := (zip_items [lit "node:1"; lit "node:1"] [key64; key64] [lit "t1"; lit "t2"] [lit "f"; lit "g"] [5; 5] [source; source]).
Lemma sample_batch_ends : ∃ b s', sample_batch = (Some (JNI_TRUE, b), s').
Proof.
  assert (match sample_batch with (Some (v, _), _) => v | _ => -1 end = JNI_TRUE) as H by (vm_compute; reflexivity).
  destruct sample_batch as [[[v b]|] s']; [|done]. subst v. eauto.
Qed.

Lemma batch_upload_sound_witness :
  length sample_items = 2%nat ∧ Forall (uploaded (node TransferProofs.Fixture.upload_world)) sample_items.
Proof.
  destruct sample_batch_ends as (b & s' & E). apply batch_upload_sound in E as (_ & Hl & H); [exact (conj Hl H)| |reflexivity|reflexivity].
  repeat constructor; by_vm.
Defined.

Lemma batch_three_at_a_time_witness :
  let b := run_batch 10 [BTurn 0; BTurn 1] (batch_start (node TransferProofs.Fixture.upload_world) (mkProgress 10 0 [] []) sample_items) in
  running b = 2 ∧ bt_permits b = 1 ∧ running b ≤ 3 - bt_permits b.
Proof.
  intros b. split; [vm_compute; reflexivity|]. split; [vm_compute; reflexivity|].
  apply (batch_three_at_a_time (node TransferProofs.Fixture.upload_world) 10 (mkProgress 10 0 [] []) sample_items [BTurn 0; BTurn 1]).
  repeat constructor; by_vm.
Defined.
End JniFixture.
